(* ===== verification/_CoqProject ===== *)
-Q . S2P
Prelude.v
Errors.v
Wire.v
NetAddr.v
NetText.v
NetTextSpec.v
Bytespool.v
IO.v
Buffer.v
BufferSpec.v
MultiBuffer.v
MultiBufferSpec.v
BufIO.v
ReadV.v
BufIOSpec.v
BufferedSpec.v
ReadVSpec.v
ReadVPlatforms.v
Pipe.v
PipeSpec.v
Serializer.v
Http2Frames.v
Http2Spec.v
Protobuf.v
TcpClient.v
TcpClientSpec.v
Http2Client.v
Http2ClientSpec.v
GrpcDial.v
Uuid.v
Tasks.v
TasksSpec.v
PubSub.v
PubSubSpec.v
HttpText.v
HttpConn.v
HttpSys.v
HttpSysSpec.v
HttpConnSpec.v
Http1.v
Http1Spec.v
HttpFetch.v
HttpFetchSpec.v
Config.v
Internet.v
Sockets.v
ConfigSpec.v
SocketsSpec.v
Etcd.v
EtcdSpec.v
EtcdWatch.v
Cli.v
CliSpec.v
Flags.v
Keys.v
KeysSpec.v
Heartbeat.v
HeartbeatSpec.v
WebSocket.v
WebSocketSpec.v
WsBeat.v
Units.v
ProtoDump.v
Proxy.v
FetchCmd.v
FetchSpec.v
Descriptor.v
Agent.v
AgentSpec.v
Handlers.v
HandlersSpec.v
GrpcMux.v
Apps.v
TcpServer.v
Servers.v
PipeRefines.v
Commands.v
