(* ===== verification/Prelude.v ===== *)
(** * netool: a verified model of its networking core

    netool is a Go toolkit for network programs.  Its core is a stack of
    packages: error values and closing; pooled byte buffers and streams of them;
    readers, writers and a copy loop over such streams; an in-memory pipe
    between goroutines; a serializer of callbacks; periodic tasks, timers and
    publishing; wire formats (HTTP/2 frames, gRPC messages, protobuf fields);
    gRPC clients and an HTTP client with its connections and fallbacks on top;
    and around them configuration, sockets, service discovery, the commands, and
    the servers and clients of the examples.  This library models these parts from
    the Go sources and proves what makes them correct.

    ** How Go is modelled

    - A computation is a value of [go A] (this file): it returns, panics, or has
      used up the fuel of a loop whose exit depends on a value the caller
      supplies.  Errors are ordinary results, [option error] (file [Errors]).
    - Computations that use the byte pools are state-passing, [M A] (file
      [Bytespool]); the [World] holds what the [sync.Pool]s contain.
    - Integers are [Z]; conversions to [int32], [uint32], ... are written out
      ([i32], [u32], ...) where the code converts or can overflow.  A slice is
      its part of the array up to the capacity and a length, so that
      re-slicing, indexing and out-of-range panics are those of the language.
    - Interfaces are type classes: the operation, and a second class with the
      documented contract that clients' theorems use ([IOReader]/[StreamReader],
      [MBReader]/[MBStreamReader], [Framer]/[FrameStream], ...).
    - Goroutines are step functions between lock and channel operations, and
      theorems quantify over all reachable states.
    - Code of other modules (HPACK, protobuf's Marshal and Unmarshal, gzip, the
      x/net framer, dialling) is a parameter of the definitions that use it.
      Logging is left out.

    ** Files

    - [Prelude]: outcomes, machine integers, slices, generic lemmas and tactics.
    - [Errors]: errors/*.go, lang/interface.go (module [Lang]), retry/retry.go
      (module [Retry]).
    - [Wire]: byte order and bit operations of the wire formats.
    - [NetAddr], [NetText], [NetTextSpec]: net/address.go, port.go, network.go,
      destination.go; the text forms with [net.ParseIP], [net.IP.String] and
      [net.SplitHostPort]; round trips of every representation.
    - [Bytespool]: bytespool/pool.go and the monad [M].
    - [IO]: [io.Reader], [io.Writer], [io.ReadFull]; concrete instances.
    - [Buffer], [BufferSpec]: buf/buffer.go; refinement of a bounded byte queue.
    - [MultiBuffer], [MultiBufferSpec]: buf/multi_buffer.go; its functions as
      operations on a byte stream.
    - [BufIO], [BufIOSpec], [BufferedSpec]: buf/io.go, copy.go, reader.go,
      writer.go, override.go; [Copy] delivers, buffering keeps the order.
    - [ReadV], [ReadVSpec], [ReadVPlatforms]: buf/readv_reader.go, readv_posix.go,
      readv_unix.go and readv_windows.go, transport/internet/stat/connection.go;
      scattered reads keep the stream, and the platforms agree.
    - [Pipe], [PipeSpec]: signal/*.go and transport/pipe/*.go; [thread_step] is
      one atomic step of a call, [reachable] the states of any number of
      goroutines: order, no lost wake-ups, bounds, no panics, draining.
    - [PipeRefines]: the pipe, with or without a limit, refines the abstract queue
      that its clients (such as [TcpServer]) are proved against.
    - [Serializer]: buffer/unbounded.go and both callback serializers; order,
      shutdown, no panics with one reader.
    - [Http2Frames], [Http2Spec]: binproto/http2/*.go, grpc/tcpclient/writer.go,
      http/client/codec.go; frame and message round trips, behaviour on bad
      input.
    - [Protobuf]: binproto/protobuf/codec.go; varints and messages round trip.
    - [TcpClient], [TcpClientSpec]: grpc/tcpclient; the stream registry
      invariant, a whole call against any interleaving with other streams, and
      what a misbehaving peer can cause.
    - [Http2Client], [Http2ClientSpec]: grpc/http2client; its read loop agrees
      with the handlers of grpc/tcpclient.
    - [GrpcDial]: how both gRPC clients dial and set up a connection; they send the
      same and fail alike.
    - [Uuid]: uuid/uuid.go and bitmask/byte.go.
    - [Tasks], [TasksSpec]: task/periodic.go (module [Periodic]), task/task.go
      ([RunTasks]) and timer/timer.go ([Activity]); a choice names the goroutine
      or timer that moves.  A closed task comes to rest, a running one is never
      stalled; Run returns what its tasks did and cannot deadlock; the activity
      timer fires in the first idle interval, and at most once.
    - [PubSub], [PubSubSpec]: signal/pubsub/pubsub.go, with a heap of
      subscribers and the cleaning task of [Tasks]; who gets a message, that
      cleaning cannot be noticed, no panics.
    - [HttpText]: the texts of http/client and the functions of net/http and
      strings they use, its context values and dial options.
    - [HttpConn], [HttpSys], [HttpSysSpec], [HttpConnSpec]:
      http/client/client_conn.go.  [HttpConn] has the data of a connection and
      the processing of frames; [HttpSys] its goroutines (requests, validity
      checks, serializer, read loop, dialling) as one step function.  What is
      written is well-ordered HTTP/2, responses are those of their stream, the
      semaphore bounds the requests, ping acknowledgements reach their waiters;
      and the runs in which a connection is wedged or crashes.
    - [Http1], [Http1Spec]: http/client/http1.go and the upgrade of http2.go;
      responses and chunked bodies are read back.
    - [HttpFetch], [HttpFetchSpec]: fetcher.go, http2.go, http1.go and
      conn_pool.go over the interface [Transport]; fallbacks, the pool, gRPC
      calls.
    - [Config], [ConfigSpec]: platform/platform.go, features/policy/policy.go,
      features/stats/stats.go and serial/*.go; the limit that the environment
      gives a pipe, numbers and typed messages on streams.
    - [Internet]: transport/internet/config.go, memory_settings.go, tcp_hub.go
      (theorems in [ConfigSpec]): domain strategies, which settings are found,
      which address is listened on.
    - [Sockets], [SocketsSpec]: sockopt.go, sockopt_darwin.go,
      system_listener.go and filelocker_other.go over interfaces of the
      operating system; the options that are set, what a failed listen leaves
      behind (nothing), and what the lock file excludes.
    - [Etcd], [EtcdSpec]: cmd/internal/discovery/etcd; a watcher agrees with a
      fresh read, a registration has one goroutine and can be taken back.
    - [EtcdWatch]: the loop of etcd_discovery.go that logs updates; every update is
      that of a fresh read, and the loop ends with its context.
    - [Cli], [CliSpec]: cmd/internal/cli, cmd/internal/grpcrefl, the calls of
      cmd/subcmds/grpc.go and cmd/distro/http_proxy.go; targets and methods are
      read back, a server command ends with its server.
    - [Flags]: the commands and flags of cmd/base, cmd/main, cmd/distro, cmd/subcmds
      (no flag is ambiguous), the choice of the log handler, the version; and
      cmd/internal/cmdtest over a store of shared flags (runs are independent).
    - [Keys], [KeysSpec]: crypto/keygen, authenticate/signature, uuid/rand_string.go
      and their commands, with base64, SHA-256 and HMAC; base64 is read back,
      generated keys are clamped and reloaded, and the verify command rejects
      what the sign command prints.
    - [Heartbeat], [HeartbeatSpec]: examples/net/heartbeat/tcp and tcpv2; the
      three goroutines of a connection as one step function of four programs:
      which PONGs are sent, and exactly when a connection is stuck for ever.
    - [WebSocket], [WebSocketSpec]: http/client/gorilla.go and websocket.go, the
      echo servers of snippets/httproto/ws; order of messages and frames, and
      exactly when a client that was told to quit hangs.
    - [WsBeat]: examples/net/heartbeat/websocket and the handlers of control frames
      of snippets/httproto/ws; pings are accounted for, messages echoed in order.
    - [Units]: units/bytesize.go over binary64 arithmetic; sizes are read back.
    - [ProtoDump]: cmd/subcmds/proto.go; agrees with [Protobuf], and ends.
    - [Proxy]: the proxies' bytes (examples/net/httpproxy,
      examples/proxyproto/transparentporxy, cmd/distro/http_proxy.go): what a
      tunnel delivers and what the buffered reader keeps.
    - [FetchCmd], [FetchSpec]: cmd/subcmds/fetch.go and grpc.go,
      cmd/internal/grpcrefl/protofile.go and invoke.go, binproto/grpc/codec;
      the request that the flags describe, and the commands from the command
      line through [HttpFetch] and [Cli] to the network and back.
    - [Descriptor]: binproto/protobuf/descriptor.go, reflect/proto.go and
      examples/proto/protoparse; a raw descriptor is read the same compressed or not.
    - [Agent], [AgentSpec]: snippets/soundness/agent; what is posted follows the
      file, in order, and exactly when the agent has gone blind.
    - [Handlers], [HandlersSpec]: http/extensions, net/ipaddr, the handlers of
      cmd/distro/devtool.go and file_server.go, examples/net/httpserver and
      snippets/httproto; the debug server's responses, and the address of a
      client behind a chain of proxies.
    - [GrpcMux]: grpc/interceptors, [BuildServer] of grpc/server, and the gRPC servers
      and heartbeats of examples/grpc, examples/net/heartbeat and snippets: what they
      register, what clients see of their health, and that the ways of sharing a port
      between gRPC and HTTP agree.
    - [Apps]: snippets/soundness/app, the clients of examples/grpc/clients and where
      their requests arrive, examples/net/httpsserver, heartbeat/http11 and fd/server,
      snippets/httproto/h2c, http/client/logger.go and http/extensions/trace.go.
    - [TcpServer]: testing/servers/tcp/tcp.go; two goroutines over a pipe answer
      a client in order and completely.
    - [Servers]: starting and accepting: the test server, and runHTTPProxy of
      cmd/distro/http_proxy.go under [RunServer], which handles what it accepts in
      order and can always be shut down.
    - [Commands]: cmd/distro/discovery.go, registry.go and echo_server.go,
      cmd/subcmds/etcdget.go, grpc/server/start.go,
      examples/grpc/clients/httpclient; what is registered is discovered.

    ** Fuel and bounds

    Loops over an [io.Reader] take fuel; the theorems ask for more fuel than the
    reader's measure ([rd_meas], the number of further reads without error) and
    conclude that the loop returns, so no theorem is about a run that is cut
    short.  [readLoop] of the gRPC clients takes the number of turns to observe.
    [readHTTPResponse] takes one unit per header line, and the round trip is
    proved with exactly as many as there are lines.  [run_alone] follows one
    goroutine of a timer for ten steps, which is more than its code has.  Runs
    of goroutines are lists of choices of any length; only the order of stream
    identifiers is bounded, by 2^30 steps, since the counter has 32 bits.  The
    remaining bounds are those of the code: 2^31 for lengths kept in an [int32],
    2^24 for frame lengths, 2^32 - 5 for gRPC messages, 2^62 for chunks.  The
    round trip of sizes is for whole multiples of a unit, fewer than 1024.

    ** Not modelled

    Most calls of the loggers; the aliases of net/system.go; the remaining examples
    (examples/proxyproto/server, client, tcpserver and the like, examples/net/listen
    and fd/client, the clients of examples/grpc/tls and grpc/proto) and
    cmd/internal/cmdtest/grpc.go, which only configure and call other libraries;
    mocks and generated code.  The parsing of flags by cobra, grpc-go, the websocket
    libraries and net/http's server are parameters or are seen through the calls made
    to them.  Time appears only where the code stores or returns a duration; a timeout
    is an event that may happen at any point.  Texts of error messages and of logs are
    shortened. *)
From stdpp Require Export base list numbers strings option gmap.
From Stdlib Require Export ZArith Lia.

Global Open Scope Z_scope.

(** ** Outcomes of a Go computation

    A Go function returns, panics, or (for the loops whose exit depends on an
    interface value supplied by the caller) is still running when the fuel of
    its model is used up.  Errors are ordinary return values and are modelled
    as [option error] components of the result (file [Errors]). *)
Inductive go (A : Type) : Type :=
  | Ret (a : A)
  | Panic (msg : string)
  | OutOfFuel.
Arguments Ret {A} a.
Arguments Panic {A} msg.
Arguments OutOfFuel {A}.

#[global] Instance go_ret : MRet go := fun A a => Ret a.
#[global] Instance go_bind : MBind go := fun A B f x =>
  match x with
  | Ret a => f a
  | Panic m => Panic m
  | OutOfFuel => OutOfFuel
  end.

#[global] Instance go_eq_dec {A} `{EqDecision A} : EqDecision (go A).
Proof. solve_decision. Defined.

Definition go_returns {A} (x : go A) : Prop := ∃ a, x = Ret a.

Lemma go_bind_Ret {A B} (f : A → go B) (a : A) : (Ret a ≫= f) = f a.
Proof. reflexivity. Qed.

Lemma go_bind_inv {A B} (x : go A) (f : A → go B) (b : B) :
  x ≫= f = Ret b → ∃ a, x = Ret a ∧ f a = Ret b.
Proof. destruct x; simpl; intros H; try discriminate; eauto. Qed.

(** ** Machine integers

    A value of Go type [intN] or [uintN] is a [Z]; the conversions wrap. *)
Definition u8 (x : Z) : Z := x mod 2 ^ 8.
Definition u16 (x : Z) : Z := x mod 2 ^ 16.
Definition u32 (x : Z) : Z := x mod 2 ^ 32.
Definition u64 (x : Z) : Z := x mod 2 ^ 64.
Definition i32 (x : Z) : Z := (x + 2 ^ 31) mod 2 ^ 32 - 2 ^ 31.
Definition i64 (x : Z) : Z := (x + 2 ^ 63) mod 2 ^ 64 - 2 ^ 63.

Definition max_i32 : Z := 2 ^ 31 - 1.

Lemma i32_id x : - 2 ^ 31 ≤ x < 2 ^ 31 → i32 x = x.
Proof. intros H. unfold i32. rewrite Z.mod_small; lia. Qed.

Lemma i64_id x : - 2 ^ 63 ≤ x < 2 ^ 63 → i64 x = x.
Proof. intros H. unfold i64. rewrite Z.mod_small; lia. Qed.

Lemma u8_id x : 0 ≤ x < 2 ^ 8 → u8 x = x.
Proof. intros H. unfold u8. rewrite Z.mod_small; lia. Qed.

Lemma u16_id x : 0 ≤ x < 2 ^ 16 → u16 x = x.
Proof. intros H. unfold u16. rewrite Z.mod_small; lia. Qed.

Lemma u32_id x : 0 ≤ x < 2 ^ 32 → u32 x = x.
Proof. intros H. unfold u32. rewrite Z.mod_small; lia. Qed.

Lemma u64_id x : 0 ≤ x < 2 ^ 64 → u64 x = x.
Proof. intros H. unfold u64. rewrite Z.mod_small; lia. Qed.

Lemma i32_range x : - 2 ^ 31 ≤ i32 x < 2 ^ 31.
Proof. unfold i32. pose proof (Z.mod_pos_bound (x + 2 ^ 31) (2 ^ 32)). lia. Qed.

Lemma i64_range x : - 2 ^ 63 ≤ i64 x < 2 ^ 63.
Proof. unfold i64. pose proof (Z.mod_pos_bound (x + 2 ^ 63) (2 ^ 64)). lia. Qed.

Lemma u32_range x : 0 ≤ u32 x < 2 ^ 32.
Proof. unfold u32. apply Z.mod_pos_bound. lia. Qed.

(** A 32-bit count read back as a signed one. *)
Lemma i32_u32 x : i32 (u32 x) = i32 x.
Proof. unfold i32, u32. by rewrite Z.add_mod_idemp_l by lia. Qed.

(** Wrapping once at the end, or after every addition. *)
Lemma i32_add_l x y : i32 (i32 x + y) = i32 (x + y).
Proof.
  unfold i32. f_equal. replace ((x + 2 ^ 31) mod 2 ^ 32 - 2 ^ 31 + y + 2 ^ 31) with ((x + 2 ^ 31) mod 2 ^ 32 + y) by lia.
  rewrite Z.add_mod_idemp_l by lia. f_equal. lia.
Qed.

#[global] Opaque i32 i64 u8 u16 u32 u64.

(** ** Bytes and strings

    A byte is a [Z] in [0..255]; a Go string is its byte sequence. *)
Abbreviation byte := Z (only parsing).
Abbreviation bytes := (list Z).

Definition is_byte (b : Z) : Prop := 0 ≤ b < 256.
Definition is_bytes (l : bytes) : Prop := Forall is_byte l.

#[global] Instance is_byte_dec b : Decision (is_byte b).
Proof. unfold is_byte. apply _. Defined.

Definition str (s : string) : bytes :=
  (λ a, Z.of_N (Ascii.N_of_ascii a)) <$> String.list_ascii_of_string s.

(** Length of a byte sequence as a Go [int]. *)
Definition zlen {A} (l : list A) : Z := Z.of_nat (length l).

Lemma zlen_nonneg {A} (l : list A) : 0 ≤ zlen l.
Proof. unfold zlen. lia. Qed.

Lemma zlen_app {A} (l k : list A) : zlen (l ++ k) = zlen l + zlen k.
Proof. unfold zlen. rewrite length_app. lia. Qed.

Lemma zlen_nil {A} : zlen (@nil A) = 0.
Proof. reflexivity. Qed.

Lemma zlen_cons {A} (x : A) l : zlen (x :: l) = 1 + zlen l.
Proof. unfold zlen. cbn [length]. lia. Qed.

Lemma zlen_0_nil {A} (l : list A) : zlen l = 0 → l = [].
Proof. destruct l; [done|]. rewrite zlen_cons. pose proof (zlen_nonneg l). lia. Qed.

Lemma zlen_pos_length {A} (l : list A) : 0 < zlen l → (0 < length l)%nat.
Proof. unfold zlen. lia. Qed.

(** [ztake]/[zdrop]: prefixes and suffixes at a [Z] index. *)
Definition ztake {A} (n : Z) (l : list A) : list A := take (Z.to_nat n) l.
Definition zdrop {A} (n : Z) (l : list A) : list A := drop (Z.to_nat n) l.

Lemma ztake_zdrop {A} n (l : list A) : ztake n l ++ zdrop n l = l.
Proof. apply take_drop. Qed.

Lemma zlen_ztake {A} n (l : list A) : 0 ≤ n ≤ zlen l → zlen (ztake n l) = n.
Proof. unfold zlen, ztake. intros. rewrite length_take. lia. Qed.

Lemma zlen_ztake_min {A} n (l : list A) : 0 ≤ n → zlen (ztake n l) = Z.min n (zlen l).
Proof. unfold zlen, ztake. intros. rewrite length_take. lia. Qed.

Lemma zlen_zdrop {A} n (l : list A) : 0 ≤ n ≤ zlen l → zlen (zdrop n l) = zlen l - n.
Proof. unfold zlen, zdrop. intros. rewrite length_drop. lia. Qed.

Lemma ztake_ge {A} n (l : list A) : zlen l ≤ n → ztake n l = l.
Proof. unfold zlen, ztake. intros. apply take_ge. lia. Qed.

Lemma zdrop_ge {A} n (l : list A) : zlen l ≤ n → zdrop n l = [].
Proof. unfold zlen, zdrop. intros. apply drop_ge. lia. Qed.

Lemma ztake_0 {A} (l : list A) : ztake 0 l = [].
Proof. reflexivity. Qed.

Lemma zdrop_0 {A} (l : list A) : zdrop 0 l = l.
Proof. reflexivity. Qed.

Lemma ztake_nil {A} n : ztake n (@nil A) = [].
Proof. apply take_nil. Qed.

Lemma zdrop_nil {A} n : zdrop n (@nil A) = [].
Proof. apply drop_nil. Qed.

Lemma zdrop_zdrop {A} a b (l : list A) : 0 ≤ a → 0 ≤ b → zdrop a (zdrop b l) = zdrop (b + a) l.
Proof. intros. unfold zdrop. rewrite drop_drop. f_equal. lia. Qed.

Lemma ztake_app_le {A} n (l k : list A) : n ≤ zlen l → ztake n (l ++ k) = ztake n l.
Proof. unfold zlen, ztake. intros. apply take_app_le. lia. Qed.

Lemma ztake_app_ge {A} n (l k : list A) :
  zlen l ≤ n → ztake n (l ++ k) = l ++ ztake (n - zlen l) k.
Proof.
  unfold zlen, ztake. intros. rewrite take_app_ge by lia. do 2 f_equal. lia.
Qed.

Lemma zdrop_app_le {A} n (l k : list A) : n ≤ zlen l → zdrop n (l ++ k) = zdrop n l ++ k.
Proof. unfold zlen, zdrop. intros. apply drop_app_le. lia. Qed.

Lemma zdrop_app_ge {A} n (l k : list A) :
  zlen l ≤ n → zdrop n (l ++ k) = zdrop (n - zlen l) k.
Proof. unfold zlen, zdrop. intros. rewrite drop_app_ge by lia. f_equal. lia. Qed.

Lemma ztake_ztake {A} a b (l : list A) : 0 ≤ a ≤ b → ztake a (ztake b l) = ztake a l.
Proof. intros. unfold ztake. rewrite take_take. f_equal. lia. Qed.

Lemma zdrop_ztake {A} a b (l : list A) :
  0 ≤ a ≤ b → zdrop a (ztake b l) = ztake (b - a) (zdrop a l).
Proof. intros. unfold ztake, zdrop. rewrite skipn_firstn_comm. do 2 f_equal. lia. Qed.

Lemma ztake_split {A} a b (l : list A) :
  0 ≤ a → 0 ≤ b → ztake (a + b) l = ztake a l ++ ztake b (zdrop a l).
Proof.
  intros. unfold ztake, zdrop. rewrite Z2Nat.inj_add by lia.
  rewrite <- (take_drop (Z.to_nat a) (take _ l)). f_equal.
  - rewrite take_take. f_equal. lia.
  - rewrite skipn_firstn_comm. f_equal. lia.
Qed.

#[global] Opaque zlen.

Create Rewrite HintDb zl.
#[export] Hint Rewrite @zlen_app @zlen_nil @zlen_cons @ztake_0 @zdrop_0 @ztake_nil @zdrop_nil
  @app_nil_r : zl.

(** ** Automation *)

(** Case analysis on the booleans and decisions of the code, turning the tests
    into facts [lia] understands. *)
Ltac bool_hyps :=
  repeat match goal with
  | H : (_ <? _) = true |- _ => apply Z.ltb_lt in H
  | H : (_ <? _) = false |- _ => apply Z.ltb_ge in H
  | H : (_ <=? _) = true |- _ => apply Z.leb_le in H
  | H : (_ <=? _) = false |- _ => apply Z.leb_gt in H
  | H : (_ >? _) = true |- _ => rewrite Z.gtb_ltb in H; apply Z.ltb_lt in H
  | H : (_ >? _) = false |- _ => rewrite Z.gtb_ltb in H; apply Z.ltb_ge in H
  | H : (_ >=? _) = true |- _ => rewrite Z.geb_leb in H; apply Z.leb_le in H
  | H : (_ >=? _) = false |- _ => rewrite Z.geb_leb in H; apply Z.leb_gt in H
  | H : (_ =? _) = true |- _ => apply Z.eqb_eq in H
  | H : (_ =? _) = false |- _ => apply Z.eqb_neq in H
  | H : (_ && _)%bool = true |- _ => apply andb_prop in H as [? ?]
  | H : negb _ = true |- _ => apply negb_true_iff in H
  | H : negb _ = false |- _ => apply negb_false_iff in H
  end.

(** Split on the scrutinee of some [if]/[match] of the goal. *)
Ltac case_if :=
  match goal with
  | |- context [if ?b then _ else _] => destruct b eqn:?; bool_hyps
  end.

(** Rewrite a test whose outcome [lia] knows. *)
Ltac if_true := rewrite (proj2 (Z.ltb_lt _ _)) by lia.
Ltac zltb_solve :=
  repeat match goal with
  | |- context [?a <? ?b] =>
      first [ rewrite (proj2 (Z.ltb_lt a b)) by lia
            | rewrite (proj2 (Z.ltb_ge a b)) by lia ]
  | |- context [?a <=? ?b] =>
      first [ rewrite (proj2 (Z.leb_le a b)) by lia
            | rewrite (proj2 (Z.leb_gt a b)) by lia ]
  | |- context [?a =? ?b] =>
      first [ rewrite (proj2 (Z.eqb_eq a b)) by lia
            | rewrite (proj2 (Z.eqb_neq a b)) by lia ]
  end.

(** [len] of an empty byte slice. *)
Ltac znil := change (zlen (@nil Z)) with 0 in *.

(** Remove the conversions of values that are in range. *)
Ltac unwrap :=
  repeat match goal with
  | |- context [i32 ?x] => rewrite (i32_id x) by lia
  | |- context [i64 ?x] => rewrite (i64_id x) by lia
  | |- context [u8 ?x] => rewrite (u8_id x) by lia
  | |- context [u16 ?x] => rewrite (u16_id x) by lia
  | |- context [u32 ?x] => rewrite (u32_id x) by lia
  | |- context [u64 ?x] => rewrite (u64_id x) by lia
  end.

(** Open the results of a monadic computation known to return. *)
Ltac inv_go :=
  repeat match goal with
  | H : _ ≫= _ = Ret _ |- _ =>
      let a := fresh "r" in let Ha := fresh "Hr" in
      apply go_bind_inv in H as (a & Ha & H)
  | H : Ret _ = Ret _ |- _ => injection H as H
  | H : Panic _ = Ret _ |- _ => discriminate H
  | H : OutOfFuel = Ret _ |- _ => discriminate H
  | H : mret _ = Ret _ |- _ => injection H as H
  end.

(** ** Slices

    A [[]byte] value: the part of the backing array from the slice's first
    element to its capacity, and its length.  Indexing checks the length and
    re-slicing checks the capacity, as the language does. *)
Record slice := Slice { s_arr : bytes; s_len : Z }.

#[global] Instance slice_eq_dec : EqDecision slice.
Proof. solve_decision. Defined.

Definition s_cap (s : slice) : Z := zlen (s_arr s).
Definition slice_ok (s : slice) : Prop := 0 ≤ s_len s ≤ s_cap s.

(** The elements of a slice. *)
Definition s_bytes (s : slice) : bytes := ztake (s_len s) (s_arr s).

(** [make([]byte, n)] *)
Definition make_slice (n : Z) : slice := Slice (replicate (Z.to_nat n) 0) n.

(** A slice whose length is its capacity. *)
Definition slice_of (l : bytes) : slice := Slice l (zlen l).

Definition oob : string := "runtime error: slice bounds out of range".
Definition oob_index : string := "runtime error: index out of range".

(** [s[i]] *)
Definition s_index (s : slice) (i : Z) : go Z :=
  if (0 <=? i) && (i <? s_len s) then
    match s_arr s !! Z.to_nat i with Some b => Ret b | None => Panic oob_index end
  else Panic oob_index.

(** [s[lo:hi]] *)
Definition s_sub (s : slice) (lo hi : Z) : go slice :=
  if (0 <=? lo) && (lo <=? hi) && (hi <=? s_cap s) then
    Ret (Slice (zdrop lo (s_arr s)) (hi - lo))
  else Panic oob.

(** Overwrite the elements of [l] from position [off] on with [d]. *)
Definition splice (off : Z) (d l : bytes) : bytes :=
  ztake off l ++ d ++ zdrop (off + zlen d) l.

Lemma zlen_splice off d l :
  0 ≤ off → off + zlen d ≤ zlen l → zlen (splice off d l) = zlen l.
Proof.
  intros. unfold splice. pose proof (zlen_nonneg d).
  rewrite !zlen_app, zlen_ztake, zlen_zdrop by lia. lia.
Qed.

Lemma ztake_splice_le n off d l :
  0 ≤ n ≤ off → off ≤ zlen l → ztake n (splice off d l) = ztake n l.
Proof.
  intros. unfold splice. rewrite ztake_app_le by (rewrite zlen_ztake; lia).
  apply ztake_ztake. lia.
Qed.

(** The region [[start, off)] followed by the data just written. *)
Lemma splice_region start off d l :
  0 ≤ start ≤ off → off + zlen d ≤ zlen l →
  ztake (off + zlen d - start) (zdrop start (splice off d l)) =
  ztake (off - start) (zdrop start l) ++ d.
Proof.
  intros. pose proof (zlen_nonneg d). unfold splice.
  rewrite zdrop_app_le by (rewrite zlen_ztake; lia).
  rewrite zdrop_ztake by lia.
  rewrite ztake_app_ge by (rewrite zlen_ztake; rewrite ?zlen_zdrop; lia).
  rewrite zlen_ztake by (rewrite zlen_zdrop; lia).
  f_equal. rewrite ztake_app_le by lia. apply ztake_ge. lia.
Qed.

Lemma s_sub_Ret s lo hi :
  0 ≤ lo ≤ hi → hi ≤ s_cap s → s_sub s lo hi = Ret (Slice (zdrop lo (s_arr s)) (hi - lo)).
Proof. intros. unfold s_sub. by zltb_solve. Qed.

Lemma s_index_Ret s i :
  slice_ok s → 0 ≤ i < s_len s → ∃ b, s_index s i = Ret b ∧ zdrop i (s_arr s) = b :: zdrop (i + 1) (s_arr s).
Proof.
  intros [? Hc] Hi. unfold s_index, s_cap in *. zltb_solve. cbn.
  Transparent zlen. unfold zlen in *.
  destruct (lookup_lt_is_Some_2 (s_arr s) (Z.to_nat i)) as [b Hb]; [lia|].
  exists b. rewrite Hb. split; [done|].
  unfold zdrop. rewrite (drop_S _ _ _ Hb). do 2 f_equal. lia.
Qed.
#[global] Opaque zlen.

(** ** Runs of a step function

    A system moves by [step], which takes a choice that resolves what the
    program leaves open; [None] is a choice that is not possible. *)
Section Runs.
Context {S C : Type} (step : C → S → option S).

Fixpoint run_steps (cs : list C) (s : S) : option S :=
  match cs with
  | [] => Some s
  | c :: cs' => s' ← step c s; run_steps cs' s'
  end.

Lemma run_steps_cons c cs s s' :
  run_steps (c :: cs) s = Some s' → ∃ s1, step c s = Some s1 ∧ run_steps cs s1 = Some s'.
Proof. cbn. intros Hr. apply bind_Some in Hr. exact Hr. Qed.

Lemma run_steps_app cs ds s :
  run_steps (cs ++ ds) s = run_steps cs s ≫= run_steps ds.
Proof.
  revert s. induction cs as [|c cs IH]; intros s; cbn; [done|].
  destruct (step c s); cbn; [apply IH|done].
Qed.

(** An invariant of the steps that satisfy [ok] holds along every such run. *)
Lemma run_steps_inv_on (ok : C → Prop) (P : S → Prop) :
  (∀ c s s', ok c → P s → step c s = Some s' → P s') →
  ∀ cs s s', Forall ok cs → P s → run_steps cs s = Some s' → P s'.
Proof.
  intros Hstep cs. induction cs as [|c cs IH]; intros s s' Hok HP Hr.
  - cbn in Hr. by simplify_eq.
  - apply Forall_cons in Hok as [Hc Hok]. apply run_steps_cons in Hr as (s1 & H1 & Hr).
    eauto.
Qed.

Lemma run_steps_inv (P : S → Prop) :
  (∀ c s s', P s → step c s = Some s' → P s') →
  ∀ cs s s', P s → run_steps cs s = Some s' → P s'.
Proof.
  intros Hstep cs s s'. apply (run_steps_inv_on (λ _, True)); [eauto|].
  by apply Forall_true.
Qed.

End Runs.

(** The same for steps that may panic; a panic ends the run. *)
Section GoRuns.
Context {S C : Type} (step : C → S → option (go S)).

Fixpoint run_go (cs : list C) (s : S) : option (go S) :=
  match cs with
  | [] => Some (Ret s)
  | c :: cs' =>
      r ← step c s;
      match r with
      | Ret s' => run_go cs' s'
      | Panic m => Some (Panic m)
      | OutOfFuel => Some OutOfFuel
      end
  end.

(** The outcome is a state that satisfies [P], or the choice is not possible. *)
Definition safe_outcome (P : S → Prop) (r : option (go S)) : Prop :=
  match r with Some x => ∃ s, x = Ret s ∧ P s | None => True end.

Lemma run_go_inv (P : S → Prop) :
  (∀ c s, P s → safe_outcome P (step c s)) → ∀ cs s, P s → safe_outcome P (run_go cs s).
Proof.
  intros Hstep cs. induction cs as [|c cs IH]; intros s HP; cbn; [eauto|].
  pose proof (Hstep c s HP) as Hs. destruct (step c s) as [r|]; cbn in *; [|done].
  destruct Hs as (s' & -> & HP'). by apply IH.
Qed.

End GoRuns.
