(* ===== verification/Errors.v ===== *)
(** * Errors, closing and retrying

    The packages [errors] (errors.go, multierr.go, common.go), [lang]
    (interface.go) and [retry] (retry.go).

    An error value is a tree: the leaves are the package-level sentinels made
    with [errors.New]; the inner nodes are the wrappers the program defines
    ([baseErr], [multiErr], [readError], [writeError]) and [fmt.Errorf].  A nil
    error is [None].  Pointer identity of a sentinel is modelled by its
    qualified variable name. *)
From S2P Require Import Prelude.

(** ** Data *)

Record sentinel := Sentinel { s_id : string; s_text : string }.

#[global] Instance sentinel_eq_dec : EqDecision sentinel.
Proof. solve_decision. Defined.

#[warnings="-register-all"] Inductive error : Type :=
  | ErrNew (s : sentinel)
  | Errorf (msg : string) (wrapped : option error)
  | BaseErr (base inner : option error)
  | MultiErr (base : option error) (causes : list (option error))
  | ReadError (inner : error)
  | WriteError (inner : error).

Definition is_sentinel (s : sentinel) (e : error) : bool :=
  match e with ErrNew s' => bool_decide (s = s') | _ => false end.

(** [err == s] for a sentinel [s] and a possibly nil [err]. *)
Definition err_is (s : sentinel) (e : option error) : bool :=
  match e with Some e => is_sentinel s e | None => false end.

(** Sentinels of the standard library the program compares with. *)
Definition EOF := Sentinel "io.EOF" "EOF".
Definition ErrUnexpectedEOF := Sentinel "io.ErrUnexpectedEOF" "unexpected EOF".
Definition ErrClosedPipe := Sentinel "io.ErrClosedPipe" "io: read/write on closed pipe".

(** ** Package errors *)

Definition ErrCombine := Sentinel "errors.ErrCombine" "combine error".

Definition Single (base cause : option error) : error := BaseErr base cause.
Definition Multi (base : option error) (causes : list (option error)) : error :=
  MultiErr base causes.

(** The value an [Unwrap() error] method returns; [None] also for the error
    types that have no such method, which [Cause] treats alike. *)
Definition Unwrap (e : error) : option error :=
  match e with
  | ErrNew _ => None
  | Errorf _ w => w
  | BaseErr _ inner => inner
  | MultiErr _ causes =>
      match last causes with Some c => c | None => None end
  | ReadError e => Some e
  | WriteError e => Some e
  end.

(** The loop of [Cause] on a non-nil error. *)
Fixpoint Cause1 (e : error) : error :=
  match e with
  | ErrNew _ => e
  | Errorf _ w => match w with Some i => Cause1 i | None => e end
  | BaseErr _ inner => match inner with Some i => Cause1 i | None => e end
  | MultiErr _ causes =>
      (fix last_cause (cs : list (option error)) : error :=
         match cs with
         | [] => e
         | c :: cs' =>
             match cs' with
             | [] => match c with Some i => Cause1 i | None => e end
             | _ => last_cause cs'
             end
         end) causes
  | ReadError i => Cause1 i
  | WriteError i => Cause1 i
  end.

Definition Cause (e : option error) : option error := Cause1 <$> e.

(** [errors.Is(e, s)] of the standard library, for a sentinel [s]: whether [s]
    is in the chain of the [Unwrap() error] methods. *)
Fixpoint Is (s : sentinel) (e : error) : bool :=
  match e with
  | ErrNew s' => bool_decide (s = s')
  | Errorf _ w => match w with Some i => Is s i | None => false end
  | BaseErr _ inner => match inner with Some i => Is s i | None => false end
  | MultiErr _ causes =>
      (fix last_is (cs : list (option error)) : bool :=
         match cs with
         | [] => false
         | c :: cs' =>
             match cs' with
             | [] => match c with Some i => Is s i | None => false end
             | _ => last_is cs'
             end
         end) causes
  | ReadError i => Is s i
  | WriteError i => Is s i
  end.

Definition nil_deref : string := "runtime error: invalid memory address or nil pointer dereference".

(** [err.Error()] *)
Fixpoint Error (e : error) : go string :=
  match e with
  | ErrNew s => Ret (s_text s)
  | Errorf msg _ => Ret msg
  | BaseErr base _ => match base with Some b => Error b | None => Panic nil_deref end
  | MultiErr base _ => match base with Some b => Error b | None => Panic nil_deref end
  | ReadError e => Error e
  | WriteError e => Error e
  end.

(** ** Package lang

    What the type assertions of [Close] and [Interrupt] ask of an object: the
    methods it has, acting on a state. *)
Module Lang.

Record object (S : Type) := Object {
  o_close : option (S → option error * S);
  o_interrupt : option (S → S)
}.
Arguments Object {S}.
Arguments o_close {S}.
Arguments o_interrupt {S}.

Definition Close {S} (obj : object S) (s : S) : option error * S :=
  match o_close obj with
  | Some close => close s
  | None => (None, s)
  end.

Definition Interrupt {S} (obj : object S) (s : S) : option error * S :=
  match o_interrupt obj with
  | Some interrupt => (None, interrupt s)
  | None => Close obj s
  end.

(** The loop of [ChainedClosable.Close]. *)
Fixpoint close_all {S} (cc : list (S → option error * S)) (errs : list (option error)) (s : S)
  : list (option error) * S :=
  match cc with
  | [] => (errs, s)
  | c :: cc' =>
      let '(err, s') := c s in
      match err with
      | Some e => close_all cc' (errs ++ [Some e]) s'
      | None => close_all cc' errs s'
      end
  end.

Definition ChainedClosable_Close {S} (cc : list (S → option error * S)) (s : S)
  : option error * S :=
  let '(errs, s') := close_all cc [] s in
  (Some (Multi (Some (ErrNew ErrCombine)) errs), s').

End Lang.

(** ** Package retry *)
Module Retry.

Definition ErrRetryFailed := Sentinel "retry.ErrRetryFailed" "retry failed".

(** [nextDelay] is a closure: its captured variable is the state [D]. *)
Record retryer (D : Type) := Retryer { totalAttempt : Z; nextDelay : D → Z * D }.
Arguments Retryer {D}.
Arguments totalAttempt {D}.
Arguments nextDelay {D}.

Section On.
Context {D S : Type}.
Context (r : retryer D).
Context (method : S → option error * S).

(** [numErrors == 0 || err.Error() != accumulatedErrors[numErrors-1].Error()] *)
Definition accumulate (errs : list (option error)) (err : error) : go (list (option error)) :=
  match last errs with
  | None => Ret (errs ++ [Some err])
  | Some None => Panic nil_deref
  | Some (Some prev) =>
      m1 ← Error err; m2 ← Error prev;
      Ret (if bool_decide (m1 = m2) then errs else errs ++ [Some err])
  end.

(** The loop: [n] attempts are left; the delays slept are collected. *)
Fixpoint On_loop (n : nat) (errs : list (option error)) (d : D) (s : S) (slept : list Z)
  : go (option error * D * S * list Z) :=
  match n with
  | O => Ret (Some (Multi (Some (ErrNew ErrRetryFailed)) errs), d, s, slept)
  | Datatypes.S n' =>
      match method s with
      | (None, s') => Ret (None, d, s', slept)
      | (Some err, s') =>
          errs' ← accumulate errs err;
          let '(delay, d') := nextDelay r d in
          On_loop n' errs' d' s' (slept ++ [delay])
      end
  end.

Definition On (d : D) (s : S) : go (option error * D * S * list Z) :=
  if totalAttempt r <? 0 then Panic "runtime error: makeslice: cap out of range"
  else On_loop (Z.to_nat (totalAttempt r)) [] d s [].
End On.

Definition Timed (attempts delay : Z) : retryer unit :=
  Retryer attempts (λ d, (delay, d)).

Definition ExponentialBackoff (attempts delay : Z) : retryer Z :=
  Retryer attempts (λ next, (next, u32 (next + delay))).

(** Initial value of the variable captured by [ExponentialBackoff]'s closure. *)
Definition ExponentialBackoff_init : Z := 0.

End Retry.

(** ** Lemmas on errors *)

(** One turn of the loop of [Cause]. *)
Lemma Cause1_unfold e : Cause1 e = match Unwrap e with Some i => Cause1 i | None => e end.
Proof.
  destruct e as [s|m w|b i|b cs|i|i]; try reflexivity.
  cbn. generalize (MultiErr b cs). intros e0.
  induction cs as [|c cs IH]; [reflexivity|].
  destruct cs as [|c' cs]; [destruct c; reflexivity|]. exact IH.
Qed.

(** Induction on an error along its [Unwrap] chain. *)
Fixpoint error_depth (e : error) : nat :=
  match e with
  | ErrNew _ => 0
  | Errorf _ w => match w with Some i => S (error_depth i) | None => 0 end
  | BaseErr _ inner => match inner with Some i => S (error_depth i) | None => 0 end
  | MultiErr _ causes =>
      (fix last_cause (cs : list (option error)) : nat :=
         match cs with
         | [] => 0
         | c :: cs' =>
             match cs' with
             | [] => match c with Some i => S (error_depth i) | None => 0 end
             | _ => last_cause cs'
             end
         end) causes
  | ReadError i => S (error_depth i)
  | WriteError i => S (error_depth i)
  end%nat.

Lemma error_depth_Unwrap e i : Unwrap e = Some i → error_depth e = S (error_depth i).
Proof.
  destruct e as [s|m w|b w|b cs|w|w]; cbn; try (intros [= ->]; reflexivity);
    try discriminate; try (intros ->; reflexivity).
  induction cs as [|c cs IH]; cbn; [discriminate|].
  destruct cs as [|c' cs]; [cbn; intros ->; reflexivity|]. exact IH.
Qed.

Lemma error_unwrap_ind (P : error → Prop) :
  (∀ e, (∀ i, Unwrap e = Some i → P i) → P e) → ∀ e, P e.
Proof.
  intros H e. remember (error_depth e) as n eqn:Hn. revert e Hn.
  induction n as [|n IH]; intros e Hn; apply H; intros i Hi;
    apply error_depth_Unwrap in Hi; [lia|]. apply IH. lia.
Qed.

(** One step of the unwrapping loop, for reachability statements. *)
Definition unwraps_to (e i : error) : Prop := Unwrap e = Some i.

(** [Cause] walks the whole [Unwrap] chain: its result is reached from the
    argument by unwrapping and cannot be unwrapped further. *)
Lemma Cause1_end_of_chain e : rtc unwraps_to e (Cause1 e) ∧ Unwrap (Cause1 e) = None.
Proof.
  induction e as [e IH] using error_unwrap_ind. rewrite Cause1_unfold.
  destruct (Unwrap e) as [i|] eqn:E; [|split; [apply rtc_refl|done]].
  destruct (IH i) as [H1 H2]; [done|]. split; [|done].
  eapply rtc_l; [exact E|exact H1].
Qed.

Lemma is_sentinel_true s e : is_sentinel s e = true ↔ e = ErrNew s.
Proof.
  destruct e; cbn; split; intros H; try discriminate; try congruence.
  - apply bool_decide_eq_true in H. by subst.
  - injection H as ->. by apply bool_decide_eq_true.
Qed.

(** ** Lemmas on closing *)

Fixpoint run_all {S} (cc : list (S → option error * S)) (s : S) : list (option error) * S :=
  match cc with
  | [] => ([], s)
  | c :: cc' => let '(err, s') := c s in let '(errs, s'') := run_all cc' s' in (err :: errs, s'')
  end.

(** Errors actually reported, in order. *)
Definition reported (errs : list (option error)) : list (option error) :=
  filter (λ e : option error, is_Some e) errs.

Lemma close_all_spec {S} (cc : list (S → option error * S)) errs s :
  Lang.close_all cc errs s =
  let '(rs, s') := run_all cc s in (errs ++ reported rs, s').
Proof.
  revert errs s. induction cc as [|c cc IH]; intros errs s; cbn; [by rewrite app_nil_r|].
  destruct (c s) as [[e|] s']; rewrite IH; destruct (run_all cc s') as [rs s''].
  - cbn. by rewrite <- app_assoc.
  - done.
Qed.

(** ** Lemmas on retrying *)
Module RetryFacts.
Import Retry.

Section OnFacts.
Context {D S : Type} (r : retryer D) (method : S → option error * S).

(** State after [n] calls of the method. *)
Fixpoint calls (n : nat) (s : S) : S :=
  match n with O => s | Datatypes.S n' => calls n' (method s).2 end.

Fixpoint delays (n : nat) (d : D) : list Z :=
  match n with O => [] | Datatypes.S n' => (nextDelay r d).1 :: delays n' (nextDelay r d).2 end.

(** [k] failing calls come first. *)
Definition fails_for (k : nat) (s : S) : Prop :=
  ∀ i, (i < k)%nat → is_Some (method (calls i s)).1.

Lemma fails_for_S k s :
  fails_for (Datatypes.S k) s ↔ is_Some (method s).1 ∧ fails_for k (method s).2.
Proof.
  split.
  - intros H. split; [apply (H 0%nat); lia|]. intros i Hi. apply (H (Datatypes.S i)). lia.
  - intros [H0 H] [|i] Hi; [done|]. apply H. lia.
Qed.

(** The error has a message: no wrapper in it has a nil base. *)
Definition printable (e : error) : Prop := ∃ m, Error e = Ret m.

Definition acc_ok (errs : list (option error)) : Prop :=
  Forall (λ o : option error, ∃ e, o = Some e ∧ printable e) errs.

(** The messages of successive entries differ. *)
Fixpoint no_stutter (errs : list (option error)) : Prop :=
  match errs with
  | Some a :: ((Some b :: _) as rest) => Error a ≠ Error b ∧ no_stutter rest
  | _ => True
  end.

Lemma no_stutter_snoc errs a b :
  no_stutter (errs ++ [Some a]) → Error a ≠ Error b → no_stutter (errs ++ [Some a] ++ [Some b]).
Proof.
  intros H Hab. induction errs as [|x errs IH]; cbn in *; [done|].
  destruct errs as [|[y|] errs]; destruct x as [x|]; cbn in *; intuition.
Qed.

Lemma accumulate_ok errs e :
  acc_ok errs → no_stutter errs → printable e →
  ∃ errs', accumulate errs e = Ret errs' ∧ acc_ok errs' ∧ no_stutter errs' ∧
           (length errs' ≤ length errs + 1)%nat ∧
           ∃ l, last errs' = Some (Some l) ∧ Error l = Error e.
Proof.
  intros Hok Hns [m Hm]. unfold accumulate.
  destruct (last errs) as [o|] eqn:Hl.
  - apply last_Some in Hl as [errs0 ->]. unfold acc_ok in Hok.
    apply Forall_app in Hok as [H0 H1]. apply Forall_inv in H1 as (p & -> & m' & Hp).
    rewrite Hm, Hp. cbn. case_bool_decide as Hmm; eexists; (split; [reflexivity|]).
    + subst m'. split; [apply Forall_app; split; [done|]; repeat econstructor; eauto|].
      split; [done|]. split; [rewrite ?length_app; cbn; lia|].
      exists p. rewrite last_snoc. split; congruence.
    + split; [repeat (apply Forall_app; split); [done| |]; repeat econstructor; eauto|].
      rewrite <- app_assoc. split; [apply no_stutter_snoc; congruence|].
      split; [rewrite ?length_app; cbn; lia|].
      exists e. rewrite app_assoc, last_snoc. done.
  - apply last_None in Hl as ->. eexists. split; [reflexivity|]. cbn.
    split; [repeat econstructor; eauto|]. split; [done|]. split; [lia|]. exists e. done.
Qed.

(** The loop performs the failing calls one by one until a success or until
    the attempts are used up. *)
Lemma On_loop_spec n errs d s slept :
  (∀ s e, (method s).1 = Some e → printable e) → acc_ok errs → no_stutter errs →
  (∀ k, (k < n)%nat → fails_for k s → (method (calls k s)).1 = None →
     ∃ d', On_loop r method n errs d s slept =
           Ret (None, d', calls (Datatypes.S k) s, slept ++ delays k d)) ∧
  (fails_for n s →
     ∃ errs' d', On_loop r method n errs d s slept =
       Ret (Some (Multi (Some (ErrNew ErrRetryFailed)) errs'), d', calls n s,
            slept ++ delays n d) ∧ no_stutter errs' ∧ (length errs' ≤ length errs + n)%nat).
Proof.
  intros Hp. revert errs d s slept. induction n as [|n IH]; intros errs d s slept Hok Hns.
  { split; [lia|]. intros _. exists errs, d. cbn. rewrite app_nil_r. split; [done|]. split; [done|lia]. }
  cbn. destruct (method s) as [[e|] s'] eqn:Em.
  - destruct (accumulate_ok errs e Hok Hns) as (errs' & Ha & Hok' & Hns' & Hlen & _).
    { apply (Hp s). by rewrite Em. }
    rewrite Ha. cbn. destruct (nextDelay r d) as [dl d1] eqn:Ed.
    destruct (IH errs' d1 s' (slept ++ [dl]) Hok' Hns') as [IH1 IH2]. split.
    + intros [|k] Hk Hf Hs; cbn in *; [rewrite Em in Hs; done|].
      apply fails_for_S in Hf as [_ Hf]. rewrite ?Em in Hf, Hs. cbn in *.
      destruct (IH1 k) as [d' ->]; [lia|done|done|].
      exists d'. rewrite ?Em, ?Ed. cbn. by rewrite <- app_assoc.
    + intros Hf. apply fails_for_S in Hf as [_ Hf]. rewrite ?Em in Hf. cbn in *.
      destruct (IH2 Hf) as (errs'' & d' & -> & Hns'' & Hlen'').
      exists errs'', d'. rewrite <- app_assoc. rewrite ?Ed. cbn. split; [done|]. split; [done|lia].
  - split.
    + intros [|k] Hk Hf Hs; cbn.
      * exists d. rewrite ?Em. cbn. by rewrite app_nil_r.
      * apply fails_for_S in Hf as [[? Hx] _]. rewrite Em in Hx. done.
    + intros Hf. apply fails_for_S in Hf as [[? Hx] _]. rewrite Em in Hx. done.
Qed.
End OnFacts.
End RetryFacts.

(** ** Properties *)

(** For any error, [errors.Cause] follows the whole chain of [Unwrap]
    methods, including the last cause of a multi error: the result is reached
    by successive unwrapping and has nothing left to unwrap. *)
Theorem Cause_reaches_end_of_chain (e : error) :
  ∃ c, Cause (Some e) = Some c ∧ rtc unwraps_to e c ∧ Unwrap c = None.
Proof. exists (Cause1 e). split; [done|]. apply Cause1_end_of_chain. Qed.

(** [ChainedClosable.Close] closes every element, in order, even after
    failures; and it returns a non-nil error whose causes are exactly the
    reported failures -- also when nothing failed. *)
Theorem ChainedClosable_Close_spec {S} (cc : list (S → option error * S)) (s : S) :
  let '(rs, s') := run_all cc s in
  Lang.ChainedClosable_Close cc s =
    (Some (MultiErr (Some (ErrNew ErrCombine)) (reported rs)), s').
Proof.
  unfold Lang.ChainedClosable_Close. rewrite close_all_spec.
  by destruct (run_all cc s).
Qed.

(** [retryer.On] with [n] attempts: if the first success is call number
    [k < n] it stops there, returns nil and has slept the first [k] delays; if
    all [n] calls fail it returns [ErrRetryFailed] wrapping the failures with
    consecutive equal messages merged, after exactly [n] calls. *)
Theorem retry_On_spec {D S} (r : Retry.retryer D) (method : S → option error * S) (d : D) (s : S) :
  0 ≤ Retry.totalAttempt r →
  (∀ s e, (method s).1 = Some e → RetryFacts.printable e) →
  let n := Z.to_nat (Retry.totalAttempt r) in
  (∀ k, (k < n)%nat → RetryFacts.fails_for method k s →
     (method (RetryFacts.calls method k s)).1 = None →
     ∃ d', Retry.On r method d s =
       Ret (None, d', RetryFacts.calls method (Datatypes.S k) s, RetryFacts.delays r k d)) ∧
  (RetryFacts.fails_for method n s →
     ∃ errs d', Retry.On r method d s =
       Ret (Some (MultiErr (Some (ErrNew Retry.ErrRetryFailed)) errs), d',
            RetryFacts.calls method n s, RetryFacts.delays r n d) ∧
       RetryFacts.no_stutter errs ∧ (length errs ≤ n)%nat).
Proof.
  intros Hn Hp. cbn zeta. unfold Retry.On. zltb_solve.
  destruct (RetryFacts.On_loop_spec r method (Z.to_nat (Retry.totalAttempt r)) [] d s [] Hp)
    as [H1 H2]; [constructor|done|]. split; [exact H1|exact H2].
Qed.

(** Fails twice, then succeeds. *)
Definition flaky (n : nat) : option error * nat :=
  if (n <? 2)%nat then (Some (ErrNew EOF), S n) else (None, S n).

Lemma retry_On_spec_witness :
  ∃ d', Retry.On (Retry.Timed 5 100) flaky tt 0%nat = Ret (None, d', 3%nat, [100; 100]).
Proof.
  apply (retry_On_spec (Retry.Timed 5 100) flaky tt 0%nat ltac:(vm_compute; discriminate)
    ltac:(intros s e; unfold flaky; destruct (s <? 2)%nat; cbn; intros [= <-];
          exists "EOF"%string; reflexivity)) with (k := 2%nat).
  - vm_compute. lia.
  - intros [|[|i]] Hi; [eexists; reflexivity|eexists; reflexivity|lia].
  - reflexivity.
Defined.
