(* ===== verification/Wire.v ===== *)
(** * Byte order

    The functions of [encoding/binary] that the wire formats use, written with
    the shifts and masks of the library, and their inverses. *)
From S2P Require Import Prelude.

(** [binary.BigEndian.PutUint32]: the four bytes stored. *)
Definition be_PutUint32 (v : Z) : bytes :=
  [u8 (Z.shiftr v 24); u8 (Z.shiftr v 16); u8 (Z.shiftr v 8); u8 v].

(** [binary.BigEndian.Uint32] of four bytes. *)
Definition be_Uint32 (b0 b1 b2 b3 : Z) : Z :=
  Z.lor b3 (Z.lor (Z.shiftl b2 8) (Z.lor (Z.shiftl b1 16) (Z.shiftl b0 24))).

(** A 24-bit length, as the frame writers store it and the readers load it. *)
Definition put_len24 (length : Z) : bytes :=
  [u8 (Z.land (Z.shiftr length 16) 255); u8 (Z.land (Z.shiftr length 8) 255); u8 (Z.land length 255)].
Definition len24 (b0 b1 b2 : Z) : Z := Z.lor (Z.shiftl b0 16) (Z.lor (Z.shiftl b1 8) b2).

(** Little-endian value of a byte sequence ([binary.LittleEndian]). *)
Fixpoint le_value (l : bytes) : Z :=
  match l with [] => 0 | b :: l' => Z.lor b (Z.shiftl (le_value l') 8) end.

(** ** Arithmetic of the shifts *)

Lemma lor_shiftl_add a b k : 0 ≤ k → 0 ≤ a < 2 ^ k → Z.lor a (Z.shiftl b k) = a + b * 2 ^ k.
Proof.
  intros Hk Ha. rewrite <- Z.shiftl_mul_pow2 by done.
  assert (Z.land a (Z.shiftl b k) = 0) as Hl.
  { apply Z.bits_inj_0. intros n. rewrite Z.land_spec.
    destruct (Z.lt_ge_cases n k) as [Hn|Hn].
    - rewrite (Z.shiftl_spec_low b) by done. apply andb_false_r.
    - rewrite <- (Z.mod_small a (2 ^ k)) by done. rewrite Z.mod_pow2_bits_high by lia. done. }
  rewrite <- Z.lxor_lor by done. symmetry. by apply Z.add_nocarry_lxor.
Qed.

Lemma u8_range x : 0 ≤ u8 x < 256.
Proof. Transparent u8. unfold u8. apply Z.mod_pos_bound. lia. Qed.

Lemma u8_eq x : u8 x = x mod 256.
Proof. done. Qed.
#[global] Opaque u8.

Lemma shiftr_div v k : 0 ≤ k → Z.shiftr v k = v / 2 ^ k.
Proof. apply Z.shiftr_div_pow2. Qed.

Lemma land_255 x : Z.land x 255 = x mod 256.
Proof. apply (Z.land_ones x 8). lia. Qed.

Lemma land_mask31 x : Z.land x (2 ^ 31 - 1) = x mod 2 ^ 31.
Proof. apply (Z.land_ones x 31). lia. Qed.

(** The bytes of a number below 2^32 are its base-256 digits. *)
Lemma digits4 v :
  0 ≤ v < 2 ^ 32 → v = v mod 256 + 256 * (v / 256 mod 256) + 65536 * (v / 65536 mod 256) + 16777216 * (v / 16777216 mod 256).
Proof. intros Hv. Z.div_mod_to_equations. lia. Qed.

Lemma be_Uint32_value b0 b1 b2 b3 :
  is_byte b0 → is_byte b1 → is_byte b2 → is_byte b3 →
  be_Uint32 b0 b1 b2 b3 = b3 + 256 * b2 + 65536 * b1 + 16777216 * b0.
Proof.
  unfold is_byte. intros H0 H1 H2 H3. unfold be_Uint32.
  assert (Z.lor (Z.shiftl b1 16) (Z.shiftl b0 24) = Z.shiftl (b1 + 256 * b0) 16) as ->.
  { replace 24 with (8 + 16) by lia. rewrite <- Z.shiftl_shiftl, <- Z.shiftl_lor by lia.
    rewrite lor_shiftl_add by lia. f_equal. lia. }
  assert (Z.lor (Z.shiftl b2 8) (Z.shiftl (b1 + 256 * b0) 16) = Z.shiftl (b2 + 256 * (b1 + 256 * b0)) 8) as ->.
  { replace 16 with (8 + 8) by lia. rewrite <- Z.shiftl_shiftl, <- Z.shiftl_lor by lia.
    rewrite lor_shiftl_add by lia. f_equal. lia. }
  rewrite lor_shiftl_add by lia. lia.
Qed.

(** [Uint32] inverts [PutUint32]. *)
Lemma be_Uint32_PutUint32 v :
  0 ≤ v < 2 ^ 32 →
  be_Uint32 (u8 (Z.shiftr v 24)) (u8 (Z.shiftr v 16)) (u8 (Z.shiftr v 8)) (u8 v) = v.
Proof.
  intros Hv. rewrite be_Uint32_value by apply u8_range. rewrite !u8_eq, !shiftr_div by lia.
  change (2 ^ 24) with 16777216. change (2 ^ 16) with 65536. change (2 ^ 8) with 256.
  rewrite (digits4 v Hv) at 5. lia.
Qed.

Lemma len24_value b0 b1 b2 :
  is_byte b0 → is_byte b1 → is_byte b2 → len24 b0 b1 b2 = b2 + 256 * b1 + 65536 * b0.
Proof.
  unfold is_byte. intros H0 H1 H2. unfold len24.
  rewrite (Z.lor_comm (Z.shiftl b1 8)), lor_shiftl_add by lia.
  rewrite Z.lor_comm, lor_shiftl_add by lia. lia.
Qed.

Lemma len24_put n :
  0 ≤ n < 2 ^ 24 →
  len24 (u8 (Z.land (Z.shiftr n 16) 255)) (u8 (Z.land (Z.shiftr n 8) 255)) (u8 (Z.land n 255)) = n.
Proof.
  intros Hn. rewrite len24_value by apply u8_range. rewrite !u8_eq, !land_255, !shiftr_div by lia.
  change (2 ^ 16) with 65536. change (2 ^ 8) with 256. Z.div_mod_to_equations. lia.
Qed.
