(* ===== verification/NetAddr.v ===== *)
(** * Addresses, ports and destinations

    Package [net]: address.go, port.go, network.go and the constructors,
    conversions and accessors of destination.go.  Text forms (parsing and
    printing) are in [NetText]. *)
From S2P Require Import Prelude Errors.

(** ** Addresses

    The dynamic values of the interface [Address]; the nil interface is [None].
    The Go arrays [[4]byte] and [[16]byte] are byte lists ([addr_ok] fixes their
    lengths). *)
Inductive Address :=
  | ipv4Address (a : bytes)
  | ipv6Address (a : bytes)
  | domainAddress (d : bytes).

#[global] Instance Address_eq_dec : EqDecision Address.
Proof. solve_decision. Defined.

(** [AddressFamily] is a byte with three named values. *)
Definition AddressFamilyIPv4 : Z := 0.
Definition AddressFamilyIPv6 : Z := 1.
Definition AddressFamilyDomain : Z := 2.

Definition IsIPv4 (af : Z) : bool := af =? AddressFamilyIPv4.
Definition IsIPv6 (af : Z) : bool := af =? AddressFamilyIPv6.
Definition IsIP (af : Z) : bool := (af =? AddressFamilyIPv4) || (af =? AddressFamilyIPv6).
Definition IsDomain (af : Z) : bool := af =? AddressFamilyDomain.

Definition Family (a : Address) : Z :=
  match a with
  | ipv4Address _ => AddressFamilyIPv4
  | ipv6Address _ => AddressFamilyIPv6
  | domainAddress _ => AddressFamilyDomain
  end.

Definition IP (a : Address) : go bytes :=
  match a with
  | ipv4Address b => Ret b
  | ipv6Address b => Ret b
  | domainAddress _ => Panic "Calling IP() on a DomainAddress."
  end.

Definition Domain (a : Address) : go bytes :=
  match a with
  | ipv4Address _ => Panic "Calling Domain() on an IPv4Address."
  | ipv6Address _ => Panic "Calling Domain() on an IPv6Address."
  | domainAddress d => Ret d
  end.

Definition bytes0 : bytes := [0; 0; 0; 0; 0; 0; 0; 0; 0; 0].

(** The test [bytes.Equal(ip[:10], bytes0) && ip[10] == 0xff && ip[11] == 0xff]
    on a 16-byte address. *)
Definition is_v4_mapped (ip : bytes) : bool :=
  bool_decide (take 10 ip = bytes0) &&
  bool_decide (ip !! 10%nat = Some 255) && bool_decide (ip !! 11%nat = Some 255).

Definition IPAddress (ip : bytes) : option Address :=
  match length ip with
  | 4%nat => Some (ipv4Address ip)
  | 16%nat =>
      if is_v4_mapped ip then Some (ipv4Address (take 4 (drop 12 ip)))
      else Some (ipv6Address ip)
  | _ => None
  end.

Definition DomainAddress (domain : bytes) : option Address := Some (domainAddress domain).

Definition LocalHostIP : option Address := IPAddress [127; 0; 0; 1].
Definition AnyIP : option Address := IPAddress [0; 0; 0; 0].
Definition LocalHostDomain : option Address := DomainAddress (str "localhost").
Definition LocalHostIPv6 : option Address := IPAddress [0; 0; 0; 0; 0; 0; 0; 0; 0; 0; 0; 0; 0; 0; 0; 1].
Definition AnyIPv6 : option Address := IPAddress (replicate 16 0).

(** *** The protobuf form of an address *)

Inductive oneof_address := IPOrDomain_Ip (ip : bytes) | IPOrDomain_Domain (d : bytes).

(** [*IPOrDomain]: nil, or a message whose oneof may be unset. *)
Definition IPOrDomain : Type := option (option oneof_address).

Definition AsAddress (d : IPOrDomain) : go (option Address) :=
  match d with
  | None => Ret None
  | Some (Some (IPOrDomain_Ip ip)) => Ret (IPAddress ip)
  | Some (Some (IPOrDomain_Domain dom)) => Ret (DomainAddress dom)
  | Some None => Panic "Common|Net: Invalid address."
  end.

Definition NewIPOrDomain (addr : option Address) : go IPOrDomain :=
  match addr with
  | None => Panic nil_deref
  | Some a =>
      if Family a =? AddressFamilyDomain then
        d ← Domain a; Ret (Some (Some (IPOrDomain_Domain d)))
      else if (Family a =? AddressFamilyIPv4) || (Family a =? AddressFamilyIPv6) then
        ip ← IP a; Ret (Some (Some (IPOrDomain_Ip ip)))
      else Panic "Unknown Address type."
  end.

(** ** Ports *)

(** [type Port uint16] *)
Definition Port (x : Z) : Z := u16 x.

(** [binary.BigEndian.Uint16]: reads two bytes, panics on fewer. *)
Definition PortFromBytes (port : bytes) : go Z :=
  match port with
  | b0 :: b1 :: _ => Ret (Port (Z.lor (Z.shiftl b0 8) b1))
  | _ => Panic oob_index
  end.

Definition PortFromInt (val : Z) : Z * option error :=
  if 65535 <? val then (Port 0, Some (Errorf "invalid port range" None))
  else (Port val, None).

Record PortRange := mkPortRange { pr_From : Z; pr_To : Z }.

Definition FromPort (p : PortRange) : Z := Port (pr_From p).
Definition ToPort (p : PortRange) : Z := Port (pr_To p).
Definition PortRange_Contains (p : PortRange) (port : Z) : bool :=
  (FromPort p <=? port) && (port <=? ToPort p).
Definition SinglePortRange (p : Z) : PortRange := mkPortRange (u32 p) (u32 p).

Record MemoryPortRange := mkMemoryPortRange { mpr_From : Z; mpr_To : Z }.

Definition MemoryPortRange_Contains (r : MemoryPortRange) (port : Z) : bool :=
  (mpr_From r <=? port) && (port <=? mpr_To r).

Definition PortListFromProto (l : list PortRange) : list MemoryPortRange :=
  (λ r, mkMemoryPortRange (Port (pr_From r)) (Port (pr_To r))) <$> l.

Fixpoint MemoryPortList_Contains (mpl : list MemoryPortRange) (port : Z) : bool :=
  match mpl with
  | [] => false
  | pr :: mpl' => if MemoryPortRange_Contains pr port then true else MemoryPortList_Contains mpl' port
  end.

(** ** Networks *)

Inductive Network :=
  | Network_Unknown | Network_RawTCP | Network_TCP | Network_UDP | Network_UNIX.

#[global] Instance Network_eq_dec : EqDecision Network.
Proof. solve_decision. Defined.

Definition SystemString (n : Network) : bytes :=
  match n with
  | Network_TCP => str "tcp"
  | Network_UDP => str "udp"
  | Network_UNIX => str "unix"
  | _ => str "unknown"
  end.

Fixpoint HasNetwork (l : list Network) (network : Network) : bool :=
  match l with
  | [] => false
  | value :: l' => if bool_decide (value = network) then true else HasNetwork l' network
  end.

(** ** Destinations *)

Record Destination := mkDestination {
  d_Address : option Address;
  d_Port : Z;
  d_Network : Network
}.

#[global] Instance Destination_eq_dec : EqDecision Destination.
Proof. solve_decision. Defined.

(** The concrete types behind the standard library's [net.Addr]. *)
Inductive net_Addr :=
  | TCPAddr (ip : bytes) (port : Z)
  | UDPAddr (ip : bytes) (port : Z)
  | UnixAddr (name netw : bytes)
  | OtherAddr.

Definition TCPDestination (address : option Address) (port : Z) : Destination :=
  mkDestination address port Network_TCP.
Definition UDPDestination (address : option Address) (port : Z) : Destination :=
  mkDestination address port Network_UDP.
Definition UnixDestination (address : option Address) : Destination :=
  mkDestination address 0 Network_UNIX.

Definition DestinationFromAddr (addr : net_Addr) : go Destination :=
  match addr with
  | TCPAddr ip port => Ret (TCPDestination (IPAddress ip) (Port port))
  | UDPAddr ip port => Ret (UDPDestination (IPAddress ip) (Port port))
  | UnixAddr name _ => Ret (UnixDestination (DomainAddress name))
  | OtherAddr => Panic "Net: Unknown address type."
  end.

(** [d.Address.Family()] on a possibly nil address. *)
Definition family_of (a : option Address) : go Z :=
  match a with Some a => Ret (Family a) | None => Panic nil_deref end.

Definition ip_of (a : option Address) : go bytes :=
  match a with Some a => IP a | None => Panic nil_deref end.

Definition domain_of (a : option Address) : go bytes :=
  match a with Some a => Domain a | None => Panic nil_deref end.

(** [Address.String()] of a domain address is the domain itself, which is all
    [RawNetAddr] uses of it. *)
Definition RawNetAddr (d : Destination) : go (option net_Addr) :=
  match d_Network d with
  | Network_TCP =>
      f ← family_of (d_Address d);
      if IsIP f then ip ← ip_of (d_Address d); Ret (Some (TCPAddr ip (d_Port d))) else Ret None
  | Network_UDP =>
      f ← family_of (d_Address d);
      if IsIP f then ip ← ip_of (d_Address d); Ret (Some (UDPAddr ip (d_Port d))) else Ret None
  | Network_UNIX =>
      f ← family_of (d_Address d);
      if IsDomain f then
        name ← domain_of (d_Address d);
        Ret (Some (UnixAddr name (SystemString (d_Network d))))
      else Ret None
  | _ => Ret None
  end.

Definition IsValid (d : Destination) : bool := negb (bool_decide (d_Network d = Network_Unknown)).

Record Endpoint := mkEndpoint { e_Network : Network; e_Address : IPOrDomain; e_Port : Z }.

Definition AsDestination (p : Endpoint) : go Destination :=
  a ← AsAddress (e_Address p);
  Ret (mkDestination a (Port (e_Port p)) (e_Network p)).

(** ** Well-formed values *)

(** What the constructors of the package produce: array lengths, and an IPv6
    value is never an IPv4-mapped one. *)
Definition addr_ok (a : Address) : Prop :=
  match a with
  | ipv4Address b => length b = 4%nat ∧ is_bytes b
  | ipv6Address b => length b = 16%nat ∧ is_bytes b ∧ is_v4_mapped b = false
  | domainAddress _ => True
  end.

Definition port_ok (p : Z) : Prop := 0 ≤ p < 65536.

(** ** Lemmas *)

Lemma IPAddress_ok ip a : is_bytes ip → IPAddress ip = Some a → addr_ok a.
Proof.
  intros Hb. unfold IPAddress. destruct (length ip) as [|n] eqn:Hl; [done|].
  do 15 (destruct n as [|n]; [first [done | intros [= <-]; by split]|]).
  destruct n as [|n]; [|done]. destruct (is_v4_mapped ip) eqn:Hm; intros [= <-]; [|done].
  split; [rewrite length_take, length_drop; lia|]. by apply Forall_take, Forall_drop.
Qed.

Lemma IPAddress_IP a b : addr_ok a → IP a = Ret b → IPAddress b = Some a.
Proof.
  destruct a as [x|x|x]; cbn; intros H [= <-]; unfold IPAddress.
  - by rewrite (proj1 H).
  - destruct H as (-> & _ & ->). done.
Qed.

Lemma MemoryPortList_Contains_spec l port :
  MemoryPortList_Contains l port = existsb (λ r, MemoryPortRange_Contains r port) l.
Proof. induction l as [|r l IH]; cbn; [done|]. rewrite IH. by case_if. Qed.

Lemma HasNetwork_spec l n : HasNetwork l n = true ↔ n ∈ l.
Proof.
  induction l as [|x l IH]; cbn; [by split; [|intros ?%elem_of_nil]|].
  rewrite elem_of_cons. case_bool_decide; subst; [by split; [left|]|].
  rewrite IH. split; [by right|]. by intros [->|?].
Qed.
