(* ===== verification/NetText.v ===== *)
(** * Text forms of addresses, ports and destinations

    The parsing and printing functions of package [net]: [ParseAddress] and the
    [String] methods of address.go, [PortFromString] of port.go, and
    [ParseDestination], [NetAddr] and [String] of destination.go.  Of the
    standard library: [net.ParseIP], [net.IP.String], [net.SplitHostPort],
    [strconv.ParseUint], [strconv.Itoa] and [strings.TrimSpace].  Strings are
    byte lists. *)
From S2P Require Import Prelude Errors NetAddr.

(** ** Numbers *)

Definition is_digit (c : Z) : bool := (48 <=? c) && (c <=? 57).

(** Decimal digits of a number below [10 ^ fuel]. *)
Fixpoint digits (fuel : nat) (n : Z) : bytes :=
  match fuel with
  | O => []
  | S fuel' => (if n <? 10 then [] else digits fuel' (n / 10)) ++ [48 + n mod 10]
  end.

(** [strconv.Itoa] of a number that is not negative. *)
Definition Itoa (n : Z) : bytes := digits 20 n.

Fixpoint parse_digits (s : bytes) (acc : Z) : option Z :=
  match s with
  | [] => Some acc
  | c :: s' => if is_digit c then parse_digits s' (10 * acc + (c - 48)) else None
  end.

(** [strconv.ParseUint(s, 10, 32)]; [None]: an error. *)
Definition ParseUint32 (s : bytes) : option Z :=
  match s with
  | [] => None
  | _ => v ← parse_digits s 0; if v <? 2 ^ 32 then Some v else None
  end.

Definition PortFromString (s : bytes) : Z * option error :=
  match ParseUint32 s with
  | None => (Port 0, Some (Errorf "invalid port range" None))
  | Some val => PortFromInt (u32 val)
  end.

Definition Port_Value (p : Z) : Z := u16 p.
Definition Port_String (p : Z) : bytes := Itoa p.

(** ** strings.TrimSpace *)

(** The encodings of the characters with property White_Space. *)
Definition space_seqs : list bytes :=
  [[9]; [10]; [11]; [12]; [13]; [32]; [194; 133]; [194; 160]; [225; 154; 128];
   [226; 128; 128]; [226; 128; 129]; [226; 128; 130]; [226; 128; 131]; [226; 128; 132]; [226; 128; 133];
   [226; 128; 134]; [226; 128; 135]; [226; 128; 136]; [226; 128; 137]; [226; 128; 138];
   [226; 128; 168]; [226; 128; 169]; [226; 128; 175]; [226; 129; 159]; [227; 128; 128]].

(** Strip the sequences of [seqs] from the front, as often as they occur. *)
Fixpoint strip (fuel : nat) (seqs : list bytes) (s : bytes) : bytes :=
  match fuel with
  | O => s
  | S fuel' =>
      match filter (λ q, q `prefix_of` s) seqs with
      | [] => s
      | q :: _ => strip fuel' seqs (drop (length q) s)
      end
  end.

Definition TrimSpace (s : bytes) : bytes :=
  let s1 := strip (length s) space_seqs s in
  reverse (strip (length s1) (reverse <$> space_seqs) (reverse s1)).

(** ** net.ParseIP (net/netip) *)

(** [parseIPv4Fields]: [prev] is the character before; [None] at the start. *)
Fixpoint v4_fields (s : bytes) (prev : option Z) (val digLen : Z) (fields : bytes) : option bytes :=
  match s with
  | [] => if (length fields <? 3)%nat then None else Some (fields ++ [u8 val])
  | c :: s' =>
      if is_digit c then
        if (digLen =? 1) && (val =? 0) then None
        else
          let val' := val * 10 + c - 48 in
          if 255 <? val' then None else v4_fields s' (Some c) val' (digLen + 1) fields
      else if c =? 46 then
        if bool_decide (prev = None) || bool_decide (s' = []) || bool_decide (prev = Some 46) then None
        else if (length fields =? 3)%nat then None
        else v4_fields s' (Some c) 0 0 (fields ++ [u8 val])
      else None
  end.

Definition hex_value (c : Z) : option Z :=
  if is_digit c then Some (c - 48)
  else if (97 <=? c) && (c <=? 102) then Some (c - 87)
  else if (65 <=? c) && (c <=? 70) then Some (c - 55)
  else None.

(** The hexadecimal number at the front: its digits, value and what follows;
    [None]: more than four digits. *)
Fixpoint hex_run (s : bytes) (off acc : Z) : option (Z * Z * bytes) :=
  match s with
  | [] => Some (off, acc, [])
  | c :: s' =>
      match hex_value c with
      | None => Some (off, acc, s)
      | Some v =>
          let acc' := acc * 16 + v in
          if 3 <? off then None else if 65535 <? acc' then None else hex_run s' (off + 1) acc'
      end
  end.

(** The loop of [parseIPv6]: [ip] the bytes stored so far, [ell] the position
    of the ellipsis.  Each turn stores two bytes, so eight turns suffice. *)
Fixpoint v6_loop (fuel : nat) (s ip : bytes) (ell : option nat) : option (bytes * bytes * option nat) :=
  match fuel with
  | O => Some (s, ip, ell)
  | S fuel' =>
      match hex_run s 0 0 with
      | None => None
      | Some (off, acc, rest) =>
          if off =? 0 then None
          else
            match rest with
            | 46 :: _ =>
                if bool_decide (ell = None) && negb (length ip =? 12)%nat then None
                else if (16 <? length ip + 4)%nat then None
                else f ← v4_fields s None 0 0 []; Some ([], ip ++ f, ell)
            | [] => Some ([], ip ++ [u8 (Z.shiftr acc 8); u8 acc], ell)
            | c :: rest1 =>
                let ip' := ip ++ [u8 (Z.shiftr acc 8); u8 acc] in
                if negb (c =? 58) then None
                else
                  match rest1 with
                  | [] => None
                  | 58 :: rest2 =>
                      if bool_decide (ell = None) then
                        match rest2 with
                        | [] => Some ([], ip', Some (length ip'))
                        | _ => v6_loop fuel' rest2 ip' (Some (length ip'))
                        end
                      else None
                  | _ => v6_loop fuel' rest1 ip' ell
                  end
            end
      end
  end.

Definition parseIPv6 (s : bytes) : option bytes :=
  let '(ell, s1) := match s with 58 :: 58 :: s' => (Some 0%nat, s') | _ => (None, s) end in
  if bool_decide (ell = Some 0%nat) && bool_decide (s1 = []) then Some (replicate 16 0)
  else
    '(rest, ip, ell') ← v6_loop 8 s1 [] ell;
    if negb (bool_decide (rest = [])) then None
    else if (length ip <? 16)%nat then
      match ell' with
      | None => None
      | Some e => Some (take e ip ++ replicate (16 - length ip) 0 ++ drop e ip)
      end
    else match ell' with Some _ => None | None => Some ip end.

(** [netip.ParseAddr] decides by the first dot, colon or percent sign. *)
Fixpoint first_sep (s : bytes) : option Z :=
  match s with
  | [] => None
  | c :: s' => if (c =? 46) || (c =? 58) || (c =? 37) then Some c else first_sep s'
  end.

(** [net.ParseIP]: sixteen bytes; an address with a zone is refused. *)
Definition ParseIP (s : bytes) : option bytes :=
  match first_sep s with
  | Some 46 => f ← v4_fields s None 0 0 []; Some (bytes0 ++ [255; 255] ++ f)
  | Some 58 => if bool_decide (37 ∈ s) then None else parseIPv6 s
  | _ => None
  end.

(** ** net.IP.String *)

Definition v4_string (ip : bytes) : bytes :=
  match ip with
  | [a; b; c; d] => Itoa a ++ [46] ++ Itoa b ++ [46] ++ Itoa c ++ [46] ++ Itoa d
  | _ => str "?"
  end.

Definition hex_digit (n : Z) : Z := if n <? 10 then 48 + n else 87 + n.

(** [appendHex]: no leading zeros. *)
Definition v6_hex (x : Z) : bytes :=
  (if 4096 <=? x then [hex_digit (x / 4096)] else []) ++
  (if 256 <=? x then [hex_digit (x / 256 mod 16)] else []) ++
  (if 16 <=? x then [hex_digit (x / 16 mod 16)] else []) ++ [hex_digit (x mod 16)].

Fixpoint v6_groups (ip : bytes) : list Z :=
  match ip with
  | a :: b :: ip' => 256 * a + b :: v6_groups ip'
  | _ => []
  end.

(** The number of zero groups at the front. *)
Fixpoint zero_run (gs : list Z) : nat :=
  match gs with 0 :: gs' => S (zero_run gs') | _ => 0 end.

(** The first longest run of at least two zero groups: start and length. *)
Fixpoint zero_scan (gs : list Z) (i : nat) (best : nat * nat) : nat * nat :=
  match gs with
  | [] => best
  | _ :: gs' =>
      let l := zero_run gs in
      zero_scan gs' (S i) (if (2 <=? l)%nat && (snd best <? l)%nat then (i, l) else best)
  end.

Fixpoint join_groups (gs : list Z) : bytes :=
  match gs with
  | [] => []
  | [g] => v6_hex g
  | g :: gs' => v6_hex g ++ [58] ++ join_groups gs'
  end.

Definition v6_string (ip : bytes) : bytes :=
  let gs := v6_groups ip in
  let '(start, len) := zero_scan gs 0 (0%nat, 0%nat) in
  if (len =? 0)%nat then join_groups gs
  else join_groups (take start gs) ++ [58; 58] ++ join_groups (drop (start + len) gs).

(** ** address.go *)

Definition isAlphaNum (c : Z) : bool :=
  ((48 <=? c) && (c <=? 57)) || ((97 <=? c) && (c <=? 122)) || ((65 <=? c) && (c <=? 90)).

(** The tests on the first and the last character of a string that is not empty. *)
Definition first_is (p : Z → bool) (s : bytes) : bool := match s with c :: _ => p c | [] => false end.
Definition last_is (p : Z → bool) (s : bytes) : bool := match last s with Some c => p c | None => false end.

Definition ParseAddress (addr : bytes) : option Address :=
  let addr := if first_is (Z.eqb 91) addr && last_is (Z.eqb 93) addr
              then take (length addr - 2) (drop 1 addr) else addr in
  let addr := if bool_decide (addr ≠ []) && (negb (first_is isAlphaNum addr) || negb (last_is isAlphaNum addr))
              then TrimSpace addr else addr in
  match ParseIP addr with
  | Some ip => IPAddress ip
  | None => DomainAddress addr
  end.

Definition Address_String (a : Address) : bytes :=
  match a with
  | ipv4Address b => v4_string b
  | ipv6Address b => [91] ++ v6_string b ++ [93]
  | domainAddress d => d
  end.

(** ** net.SplitHostPort *)

(** The positions of the first and of the last occurrence of a byte. *)
Definition IndexByte (c : Z) (s : bytes) : option nat := fst <$> list_find (eq c) s.
Definition LastIndexByte (c : Z) (s : bytes) : option nat :=
  (λ p, (length s - 1 - fst p)%nat) <$> list_find (eq c) (reverse s).

Definition addrErr (why : string) : bytes * bytes * option error := ([], [], Some (Errorf why None)).

Definition SplitHostPort (hostport : bytes) : bytes * bytes * option error :=
  match LastIndexByte 58 hostport with
  | None => addrErr "missing port in address"
  | Some i =>
      let finish (host : bytes) (j k : nat) :=
        if bool_decide (91 ∈ drop j hostport) then addrErr "unexpected '[' in address"
        else if bool_decide (93 ∈ drop k hostport) then addrErr "unexpected ']' in address"
        else (host, drop (S i) hostport, None) in
      if first_is (Z.eqb 91) hostport then
        match IndexByte 93 hostport with
        | None => addrErr "missing ']' in address"
        | Some e =>
            if (S e =? length hostport)%nat then addrErr "missing port in address"
            else if (S e =? i)%nat then finish (take (e - 1) (drop 1 hostport)) 1%nat (S e)
            else if bool_decide (hostport !! S e = Some 58) then addrErr "too many colons in address"
            else addrErr "missing port in address"
        end
      else
        let host := take i hostport in
        if bool_decide (58 ∈ host) then addrErr "too many colons in address" else finish host 0%nat 0%nat
  end.

(** ** destination.go *)

Definition ParseDestination (dest : bytes) : Destination * option error :=
  let d := mkDestination AnyIP (Port 0) Network_Unknown in
  let with_host (d : Destination) (dest : bytes) :=
    let '(hstr, pstr, err) := SplitHostPort dest in
    match err with
    | Some e => (d, Some e)
    | None =>
        let d1 := if bool_decide (hstr = []) then d else mkDestination (ParseAddress hstr) (d_Port d) (d_Network d) in
        if bool_decide (pstr = []) then (d1, None)
        else
          match PortFromString pstr with
          | (_, Some e) => (d1, Some e)
          | (port, None) => (mkDestination (d_Address d1) port (d_Network d1), None)
          end
    end in
  if bool_decide (str "tcp:" `prefix_of` dest) then
    with_host (mkDestination (d_Address d) (d_Port d) Network_TCP) (drop 4 dest)
  else if bool_decide (str "udp:" `prefix_of` dest) then
    with_host (mkDestination (d_Address d) (d_Port d) Network_UDP) (drop 4 dest)
  else if bool_decide (str "unix:" `prefix_of` dest) then
    (UnixDestination (DomainAddress (drop 5 dest)), None)
  else with_host d dest.

(** [d.Address.String()]; a nil address panics. *)
Definition string_of (a : option Address) : go bytes :=
  match a with Some a => Ret (Address_String a) | None => Panic nil_deref end.

Definition NetAddr (d : Destination) : go bytes :=
  match d_Network d with
  | Network_TCP | Network_UDP => a ← string_of (d_Address d); Ret (a ++ str ":" ++ Port_String (d_Port d))
  | Network_UNIX => string_of (d_Address d)
  | _ => Ret []
  end.

Definition Destination_String (d : Destination) : go bytes :=
  let prefix := match d_Network d with
                | Network_TCP => str "tcp:"
                | Network_UDP => str "udp:"
                | Network_UNIX => str "unix:"
                | _ => str "unknown:"
                end in
  a ← NetAddr d; Ret (prefix ++ a).

(** ** Examples from the tests of the package *)

Example parse_v6 : ParseDestination (str "udp:[2001:4860:4860::8888]:53") =
  (UDPDestination (Some (ipv6Address [32; 1; 72; 96; 72; 96; 0; 0; 0; 0; 0; 0; 0; 0; 136; 136])) 53, None).
Proof. vm_compute. reflexivity. Qed.

Example print_v6 :
  Destination_String (UDPDestination (Some (ipv6Address [32; 1; 72; 96; 72; 96; 0; 0; 0; 0; 0; 0; 0; 0; 136; 136])) 53) =
  Ret (str "udp:[2001:4860:4860::8888]:53").
Proof. vm_compute. reflexivity. Qed.

Example parse_errors : Forall (λ s, (ParseDestination (str s)).2 ≠ None) ["8.8.8.8"; "8.8.8.8:http"; "/tmp/test.sock"]%string.
Proof. repeat constructor; vm_compute; discriminate. Qed.

Example parse_any : ParseDestination (str ":53") = (mkDestination AnyIP 53 Network_Unknown, None).
Proof. vm_compute. reflexivity. Qed.

Example parse_mapped : ParseAddress (str "[::ffff:1.2.3.4]") = Some (ipv4Address [1; 2; 3; 4]).
Proof. vm_compute. reflexivity. Qed.

Example parse_spaces : ParseAddress (str " example.com ") = Some (domainAddress (str "example.com")).
Proof. vm_compute. reflexivity. Qed.
