(* ===== verification/NetTextSpec.v ===== *)
(** * The text forms read back

    [ParseAddress] and [ParseDestination] invert the [String] methods, for
    every IPv4 and IPv6 address, for domains that are not taken for something
    else, and for every port. *)
From S2P Require Import Prelude Errors Wire NetAddr NetText.

(** ** Decimal numbers *)

Lemma parse_digits_app a b acc : parse_digits (a ++ b) acc = parse_digits a acc ≫= parse_digits b.
Proof. revert acc. induction a as [|c a IH]; intros acc; [done|]. cbn [app parse_digits]. by case_if. Qed.

Lemma is_digit_mod n : is_digit (48 + n mod 10) = true.
Proof. unfold is_digit. assert (0 ≤ n mod 10 < 10) by (apply Z.mod_pos_bound; lia). by zltb_solve. Qed.

Lemma parse_digits_digits fuel n : 0 ≤ n < 10 ^ Z.of_nat fuel → parse_digits (digits fuel n) 0 = Some n.
Proof.
  revert n. induction fuel as [|fuel IH]; intros n Hn.
  { change (10 ^ Z.of_nat 0) with 1 in Hn. cbn. f_equal. lia. }
  cbn [digits]. rewrite parse_digits_app.
  assert (Hlast : ∀ q, parse_digits [48 + n mod 10] q = Some (10 * q + n mod 10)).
  { intros q. cbn [parse_digits]. rewrite is_digit_mod. f_equal. lia. }
  destruct (n <? 10) eqn:E; bool_hyps.
  - change (parse_digits [48 + n mod 10] 0 = Some n). rewrite Hlast, Z.mod_small by lia. f_equal; lia.
  - rewrite IH.
    + change (parse_digits [48 + n mod 10] (n / 10) = Some n). rewrite Hlast. f_equal. pose proof (Z.div_mod n 10). lia.
    + rewrite Nat2Z.inj_succ, Z.pow_succ_r in Hn by lia. split; [apply Z.div_pos; lia|]. apply Z.div_lt_upper_bound; lia.
Qed.

Lemma digits_ok fuel n : Forall (λ c, is_digit c = true) (digits fuel n).
Proof.
  revert n. induction fuel as [|fuel IH]; intros n; [constructor|]. cbn [digits]. apply Forall_app_2.
  - case_if; [constructor|apply IH].
  - repeat constructor. apply is_digit_mod.
Qed.

Lemma digits_nonempty fuel n : digits (S fuel) n ≠ [].
Proof. cbn [digits]. by destruct (if n <? 10 then [] else _). Qed.

Lemma Port_roundtrip p : port_ok p → PortFromString (Port_String p) = (p, None).
Proof.
  intros Hp. unfold port_ok in Hp. unfold PortFromString, Port_String, ParseUint32, Itoa.
  pose proof (digits_nonempty 19 p). destruct (digits 20 p) as [|c s] eqn:E; [done|]. rewrite <- E.
  rewrite parse_digits_digits by lia. cbn [mbind option_bind]. zltb_solve.
  unfold PortFromInt, Port. rewrite u32_id by lia. zltb_solve. by rewrite u16_id by lia.
Qed.

(** ** Dotted addresses *)

Lemma v4_digit c s prev val k fields :
  0 ≤ c < 10 → (k = 1 → val ≠ 0) → val * 10 + c ≤ 255 →
  v4_fields ((48 + c) :: s) prev val k fields = v4_fields s (Some (48 + c)) (val * 10 + c) (k + 1) fields.
Proof.
  intros Hc Hk Hv. cbn [v4_fields]. unfold is_digit. zltb_solve. cbn [andb].
  assert ((k =? 1) && (val =? 0) = false) as ->.
  { destruct (k =? 1) eqn:Ek; [|done]. bool_hyps. specialize (Hk Ek). by zltb_solve. }
  zltb_solve. f_equal. lia.
Qed.

Lemma Itoa_byte b : is_byte b →
  Itoa b = (if b <? 10 then [48 + b] else if b <? 100 then [48 + b / 10; 48 + b mod 10]
            else [48 + b / 100; 48 + b / 10 mod 10; 48 + b mod 10]).
Proof.
  intros Hb. unfold is_byte in Hb. unfold Itoa. cbn [digits].
  destruct (b <? 10) eqn:E1; bool_hyps.
  { by rewrite Z.mod_small by lia. }
  assert (b / 10 < 10 ↔ b < 100) by (split; intros; Z.div_mod_to_equations; lia).
  destruct (b <? 100) eqn:E2; bool_hyps.
  { rewrite (proj2 (Z.ltb_lt (b / 10) 10)) by lia. cbn [app]. do 2 f_equal. symmetry. rewrite Z.mod_small; [done|].
    split; [apply Z.div_pos; lia|lia]. }
  rewrite (proj2 (Z.ltb_ge (b / 10) 10)) by lia.
  assert (0 ≤ b / 10 / 10 < 10) by (Z.div_mod_to_equations; lia).
  rewrite (proj2 (Z.ltb_lt (b / 10 / 10) 10)) by lia. cbn [app]. rewrite (Z.mod_small (b / 10 / 10)) by lia.
  by rewrite Z.div_div by lia.
Qed.

(** An octet is read back. *)
Lemma v4_octet b : is_byte b → ∃ c k, is_digit c = true ∧
  ∀ s prev fields, v4_fields (Itoa b ++ s) prev 0 0 fields = v4_fields s (Some c) b k fields.
Proof.
  intros Hb. rewrite (Itoa_byte b Hb). unfold is_byte in Hb.
  assert (Hd : ∀ c, 0 ≤ c < 10 → is_digit (48 + c) = true) by (intros c Hc; unfold is_digit; by zltb_solve).
  assert (0 ≤ b mod 10 < 10) by (apply Z.mod_pos_bound; lia).
  destruct (b <? 10) eqn:E1; bool_hyps; [|destruct (b <? 100) eqn:E2; bool_hyps].
  - exists (48 + b), 1. split; [apply Hd; lia|]. intros s prev fields. cbn [app]. rewrite v4_digit by lia. done.
  - exists (48 + b mod 10), 2. split; [by apply Hd|]. intros s prev fields. cbn [app].
    assert (1 ≤ b / 10 < 10) by (Z.div_mod_to_equations; lia). pose proof (Z.div_mod b 10).
    rewrite v4_digit by lia. rewrite v4_digit by lia. f_equal. lia.
  - exists (48 + b mod 10), 3. split; [by apply Hd|]. intros s prev fields. cbn [app].
    assert (1 ≤ b / 100 < 10) by (Z.div_mod_to_equations; lia).
    assert (0 ≤ b / 10 mod 10 < 10) by (apply Z.mod_pos_bound; lia).
    assert (b / 100 * 10 + b / 10 mod 10 = b / 10) by (change 100 with (10 * 10); rewrite <- Z.div_div by lia; pose proof (Z.div_mod (b / 10) 10); lia).
    pose proof (Z.div_mod b 10). rewrite v4_digit by lia. rewrite v4_digit by lia. rewrite v4_digit by lia. f_equal. lia.
Qed.

Lemma v4_dot c s val k fields :
  is_digit c = true → s ≠ [] → (length fields < 3)%nat → is_byte val →
  v4_fields (46 :: s) (Some c) val k fields = v4_fields s (Some 46) 0 0 (fields ++ [val]).
Proof.
  intros Hc Hs Hf Hv. cbn [v4_fields]. change (is_digit 46) with false. change (46 =? 46) with true. cbn match.
  rewrite (bool_decide_eq_false_2 (Some c = None)) by done. rewrite (bool_decide_eq_false_2 (s = [])) by done.
  rewrite (bool_decide_eq_false_2 (Some c = Some 46)) by (intros [= ->]; done). cbn [orb].
  rewrite (proj2 (Nat.eqb_neq (length fields) 3)) by lia. unfold is_byte in Hv. by rewrite u8_id by lia.
Qed.

(** Characters that are no separators of an address. *)
Lemma first_sep_app a s : Forall (λ c, c ≠ 46 ∧ c ≠ 58 ∧ c ≠ 37) a → first_sep (a ++ s) = first_sep s.
Proof. induction 1 as [|c a (H1 & H2 & H3) Ha IH]; [done|]. cbn [app first_sep]. zltb_solve. by cbn [orb]. Qed.

Lemma digits_plain fuel n : Forall (λ c, c ≠ 46 ∧ c ≠ 58 ∧ c ≠ 37) (digits fuel n).
Proof. eapply Forall_impl; [apply digits_ok|]. unfold is_digit. intros c Hc. bool_hyps. lia. Qed.

Lemma Itoa_nonempty n : Itoa n ≠ [].
Proof. apply digits_nonempty. Qed.

Lemma ParseIP_v4 a b c d :
  is_byte a → is_byte b → is_byte c → is_byte d →
  ParseIP (v4_string [a; b; c; d]) = Some (bytes0 ++ [255; 255] ++ [a; b; c; d]).
Proof.
  intros Ha Hb Hc Hd. unfold ParseIP, v4_string.
  rewrite first_sep_app by apply digits_plain. change (first_sep ([46] ++ _)) with (Some 46). cbn match.
  destruct (v4_octet a Ha) as (xa & ka & Hxa & ->). cbn [app]. rewrite v4_dot; try done; [|by destruct (Itoa b)|cbn; lia].
  destruct (v4_octet b Hb) as (xb & kb & Hxb & ->). cbn [app]. rewrite v4_dot; try done; [|by destruct (Itoa c)|cbn; lia].
  destruct (v4_octet c Hc) as (xc & kc & Hxc & ->). cbn [app].
  rewrite v4_dot; try done; [|apply Itoa_nonempty|cbn; lia].
  destruct (v4_octet d Hd) as (xd & kd & Hxd & Hd'). specialize (Hd' [] (Some 46)). rewrite app_nil_r in Hd'. rewrite Hd'.
  unfold is_byte in Hd. cbn. by rewrite u8_id by lia.
Qed.

(** ** IPv6 addresses *)

Lemma hex_value_digit n : 0 ≤ n < 16 → hex_value (hex_digit n) = Some n.
Proof.
  intros Hn. unfold hex_value, hex_digit, is_digit. destruct (n <? 10) eqn:E; bool_hyps; zltb_solve; cbn [andb]; f_equal; lia.
Qed.

(** What may follow a group: nothing, or a character that is no digit. *)
Definition stops (s : bytes) : Prop := match s with [] => True | c :: _ => hex_value c = None end.

Lemma hex_run_stop s off acc : stops s → hex_run s off acc = Some (off, acc, s).
Proof. destruct s as [|c s]; [done|]. cbn. by intros ->. Qed.

Lemma hex_run_digit n s off acc : 0 ≤ n < 16 → off ≤ 3 → acc * 16 + n ≤ 65535 →
  hex_run (hex_digit n :: s) off acc = hex_run s (off + 1) (acc * 16 + n).
Proof. intros Hn Ho Ha. cbn [hex_run]. rewrite hex_value_digit by done. by zltb_solve. Qed.

Lemma hex_run_group g s : 0 ≤ g < 65536 → stops s → ∃ k, 0 < k ∧ hex_run (v6_hex g ++ s) 0 0 = Some (k, g, s).
Proof.
  intros Hg Hs. unfold v6_hex.
  assert (0 ≤ g mod 16 < 16) by (apply Z.mod_pos_bound; lia).
  assert (0 ≤ g / 16 mod 16 < 16) by (apply Z.mod_pos_bound; lia).
  assert (0 ≤ g / 256 mod 16 < 16) by (apply Z.mod_pos_bound; lia).
  assert (0 ≤ g / 4096 < 16) by (Z.div_mod_to_equations; lia).
  assert (g = g / 16 * 16 + g mod 16) by (pose proof (Z.div_mod g 16); lia).
  assert (g / 16 = g / 256 * 16 + g / 16 mod 16)
    by (change 256 with (16 * 16); rewrite <- Z.div_div by lia; pose proof (Z.div_mod (g / 16) 16); lia).
  assert (g / 256 = g / 4096 * 16 + g / 256 mod 16)
    by (change 4096 with (256 * 16); rewrite <- Z.div_div by lia; pose proof (Z.div_mod (g / 256) 16); lia).
  pose proof (Z.div_small g 4096). pose proof (Z.div_small g 256). pose proof (Z.div_small g 16).
  destruct (4096 <=? g) eqn:E1; bool_hyps; [exists 4|destruct (256 <=? g) eqn:E2; bool_hyps; [exists 3|
    destruct (16 <=? g) eqn:E3; bool_hyps; [exists 2|exists 1]]]; (split; [lia|]);
    zltb_solve; cbn [app]; rewrite !hex_run_digit by lia; rewrite hex_run_stop by done; f_equal; f_equal; f_equal; lia.
Qed.

Definition group_ok (g : Z) : Prop := 0 ≤ g < 65536.

Fixpoint group_bytes (gs : list Z) : bytes :=
  match gs with [] => [] | g :: gs' => u8 (Z.shiftr g 8) :: u8 g :: group_bytes gs' end.

Lemma v6_hex_nonempty g : v6_hex g ≠ [].
Proof. unfold v6_hex. rewrite !app_assoc. intros [_ ?]%app_eq_nil. done. Qed.

Lemma v6_hex_plain g : group_ok g → Forall (λ c, c ≠ 46 ∧ c ≠ 58 ∧ c ≠ 37) (v6_hex g).
Proof.
  intros Hg. unfold group_ok in Hg. assert (Hd : ∀ n, 0 ≤ n → hex_digit n ≠ 46 ∧ hex_digit n ≠ 58 ∧ hex_digit n ≠ 37)
    by (intros n Hn; unfold hex_digit; case_if; lia).
  unfold v6_hex. repeat apply Forall_app_2; repeat case_if; try apply Forall_nil_2; (apply Forall_cons_2; [|apply Forall_nil_2]);
    apply Hd; first [apply Z.mod_pos_bound; lia | apply Z.div_pos; lia].
Qed.

(** One turn of the loop on a group followed by a colon and more. *)
Lemma v6_loop_group fuel g s ip ell :
  group_ok g → s ≠ [] → (∀ s', s ≠ 58 :: s') →
  v6_loop (S fuel) (v6_hex g ++ 58 :: s) ip ell = v6_loop fuel s (ip ++ group_bytes [g]) ell.
Proof.
  intros Hg Hs Hs'. cbn [v6_loop]. destruct (hex_run_group g (58 :: s)) as (k & Hk & ->); [done|done|].
  rewrite (proj2 (Z.eqb_neq k 0)) by lia. change (negb (58 =? 58)) with false. cbn match.
  destruct s as [|c s]; [done|]. cbn [group_bytes].
  destruct (decide (c = 58)) as [->|Hc]; [by destruct (Hs' s)|].
  destruct c as [|p|p]; try done. do 6 (destruct p as [p|p|]; try done).
Qed.

Lemma join_groups_cons g g' gs : join_groups (g :: g' :: gs) = v6_hex g ++ 58 :: join_groups (g' :: gs).
Proof. done. Qed.

(** A group list starts with a digit, not with a colon. *)
Lemma join_groups_head g gs t : group_ok g → ∀ s', join_groups (g :: gs) ++ t ≠ 58 :: s'.
Proof.
  intros Hg s' Heq. pose proof (v6_hex_plain g Hg) as Hp. pose proof (v6_hex_nonempty g).
  assert (∃ r, join_groups (g :: gs) ++ t = v6_hex g ++ r) as [r Hr].
  { destruct gs as [|g' gs]; [by exists t|]. rewrite join_groups_cons, <- app_assoc. eauto. }
  rewrite Hr in Heq. destruct (v6_hex g) as [|c x]; [done|]. injection Heq as -> _. apply Forall_cons_1 in Hp as [? _]. lia.
Qed.

Lemma join_groups_nonempty g gs t : join_groups (g :: gs) ++ t ≠ [].
Proof.
  intros [Hn _]%app_eq_nil. destruct gs as [|g' gs]; [by apply (v6_hex_nonempty g)|].
  rewrite join_groups_cons in Hn. by apply app_eq_nil in Hn as [_ ?].
Qed.

Lemma group_bytes_app a b : group_bytes (a ++ b) = group_bytes a ++ group_bytes b.
Proof. induction a as [|x a IH]; [done|]. cbn. by rewrite IH. Qed.

(** Groups up to the end of the text. *)
Lemma v6_loop_join fuel gs ip ell :
  Forall group_ok gs → gs ≠ [] → (length gs ≤ fuel)%nat →
  v6_loop fuel (join_groups gs) ip ell = Some ([], ip ++ group_bytes gs, ell).
Proof.
  revert gs ip. induction fuel as [|fuel IH]; intros gs ip Hgs Hne Hl; [by destruct gs; cbn in Hl; [|lia]|].
  destruct gs as [|g [|g' gs]]; [done| |].
  - apply Forall_cons_1 in Hgs as [Hg _]. cbn [v6_loop join_groups]. rewrite <- (app_nil_r (v6_hex g)).
    destruct (hex_run_group g [] Hg) as (k & Hk & ->); [done|]. by rewrite (proj2 (Z.eqb_neq k 0)) by lia.
  - rewrite join_groups_cons. apply Forall_cons_1 in Hgs as [Hg Hgs]. pose proof Hgs as [Hg' _]%Forall_cons_1.
    rewrite v6_loop_group; [|done| |].
    + rewrite IH; [|done|done|cbn in *; lia]. rewrite <- app_assoc. done.
    + pose proof (join_groups_nonempty g' gs []) as Hn. by rewrite app_nil_r in Hn.
    + intros s'. pose proof (join_groups_head g' gs [] Hg' s') as Hn. by rewrite app_nil_r in Hn.
Qed.

(** Groups, the ellipsis, groups. *)
Lemma v6_loop_ellipsis fuel pre post ip :
  Forall group_ok pre → Forall group_ok post → pre ≠ [] → (length pre + length post ≤ fuel)%nat →
  v6_loop fuel (join_groups pre ++ [58; 58] ++ join_groups post) ip None =
    Some ([], ip ++ group_bytes pre ++ group_bytes post, Some (length (ip ++ group_bytes pre))).
Proof.
  revert pre ip. induction fuel as [|fuel IH]; intros pre ip Hpre Hpost Hne Hl; [by destruct pre; cbn in Hl; [|lia]|].
  destruct pre as [|g [|g' pre]]; [done| |].
  - apply Forall_cons_1 in Hpre as [Hg _]. cbn [v6_loop join_groups].
    destruct (hex_run_group g ([58; 58] ++ join_groups post) Hg) as (k & Hk & ->); [done|].
    rewrite (proj2 (Z.eqb_neq k 0)) by lia. cbn [app]. change (negb (58 =? 58)) with false. cbn match.
    rewrite (bool_decide_eq_true_2 (@None nat = None)) by done.
    destruct post as [|h post]; [by rewrite app_nil_r|].
    pose proof (join_groups_nonempty h post []) as Hn. rewrite app_nil_r in Hn.
    destruct (join_groups (h :: post)) as [|c s] eqn:Ej; [done|]. rewrite <- Ej.
    rewrite v6_loop_join; [|done|done|cbn in *; lia]. by rewrite <- app_assoc.
  - rewrite join_groups_cons, <- app_assoc. apply Forall_cons_1 in Hpre as [Hg Hpre].
    pose proof Hpre as [Hg' _]%Forall_cons_1. cbn [app].
    rewrite v6_loop_group; [|done|apply join_groups_nonempty|by apply join_groups_head].
    specialize (IH (g' :: pre) (ip ++ group_bytes [g])). cbn [app] in IH. rewrite IH; [|done|done|done|cbn in *; lia].
    by rewrite <- !app_assoc.
Qed.

(** *** The longest run of zeros *)

Lemma zero_run_ok gs : gs = replicate (zero_run gs) 0 ++ drop (zero_run gs) gs.
Proof. induction gs as [|[|p|p] gs IH]; cbn; [done| |done|done]. by rewrite <- IH. Qed.

Lemma zero_run_le gs : (zero_run gs ≤ length gs)%nat.
Proof. induction gs as [|[|p|p] gs IH]; cbn; lia. Qed.

(** [best] is a run of at least two zeros, or there is none. *)
Definition run_ok (full : list Z) (best : nat * nat) : Prop :=
  let '(st, len) := best in
  len = 0%nat ∨ (2 ≤ len)%nat ∧ (st + len ≤ length full)%nat ∧
    full = take st full ++ replicate len 0 ++ drop (st + len) full.

Lemma zero_scan_ok full gs i best :
  (i ≤ length full)%nat → drop i full = gs → run_ok full best → run_ok full (zero_scan gs i best).
Proof.
  revert i best. induction gs as [|g gs IH]; intros i best Hi Hd Hb; [done|]. cbn [zero_scan].
  assert (Hlt : (i < length full)%nat).
  { pose proof (length_drop full i) as Hl. rewrite Hd in Hl. cbn in Hl. lia. }
  apply IH; [lia| |].
  - rewrite <- Nat.add_1_r, <- drop_drop, Hd. done.
  - destruct (_ && _) eqn:E; [|done]. apply andb_prop in E as [E1%Nat.leb_le _].
    right. pose proof (zero_run_le (g :: gs)) as Hle. pose proof (length_drop full i) as Hl. rewrite Hd in Hl.
    split_and!; [done|lia|]. rewrite <- (take_drop i full) at 1. f_equal. rewrite Hd.
    rewrite <- drop_drop, Hd. apply zero_run_ok.
Qed.

(** *** Groups and bytes *)

Lemma group_bytes_zero n : group_bytes (replicate n 0) = replicate (2 * n) 0.
Proof.
  induction n as [|n IH]; [done|]. replace (2 * S n)%nat with (S (S (2 * n))) by lia.
  change (group_bytes (replicate (S n) 0)) with (0 :: 0 :: group_bytes (replicate n 0)). by rewrite IH.
Qed.

Lemma length_group_bytes gs : length (group_bytes gs) = (2 * length gs)%nat.
Proof. induction gs as [|g gs IH]; [done|]. cbn. lia. Qed.

Lemma v6_groups_ok n ip : length ip = (2 * n)%nat → is_bytes ip →
  group_bytes (v6_groups ip) = ip ∧ Forall group_ok (v6_groups ip) ∧ length (v6_groups ip) = n.
Proof.
  revert ip. induction n as [|n IH]; intros ip Hl Hb; [by destruct ip|].
  destruct ip as [|a [|b ip]]; [cbn in Hl; lia..|]. apply Forall_cons_1 in Hb as [Ha [Hb Hip]%Forall_cons_1].
  destruct (IH ip) as (H1 & H2 & H3); [cbn in Hl; lia|done|]. unfold is_byte in *.
  cbn [v6_groups group_bytes]. split_and!.
  - rewrite H1, Z.shiftr_div_pow2 by lia. change (2 ^ 8) with 256.
    rewrite <- (Z.div_unique (256 * a + b) 256 a b) by lia. rewrite u8_id by lia.
    rewrite u8_eq, <- (Z.mod_unique (256 * a + b) 256 a b) by lia. done.
  - constructor; [|done]. unfold group_ok. lia.
  - cbn. lia.
Qed.

Lemma join_no_zone gs : Forall group_ok gs → 37 ∉ join_groups gs.
Proof.
  induction 1 as [|g gs Hg Hgs IH]; [by intros ?%elem_of_nil|].
  assert (Hx : 37 ∉ v6_hex g).
  { intros Hin. pose proof (v6_hex_plain g Hg) as Hp. rewrite Forall_forall in Hp. destruct (Hp _ Hin). lia. }
  destruct gs as [|g' gs]; [done|]. rewrite join_groups_cons, elem_of_app, elem_of_cons. intros [?|[?|?]]; done.
Qed.

Lemma first_sep_join g gs t :
  group_ok g → gs ≠ [] ∨ (∃ t', t = 58 :: t') → first_sep (join_groups (g :: gs) ++ t) = Some 58.
Proof.
  intros Hg Ht. destruct gs as [|g' gs].
  - destruct Ht as [?|[t' ->]]; [done|]. cbn [join_groups]. by rewrite first_sep_app by by apply v6_hex_plain.
  - rewrite join_groups_cons, <- app_assoc. by rewrite first_sep_app by by apply v6_hex_plain.
Qed.

Lemma no_lead_colon (s : bytes) : (∀ s', s ≠ 58 :: s') →
  match s with 58 :: 58 :: s' => (Some 0%nat, s') | _ => (None, s) end = (@None nat, s).
Proof.
  intros Hs. destruct s as [|c s]; [done|]. destruct (decide (c = 58)) as [->|Hc]; [by destruct (Hs s)|].
  destruct c as [|p|p]; try done. do 6 (destruct p as [p|p|]; try done).
Qed.

Lemma bool_decide_nil {A} `{EqDecision A} : bool_decide (@nil A = []) = true.
Proof. by apply bool_decide_eq_true_2. Qed.

(** Filling the ellipsis restores the zeros it stands for. *)
Lemma expand_ok (pre post : list Z) (k : nat) :
  (length pre + k + length post = 8)%nat →
  take (length (group_bytes pre)) (group_bytes pre ++ group_bytes post) ++
  replicate (16 - length (group_bytes pre ++ group_bytes post)) 0 ++
  drop (length (group_bytes pre)) (group_bytes pre ++ group_bytes post) =
  group_bytes (pre ++ replicate k 0 ++ post).
Proof.
  intros Hl. rewrite take_app_length, drop_app_length, !group_bytes_app, group_bytes_zero, length_app, !length_group_bytes.
  do 3 f_equal. lia.
Qed.

(** Any text of groups with one ellipsis parses to the groups with zeros. *)
Lemma parseIPv6_ellipsis pre post k :
  Forall group_ok pre → Forall group_ok post → (length pre + k + length post = 8)%nat → (2 ≤ k)%nat →
  parseIPv6 (join_groups pre ++ [58; 58] ++ join_groups post) = Some (group_bytes (pre ++ replicate k 0 ++ post)).
Proof.
  intros Hpre Hpost Hl Hk. unfold parseIPv6.
  assert (Hlen : (length (group_bytes pre ++ group_bytes post) < 16)%nat) by (rewrite length_app, !length_group_bytes; lia).
  destruct pre as [|g pre].
  - cbn [join_groups app]. destruct post as [|h post].
    { cbn in Hl. rewrite app_nil_r, group_bytes_zero. by replace k with 8%nat by lia. }
    pose proof (join_groups_nonempty h post []) as Hn. rewrite app_nil_r in Hn.
    rewrite (bool_decide_eq_false_2 (join_groups (h :: post) = [])) by done. rewrite andb_false_r.
    rewrite v6_loop_join; [|done|done|cbn in *; lia]. cbn [mbind option_bind app]. rewrite bool_decide_nil. cbn [negb].
    rewrite (proj2 (Nat.ltb_lt _ 16)) by exact Hlen. f_equal. exact (expand_ok [] (h :: post) k Hl).
  - pose proof Hpre as [Hg _]%Forall_cons_1. rewrite no_lead_colon by by apply join_groups_head.
    rewrite (bool_decide_eq_false_2 (@None nat = Some 0%nat)) by done. cbn [andb].
    rewrite v6_loop_ellipsis; [|done|done|done|cbn in *; lia]. cbn [mbind option_bind]. rewrite bool_decide_nil. cbn [negb].
    change ([] ++ ?l) with l. rewrite (proj2 (Nat.ltb_lt _ 16)) by exact Hlen. f_equal. by apply expand_ok.
Qed.

Lemma ParseIP_v6 ip : length ip = 16%nat → is_bytes ip → ParseIP (v6_string ip) = Some ip.
Proof.
  intros Hl Hb. destruct (v6_groups_ok 8 ip Hl Hb) as (Hgb & Hgs & Hgl). unfold v6_string.
  pose proof (zero_scan_ok (v6_groups ip) (v6_groups ip) 0 (0%nat, 0%nat)) as Hz.
  destruct (zero_scan (v6_groups ip) 0 (0%nat, 0%nat)) as [st len].
  specialize (Hz ltac:(lia) eq_refl (or_introl eq_refl)). destruct (len =? 0)%nat eqn:E.
  - destruct (v6_groups ip) as [|g [|g' gs]] eqn:Eg; [done|done|]. rewrite <- Eg in *.
    pose proof Hgs as Hgs'. rewrite Eg in Hgs'. apply Forall_cons_1 in Hgs' as [Hg _]. unfold ParseIP.
    assert (first_sep (join_groups (v6_groups ip)) = Some 58) as ->.
    { rewrite Eg, <- (app_nil_r (join_groups _)). apply first_sep_join; [done|by left]. }
    rewrite bool_decide_eq_false_2 by by apply join_no_zone. unfold parseIPv6. rewrite no_lead_colon.
    2: { rewrite Eg. intros s'. pose proof (join_groups_head g (g' :: gs) [] Hg s') as Hn. by rewrite app_nil_r in Hn. }
    rewrite (bool_decide_eq_false_2 (@None nat = Some 0%nat)) by done. cbn [andb].
    rewrite v6_loop_join; [|done|by rewrite Eg|by rewrite Hgl]. cbn [mbind option_bind app].
    rewrite bool_decide_nil, Hgb, Hl. done.
  - apply Nat.eqb_neq in E. destruct Hz as [?|(Hk & Hle & Heq)]; [done|].
    set (pre := take st (v6_groups ip)) in *. set (post := drop (st + len) (v6_groups ip)) in *.
    assert (Hpre : Forall group_ok pre) by by apply Forall_take. assert (Hpost : Forall group_ok post) by by apply Forall_drop.
    unfold ParseIP. assert (first_sep (join_groups pre ++ [58; 58] ++ join_groups post) = Some 58) as ->.
    { destruct pre as [|g pre']; [done|]. apply first_sep_join; [by apply Forall_cons_1 in Hpre as [? _]|right; by eexists]. }
    rewrite bool_decide_eq_false_2.
    2: { rewrite !elem_of_app. intros [?|[Hin|?]]; [by apply (join_no_zone pre)| |by apply (join_no_zone post)].
         rewrite !elem_of_cons, elem_of_nil in Hin. lia. }
    rewrite (parseIPv6_ellipsis pre post len); [|done|done| |done].
    + by rewrite <- Heq, Hgb.
    + rewrite Heq, !length_app, length_replicate in Hgl. lia.
Qed.

(** ** Host and port *)

Definition clean (s : bytes) : Prop := (58 ∉ s) ∧ (91 ∉ s) ∧ (93 ∉ s).

Lemma find_absent (c : Z) (a s : bytes) : c ∉ a → list_find (eq c) (a ++ c :: s) = Some (length a, c).
Proof.
  intros Ha. apply list_find_Some. split_and!; [by rewrite lookup_app_r, Nat.sub_diag by lia|done|].
  intros j y Hj Hlt. rewrite lookup_app_l in Hj by lia. intros ->. apply Ha. by eapply list_elem_of_lookup_2.
Qed.

Lemma LastIndexByte_app c h p : c ∉ p → LastIndexByte c (h ++ c :: p) = Some (length h).
Proof.
  intros Hp. unfold LastIndexByte. rewrite reverse_app, reverse_cons, <- app_assoc. cbn [app].
  rewrite find_absent by by rewrite elem_of_reverse. cbn. rewrite length_reverse, length_app. cbn. f_equal. lia.
Qed.

Lemma IndexByte_app c h p : c ∉ h → IndexByte c (h ++ c :: p) = Some (length h).
Proof. intros Hh. unfold IndexByte. by rewrite find_absent. Qed.

Lemma SplitHostPort_plain h p : clean h → clean p → SplitHostPort (h ++ 58 :: p) = (h, p, None).
Proof.
  intros (H1 & H2 & H3) (P1 & P2 & P3). unfold SplitHostPort. rewrite LastIndexByte_app by done.
  assert (first_is (Z.eqb 91) (h ++ 58 :: p) = false) as ->.
  { destruct h as [|c h]; [done|]. change ((91 =? c) = false). apply Z.eqb_neq. intros <-. apply H2. left. }
  rewrite take_app_length, (bool_decide_eq_false_2 (58 ∈ h)) by done. rewrite !drop_0.
  rewrite (bool_decide_eq_false_2 (91 ∈ _)) by (rewrite elem_of_app, elem_of_cons; intuition lia).
  rewrite (bool_decide_eq_false_2 (93 ∈ _)) by (rewrite elem_of_app, elem_of_cons; intuition lia).
  replace (S (length h)) with (length (h ++ [58])) by (rewrite length_app; cbn; lia).
  change (58 :: p) with ([58] ++ p). by rewrite app_assoc, drop_app_length.
Qed.

Lemma SplitHostPort_bracket h p :
  91 ∉ h → 93 ∉ h → clean p → SplitHostPort (91 :: h ++ 93 :: 58 :: p) = (h, p, None).
Proof.
  intros H2 H3 (P1 & P2 & P3). unfold SplitHostPort.
  assert (LastIndexByte 58 (91 :: h ++ 93 :: 58 :: p) = Some (S (S (length h)))) as ->.
  { replace (91 :: h ++ 93 :: 58 :: p) with ((91 :: h ++ [93]) ++ 58 :: p) by (cbn; by rewrite <- app_assoc).
    rewrite LastIndexByte_app by done. cbn. rewrite length_app. cbn. do 2 f_equal. lia. }
  change (first_is (Z.eqb 91) (91 :: _)) with true. cbn match.
  assert (IndexByte 93 (91 :: h ++ 93 :: 58 :: p) = Some (S (length h))) as ->.
  { apply (IndexByte_app 93 (91 :: h)). rewrite elem_of_cons. intuition lia. }
  rewrite (proj2 (Nat.eqb_neq _ _)) by (cbn; rewrite length_app; cbn; lia). rewrite Nat.eqb_refl.
  assert (drop 1 (91 :: h ++ 93 :: 58 :: p) = h ++ 93 :: 58 :: p) as -> by done.
  replace (S (length h) - 1)%nat with (length h) by lia. rewrite take_app_length.
  rewrite (bool_decide_eq_false_2 (91 ∈ _)) by (rewrite elem_of_app, !elem_of_cons; intuition lia).
  assert (drop (S (S (length h))) (91 :: h ++ 93 :: 58 :: p) = 58 :: p) as ->.
  { change (91 :: h ++ 93 :: 58 :: p) with (([91] ++ h) ++ [93] ++ 58 :: p). rewrite app_assoc.
    replace (S (S (length h))) with (length (([91] ++ h) ++ [93])) by (rewrite length_app; cbn; lia). apply drop_app_length. }
  rewrite (bool_decide_eq_false_2 (93 ∈ _)) by (rewrite !elem_of_cons; intuition lia).
  assert (drop (S (S (S (length h)))) (91 :: h ++ 93 :: 58 :: p) = p) as ->; [|done].
  change (91 :: h ++ 93 :: 58 :: p) with (([91] ++ h) ++ [93; 58] ++ p). rewrite app_assoc.
  replace (S (S (S (length h)))) with (length (([91] ++ h) ++ [93; 58])) by (rewrite length_app; cbn; lia). apply drop_app_length.
Qed.

(** ** Addresses *)

(** Text that starts with none of the sequences is left alone. *)
Lemma strip_id fuel seqs c s : Forall (λ q, head q ≠ Some c ∧ q ≠ []) seqs → strip fuel seqs (c :: s) = c :: s.
Proof.
  intros Hs. destruct fuel as [|fuel]; [done|]. cbn [strip].
  assert (filter (λ q, q `prefix_of` c :: s) seqs = []) as ->; [|done].
  induction Hs as [|q seqs [Hq Hne] Hs IH]; [done|]. rewrite filter_cons_False; [done|].
  intros Hp. destruct q as [|x q]; [done|]. apply Hq. cbn. f_equal. by eapply prefix_cons_inv_1.
Qed.

(** Visible ASCII characters are in no white space. *)
Definition visible (c : Z) : Prop := 33 ≤ c ≤ 126.

Lemma TrimSpace_id c s d : visible c → last (c :: s) = Some d → visible d → TrimSpace (c :: s) = c :: s.
Proof.
  intros Hc Hl Hd. unfold TrimSpace, visible in *. rewrite strip_id.
  2: { repeat constructor; cbn; try done; intros [= ?]; lia. }
  apply last_Some in Hl as [l' Hl']. rewrite Hl', reverse_app. cbn [reverse app].
  change (reverse [d] ++ reverse l') with (d :: reverse l'). rewrite strip_id.
  - by rewrite reverse_cons, reverse_involutive.
  - repeat constructor; cbn; try done; intros [= ?]; lia.
Qed.

(** A host that is neither bracketed nor surrounded by spaces is kept. *)
Lemma ParseAddress_host c s d :
  last (c :: s) = Some d → c ≠ 91 → visible c → visible d →
  ParseAddress (c :: s) = match ParseIP (c :: s) with Some ip => IPAddress ip | None => DomainAddress (c :: s) end.
Proof.
  intros Hl Hc Hvc Hvd. unfold ParseAddress.
  assert (first_is (Z.eqb 91) (c :: s) = false) as ->.
  { change ((91 =? c) = false). by apply Z.eqb_neq. }
  cbn [andb]. destruct (bool_decide _ && _); [|done]. by rewrite (TrimSpace_id c s d).
Qed.

(** Hosts made of hexadecimal digits, dots and colons. *)
Definition ip_char (c : Z) : Prop := 46 ≤ c ≤ 58 ∨ 97 ≤ c ≤ 102.

Lemma ParseAddress_ip s ip : s ≠ [] → Forall ip_char s → ParseIP s = Some ip → ParseAddress s = IPAddress ip.
Proof.
  intros Hne Hs Hp. destruct s as [|c s]; [done|].
  destruct (last (c :: s)) as [d|] eqn:El; [|by apply last_None in El].
  assert (ip_char c) by by apply Forall_cons_1 in Hs as [? _].
  assert (ip_char d).
  { rewrite Forall_forall in Hs. apply Hs. apply last_Some in El as [l' ->]. apply elem_of_app. right. left. }
  unfold ip_char in *. rewrite (ParseAddress_host c s d), Hp; [done|done|lia|unfold visible; lia..].
Qed.

Lemma digits_ip_char n : Forall ip_char (Itoa n).
Proof. eapply Forall_impl; [apply digits_ok|]. unfold is_digit, ip_char. intros c Hc. bool_hyps. lia. Qed.

Lemma dot_ip_char : Forall ip_char [46].
Proof. apply Forall_cons_2; [unfold ip_char; lia|apply Forall_nil_2]. Qed.

Lemma v4_text b : addr_ok (ipv4Address b) →
  Forall ip_char (v4_string b) ∧ (58 ∉ v4_string b) ∧ ParseAddress (v4_string b) = Some (ipv4Address b).
Proof.
  intros [Hl Hb]. destruct b as [|a [|b [|c [|d [|? ?]]]]]; try done. unfold is_bytes in Hb. rewrite !Forall_cons in Hb.
  destruct Hb as (Ha & Hb & Hc & Hd & _).
  assert (Forall ip_char (v4_string [a; b; c; d])) as Hs.
  { unfold v4_string. rewrite !Forall_app. split_and!; first [apply digits_ip_char | apply dot_ip_char]. }
  assert (Hno : ∀ n, 58 ∉ Itoa n).
  { intros n Hin. pose proof (digits_ok 20 n) as Hd'. rewrite Forall_forall in Hd'. by specialize (Hd' _ Hin). }
  split_and!; [done| |].
  - unfold v4_string. rewrite !elem_of_app, !elem_of_cons, elem_of_nil. pose proof (Hno a). pose proof (Hno b).
    pose proof (Hno c). pose proof (Hno d). intuition lia.
  - apply (ParseAddress_ip _ _ ) with (2 := Hs) (3 := ParseIP_v4 a b c d Ha Hb Hc Hd).
    unfold v4_string. pose proof (Itoa_nonempty a). by destruct (Itoa a).
Qed.

Lemma join_ip_char gs : Forall group_ok gs → Forall ip_char (join_groups gs).
Proof.
  assert (Hd : ∀ n, 0 ≤ n < 16 → ip_char (hex_digit n)) by (intros n Hn; unfold ip_char, hex_digit; case_if; lia).
  assert (Hx : ∀ g, group_ok g → Forall ip_char (v6_hex g)).
  { intros g Hg. unfold group_ok in Hg. unfold v6_hex. repeat apply Forall_app_2; repeat case_if; try apply Forall_nil_2;
      (apply Forall_cons_2; [|apply Forall_nil_2]); apply Hd; try (apply Z.mod_pos_bound; lia). Z.div_mod_to_equations; lia. }
  induction 1 as [|g gs Hg Hgs IH]; [constructor|]. destruct gs as [|g' gs]; [by apply Hx|].
  rewrite join_groups_cons. apply Forall_app_2; [by apply Hx|]. constructor; [unfold ip_char; lia|done].
Qed.

Lemma v6_text b : addr_ok (ipv6Address b) →
  Forall ip_char (v6_string b) ∧ v6_string b ≠ [] ∧ ParseAddress (v6_string b) = Some (ipv6Address b).
Proof.
  intros (Hl & Hb & Hm). destruct (v6_groups_ok 8 b Hl Hb) as (_ & Hgs & Hgl).
  assert (Forall ip_char (v6_string b)) as Hs.
  { unfold v6_string. destruct (zero_scan _ _ _) as [st len]. case_if; [by apply join_ip_char|].
    repeat apply Forall_app_2; [by apply join_ip_char, Forall_take| |by apply join_ip_char, Forall_drop].
    repeat (apply Forall_cons_2; [unfold ip_char; lia|]). apply Forall_nil_2. }
  assert (v6_string b ≠ []) as Hne.
  { intros Hn. pose proof (ParseIP_v6 b Hl Hb) as Hp. rewrite Hn in Hp. done. }
  split_and!; [done..|]. rewrite (ParseAddress_ip _ b) by (try done; by apply ParseIP_v6).
  unfold IPAddress. by rewrite Hl, Hm.
Qed.

(** ** Destinations *)

(** A domain that is not read as something else: visible text without colons
    and brackets that is no IP address. *)
Definition domain_text (h : bytes) : Prop :=
  clean h ∧ ParseIP h = None ∧ ∃ c d, head h = Some c ∧ last h = Some d ∧ visible c ∧ visible d.

(** Destinations whose text form is not ambiguous. *)
Definition text_ok (d : Destination) : Prop :=
  match d_Network d, d_Address d with
  | (Network_TCP | Network_UDP), Some a =>
      port_ok (d_Port d) ∧ match a with domainAddress h => domain_text h | _ => addr_ok a end
  | Network_UNIX, Some (domainAddress _) => d_Port d = 0
  | _, _ => False
  end.

Lemma clean_port p : clean (Port_String p).
Proof.
  assert (Hd : ∀ c, c ∈ Port_String p → is_digit c = true).
  { intros c Hc. pose proof (digits_ok 20 p) as Hf. rewrite Forall_forall in Hf. by apply Hf. }
  unfold clean. split_and!; intros Hin; by apply Hd in Hin.
Qed.

Lemma clean_ip_char s : Forall ip_char s → (91 ∉ s) ∧ (93 ∉ s).
Proof.
  intros Hs. rewrite Forall_forall in Hs. unfold ip_char in Hs. split; intros Hin; apply Hs in Hin; lia.
Qed.

(** The host and port part of an address reads back. *)
Lemma hostport_ok a p :
  match a with domainAddress h => domain_text h | _ => addr_ok a end →
  ∃ h, SplitHostPort (Address_String a ++ 58 :: Port_String p) = (h, Port_String p, None) ∧ h ≠ [] ∧
       ParseAddress h = Some a.
Proof.
  pose proof (clean_port p) as Hp. destruct a as [b|b|h]; intros Ha; cbn [Address_String].
  - destruct (v4_text b Ha) as (Hc & H58 & Hpa). destruct (clean_ip_char _ Hc) as [H91 H93]. exists (v4_string b).
    rewrite SplitHostPort_plain by done. split_and!; try done. intros Hn. by rewrite Hn in Hpa.
  - destruct (v6_text b Ha) as (Hc & Hne & Hpa). destruct (clean_ip_char _ Hc) as [H91 H93]. exists (v6_string b).
    cbn [app]. rewrite <- app_assoc. cbn [app]. by rewrite SplitHostPort_bracket.
  - destruct Ha as (Hc & Hip & x & y & Hh & Hl & Hx & Hy). exists h. rewrite SplitHostPort_plain by done.
    destruct h as [|c h]; [done|]. injection Hh as ->. split_and!; [done..|].
    rewrite (ParseAddress_host x h y), Hip; [done|done| |done|done].
    intros ->. destruct Hc as (_ & H91 & _). apply H91. left.
Qed.

Lemma prefix_str (p s : bytes) : bool_decide (p `prefix_of` p ++ s) = true.
Proof. apply bool_decide_eq_true_2. by exists s. Qed.

(** C30: destinations survive their text form.  [ParseDestination] of
    [Destination.String()] gives back the same destination, for TCP and UDP
    with every IPv4 address, every IPv6 address (zero compression included),
    every domain that is not itself an address, and every port, and for Unix
    sockets with every name. *)
Theorem destination_text_roundtrip (d : Destination) :
  text_ok d → ∃ s, Destination_String d = Ret s ∧ ParseDestination s = (d, None).
Proof.
  destruct d as [[a|] p []]; unfold text_ok; cbn [d_Network d_Address d_Port]; try done.
  - intros [Hp Ha]. destruct (hostport_ok a p Ha) as (h & Hs & Hne & Hpa).
    exists (str "tcp:" ++ Address_String a ++ 58 :: Port_String p). split; [reflexivity|]. unfold ParseDestination. rewrite prefix_str.
    change (drop 4 (str "tcp:" ++ ?s)) with s. rewrite Hs.
    rewrite (bool_decide_eq_false_2 (h = [])), (bool_decide_eq_false_2 (Port_String p = [])) by (done || apply Itoa_nonempty).
    by rewrite Port_roundtrip, Hpa.
  - intros [Hp Ha]. destruct (hostport_ok a p Ha) as (h & Hs & Hne & Hpa).
    exists (str "udp:" ++ Address_String a ++ 58 :: Port_String p). split; [reflexivity|]. unfold ParseDestination.
    rewrite (bool_decide_eq_false_2 (str "tcp:" `prefix_of` _)) by (intros [? [=]]). rewrite prefix_str.
    change (drop 4 (str "udp:" ++ ?s)) with s. rewrite Hs.
    rewrite (bool_decide_eq_false_2 (h = [])), (bool_decide_eq_false_2 (Port_String p = [])) by (done || apply Itoa_nonempty).
    by rewrite Port_roundtrip, Hpa.
  - destruct a as [b|b|h]; [done..|]. intros ->. exists (str "unix:" ++ h). split; [reflexivity|]. unfold ParseDestination.
    rewrite (bool_decide_eq_false_2 (str "tcp:" `prefix_of` _)) by (intros [? [=]]).
    rewrite (bool_decide_eq_false_2 (str "udp:" `prefix_of` _)) by (intros [? [=]]). by rewrite prefix_str.
Qed.

Lemma destination_text_roundtrip_witness :
  ∃ s, Destination_String (UDPDestination (Some (ipv6Address [32; 1; 13; 184; 0; 0; 0; 0; 0; 0; 0; 0; 0; 0; 0; 1])) 53) = Ret s ∧
    ParseDestination s = (UDPDestination (Some (ipv6Address [32; 1; 13; 184; 0; 0; 0; 0; 0; 0; 0; 0; 0; 0; 0; 1])) 53, None).
Proof.
  apply (destination_text_roundtrip (UDPDestination (Some (ipv6Address [32; 1; 13; 184; 0; 0; 0; 0; 0; 0; 0; 0; 0; 0; 0; 1])) 53)).
  split; [vm_compute; split; congruence|]. split_and!; [reflexivity| |reflexivity]. repeat constructor; vm_compute; congruence.
Defined.

(** Addresses survive the other two representations: the protobuf
    message ([NewIPOrDomain] and [AsAddress]) and, for IP destinations and Unix
    sockets, the standard library's [net.Addr] ([RawNetAddr] and
    [DestinationFromAddr]). *)
Theorem destination_repr_roundtrip (a : Address) (p : Z) :
  addr_ok a → port_ok p →
  (∃ m, NewIPOrDomain (Some a) = Ret m ∧ AsAddress m = Ret (Some a)) ∧
  (∀ n : Network, (if IsDomain (Family a) then n = Network_UNIX ∧ p = 0 else n = Network_TCP ∨ n = Network_UDP) →
     ∃ x, RawNetAddr (mkDestination (Some a) p n) = Ret (Some x) ∧
          DestinationFromAddr x = Ret (mkDestination (Some a) p n)).
Proof.
  intros Ha Hp. unfold port_ok in Hp. assert (Port p = p) as Hpp by (unfold Port; by rewrite u16_id by lia).
  assert (Hip : ∀ b, IP a = Ret b → IPAddress b = Some a) by (intros b; by apply IPAddress_IP).
  split.
  - destruct a as [b|b|h]; (eexists; split; [reflexivity|]); cbn [AsAddress]; [by rewrite (Hip b)..|done].
  - intros n Hn. destruct a as [b|b|h]; cbn in Hn.
    3: { destruct Hn as [-> ->]. eexists. split; reflexivity. }
    all: destruct Hn as [->| ->]; (eexists; split; [reflexivity|]); cbn [DestinationFromAddr d_Port]; by rewrite (Hip b), Hpp.
Qed.

Lemma destination_repr_roundtrip_witness :
  (∃ m, NewIPOrDomain (Some (ipv4Address [10; 0; 0; 1])) = Ret m ∧ AsAddress m = Ret (Some (ipv4Address [10; 0; 0; 1]))) ∧
  ∃ x, RawNetAddr (mkDestination (Some (ipv4Address [10; 0; 0; 1])) 80 Network_TCP) = Ret (Some x) ∧
       DestinationFromAddr x = Ret (mkDestination (Some (ipv4Address [10; 0; 0; 1])) 80 Network_TCP).
Proof.
  destruct (destination_repr_roundtrip (ipv4Address [10; 0; 0; 1]) 80) as [H1 H2].
  - split; [reflexivity|]. repeat constructor; vm_compute; congruence.
  - split; lia.
  - split; [exact H1|]. apply H2. cbn. by left.
Defined.
