(* ===== verification/Bytespool.v ===== *)
(** * Byte pools and the state of the buffer components

    Package [bytespool] (pool.go): four [sync.Pool]s of byte slices.  They are
    the only global state the [buf] package has; [World] is that state and [M]
    the monad that threads it.

    [sync.Pool.Get] may return any slice of the pool or a new one; which one is
    taken from [w_sched], a list of choices consumed one per call, so a
    statement that holds for every [World] holds for every behaviour of the
    pools (the garbage collector emptying them included). *)
From S2P Require Import Prelude Errors.

(** ** State and monad *)

Record World := mkWorld { w_pools : list (list slice); w_sched : list nat }.

Definition M (A : Type) : Type := World → go (A * World).

#[global] Instance M_ret : MRet M := λ A a w, Ret (a, w).
#[global] Instance M_bind : MBind M := λ A B f x w,
  match x w with
  | Ret (a, w') => f a w'
  | Panic m => Panic m
  | OutOfFuel => OutOfFuel
  end.

Definition lift {A} (x : go A) : M A := λ w,
  match x with Ret a => Ret (a, w) | Panic m => Panic m | OutOfFuel => OutOfFuel end.
Definition panic {A} (m : string) : M A := λ _, Panic m.
Definition out_of_fuel {A} : M A := λ _, OutOfFuel.

(** ** Pools *)

Definition numPools : nat := 4.
Definition sizeMulti : Z := 4.

(** The sizes computed by [init]. *)
Fixpoint pool_sizes (n : nat) (size : Z) : list Z :=
  match n with O => [] | S n' => size :: pool_sizes n' (i32 (size * sizeMulti)) end.
Definition poolSize : list Z := pool_sizes numPools 2048.

Fixpoint find_pool (size : Z) (idx : nat) (pss : list Z) : option nat :=
  match pss with
  | [] => None
  | ps :: pss' => if size <=? ps then Some idx else find_pool size (S idx) pss'
  end.

Definition GetPool (size : Z) : option nat := find_pool size 0 poolSize.

(** [pool[idx].Get()]: a pooled slice, or the [New] function of that pool. *)
Definition Pool_Get (idx : nat) : M slice := λ w,
  let pool := default [] (w_pools w !! idx) in
  let fresh := make_slice (default 0 (poolSize !! idx)) in
  match w_sched w with
  | c :: cs =>
      match pool !! c with
      | Some s => Ret (s, mkWorld (<[idx := delete c pool]> (w_pools w)) cs)
      | None => Ret (fresh, mkWorld (w_pools w) cs)
      end
  | [] => Ret (fresh, w)
  end.

(** [pool[idx].Put(b)] *)
Definition Pool_Put (idx : nat) (b : slice) : M unit := λ w,
  let pool := default [] (w_pools w !! idx) in
  Ret (tt, mkWorld (<[idx := b :: pool]> (w_pools w)) (w_sched w)).

Definition Alloc (size : Z) : M slice :=
  match GetPool size with
  | Some idx => Pool_Get idx
  | None =>
      if size <? 0 then panic "runtime error: makeslice: len out of range"
      else mret (make_slice size)
  end.

(** The loop of [Free], from the largest pool down. *)
Fixpoint free_loop (i : nat) (size : Z) (b : slice) : M unit :=
  match i with
  | O => mret tt
  | S i' =>
      if default 0 (poolSize !! i') <=? size then Pool_Put i' b else free_loop i' size b
  end.

Definition Free (b : slice) : M unit :=
  let size := i32 (s_cap b) in
  b' ← lift (s_sub b 0 (s_cap b));
  free_loop numPools size b'.

(** ** Invariant: pool [idx] holds full-length slices of at least its size. *)

Definition pool_ok (idx : nat) (pool : list slice) : Prop :=
  Forall (λ s, slice_ok s ∧ s_len s = s_cap s ∧ default 0 (poolSize !! idx) ≤ s_cap s) pool.

Definition world_ok (w : World) : Prop :=
  length (w_pools w) = numPools ∧ ∀ i p, w_pools w !! i = Some p → pool_ok i p.

(** Empty pools: every [Get] allocates. *)
Definition empty_world : World := mkWorld [[]; []; []; []] [].

(** ** Lemmas *)

Lemma empty_world_ok : world_ok empty_world.
Proof. split; [done|]. intros [|[|[|[|i]]]] p; cbn; intros [= <-]; constructor. Qed.

Lemma M_bind_inv {A B} (x : M A) (f : A → M B) w r :
  (x ≫= f) w = Ret r → ∃ a w', x w = Ret (a, w') ∧ f a w' = Ret r.
Proof.
  unfold mbind, M_bind. destruct (x w) as [[a w']| |]; try discriminate. eauto.
Qed.

Lemma M_bind_Ret {A B} (x : M A) (f : A → M B) w a w' :
  x w = Ret (a, w') → (x ≫= f) w = f a w'.
Proof. unfold mbind, M_bind. intros ->. done. Qed.

Lemma lift_Ret {A} (a : A) w : lift (Ret a) w = Ret (a, w).
Proof. done. Qed.

Lemma M_bind_lift {A B} (a : A) (f : A → M B) w : (lift (Ret a) ≫= f) w = f a w.
Proof. done. Qed.

Lemma M_bind_mret {A B} (a : A) (f : A → M B) w : (mret a ≫= f) w = f a w.
Proof. done. Qed.

Lemma make_slice_ok n : 0 ≤ n → slice_ok (make_slice n) ∧ s_len (make_slice n) = s_cap (make_slice n).
Proof.
  intros. unfold slice_ok, s_cap, make_slice. cbn.
  assert (zlen (replicate (Z.to_nat n) 0) = n) as ->.
  { Transparent zlen. unfold zlen. rewrite length_replicate. lia. } lia.
Qed.
#[global] Opaque zlen.

Lemma poolSize_eq : poolSize = [2048; 8192; 32768; 131072].
Proof. vm_compute. done. Qed.

Lemma s_cap_make n : 0 ≤ n → s_cap (make_slice n) = n.
Proof. intros H. by destruct (make_slice_ok n H) as [_ <-]. Qed.

Lemma poolSize_nonneg idx : 0 ≤ default 0 (poolSize !! idx).
Proof. rewrite poolSize_eq. do 5 (destruct idx as [|idx]; [cbn; lia|]). cbn. lia. Qed.

Lemma Pool_Get_spec idx w :
  world_ok w → (idx < numPools)%nat →
  ∃ s w', Pool_Get idx w = Ret (s, w') ∧ world_ok w' ∧ slice_ok s ∧ s_len s = s_cap s ∧
          default 0 (poolSize !! idx) ≤ s_cap s.
Proof.
  intros [Hlen Hw] Hi. unfold Pool_Get.
  assert (Hfresh : ∀ w', world_ok w' → ∃ s w'',
    Ret (make_slice (default 0 (poolSize !! idx)), w') = Ret (s, w'') ∧ world_ok w'' ∧ slice_ok s ∧
    s_len s = s_cap s ∧ default 0 (poolSize !! idx) ≤ s_cap s).
  { intros w' Hw'. eexists _, _. split; [reflexivity|]. split; [done|].
    pose proof (poolSize_nonneg idx).
    destruct (make_slice_ok (default 0 (poolSize !! idx))) as [??]; [done|].
    rewrite s_cap_make by done. cbn. split; [done|]. lia. }
  destruct (w_sched w) as [|c cs] eqn:Hs; [by apply Hfresh|].
  destruct (default [] (w_pools w !! idx) !! c) as [s|] eqn:Hc; [|by apply Hfresh].
  eexists _, _. split; [reflexivity|].
  destruct (lookup_lt_is_Some_2 (w_pools w) idx) as [p Hp]; [lia|].
  rewrite Hp in *. cbn in Hc |- *. pose proof (Hw _ _ Hp) as Hpok. unfold pool_ok in Hpok. split.
  - split; cbn; [by rewrite length_insert|]. intros i q Hq.
    destruct (decide (i = idx)) as [->|Hne].
    + rewrite list_lookup_insert_eq in Hq by lia. injection Hq as <-. unfold pool_ok.
      rewrite Forall_forall in Hpok. apply Forall_forall. intros x Hx. apply Hpok.
      apply list_elem_of_lookup in Hx as [k Hk]. apply list_elem_of_lookup.
      destruct (decide (k < c)%nat).
      * rewrite list_lookup_delete_lt in Hk by lia. eauto.
      * rewrite list_lookup_delete_ge in Hk by lia. eauto.
    + rewrite list_lookup_insert_ne in Hq by done. eauto.
  - by eapply Forall_lookup_1 in Hpok.
Qed.

Lemma Pool_Put_spec idx s w :
  world_ok w → (idx < numPools)%nat → slice_ok s → s_len s = s_cap s →
  default 0 (poolSize !! idx) ≤ s_cap s →
  ∃ w', Pool_Put idx s w = Ret (tt, w') ∧ world_ok w'.
Proof.
  intros [Hlen Hw] Hi Hs1 Hs2 Hs3. eexists. split; [reflexivity|].
  split; cbn; [by rewrite length_insert|]. intros i q Hq.
  destruct (decide (i = idx)) as [->|Hne].
  - rewrite list_lookup_insert_eq in Hq by lia. injection Hq as <-.
    constructor; [done|]. destruct (w_pools w !! idx) as [p|] eqn:Hp; cbn; [by apply Hw|constructor].
  - rewrite list_lookup_insert_ne in Hq by done. eauto.
Qed.

Lemma free_loop_spec i size b w :
  world_ok w → (i ≤ numPools)%nat → slice_ok b → s_len b = s_cap b → size ≤ s_cap b →
  ∃ w', free_loop i size b w = Ret (tt, w') ∧ world_ok w'.
Proof.
  intros Hw. induction i as [|i IH]; intros Hi Hb1 Hb2 Hsz; [eexists; split; [reflexivity|done]|].
  cbn [free_loop]. case_if; [apply Pool_Put_spec; auto; lia|apply IH; auto; lia].
Qed.

(** ** Properties *)

(** Every slice [Alloc] hands out -- from any pool, whatever the pools
    contain -- is at least as long as requested, and the pool invariant (each
    pool holds only full-length slices of at least its size) is kept. *)
Theorem Alloc_at_least (size : Z) (w : World) :
  world_ok w → 0 ≤ size →
  ∃ s w', Alloc size w = Ret (s, w') ∧ size ≤ s_len s ∧ s_len s = s_cap s ∧ world_ok w'.
Proof.
  intros Hw Hsz. unfold Alloc, GetPool. rewrite poolSize_eq. unfold find_pool.
  repeat case_if; [| | | |lia|].
  1-4: match goal with |- context [Pool_Get ?i] =>
    destruct (Pool_Get_spec i w Hw) as (s & w' & -> & ? & ? & Hl & Hcap); [unfold numPools; lia|] end;
    rewrite poolSize_eq in Hcap; cbn in Hcap; exists s, w'; (split; [done|]);
    (split; [lia|done]).
  eexists _, _. split; [reflexivity|].
  rewrite s_cap_make by lia. cbn. split; [lia|]. done.
Qed.

Lemma Alloc_at_least_witness :
  ∃ s w', Alloc 3000 empty_world = Ret (s, w') ∧ 3000 ≤ s_len s ∧ s_len s = s_cap s ∧ world_ok w'.
Proof. apply (Alloc_at_least 3000 _ empty_world_ok). lia. Defined.

(** [Free] keeps the pool invariant for any slice below the [int32] limit. *)
Lemma Free_keeps_pools b w :
  world_ok w → slice_ok b → s_cap b < 2 ^ 31 →
  ∃ w', Free b w = Ret (tt, w') ∧ world_ok w'.
Proof.
  intros Hw Hb Hcap. destruct Hb. unfold Free.
  rewrite s_sub_Ret by lia. rewrite zdrop_0, Z.sub_0_r.
  rewrite M_bind_lift. unwrap.
  apply free_loop_spec; cbn; unfold slice_ok, s_cap; cbn; try done; pose proof (zlen_nonneg (s_arr b)); lia.
Qed.
