(* ===== verification/IO.v ===== *)
(** * The interfaces io.Reader and io.Writer

    The components of [buf] are written against the standard library's
    interfaces [io.Reader] and [io.Writer].  Each is a type class: the
    operation, and a second class with the documented contract that clients'
    theorems rely on.  [ScriptReader] and [SinkWriter] are concrete instances
    used to evaluate the model; [Buffer] and [MultiBuffer] provide further
    ones. *)
From S2P Require Import Prelude Errors Bytespool.

(** ** io.Reader *)

(** [Read(p)] with [len(p) = n]: the bytes stored at the front of [p] and the
    error returned with them. *)
Class IOReader (R : Type) := io_read : R → Z → M (bytes * option error * R).

(** The contract of [io.Reader], for readers that deliver a finite stream:
    [rd_rest] is what is still to be delivered, [rd_meas] bounds the number of
    further reads without error. *)
Class StreamReader (R : Type) `{IOReader R} := {
  rd_inv : R → Prop;
  rd_rest : R → bytes;
  rd_meas : R → nat;
  rd_end : R → error;
  rd_spec : ∀ r n w, rd_inv r → world_ok w → 0 < n →
    ∃ d e r' w', io_read r n w = Ret ((d, e, r'), w') ∧ world_ok w' ∧ rd_inv r' ∧
      zlen d ≤ n ∧ rd_rest r = d ++ rd_rest r' ∧ rd_end r' = rd_end r ∧
      (rd_meas r' ≤ rd_meas r)%nat ∧ (e = None → (rd_meas r' < rd_meas r)%nat) ∧
      (∀ err, e = Some err → err = rd_end r ∧ rd_rest r' = [])
}.

(** ** io.Writer *)

(** [Write(p)]: the number of bytes accepted and the error. *)
Class IOWriter (T : Type) := io_write : T → bytes → M (Z * option error * T).

(** The contract of [io.Writer]: a short write comes with an error;
    [wr_out] is everything accepted so far. *)
Class StreamWriter (T : Type) `{IOWriter T} := {
  wr_inv : T → Prop;
  wr_out : T → bytes;
  wr_spec : ∀ t p w, wr_inv t → world_ok w →
    ∃ n e t' w', io_write t p w = Ret ((n, e, t'), w') ∧ world_ok w' ∧ wr_inv t' ∧
      0 ≤ n ≤ zlen p ∧ wr_out t' = wr_out t ++ ztake n p ∧
      (e = None → n = zlen p)
}.

(** ** io.ReadFull

    The loop of [io.ReadAtLeast(r, buf, len(buf))]; [got] is what has been
    stored so far. *)
Fixpoint read_full_loop {R} `{IOReader R} (fuel : nat) (r : R) (got : bytes) (size : Z)
  : M (bytes * option error * R) :=
  if size <=? zlen got then mret (got, None, r)
  else
    match fuel with
    | O => out_of_fuel
    | S fuel' =>
        '(d, e, r') ← io_read r (size - zlen got);
        match e with
        | None => read_full_loop fuel' r' (got ++ d) size
        | Some err => mret (got ++ d, Some err, r')
        end
    end.

Definition ReadFull {R} `{IOReader R} (fuel : nat) (r : R) (size : Z)
  : M (bytes * option error * R) :=
  '(got, e, r') ← read_full_loop fuel r [] size;
  if size <=? zlen got then mret (got, None, r')
  else if (0 <? zlen got) && err_is EOF e then mret (got, Some (ErrNew ErrUnexpectedEOF), r')
  else mret (got, e, r').

(** ** Concrete readers and writers *)

(** Delivers the given chunks (each cut to the space offered), then an error. *)
Record ScriptReader := Script { sc_chunks : list bytes; sc_err : error }.

#[global] Instance ScriptReader_reader : IOReader ScriptReader := λ r n,
  match sc_chunks r with
  | [] => mret ([], Some (sc_err r), r)
  | c :: cs =>
      if zlen c <=? n then mret (c, None, Script cs (sc_err r))
      else mret (ztake n c, None, Script (zdrop n c :: cs) (sc_err r))
  end.

(** Accepts [budget] bytes, then fails. *)
Record SinkWriter := Sink { sk_out : bytes; sk_budget : Z; sk_err : error }.

#[global] Instance SinkWriter_writer : IOWriter SinkWriter := λ t p,
  if zlen p <=? sk_budget t
  then mret (zlen p, None, Sink (sk_out t ++ p) (sk_budget t - zlen p) (sk_err t))
  else mret (sk_budget t, Some (sk_err t), Sink (sk_out t ++ ztake (sk_budget t) p) 0 (sk_err t)).

(** ** Lemmas *)

(** A measure that decreases when a chunk is finished or shortened. *)
Definition script_meas (cs : list bytes) : nat :=
  foldr (λ c m, (S (length c) + m)%nat) 0%nat cs.

#[global] Program Instance ScriptReader_stream : StreamReader ScriptReader := {|
  rd_inv _ := True;
  rd_rest r := mjoin (sc_chunks r);
  rd_meas r := script_meas (sc_chunks r);
  rd_end r := sc_err r
|}.
Next Obligation.
  intros [[|c cs] err] n w _ Hw Hn; unfold io_read, ScriptReader_reader; cbn.
  { eexists _, _, _, _. split; [reflexivity|]. cbn. rewrite zlen_nil.
    repeat split; try done; [apply Hw|apply Hw|lia|congruence]. }
  case_if; (eexists _, _, _, _; split; [reflexivity|]); cbn; repeat split; try done; try apply Hw; try lia.
  - rewrite zlen_ztake; lia.
  - by rewrite app_assoc, ztake_zdrop.
  - unfold zdrop. rewrite length_drop. lia.
  - intros _. unfold zdrop. rewrite length_drop.
    pose proof (zlen_pos_length c). lia.
Qed.

#[global] Program Instance SinkWriter_stream : StreamWriter SinkWriter := {|
  wr_inv t := 0 ≤ sk_budget t;
  wr_out t := sk_out t
|}.
Next Obligation.
  intros [out k err] p w Hk Hw; unfold io_write, SinkWriter_writer; cbn in *.
  pose proof (zlen_nonneg p).
  case_if; (eexists _, _, _, _; split; [reflexivity|]); cbn;
    repeat split; try done; try apply Hw; try lia.
  by rewrite ztake_ge.
Qed.

Section ReadFullFacts.
Context {R : Type} `{StreamReader R}.

(** With more fuel than the reader's measure the loop ends; it delivers the
    front of the stream, exactly [size] bytes unless the stream ends first. *)
Lemma read_full_loop_spec fuel r got size w :
  rd_inv r → world_ok w → zlen got ≤ size → (rd_meas r < fuel)%nat →
  ∃ d e r' w', read_full_loop fuel r got size w = Ret ((got ++ d, e, r'), w') ∧
    world_ok w' ∧ rd_inv r' ∧ rd_rest r = d ++ rd_rest r' ∧ rd_end r' = rd_end r ∧
    zlen got + zlen d ≤ size ∧ (rd_meas r' ≤ rd_meas r)%nat ∧
    (e = None → zlen got + zlen d = size) ∧
    (∀ err, e = Some err → err = rd_end r ∧ rd_rest r' = []).
Proof.
  revert r got w. induction fuel as [|fuel IH]; intros r got w Hr Hw Hg Hf; [lia|]. cbn.
  case_if.
  { exists [], None, r, w. rewrite app_nil_r, zlen_nil. repeat split; try done; try apply Hw; lia. }
  destruct (rd_spec r (size - zlen got) w Hr Hw) as
    (d & e & r1 & w1 & Hio & Hw1 & Hr1 & Hd & Hrest & Hend & Hm0 & Hm & He); [lia|].
  rewrite (M_bind_Ret _ _ _ _ _ Hio). cbn. pose proof (zlen_nonneg d). destruct e as [err|].
  - exists d, (Some err), r1, w1. repeat (split; [first [done|lia]|]). auto.
  - specialize (Hm eq_refl). destruct (IH r1 (got ++ d) w1 Hr1 Hw1) as
      (d' & e' & r2 & w2 & Heq & Hw2 & Hr2 & Hrest2 & Hend2 & Hle & Hm2 & Hn & Hs);
      [rewrite zlen_app; lia|lia|].
    exists (d ++ d'), e', r2, w2. rewrite Heq, <- app_assoc.
    rewrite zlen_app in Hle, Hn. rewrite zlen_app, Hend2, Hrest, Hrest2, Hend.
    pose proof (zlen_nonneg d').
    repeat (split; [first [done|lia]|]).
    split; [by rewrite app_assoc|]. repeat (split; [first [done|lia]|]).
    split; [intros Hen; specialize (Hn Hen); lia|]. rewrite <- Hend. done.
Qed.

(** [io.ReadFull]: the first [size] bytes of the stream with a nil error, or
    everything left with [io.EOF] (nothing was left) or
    [io.ErrUnexpectedEOF] (a short read). *)
Lemma ReadFull_spec fuel r size w :
  rd_inv r → world_ok w → 0 ≤ size → (rd_meas r < fuel)%nat →
  ∃ d e r' w', ReadFull fuel r size w = Ret ((d, e, r'), w') ∧
    world_ok w' ∧ rd_inv r' ∧ rd_rest r = d ++ rd_rest r' ∧ rd_end r' = rd_end r ∧
    (rd_meas r' ≤ rd_meas r)%nat ∧
    zlen d = Z.min size (zlen (rd_rest r)) ∧
    (e = None ↔ zlen d = size) ∧
    (∀ err, e = Some err → rd_rest r' = [] ∧
       err = if (0 <? zlen d) && is_sentinel EOF (rd_end r) then ErrNew ErrUnexpectedEOF else rd_end r).
Proof.
  intros Hr Hw Hsz Hf. unfold ReadFull.
  destruct (read_full_loop_spec fuel r [] size w Hr Hw) as
    (d & e & r1 & w1 & Heq & Hw1 & Hr1 & Hrest & Hend & Hle & Hm & Hn & He); [rewrite zlen_nil; lia|done|].
  rewrite (M_bind_Ret _ _ _ _ _ Heq). cbn [app]. rewrite zlen_nil in *.
  pose proof (zlen_nonneg d). pose proof (zlen_nonneg (rd_rest r1)).
  rewrite Hrest, zlen_app. case_if.
  - exists d, None, r1, w1. split; [done|]. repeat (split; [first [done|lia]|]).
    split; [split; [lia|done]|]. done.
  - destruct e as [err|]; [|specialize (Hn eq_refl); lia].
    destruct (He err eq_refl) as [-> Hnil]. cbn [err_is].
    assert (zlen (rd_rest r1) = 0) by (rewrite Hnil; apply zlen_nil).
    destruct ((0 <? zlen d) && is_sentinel EOF (rd_end r)) eqn:Ed;
      (eexists _, _, _, _; split; [reflexivity|]);
      split_and!; try done; try lia;
      first [split; [done|lia] | intros ? [= <-]; by rewrite ?Ed].
Qed.
End ReadFullFacts.
