(* ===== verification/Buffer.v ===== *)
(** * Buffer

    buf/buffer.go: a fixed-capacity byte buffer with a read position and a
    write position, backed by a pooled 8 KiB slice.  Positions are [int32] and
    wrap; slicing and indexing panic out of range, as in the source. *)
From S2P Require Import Prelude Errors NetAddr Bytespool IO.

Definition Size : Z := 8192.

(** [var pool = bytespool.GetPool(Size)] *)
Definition pool : option nat := GetPool Size.

Record Buffer := mkBuffer {
  b_v : option slice;
  b_start : Z;
  b_end : Z;
  b_unmanaged : bool;
  b_UDP : option Destination
}.

(** A nil slice has no elements and no capacity. *)
Definition v_of (b : Buffer) : slice := default (Slice [] 0) (b_v b).

Definition set_range (b : Buffer) (st en : Z) : Buffer :=
  mkBuffer (b_v b) st en (b_unmanaged b) (b_UDP b).

(** The buffer after [d] was stored into [b.v] at offset [off]. *)
Definition store_at (b : Buffer) (off : Z) (d : bytes) : Buffer :=
  mkBuffer ((λ s, Slice (splice off d (s_arr s)) (s_len s)) <$> b_v b)
           (b_start b) (b_end b) (b_unmanaged b) (b_UDP b).

(** ** Construction and release *)

Definition pool_get_sized : M slice :=
  match pool with
  | None => panic nil_deref
  | Some idx =>
      buf ← Pool_Get idx;
      if Size <=? s_cap buf then lift (s_sub buf 0 Size) else mret (make_slice Size)
  end.

Definition New : M Buffer :=
  v ← pool_get_sized;
  mret (mkBuffer (Some v) 0 0 false None).

Definition StackNew : M Buffer :=
  v ← pool_get_sized;
  mret (mkBuffer (Some v) 0 0 false None).

Definition NewExisted (b : slice) : go Buffer :=
  if s_cap b <? Size then Panic "Invalid buffer"
  else
    let oLen := s_len b in
    b' ← (if oLen <? Size then s_sub b 0 Size else Ret b);
    Ret (mkBuffer (Some b') 0 (i32 oLen) false None).

Definition FromBytes (b : option slice) : Buffer :=
  mkBuffer b 0 (i32 (match b with Some s => s_len s | None => 0 end)) true None.

Definition Buffer_Clear (b : Buffer) : Buffer := set_range b 0 0.

(** [Release] on a possibly nil pointer. *)
Definition Buffer_Release (pb : option Buffer) : M (option Buffer) :=
  match pb with
  | None => mret None
  | Some b =>
      match b_v b with
      | None => mret (Some b)
      | Some p =>
          if b_unmanaged b then mret (Some b)
          else
            let b1 := Buffer_Clear (mkBuffer None (b_start b) (b_end b) (b_unmanaged b) (b_UDP b)) in
            (if s_cap p =? Size then
               match pool with Some idx => Pool_Put idx p | None => panic nil_deref end
             else mret tt);;
            mret (Some (mkBuffer (b_v b1) (b_start b1) (b_end b1) (b_unmanaged b1) None))
      end
  end.

(** ** Observers *)

Definition Buffer_Len (pb : option Buffer) : Z :=
  match pb with None => 0 | Some b => i32 (b_end b - b_start b) end.

Definition Buffer_IsEmpty (pb : option Buffer) : bool := Buffer_Len pb =? 0.

Definition Buffer_IsFull (pb : option Buffer) : bool :=
  match pb with None => false | Some b => b_end b =? i32 (s_len (v_of b)) end.

Definition Buffer_Byte (b : Buffer) (index : Z) : go Z :=
  s_index (v_of b) (i32 (b_start b + index)).

Definition Buffer_SetByte (b : Buffer) (index value : Z) : go Buffer :=
  s_index (v_of b) (i32 (b_start b + index));;
  Ret (store_at b (i32 (b_start b + index)) [value]).

Definition Buffer_Bytes (b : Buffer) : go bytes :=
  s ← s_sub (v_of b) (b_start b) (b_end b);
  Ret (s_bytes s).

Definition Buffer_String (b : Buffer) : go bytes := Buffer_Bytes b.

Definition Buffer_BytesRange (b : Buffer) (from to : Z) : go bytes :=
  let from := if from <? 0 then i32 (from + Buffer_Len (Some b)) else from in
  let to := if to <? 0 then i32 (to + Buffer_Len (Some b)) else to in
  s ← s_sub (v_of b) (i32 (b_start b + from)) (i32 (b_start b + to));
  Ret (s_bytes s).

Definition Buffer_BytesFrom (b : Buffer) (from : Z) : go bytes :=
  let from := if from <? 0 then i32 (from + Buffer_Len (Some b)) else from in
  s ← s_sub (v_of b) (i32 (b_start b + from)) (b_end b);
  Ret (s_bytes s).

Definition Buffer_BytesTo (b : Buffer) (to : Z) : go bytes :=
  let to := if to <? 0 then i32 (to + Buffer_Len (Some b)) else to in
  let to := if to <? 0 then 0 else to in
  s ← s_sub (v_of b) (b_start b) (i32 (b_start b + to));
  Ret (s_bytes s).

(** ** Moving the positions *)

(** [Extend] returns a slice of the buffer's own array: its offset and length. *)
Definition Buffer_Extend (b : Buffer) (n : Z) : go (Z * Z * Buffer) :=
  let en := i32 (b_end b + n) in
  if i32 (s_len (v_of b)) <? en then Panic "extending out of bound"
  else
    ext ← s_sub (v_of b) (b_end b) en;
    Ret (b_end b, s_len ext, set_range b (b_start b) en).

Definition Buffer_Check (b : Buffer) : Buffer :=
  let st := if b_start b <? 0 then 0 else b_start b in
  let en := if b_end b <? 0 then 0 else b_end b in
  let st := if en <? st then en else st in
  set_range b st en.

Definition Buffer_Resize (b : Buffer) (from to : Z) : go Buffer :=
  let from := if from <? 0 then i32 (from + Buffer_Len (Some b)) else from in
  let to := if to <? 0 then i32 (to + Buffer_Len (Some b)) else to in
  if to <? from then Panic "Invalid slice"
  else Ret (Buffer_Check (set_range b (i32 (b_start b + from)) (i32 (b_start b + to)))).

Definition Buffer_Advance (b : Buffer) (from : Z) : Buffer :=
  let from := if from <? 0 then i32 (from + Buffer_Len (Some b)) else from in
  Buffer_Check (set_range b (i32 (b_start b + from)) (b_end b)).

(** ** Writing *)

(** [copy(b.v[b.end:], data)] stores at most the free space. *)
Definition Buffer_Write (b : Buffer) (data : bytes) : go (Z * option error * Buffer) :=
  dst ← s_sub (v_of b) (b_end b) (s_len (v_of b));
  let nBytes := Z.min (s_len dst) (zlen data) in
  let b1 := store_at b (b_end b) (ztake nBytes data) in
  Ret (nBytes, None, set_range b1 (b_start b1) (i32 (b_end b1 + i32 nBytes))).

Definition ErrBufferFull := Sentinel "buf.WriteByte" "buffer full".

Definition Buffer_WriteByte (b : Buffer) (v : Z) : go (option error * Buffer) :=
  if Buffer_IsFull (Some b) then Ret (Some (ErrNew ErrBufferFull), b)
  else
    s_index (v_of b) (b_end b);;
    let b1 := store_at b (b_end b) [v] in
    Ret (None, set_range b1 (b_start b1) (i32 (b_end b1 + 1))).

Definition Buffer_WriteString (b : Buffer) (s : bytes) : go (Z * option error * Buffer) :=
  Buffer_Write b s.

(** ** Reading *)

Definition Buffer_ReadByte (b : Buffer) : go (Z * option error * Buffer) :=
  if b_start b =? b_end b then Ret (0, Some (ErrNew EOF), b)
  else
    nb ← s_index (v_of b) (b_start b);
    Ret (nb, None, set_range b (i32 (b_start b + 1)) (b_end b)).

Definition Buffer_ReadBytes (b : Buffer) (length : Z) : go (bytes * option error * Buffer) :=
  if i32 (b_end b - b_start b) <? length then Ret ([], Some (ErrNew EOF), b)
  else
    nb ← s_sub (v_of b) (b_start b) (i32 (b_start b + length));
    Ret (s_bytes nb, None, set_range b (i32 (b_start b + length)) (b_end b)).

(** [Read(data)] with [len(data) = n]; the result holds the bytes copied. *)
Definition Buffer_Read (pb : option Buffer) (n : Z) : go (bytes * option error * option Buffer) :=
  if Buffer_Len pb =? 0 then Ret ([], Some (ErrNew EOF), pb)
  else
    match pb with
    | None => Panic nil_deref
    | Some b =>
        src ← s_sub (v_of b) (b_start b) (b_end b);
        let nBytes := Z.min n (s_len src) in
        let copied := ztake nBytes (s_bytes src) in
        if i32 nBytes =? Buffer_Len pb then Ret (copied, None, Some (Buffer_Clear b))
        else Ret (copied, None, Some (set_range b (i32 (b_start b + i32 nBytes)) (b_end b)))
    end.

(** [n, err := reader.Read(b.v[b.end:])] *)
Definition Buffer_ReadFrom {R} `{IOReader R} (b : Buffer) (reader : R)
  : M (Z * option error * Buffer * R) :=
  dst ← lift (s_sub (v_of b) (b_end b) (s_len (v_of b)));
  '(d, err, reader') ← io_read reader (s_len dst);
  let b1 := store_at b (b_end b) d in
  mret (zlen d, err, set_range b1 (b_start b1) (i32 (b_end b1 + i32 (zlen d))), reader').

Definition Buffer_ReadFullFrom {R} `{IOReader R} (fuel : nat) (b : Buffer) (reader : R) (size : Z)
  : M (Z * option error * Buffer * R) :=
  let en := i32 (b_end b + size) in
  if i32 (s_len (v_of b)) <? en then mret (0, Some (Errorf "out of bound" None), b, reader)
  else
    dst ← lift (s_sub (v_of b) (b_end b) en);
    '(d, err, reader') ← ReadFull fuel reader (s_len dst);
    let b1 := store_at b (b_end b) d in
    mret (zlen d, err, set_range b1 (b_start b1) (i32 (b_end b1 + i32 (zlen d))), reader').

(** A [*Buffer] is itself an [io.Reader]. *)
#[global] Instance Buffer_reader : IOReader (option Buffer) := λ pb n, lift (Buffer_Read pb n).

(** ** Invariant and abstraction *)

(** The positions lie in the slice, the slice is shorter than the [int32]
    limit, and a managed buffer has a slice of standard size or larger. *)
Record buf_ok (b : Buffer) : Prop := {
  bo_slice : slice_ok (v_of b);
  bo_start : 0 ≤ b_start b;
  bo_range : b_start b ≤ b_end b;
  bo_end : b_end b ≤ s_len (v_of b);
  bo_len : s_len (v_of b) < 2 ^ 31;
  bo_managed : b_unmanaged b = false → b_v b = None ∨ Size ≤ s_len (v_of b)
}.

Definition content (b : Buffer) : bytes :=
  ztake (b_end b - b_start b) (zdrop (b_start b) (s_arr (v_of b))).

Definition room (b : Buffer) : Z := s_len (v_of b) - b_end b.

(** The same for a possibly nil pointer. *)
Definition pbuf_ok (pb : option Buffer) : Prop := match pb with None => True | Some b => buf_ok b end.
Definition pcontent (pb : option Buffer) : bytes := match pb with None => [] | Some b => content b end.

(** ** Lemmas *)

(** Facts of the invariant, as hypotheses for [lia]. *)
Ltac buf_hyps :=
  repeat match goal with
  | H : buf_ok ?b |- _ =>
      lazymatch goal with
      | _ : 0 ≤ b_start b |- _ => fail
      | _ => pose proof (bo_start b H); pose proof (bo_range b H); pose proof (bo_end b H);
             pose proof (bo_len b H); pose proof (proj1 (bo_slice b H));
             pose proof (proj2 (bo_slice b H))
      end
  end.

Lemma zlen_content b : buf_ok b → zlen (content b) = b_end b - b_start b.
Proof.
  intros H. buf_hyps. unfold content, s_cap in *.
  rewrite zlen_ztake; rewrite ?zlen_zdrop by lia; lia.
Qed.

Lemma Buffer_Len_ok pb : pbuf_ok pb → Buffer_Len pb = zlen (pcontent pb).
Proof.
  destruct pb as [b|]; cbn; [|done]. intros H. rewrite zlen_content by done. buf_hyps. by unwrap.
Qed.

Lemma Buffer_IsEmpty_ok pb : pbuf_ok pb → Buffer_IsEmpty pb = bool_decide (pcontent pb = []).
Proof.
  intros H. unfold Buffer_IsEmpty. rewrite Buffer_Len_ok by done.
  case_bool_decide as E; [by rewrite E|]. apply Z.eqb_neq. by intros ?%zlen_0_nil.
Qed.

Lemma Buffer_IsFull_ok b : buf_ok b → Buffer_IsFull (Some b) = (room b =? 0).
Proof.
  intros H. buf_hyps. unfold Buffer_IsFull, room. unwrap.
  destruct (Z.eqb_spec (b_end b) (s_len (v_of b))); zltb_solve; done.
Qed.

Lemma Buffer_Bytes_ok b : buf_ok b → Buffer_Bytes b = Ret (content b).
Proof. intros H. buf_hyps. unfold Buffer_Bytes. rewrite s_sub_Ret by lia. done. Qed.

Lemma v_of_store_at b off d :
  b_v b ≠ None ∨ off = 0 ∧ d = [] →
  v_of (store_at b off d) = Slice (splice off d (s_arr (v_of b))) (s_len (v_of b)).
Proof.
  unfold v_of, store_at. cbn. destruct (b_v b); cbn; [done|]. intros [?|[-> ->]]; [done|].
  reflexivity.
Qed.

Lemma v_of_set_range b st en : v_of (set_range b st en) = v_of b.
Proof. done. Qed.

Lemma room_nonneg b : buf_ok b → 0 ≤ room b.
Proof. intros H. buf_hyps. unfold room. lia. Qed.

(** A released or nil-backed buffer has no room. *)
Lemma room_nil b : buf_ok b → b_v b = None → room b = 0 ∧ b_end b = 0.
Proof. intros H Hn. buf_hyps. unfold room, v_of in *. rewrite Hn in *. cbn in *. lia. Qed.

(** Storing [d] right after the content appends it to the content. *)
Lemma append_ok b d :
  buf_ok b → zlen d ≤ room b →
  let b' := set_range (store_at b (b_end b) d) (b_start b) (b_end b + zlen d) in
  buf_ok b' ∧ content b' = content b ++ d ∧ room b' = room b - zlen d ∧
  s_len (v_of b') = s_len (v_of b).
Proof.
  intros H Hd. cbn zeta. pose proof (zlen_nonneg d).
  assert (Hv : b_v b ≠ None ∨ b_end b = 0 ∧ d = []).
  { destruct (b_v b) eqn:E; [by left|right].
    destruct (room_nil b H E) as [Hr He]. split; [done|]. apply zlen_0_nil. lia. }
  assert (Hveq : v_of (set_range (store_at b (b_end b) d) (b_start b) (b_end b + zlen d)) =
                 Slice (splice (b_end b) d (s_arr (v_of b))) (s_len (v_of b))).
  { rewrite <- (v_of_store_at b (b_end b) d Hv). done. }
  unfold room in *. buf_hyps. unfold s_cap in *. split_and!.
  - split; rewrite ?Hveq; cbn; try lia.
    + split; cbn; [lia|]. unfold s_cap; cbn. rewrite zlen_splice by lia. lia.
    + intros Hm. destruct (bo_managed b H Hm) as [Hn|Hs]; [left|by right].
      unfold store_at. cbn. by rewrite Hn.
  - unfold content. rewrite Hveq. cbn. apply splice_region; lia.
  - rewrite Hveq. cbn. lia.
  - by rewrite Hveq.
Qed.

Lemma Buffer_Write_ok b data :
  buf_ok b →
  ∃ b', Buffer_Write b data = Ret (Z.min (room b) (zlen data), None, b') ∧ buf_ok b' ∧
        content b' = content b ++ ztake (Z.min (room b) (zlen data)) data ∧
        room b' = room b - Z.min (room b) (zlen data) ∧ s_len (v_of b') = s_len (v_of b) ∧
        b_start b' = b_start b.
Proof.
  intros H. pose proof (room_nonneg b H). pose proof (zlen_nonneg data).
  set (n := Z.min (room b) (zlen data)).
  assert (zlen (ztake n data) = n) as Hn by (apply zlen_ztake; lia).
  destruct (append_ok b (ztake n data) H) as (Hok & Hc & Hr & Hl); [lia|]. rewrite Hn in *.
  buf_hyps. unfold Buffer_Write. rewrite s_sub_Ret by lia.
  cbn [mbind go_bind s_len]. fold (room b) n. eexists. split; [reflexivity|].
  cbn. unfold room in n. unwrap. done.
Qed.

Lemma Buffer_WriteByte_ok b x :
  buf_ok b →
  if room b =? 0 then Buffer_WriteByte b x = Ret (Some (ErrNew ErrBufferFull), b)
  else ∃ b', Buffer_WriteByte b x = Ret (None, b') ∧ buf_ok b' ∧ content b' = content b ++ [x] ∧
             room b' = room b - 1 ∧ s_len (v_of b') = s_len (v_of b).
Proof.
  intros H. unfold Buffer_WriteByte. rewrite Buffer_IsFull_ok by done.
  pose proof (room_nonneg b H). case_if; [done|].
  destruct (append_ok b [x] H) as (Hok & Hc & Hr & Hl); [rewrite zlen_cons, zlen_nil; lia|].
  rewrite zlen_cons, zlen_nil in *. buf_hyps. unfold room in *.
  destruct (s_index_Ret (v_of b) (b_end b)) as (y & -> & _); [apply H|lia|].
  cbn. unwrap. eexists. split; [reflexivity|]. done.
Qed.

(** Dropping a prefix of the content. *)
Lemma skip_ok b n :
  buf_ok b → 0 ≤ n ≤ zlen (content b) →
  let b' := set_range b (b_start b + n) (b_end b) in
  buf_ok b' ∧ content b' = zdrop n (content b) ∧ room b' = room b.
Proof.
  intros H Hn. rewrite zlen_content in Hn by done. buf_hyps. cbn zeta. split_and!; [| |done].
  - split; cbn; try lia; apply H.
  - unfold content. cbn. rewrite zdrop_ztake by lia. rewrite zdrop_zdrop by lia. f_equal. lia.
Qed.

Lemma Buffer_Clear_ok b :
  buf_ok b →
  buf_ok (Buffer_Clear b) ∧ content (Buffer_Clear b) = [] ∧
  room (Buffer_Clear b) = s_len (v_of b).
Proof.
  intros H. buf_hyps. split_and!; [|done|unfold room; cbn; apply Z.sub_0_r].
  split; cbn; try lia; apply H.
Qed.

Lemma Buffer_ReadByte_ok b :
  buf_ok b →
  match content b with
  | [] => Buffer_ReadByte b = Ret (0, Some (ErrNew EOF), b)
  | x :: rest => ∃ b', Buffer_ReadByte b = Ret (x, None, b') ∧ buf_ok b' ∧ content b' = rest ∧
                       room b' = room b
  end.
Proof.
  intros H. pose proof (zlen_content b H) as Hl. buf_hyps. unfold Buffer_ReadByte.
  destruct (content b) as [|x rest] eqn:Hc.
  { rewrite zlen_nil in Hl. zltb_solve. done. }
  rewrite zlen_cons in Hl. pose proof (zlen_nonneg rest). zltb_solve.
  destruct (s_index_Ret (v_of b) (b_start b)) as (y & -> & Hy); [apply H|lia|]. cbn. unwrap.
  destruct (skip_ok b 1 H) as (Hok & Hc' & Hr); [rewrite Hc, zlen_cons; lia|].
  unfold content in Hc. rewrite Hy in Hc.
  replace (b_end b - b_start b) with (1 + (b_end b - b_start b - 1)) in Hc by lia.
  rewrite ztake_split in Hc by lia. injection Hc as -> Hrest.
  eexists. split; [reflexivity|]. split; [done|]. split; [|done].
  rewrite Hc'. unfold content. rewrite Hy. rewrite zdrop_ztake by lia. done.
Qed.

Lemma Buffer_ReadBytes_ok b n :
  buf_ok b → 0 ≤ n < 2 ^ 31 →
  if zlen (content b) <? n then Buffer_ReadBytes b n = Ret ([], Some (ErrNew EOF), b)
  else ∃ b', Buffer_ReadBytes b n = Ret (ztake n (content b), None, b') ∧ buf_ok b' ∧
             content b' = zdrop n (content b) ∧ room b' = room b.
Proof.
  intros H Hn. pose proof (zlen_content b H) as Hl. buf_hyps. unfold Buffer_ReadBytes.
  rewrite Hl. unwrap. case_if; [done|]. unwrap.
  rewrite s_sub_Ret by lia. cbn. unwrap.
  destruct (skip_ok b n H) as (Hok & Hc & Hr); [lia|].
  eexists. split; [|done]. do 3 f_equal. unfold s_bytes, content. cbn.
  rewrite ztake_ztake by lia. f_equal. lia.
Qed.

(** [Read] copies the front of the content; a read that takes everything also
    resets both positions, so the whole slice is free again. *)
Lemma Buffer_Read_ok pb n :
  pbuf_ok pb → 0 ≤ n →
  match pcontent pb with
  | [] => Buffer_Read pb n = Ret ([], Some (ErrNew EOF), pb)
  | _ => ∃ b b', pb = Some b ∧
      Buffer_Read pb n = Ret (ztake n (content b), None, Some b') ∧ buf_ok b' ∧
      content b' = zdrop n (content b) ∧ s_len (v_of b') = s_len (v_of b) ∧
      room b' = if zlen (content b) <=? n then s_len (v_of b) else room b
  end.
Proof.
  intros H Hn. unfold Buffer_Read. rewrite Buffer_Len_ok by done.
  destruct (pcontent pb) as [|x rest] eqn:Hc; [done|].
  destruct pb as [b|]; [|done]. cbn in H, Hc.
  pose proof (zlen_content b H) as Hl. rewrite Hc, zlen_cons in Hl. pose proof (zlen_nonneg rest).
  assert (zlen (content b) = b_end b - b_start b) as Hl' by (by apply zlen_content).
  rewrite zlen_cons. buf_hyps. zltb_solve. rewrite s_sub_Ret by lia. cbn [mbind go_bind].
  assert (s_bytes (Slice (zdrop (b_start b) (s_arr (v_of b))) (b_end b - b_start b)) = content b)
    as -> by done.
  cbn [s_len]. exists b. clear Hc.
  destruct (Z.min_spec n (b_end b - b_start b)) as [[Hlt ->]|[Hge ->]]; unwrap; zltb_solve.
  - destruct (skip_ok b n H) as (Hok & Hc' & Hr); [lia|].
    eexists. split; [done|]. split; [reflexivity|]. done.
  - destruct (Buffer_Clear_ok b H) as (Hok & Hc' & Hr).
    eexists. split; [done|]. rewrite (ztake_ge (b_end b - b_start b)), (ztake_ge n), (zdrop_ge n)
      by lia.
    split; [reflexivity|]. done.
Qed.

(** [Advance] within the content, counted from the front or from the back. *)
Lemma Buffer_Advance_ok b n :
  buf_ok b → - zlen (content b) ≤ n ≤ zlen (content b) →
  let k := if n <? 0 then n + zlen (content b) else n in
  buf_ok (Buffer_Advance b n) ∧ content (Buffer_Advance b n) = zdrop k (content b) ∧
  room (Buffer_Advance b n) = room b.
Proof.
  intros H Hn. cbn zeta. unfold Buffer_Advance. rewrite Buffer_Len_ok by done. cbn [pcontent].
  pose proof (zlen_content b H) as Hl. buf_hyps.
  assert (Hi : (if n <? 0 then i32 (n + zlen (content b)) else n) =
               (if n <? 0 then n + zlen (content b) else n)) by (case_if; unwrap; done).
  rewrite Hi. set (k := if n <? 0 then n + zlen (content b) else n).
  assert (0 ≤ k ≤ zlen (content b)) by (unfold k; case_if; lia).
  destruct (skip_ok b k H) as (Hok & Hc & Hr); [lia|].
  unfold Buffer_Check. cbn. unwrap. zltb_solve. done.
Qed.

Lemma Buffer_Extend_ok b n :
  buf_ok b → 0 ≤ n →
  if room b <? n then n < 2 ^ 31 → b_end b + n < 2 ^ 31 → Buffer_Extend b n = Panic "extending out of bound"
  else ∃ b', Buffer_Extend b n = Ret (b_end b, n, b') ∧ buf_ok b' ∧ room b' = room b - n ∧
             b' = set_range b (b_start b) (b_end b + n) ∧ zlen (content b') = zlen (content b) + n.
Proof.
  intros H Hn. unfold Buffer_Extend, room. buf_hyps. case_if.
  - intros. unwrap. zltb_solve. done.
  - unwrap. zltb_solve. rewrite s_sub_Ret by lia. cbn.
    assert (buf_ok (set_range b (b_start b) (b_end b + n))) as Hok.
    { split; rewrite ?v_of_set_range; cbn -[v_of]; try lia; apply H. }
    eexists. split; [do 3 f_equal; lia|]. rewrite !zlen_content by done.
    rewrite v_of_set_range. cbn -[v_of]. split_and!; try done; lia.
Qed.

Lemma FromBytes_ok s :
  slice_ok s → s_len s < 2 ^ 31 → buf_ok (FromBytes (Some s)) ∧ content (FromBytes (Some s)) = s_bytes s.
Proof.
  intros [H0 H1] H2. unfold FromBytes. rewrite i32_id by lia. unfold content. cbn.
  rewrite Z.sub_0_r. split; [|done]. by split; cbn; try lia.
Qed.

(** A new buffer is empty with [Size] bytes of room, whatever slice the pool
    handed out and whatever stale bytes are in it. *)
Lemma New_ok w :
  world_ok w →
  ∃ b w', New w = Ret (b, w') ∧ world_ok w' ∧ buf_ok b ∧ content b = [] ∧ room b = Size ∧
          b_start b = 0 ∧ b_unmanaged b = false ∧ b_UDP b = None ∧ s_len (v_of b) = Size.
Proof.
  intros Hw. unfold New, pool_get_sized. change pool with (Some 1%nat).
  destruct (Pool_Get_spec 1 w Hw) as (s & w' & Hg & Hw' & Hs & Hl & Hc); [unfold numPools; lia|].
  rewrite poolSize_eq in Hc. change (8192 ≤ s_cap s) in Hc.
  unfold mbind at 1, M_bind at 1. rewrite (M_bind_Ret _ _ _ _ _ Hg). unfold Size.
  zltb_solve. rewrite s_sub_Ret by lia.
  eexists _, _. split; [reflexivity|]. split; [done|]. unfold s_cap in *.
  assert (Hv : v_of (mkBuffer (Some (Slice (zdrop 0 (s_arr s)) (8192 - 0))) 0 0 false None) =
               Slice (s_arr s) 8192) by done.
  split; [|rewrite Hv; done]. split; rewrite ?Hv; cbn; try lia; [|intros _; right; unfold Size; lia].
  split; unfold s_cap; cbn; lia.
Qed.

Lemma Buffer_Release_ok pb w :
  world_ok w → pbuf_ok pb →
  ∃ pb' w', Buffer_Release pb w = Ret (pb', w') ∧ world_ok w' ∧ pbuf_ok pb' ∧
            (pb' = pb ∨ ∃ b', pb' = Some b' ∧ b_v b' = None ∧ b_UDP b' = None) ∧
            (∀ b, pb = Some b → b_unmanaged b = true → pb' = pb).
Proof.
  intros Hw H. unfold Buffer_Release. destruct pb as [b|]; [|eexists _, _; split; [reflexivity|]; auto].
  cbn in H. destruct (b_v b) as [p|] eqn:Hv.
  2: { eexists _, _. split; [reflexivity|]. auto. }
  destruct (b_unmanaged b) eqn:Hm.
  { eexists _, _. split; [reflexivity|]. auto. }
  destruct (bo_managed b H Hm) as [?|Hsz]; [congruence|].
  assert (v_of b = p) as Hp by (unfold v_of; by rewrite Hv).
  buf_hyps. rewrite Hp in *.
  assert (∃ w', (if s_cap p =? Size then match pool with Some idx => Pool_Put idx p | None => panic nil_deref end
                 else mret tt) w = Ret (tt, w') ∧ world_ok w') as (w' & Hput & Hw').
  { case_if; [|eexists; split; [reflexivity|done]]. apply Pool_Put_spec; [done|unfold numPools; lia|done| |].
    - unfold Size in *. lia.
    - rewrite poolSize_eq. change (8192 ≤ s_cap p). unfold Size in *. lia. }
  rewrite (M_bind_Ret _ _ _ _ _ Hput). eexists _, _. split; [reflexivity|]. cbn.
  split; [done|]. split; [|split; [right; eauto|intros ? [= <-]; congruence]].
  split; cbn; try lia; [split; cbn; unfold s_cap; cbn; pose proof (@zlen_nil Z); lia|]. by left.
Qed.

Section ReadFromFacts.
Context {R : Type} `{StreamReader R}.

Lemma Buffer_ReadFrom_ok b r w :
  buf_ok b → rd_inv r → world_ok w → 0 < room b →
  ∃ n err b' r' w' d, Buffer_ReadFrom b r w = Ret ((n, err, b', r'), w') ∧
    world_ok w' ∧ rd_inv r' ∧ buf_ok b' ∧ n = zlen d ∧
    content b' = content b ++ d ∧ room b' = room b - n ∧ rd_rest r = d ++ rd_rest r' ∧
    rd_end r' = rd_end r ∧ (rd_meas r' ≤ rd_meas r)%nat ∧
    (err = None → (rd_meas r' < rd_meas r)%nat) ∧
    (∀ e, err = Some e → e = rd_end r ∧ rd_rest r' = []).
Proof.
  intros Hb Hr Hw Hroom. unfold Buffer_ReadFrom. buf_hyps. rewrite s_sub_Ret by lia.
  rewrite M_bind_lift. cbn [s_len]. fold (room b).
  destruct (rd_spec r (room b) w Hr Hw Hroom) as
    (d & e & r' & w' & Hio & Hw' & Hr' & Hd & Hrest & Hend & Hm0 & Hm & He).
  rewrite (M_bind_Ret _ _ _ _ _ Hio).
  destruct (append_ok b d Hb Hd) as (Hok & Hc & Hrm & Hl). pose proof (zlen_nonneg d).
  unfold room in Hd. cbn. unwrap.
  eexists _, _, _, _, _, d. split; [reflexivity|]. done.
Qed.

Lemma Buffer_ReadFullFrom_ok fuel b r size w :
  buf_ok b → rd_inv r → world_ok w → 0 ≤ size ≤ room b → (rd_meas r < fuel)%nat →
  ∃ n err b' r' w' d, Buffer_ReadFullFrom fuel b r size w = Ret ((n, err, b', r'), w') ∧
    world_ok w' ∧ rd_inv r' ∧ buf_ok b' ∧ n = zlen d ∧ zlen d = Z.min size (zlen (rd_rest r)) ∧
    content b' = content b ++ d ∧ rd_rest r = d ++ rd_rest r' ∧
    rd_end r' = rd_end r ∧ (rd_meas r' ≤ rd_meas r)%nat ∧
    (err = None ↔ zlen d = size) ∧
    (∀ e, err = Some e → rd_rest r' = [] ∧
       e = if (0 <? zlen d) && is_sentinel EOF (rd_end r) then ErrNew ErrUnexpectedEOF else rd_end r).
Proof.
  intros Hb Hr Hw Hsz Hf. unfold Buffer_ReadFullFrom. buf_hyps. unfold room in Hsz. unwrap.
  zltb_solve. rewrite s_sub_Ret by lia. rewrite M_bind_lift. cbn [s_len].
  replace (b_end b + size - b_end b) with size by lia.
  destruct (ReadFull_spec fuel r size w Hr Hw) as
    (d & e & r' & w' & Hio & Hw' & Hr' & Hrest & Hend & Hm & Hmin & Hn & He); [lia|done|].
  rewrite (M_bind_Ret _ _ _ _ _ Hio). pose proof (zlen_nonneg d).
  destruct (append_ok b d Hb) as (Hok & Hc & Hrm & Hl); [unfold room; lia|].
  cbn. unwrap. eexists _, _, _, _, _, d. split; [reflexivity|]. done.
Qed.
End ReadFromFacts.

(** A buffer is a finite reader: it ends with [io.EOF]. *)
#[global] Program Instance Buffer_stream : StreamReader (option Buffer) := {|
  rd_inv pb := pbuf_ok pb;
  rd_rest pb := pcontent pb;
  rd_meas pb := length (pcontent pb);
  rd_end _ := ErrNew EOF
|}.
Next Obligation.
  intros pb n w Hb Hw Hn. unfold io_read, Buffer_reader.
  pose proof (Buffer_Read_ok pb n Hb) as Hr. destruct (pcontent pb) as [|x rest] eqn:Hc.
  - rewrite Hr by lia. eexists _, _, _, _. split; [reflexivity|].
    rewrite Hc, zlen_nil. split_and!; try done; [lia|by intros ? [= <-]].
  - destruct Hr as (b & b' & -> & Hr & Hok & Hc' & _ & _); [lia|]. rewrite Hr. cbn in Hc.
    eexists _, _, _, _. split; [reflexivity|]. cbn. rewrite Hc' , Hc, ztake_zdrop.
    split_and!; try done.
    + rewrite zlen_ztake_min by lia. lia.
    + unfold zdrop. rewrite length_drop. cbn. lia.
    + intros _. unfold zdrop. rewrite length_drop. cbn. lia.
Qed.

#[global] Arguments Buffer_Len : simpl never.
#[global] Arguments Buffer_IsEmpty : simpl never.
#[global] Arguments Buffer_IsFull : simpl never.
#[global] Arguments Buffer_Bytes : simpl never.
#[global] Arguments v_of : simpl never.
#[global] Arguments content : simpl never.
#[global] Arguments room : simpl never.
