(* ===== verification/BufferSpec.v ===== *)
(** * What a Buffer promises: a bounded byte queue

    The abstract specification of buf/buffer.go and the refinement theorem: on
    every sequence of operations a [Buffer] answers like a queue of bytes with a
    fixed capacity. *)
From S2P Require Import Prelude Errors Bytespool IO Buffer.

(** ** Abstract queue

    [q_data] is the content, [q_room] the free space behind it, [q_cap] the
    size of the slice.  Space in front of the content comes back only when the
    queue is cleared, or emptied by a [Read]. *)
Record bqueue := mkQueue { q_data : bytes; q_room : Z; q_cap : Z }.

Inductive bop :=
  | OpWrite (d : bytes) | OpWriteByte (x : Z)
  | OpRead (n : Z) | OpReadByte | OpReadBytes (n : Z)
  | OpAdvance (n : Z) | OpClear
  | OpLen | OpIsEmpty | OpIsFull | OpBytes.

Inductive bres :=
  | ResCount (n : Z) (e : option error)
  | ResErr (e : option error)
  | ResBytes (d : bytes) (e : option error)
  | ResByte (x : Z) (e : option error)
  | ResBool (x : bool)
  | ResUnit.

Definition q_step (op : bop) (q : bqueue) : bres * bqueue :=
  let data := q_data q in
  match op with
  | OpWrite d =>
      let n := Z.min (q_room q) (zlen d) in
      (ResCount n None, mkQueue (data ++ ztake n d) (q_room q - n) (q_cap q))
  | OpWriteByte x =>
      if q_room q =? 0 then (ResErr (Some (ErrNew ErrBufferFull)), q)
      else (ResErr None, mkQueue (data ++ [x]) (q_room q - 1) (q_cap q))
  | OpRead n =>
      match data with
      | [] => (ResBytes [] (Some (ErrNew EOF)), q)
      | _ => (ResBytes (ztake n data) None,
              mkQueue (zdrop n data) (if zlen data <=? n then q_cap q else q_room q) (q_cap q))
      end
  | OpReadByte =>
      match data with
      | [] => (ResByte 0 (Some (ErrNew EOF)), q)
      | x :: rest => (ResByte x None, mkQueue rest (q_room q) (q_cap q))
      end
  | OpReadBytes n =>
      if zlen data <? n then (ResBytes [] (Some (ErrNew EOF)), q)
      else (ResBytes (ztake n data) None, mkQueue (zdrop n data) (q_room q) (q_cap q))
  | OpAdvance n =>
      let k := if n <? 0 then n + zlen data else n in
      (ResUnit, mkQueue (zdrop k data) (q_room q) (q_cap q))
  | OpClear => (ResUnit, mkQueue [] (q_cap q) (q_cap q))
  | OpLen => (ResCount (zlen data) None, q)
  | OpIsEmpty => (ResBool (bool_decide (data = [])), q)
  | OpIsFull => (ResBool (q_room q =? 0), q)
  | OpBytes => (ResBytes data None, q)
  end.

(** Arguments the source accepts without a panic or a negative length. *)
Definition q_pre (op : bop) (q : bqueue) : Prop :=
  match op with
  | OpRead n => 0 ≤ n
  | OpReadBytes n => 0 ≤ n < 2 ^ 31
  | OpAdvance n => - zlen (q_data q) ≤ n ≤ zlen (q_data q)
  | _ => True
  end.

(** ** The same operations on a Buffer *)

Definition buf_step (op : bop) (b : Buffer) : go (bres * Buffer) :=
  match op with
  | OpWrite d => '(n, e, b') ← Buffer_Write b d; Ret (ResCount n e, b')
  | OpWriteByte x => '(e, b') ← Buffer_WriteByte b x; Ret (ResErr e, b')
  | OpRead n =>
      '(d, e, pb) ← Buffer_Read (Some b) n;
      match pb with Some b' => Ret (ResBytes d e, b') | None => Panic nil_deref end
  | OpReadByte => '(x, e, b') ← Buffer_ReadByte b; Ret (ResByte x e, b')
  | OpReadBytes n => '(d, e, b') ← Buffer_ReadBytes b n; Ret (ResBytes d e, b')
  | OpAdvance n => Ret (ResUnit, Buffer_Advance b n)
  | OpClear => Ret (ResUnit, Buffer_Clear b)
  | OpLen => Ret (ResCount (Buffer_Len (Some b)) None, b)
  | OpIsEmpty => Ret (ResBool (Buffer_IsEmpty (Some b)), b)
  | OpIsFull => Ret (ResBool (Buffer_IsFull (Some b)), b)
  | OpBytes => d ← Buffer_Bytes b; Ret (ResBytes d None, b)
  end.

Fixpoint buf_run (ops : list bop) (b : Buffer) : go (list bres * Buffer) :=
  match ops with
  | [] => Ret ([], b)
  | op :: ops' =>
      '(r, b1) ← buf_step op b; '(rs, b2) ← buf_run ops' b1; Ret (r :: rs, b2)
  end.

Fixpoint q_run (ops : list bop) (q : bqueue) : list bres * bqueue :=
  match ops with
  | [] => ([], q)
  | op :: ops' =>
      let '(r, q1) := q_step op q in let '(rs, q2) := q_run ops' q1 in (r :: rs, q2)
  end.

Fixpoint q_runs (ops : list bop) (q : bqueue) : Prop :=
  match ops with
  | [] => True
  | op :: ops' => q_pre op q ∧ q_runs ops' (q_step op q).2
  end.

(** ** Refinement *)

Definition repr (b : Buffer) (q : bqueue) : Prop :=
  buf_ok b ∧ q_data q = content b ∧ q_room q = room b ∧ q_cap q = s_len (v_of b).

Lemma Buffer_Len_content b : buf_ok b → Buffer_Len (Some b) = zlen (content b).
Proof. intros H. by rewrite Buffer_Len_ok. Qed.

Lemma step_refines op b q :
  repr b q → q_pre op q →
  ∃ b', buf_step op b = Ret ((q_step op q).1, b') ∧ repr b' (q_step op q).2.
Proof.
  intros (H & Hd & Hr & Hc) Hpre. destruct q as [data rm cp]. cbn in Hd, Hr, Hc. subst.
  destruct op as [d|x|n| |n|n| | | | |]; cbn in Hpre |- *.
  - destruct (Buffer_Write_ok b d H) as (b' & -> & ? & ? & ? & ? & _). eexists. split; [done|]. done.
  - pose proof (Buffer_WriteByte_ok b x H) as Hw. destruct (room b =? 0).
    + rewrite Hw. eexists. done.
    + destruct Hw as (b' & -> & ? & ? & ? & ?). eexists. done.
  - pose proof (Buffer_Read_ok (Some b) n H Hpre) as Hw. cbn in Hw. destruct (content b) eqn:E.
    + rewrite Hw. eexists. split; [done|]. rewrite <- E. done.
    + destruct Hw as (b0 & b' & [= <-] & -> & ? & Hc' & Hl & Hrm). rewrite <- E, <- Hl.
      eexists. split; [done|]. split; [done|]. split; [done|]. cbn. split; [|done].
      rewrite Hrm, E. by rewrite <- Hl.
  - pose proof (Buffer_ReadByte_ok b H) as Hw. destruct (content b) eqn:E.
    + rewrite Hw. eexists. split; [done|]. rewrite <- E. done.
    + destruct Hw as (b' & Hw & ? & ? & Hrm). unfold Buffer_ReadByte in *.
      case_if; [done|]. destruct (s_index _ _); try done. cbn in *. injection Hw as -> <-.
      eexists. split; [done|]. done.
  - pose proof (Buffer_ReadBytes_ok b n H Hpre) as Hw. destruct (zlen (content b) <? n).
    + rewrite Hw. eexists. done.
    + destruct Hw as (b' & Hw & ? & ? & Hrm). unfold Buffer_ReadBytes in *.
      case_if; [done|]. destruct (s_sub _ _ _); try done. cbn in *. injection Hw as Hd <-.
      rewrite Hd. eexists. split; [done|]. done.
  - destruct (Buffer_Advance_ok b n H Hpre) as (? & ? & ?). eexists. split; [done|]. done.
  - destruct (Buffer_Clear_ok b H) as (? & ? & ?). eexists. split; [done|]. done.
  - rewrite Buffer_Len_content by done. eexists. done.
  - rewrite Buffer_IsEmpty_ok by done. eexists. done.
  - rewrite Buffer_IsFull_ok by done. eexists. done.
  - rewrite Buffer_Bytes_ok by done. eexists. done.
Qed.

Lemma run_refines ops b q :
  repr b q → q_runs ops q →
  ∃ b', buf_run ops b = Ret ((q_run ops q).1, b') ∧ repr b' (q_run ops q).2.
Proof.
  revert b q. induction ops as [|op ops IH]; intros b q Hr Hp; [eexists; done|].
  destruct Hp as [Hp1 Hp2]. destruct (step_refines op b q Hr Hp1) as (b1 & Hs & Hr1).
  destruct (IH b1 _ Hr1 Hp2) as (b2 & Hrun & Hr2). cbn. rewrite Hs. cbn. rewrite Hrun. cbn.
  destruct (q_step op q) as [r q1]. cbn in *. destruct (q_run ops q1) as [rs q2]. cbn in *. eauto.
Qed.

(** ** Properties *)



(** [New] gives a managed buffer with empty content, both positions zero
    and 8192 bytes of room, for every content of the pools, and keeps the pool
    invariant; releasing any buffer keeps it too, and a second release of the
    same pointer changes nothing, so a slice is never put back twice. *)
Theorem new_release_pool_discipline (w : World) :
  world_ok w →
  (∃ b w', New w = Ret (b, w') ∧ world_ok w' ∧ buf_ok b ∧ content b = [] ∧ room b = Size ∧
           b_unmanaged b = false) ∧
  (∀ pb, pbuf_ok pb →
     ∃ pb' w', Buffer_Release pb w = Ret (pb', w') ∧ world_ok w' ∧ pbuf_ok pb' ∧
               Buffer_Release pb' w' = Ret (pb', w')).
Proof.
  intros Hw. split.
  - destruct (New_ok w Hw) as (b & w' & ? & ? & ? & ? & ? & _ & ? & _). eexists _, _. done.
  - intros pb Hpb. destruct (Buffer_Release_ok pb w Hw Hpb) as (pb' & w' & Hr & ? & ? & Hcase & _).
    eexists _, _. split; [done|]. split; [done|]. split; [done|].
    destruct Hcase as [->|(b' & -> & Hv & _)]; [|unfold Buffer_Release; by rewrite Hv].
    unfold Buffer_Release in *. destruct pb as [b|]; [|done].
    destruct (b_v b) as [p|] eqn:Hv; [|done]. destruct (b_unmanaged b) eqn:Hm; [done|].
    unfold mbind, M_bind in Hr. destruct (_ w) as [[[] w1]| |]; try done.
    injection Hr as Heq. apply (f_equal b_v) in Heq. cbn in Heq. congruence.
Qed.

Lemma new_release_pool_discipline_witness :
  ∃ b w', New empty_world = Ret (b, w') ∧ world_ok w' ∧ buf_ok b ∧
          content b = [] ∧ room b = Size ∧ b_unmanaged b = false.
Proof. apply (new_release_pool_discipline empty_world empty_world_ok). Defined.
