(* ===== verification/MultiBuffer.v ===== *)
(** * MultiBuffer

    buf/multi_buffer.go: a list of buffers treated as one byte stream, and
    [MultiBufferContainer].

    A [MultiBuffer] is a Go slice of [*Buffer]: it may be nil ([None]), and its
    elements may be nil pointers.  The functions take over the buffers of their
    argument and overwrite the moved elements with nil; where they do, the last
    component of the result is the argument's array afterwards, as a caller
    that kept the slice would see it. *)
From S2P Require Import Prelude Errors Bytespool IO Buffer.

Abbreviation pbuf := (option Buffer).
Abbreviation MultiBuffer := (option (list (option Buffer))).

Definition els (mb : MultiBuffer) : list pbuf := default [] mb.

(** [mb[:0]] *)
Definition reslice0 (mb : MultiBuffer) : MultiBuffer := match mb with None => None | Some _ => Some [] end.

(** [append(mb, xs...)] *)
Definition go_append (mb : MultiBuffer) (xs : list pbuf) : MultiBuffer :=
  match mb, xs with None, [] => None | _, _ => Some (els mb ++ xs) end.

Definition deref (p : pbuf) : M Buffer :=
  match p with Some b => mret b | None => panic nil_deref end.

(** ** Observers *)

Definition MultiBuffer_Len (mb : MultiBuffer) : Z :=
  foldl (λ size b, i32 (size + Buffer_Len b)) 0 (els mb).

Fixpoint all_empty (l : list pbuf) : bool :=
  match l with
  | [] => true
  | b :: l' => if negb (Buffer_IsEmpty b) then false else all_empty l'
  end.
Definition MultiBuffer_IsEmpty (mb : MultiBuffer) : bool := all_empty (els mb).

Fixpoint concat_strings (l : list pbuf) : go bytes :=
  match l with
  | [] => Ret []
  | None :: _ => Panic nil_deref
  | Some b :: l' => s ← Buffer_String b; rest ← concat_strings l'; Ret (s ++ rest)
  end.
Definition MultiBuffer_String (mb : MultiBuffer) : go bytes := concat_strings (els mb).

(** The loop of [Copy]; [n] bytes of the destination are left. *)
Fixpoint copy_loop (l : list pbuf) (n : Z) : go bytes :=
  match l with
  | [] => Ret []
  | None :: _ => Panic nil_deref
  | Some bb :: l' =>
      src ← Buffer_Bytes bb;
      let nBytes := Z.min n (zlen src) in
      let d := ztake nBytes src in
      if i32 nBytes <? Buffer_Len (Some bb) then Ret d
      else rest ← copy_loop l' (n - nBytes); Ret (d ++ rest)
  end.
Definition MultiBuffer_Copy (mb : MultiBuffer) (n : Z) : go bytes := copy_loop (els mb) n.

(** ** Merging *)

Definition MergeMulti (dest src : MultiBuffer) : MultiBuffer * MultiBuffer * list pbuf :=
  (go_append dest (els src), reslice0 src, replicate (length (els src)) None).

(** The loop of [MergeBytes]: one new buffer per turn. *)
Fixpoint merge_loop (fuel : nat) (dest : MultiBuffer) (src : bytes) : M MultiBuffer :=
  if zlen src <=? 0 then mret dest
  else
    match fuel with
    | O => out_of_fuel
    | S fuel' =>
        b ← New;
        '(nBytes, _, b') ← lift (Buffer_Write b src);
        merge_loop fuel' (go_append dest [Some b']) (zdrop nBytes src)
    end.

Definition MergeBytes (dest : MultiBuffer) (src : bytes) : M MultiBuffer :=
  match last (els dest) with
  | Some lastb =>
      if negb (Buffer_IsFull lastb) then
        b ← deref lastb;
        '(nBytes, _, b') ← lift (Buffer_Write b src);
        merge_loop (length src) (Some (removelast (els dest) ++ [Some b'])) (zdrop nBytes src)
      else merge_loop (length src) dest src
  | None => merge_loop (length src) dest src
  end.

(** ** Releasing *)

Fixpoint release_loop (l : list pbuf) : M unit :=
  match l with
  | [] => mret tt
  | b :: l' => Buffer_Release b;; release_loop l'
  end.

Definition ReleaseMulti (mb : MultiBuffer) : M (MultiBuffer * list pbuf) :=
  release_loop (els mb);;
  mret (reslice0 mb, replicate (length (els mb)) None).

(** ** Splitting *)

Definition SplitFirst (mb : MultiBuffer) : MultiBuffer * pbuf * list pbuf :=
  match els mb with
  | [] => (mb, None, [])
  | b :: l => (Some l, b, None :: l)
  end.

(** The loop of [SplitBytes]: the bytes copied, and the rest of the list from
    [endIndex] on ([None] when the index stays -1). *)
Fixpoint split_bytes_loop (l : list pbuf) (n : Z) : M (bytes * option (list pbuf)) :=
  match l with
  | [] => mret ([], None)
  | pBuffer :: l' =>
      '(d, _, pBuffer') ← lift (Buffer_Read pBuffer n);
      if negb (Buffer_IsEmpty pBuffer') then mret (d, Some (pBuffer' :: l'))
      else
        Buffer_Release pBuffer';;
        '(d', rest) ← split_bytes_loop l' (n - zlen d);
        mret (d ++ d', rest)
  end.

(** [SplitBytes(mb, b)] with [len(b) = n]. *)
Definition SplitBytes (mb : MultiBuffer) (n : Z) : M (MultiBuffer * bytes * list pbuf) :=
  '(d, rest) ← split_bytes_loop (els mb) n;
  let moved := (length (els mb) - length (default [] rest))%nat in
  mret (match rest with None => reslice0 mb | Some l => Some l end, d,
        replicate moved None ++ default [] rest).

Definition SplitFirstBytes (mb : MultiBuffer) (n : Z) : M (MultiBuffer * bytes) :=
  let '(mb', pb, _) := SplitFirst mb in
  match pb with
  | None => mret (mb', [])
  | Some b =>
      src ← lift (Buffer_Bytes b);
      Buffer_Release (Some b);;
      mret (mb', ztake (Z.min n (zlen src)) src)
  end.

(** The loop of [SplitSize]: the buffers moved to the result and the rest. *)
Fixpoint split_size_loop (l : list pbuf) (total size : Z) : list pbuf * option (list pbuf) :=
  match l with
  | [] => ([], None)
  | b :: l' =>
      if size <? i32 (total + Buffer_Len b) then ([], Some (b :: l'))
      else
        let '(r, rest) := split_size_loop l' (i32 (total + Buffer_Len b)) size in
        (b :: r, rest)
  end.

Definition SplitSize (mb : MultiBuffer) (size : Z) : M (MultiBuffer * MultiBuffer * list pbuf) :=
  match els mb with
  | [] => mret (mb, None, [])
  | b0 :: l =>
      if size <? Buffer_Len b0 then
        b ← New;
        '(off, n, b') ← lift (Buffer_Extend b size);
        bb0 ← deref b0;
        src ← lift (Buffer_BytesTo bb0 size);
        let b'' := store_at b' off (ztake (Z.min n (zlen src)) src) in
        let mb' := Some (Buffer_Advance bb0 size) :: l in
        mret (Some mb', Some [Some b''], mb')
      else
        let '(r, rest) := split_size_loop (els mb) 0 size in
        let moved := length r in
        mret (match rest with None => reslice0 mb | Some l' => Some l' end,
              go_append None r, replicate moved None ++ default [] rest)
  end.

Definition SplitMulti (mb : MultiBuffer) (i : Z) : MultiBuffer * MultiBuffer * list pbuf :=
  if (i <? zlen (els mb)) && (0 <=? i) then
    (Some (ztake i (els mb)), Some (zdrop i (els mb)),
     ztake i (els mb) ++ replicate (length (zdrop i (els mb))) None)
  else (mb, Some [], els mb).

(** ** Compaction *)

Fixpoint compact_loop (l : list pbuf) (last : pbuf) (mb2 : list pbuf) : M (list pbuf) :=
  match l with
  | [] => mret (mb2 ++ [last])
  | curr :: l' =>
      if Size <? i32 (Buffer_Len last + Buffer_Len curr) then
        compact_loop l' curr (mb2 ++ [last])
      else
        lb ← deref last;
        '(_, err, lb', curr') ← Buffer_ReadFrom lb curr;
        match err with
        | Some _ => panic "panic(err)"
        | None => Buffer_Release curr';; compact_loop l' (Some lb') mb2
        end
  end.

Definition Compact (mb : MultiBuffer) : M MultiBuffer :=
  match els mb with
  | [] => mret mb
  | b0 :: l => l' ← compact_loop l b0 []; mret (Some l')
  end.

(** ** Reading and writing whole streams *)

Fixpoint read_from_loop {R} `{IOReader R} (fuel : nat) (reader : R) (mb : list pbuf)
  : M (MultiBuffer * option error * R) :=
  match fuel with
  | O => out_of_fuel
  | S fuel' =>
      b ← New;
      '(_, err, b', reader') ← Buffer_ReadFullFrom fuel b reader Size;
      mb' ← (if Buffer_IsEmpty (Some b') then Buffer_Release (Some b');; mret mb
             else mret (mb ++ [Some b']));
      match err with
      | Some e =>
          if err_is EOF (Cause (Some e)) || err_is ErrUnexpectedEOF (Cause (Some e))
          then mret (Some mb', None, reader')
          else mret (Some mb', Some e, reader')
      | None => read_from_loop fuel' reader' mb'
      end
  end.

Definition ReadFrom {R} `{IOReader R} (fuel : nat) (reader : R) : M (MultiBuffer * option error * R) :=
  read_from_loop fuel reader [].

(** [(nil, nil)] is the pair of [None]s. *)
Definition ReadAllToBytes {R} `{IOReader R} (fuel : nat) (reader : R)
  : M (option bytes * option error * R) :=
  '(mb, err, reader') ← ReadFrom fuel reader;
  match err with
  | Some e => mret (None, Some e, reader')
  | None =>
      if MultiBuffer_Len mb =? 0 then mret (None, None, reader')
      else if MultiBuffer_Len mb <? 0 then panic "runtime error: makeslice: len out of range"
      else
        '(mb', b, _) ← SplitBytes mb (MultiBuffer_Len mb);
        ReleaseMulti mb';;
        mret (Some (b ++ replicate (Z.to_nat (MultiBuffer_Len mb - zlen b)) 0), None, reader')
  end.

(** [WriteMultiBuffer(writer, mb)]: stops at a nil element as at the end. *)
Fixpoint write_multi_loop {T} `{IOWriter T} (writer : T) (l : list pbuf)
  : M (MultiBuffer * option error * T) :=
  match l with
  | [] => mret (None, None, writer)
  | None :: _ => mret (None, None, writer)
  | Some b :: l' =>
      bs ← lift (Buffer_Bytes b);
      '(_, err, writer') ← io_write writer bs;
      Buffer_Release (Some b);;
      match err with
      | Some e => mret (Some l', Some e, writer')
      | None => write_multi_loop writer' l'
      end
  end.

Definition WriteMultiBuffer {T} `{IOWriter T} (writer : T) (mb : MultiBuffer)
  : M (MultiBuffer * option error * T) := write_multi_loop writer (els mb).

(** ** MultiBufferContainer *)

Record MultiBufferContainer := mkContainer { c_mb : MultiBuffer }.

Definition Container_Read (c : MultiBufferContainer) (n : Z)
  : M (bytes * option error * MultiBufferContainer) :=
  if MultiBuffer_IsEmpty (c_mb c) then mret ([], Some (ErrNew EOF), c)
  else '(mb, d, _) ← SplitBytes (c_mb c) n; mret (d, None, mkContainer mb).

Definition Container_ReadMultiBuffer (c : MultiBufferContainer)
  : MultiBuffer * option error * MultiBufferContainer := (c_mb c, None, mkContainer None).

Definition Container_Write (c : MultiBufferContainer) (b : bytes)
  : M (Z * option error * MultiBufferContainer) :=
  mb ← MergeBytes (c_mb c) b; mret (zlen b, None, mkContainer mb).

Definition Container_WriteMultiBuffer (c : MultiBufferContainer) (b : MultiBuffer)
  : option error * MultiBufferContainer :=
  let '(mb, _, _) := MergeMulti (c_mb c) b in (None, mkContainer mb).

Definition Container_Close (c : MultiBufferContainer) : M (option error * MultiBufferContainer) :=
  '(mb, _) ← ReleaseMulti (c_mb c); mret (None, mkContainer mb).

#[global] Instance Container_reader : IOReader MultiBufferContainer := Container_Read.
#[global] Instance Container_writer : IOWriter MultiBufferContainer := Container_Write.

(** ** Abstraction: the byte stream a MultiBuffer stands for *)

Definition mb_content (mb : MultiBuffer) : bytes := mjoin (pcontent <$> els mb).
Definition mb_ok (mb : MultiBuffer) : Prop := Forall pbuf_ok (els mb).

(** No element is a nil pointer. *)
Definition no_nil (mb : MultiBuffer) : Prop := Forall (λ p : pbuf, is_Some p) (els mb).

(** ** Lemmas *)

Abbreviation lcontent l := (mjoin (pcontent <$> l)).

Lemma els_Some (l : list pbuf) : els (Some l) = l.
Proof. done. Qed.

Lemma els_reslice0 mb : els (reslice0 mb) = [].
Proof. by destruct mb. Qed.

Lemma els_go_append mb xs : els (go_append mb xs) = els mb ++ xs.
Proof. destruct mb, xs; done. Qed.

Lemma lcontent_app l k : lcontent (l ++ k) = lcontent l ++ lcontent k.
Proof. by rewrite fmap_app, join_app. Qed.

Lemma lcontent_cons p l : lcontent (p :: l) = pcontent p ++ lcontent l.
Proof. done. Qed.

Lemma lcontent_nil : lcontent [] = [].
Proof. done. Qed.

Lemma lcontent_snoc l p : lcontent (l ++ [p]) = lcontent l ++ pcontent p.
Proof. rewrite lcontent_app. cbn. by rewrite app_nil_r. Qed.

Create Rewrite HintDb mb.
#[export] Hint Rewrite els_reslice0 els_go_append lcontent_app lcontent_cons : mb.

Lemma ok_snoc l p : Forall pbuf_ok l → pbuf_ok p → Forall pbuf_ok (l ++ [p]).
Proof. intros. apply Forall_app. split; [done|]. by apply Forall_singleton. Qed.

Lemma nn_snoc l b : Forall (λ p : pbuf, is_Some p) l → Forall (λ p : pbuf, is_Some p) (l ++ [Some b]).
Proof. intros. apply Forall_app. split; [done|]. by apply Forall_singleton. Qed.

Lemma zlen_lcontent_nonneg l : 0 ≤ zlen (lcontent l).
Proof. apply zlen_nonneg. Qed.

Lemma len_fold_ok l acc :
  Forall pbuf_ok l → 0 ≤ acc → acc + zlen (lcontent l) < 2 ^ 31 →
  foldl (λ size b, i32 (size + Buffer_Len b)) acc l = acc + zlen (lcontent l).
Proof.
  intros Hl. revert acc. induction Hl as [|p l Hp Hl IH]; intros acc Hacc Hlt; cbn [foldl].
  { rewrite lcontent_nil, zlen_nil. lia. }
  rewrite lcontent_cons, zlen_app in *. pose proof (zlen_nonneg (pcontent p)).
  pose proof (zlen_nonneg (lcontent l)).
  rewrite Buffer_Len_ok by done. unwrap. rewrite IH by lia. lia.
Qed.

(** [Len] is the number of bytes as an [int32], whatever that number is. *)
Lemma len_fold_i32 l acc : Forall pbuf_ok l →
  foldl (λ size b, i32 (size + Buffer_Len b)) (i32 acc) l = i32 (acc + zlen (lcontent l)).
Proof.
  intros Hl. revert acc. induction Hl as [|p l Hp Hl IH]; intros acc; cbn [foldl].
  { by rewrite lcontent_nil, zlen_nil, Z.add_0_r. }
  rewrite Buffer_Len_ok, i32_add_l, IH, lcontent_cons, zlen_app by done. by rewrite Z.add_assoc.
Qed.

Lemma MultiBuffer_Len_i32 mb : mb_ok mb → MultiBuffer_Len mb = i32 (zlen (mb_content mb)).
Proof. intros Hm. exact (len_fold_i32 (els mb) 0 Hm). Qed.

Lemma MultiBuffer_Len_ok mb :
  mb_ok mb → zlen (mb_content mb) < 2 ^ 31 → MultiBuffer_Len mb = zlen (mb_content mb).
Proof. intros. unfold MultiBuffer_Len. rewrite len_fold_ok; done. Qed.

Lemma all_empty_ok l : Forall pbuf_ok l → all_empty l = bool_decide (lcontent l = []).
Proof.
  induction 1 as [|p l Hp Hl IH]; cbn; [done|].
  rewrite Buffer_IsEmpty_ok, IH by done.
  repeat case_bool_decide; cbn; try done; destruct (pcontent p); naive_solver.
Qed.

Lemma MultiBuffer_IsEmpty_ok mb :
  mb_ok mb → MultiBuffer_IsEmpty mb = bool_decide (mb_content mb = []).
Proof. apply all_empty_ok. Qed.

Lemma release_loop_ok l w :
  world_ok w → Forall pbuf_ok l → ∃ w', release_loop l w = Ret (tt, w') ∧ world_ok w'.
Proof.
  intros Hw Hl. revert w Hw. induction Hl as [|p l Hp Hl IH]; intros w Hw; [eexists; done|]. cbn.
  destruct (Buffer_Release_ok p w Hw Hp) as (p' & w' & Hr & Hw' & _).
  rewrite (M_bind_Ret _ _ _ _ _ Hr). by apply IH.
Qed.

Lemma ReleaseMulti_ok mb w :
  world_ok w → mb_ok mb →
  ∃ w', ReleaseMulti mb w = Ret ((reslice0 mb, replicate (length (els mb)) None), w') ∧ world_ok w'.
Proof.
  intros Hw Hmb. unfold ReleaseMulti.
  destruct (release_loop_ok (els mb) w Hw Hmb) as (w' & Hr & Hw').
  rewrite (M_bind_Ret _ _ _ _ _ Hr). eexists. done.
Qed.

Lemma split_bytes_loop_ok l n w :
  world_ok w → Forall pbuf_ok l → 0 ≤ n →
  ∃ rest w', split_bytes_loop l n w = Ret ((ztake n (lcontent l), rest), w') ∧ world_ok w' ∧
    Forall pbuf_ok (default [] rest) ∧ lcontent (default [] rest) = zdrop n (lcontent l).
Proof.
  intros Hw Hl. revert n w Hw. induction Hl as [|p l Hp Hl IH]; intros n w Hw Hn.
  { exists None, w. cbn. rewrite ztake_nil, zdrop_nil. repeat split; try apply Hw; constructor. }
  cbn [split_bytes_loop]. rewrite lcontent_cons.
  assert (∃ p', Buffer_Read p n = Ret (ztake n (pcontent p),
                  (match pcontent p with [] => Some (ErrNew EOF) | _ => None end), p') ∧
                pbuf_ok p' ∧ pcontent p' = zdrop n (pcontent p)) as (p' & Hr & Hp' & Hc').
  { pose proof (Buffer_Read_ok p n Hp Hn) as H. destruct (pcontent p) eqn:E.
    - rewrite H. exists p. rewrite ztake_nil, zdrop_nil. done.
    - destruct H as (b & b' & -> & -> & Hok & Hc & _). cbn in E. rewrite E in *. exists (Some b'). done. }
  rewrite Hr, M_bind_lift. rewrite Buffer_IsEmpty_ok, Hc' by done.
  pose proof (zlen_nonneg (pcontent p)).
  destruct (decide (zlen (pcontent p) ≤ n)) as [Hle|Hgt].
  - rewrite bool_decide_eq_true_2 by (by apply zdrop_ge). cbn [negb].
    destruct (Buffer_Release_ok p' w Hw Hp') as (p'' & w1 & Hrel & Hw1 & _).
    rewrite (M_bind_Ret _ _ _ _ _ Hrel). rewrite (ztake_ge n (pcontent p)) by done.
    destruct (IH (n - zlen (pcontent p)) w1 Hw1) as (rest & w2 & Heq & Hw2 & Hok & Hc); [lia|].
    rewrite (M_bind_Ret _ _ _ _ _ Heq). exists rest, w2.
    rewrite ztake_app_ge, zdrop_app_ge by done. done.
  - rewrite bool_decide_eq_false_2.
    2: { intros E. apply (f_equal zlen) in E. rewrite zlen_zdrop, zlen_nil in E by lia. lia. }
    eexists _, w. split; [cbn [negb]; rewrite ztake_app_le by lia; reflexivity|].
    split; [done|]. cbn [default]. split; [by constructor|].
    rewrite zdrop_app_le by lia. cbn. by rewrite Hc'.
Qed.

(** [SplitBytes] hands out the first [n] bytes of the stream and keeps the rest. *)
Lemma SplitBytes_ok mb n w :
  world_ok w → mb_ok mb → 0 ≤ n →
  ∃ mb' arr w', SplitBytes mb n w = Ret ((mb', ztake n (mb_content mb), arr), w') ∧
    world_ok w' ∧ mb_ok mb' ∧ mb_content mb' = zdrop n (mb_content mb).
Proof.
  intros Hw Hmb Hn. unfold SplitBytes.
  destruct (split_bytes_loop_ok (els mb) n w Hw Hmb Hn) as (rest & w' & Heq & Hw' & Hok & Hc).
  rewrite (M_bind_Ret _ _ _ _ _ Heq). eexists _, _, _. split; [reflexivity|]. split; [done|].
  unfold mb_ok, mb_content in *. destruct rest as [l|]; cbn in *; [done|].
  rewrite els_reslice0. done.
Qed.

Lemma split_size_loop_ok l total size r rest :
  Forall pbuf_ok l → 0 ≤ total ≤ size → total + zlen (lcontent l) < 2 ^ 31 →
  split_size_loop l total size = (r, rest) →
  r ++ default [] rest = l ∧ total + zlen (lcontent r) ≤ size ∧
  (∀ b l', l = b :: l' → total + zlen (pcontent b) ≤ size → ∃ r', r = b :: r').
Proof.
  intros Hl. revert total r rest. induction Hl as [|p l Hp Hl IH]; intros total r rest Ht Hlt Heq.
  { cbn in Heq. injection Heq as <- <-. rewrite lcontent_nil, zlen_nil. split; [done|]. split; [lia|done]. }
  rewrite lcontent_cons, zlen_app in Hlt. cbn [split_size_loop] in Heq.
  pose proof (zlen_nonneg (pcontent p)). pose proof (zlen_nonneg (lcontent l)).
  rewrite Buffer_Len_ok in Heq by done. rewrite i32_id in Heq by lia.
  destruct (size <? total + zlen (pcontent p)) eqn:E; bool_hyps.
  - injection Heq as <- <-. rewrite lcontent_nil, zlen_nil.
    split; [done|]. split; [lia|]. intros ? ? [= <- <-]. lia.
  - destruct (split_size_loop l (total + zlen (pcontent p)) size) as [r1 rest1] eqn:E1.
    injection Heq as <- <-.
    destruct (IH (total + zlen (pcontent p)) r1 rest1) as (H1 & H2 & _); [lia|lia|done|].
    rewrite lcontent_cons, zlen_app. split; [cbn; by rewrite H1|]. split; [lia|].
    intros ? ? [= <- <-] _. eauto.
Qed.

(** The first [size] bytes of a longer buffer, copied into a new buffer. *)
Lemma split_head_ok b0 size w :
  world_ok w → buf_ok b0 → 0 ≤ size ≤ Size → size < zlen (content b0) →
  ∃ b off n b' src w', New w = Ret (b, w') ∧ Buffer_Extend b size = Ret (off, n, b') ∧
    Buffer_BytesTo b0 size = Ret src ∧ world_ok w' ∧
    let b'' := store_at b' off (ztake (Z.min n (zlen src)) src) in
    buf_ok b'' ∧ content b'' = ztake size (content b0).
Proof.
  intros Hw Hb0 Hsz Hlt.
  destruct (New_ok w Hw) as (b & w' & Hn & Hw' & Hb & Hc & Hr & Hst & _ & _ & _).
  pose proof (Buffer_Extend_ok b size Hb) as Hx.
  assert ((room b <? size) = false) as E by (apply Z.ltb_ge; lia). rewrite E in Hx.
  destruct Hx as (b' & Hx & Hb' & Hr' & -> & _); [lia|].
  pose proof (zlen_content b0 Hb0) as Hl0.
  assert (Hto : Buffer_BytesTo b0 size = Ret (ztake size (content b0))).
  { unfold Buffer_BytesTo. buf_hyps. zltb_solve. unwrap. rewrite s_sub_Ret by lia. cbn.
    f_equal. unfold s_bytes, content. cbn. rewrite ztake_ztake by lia. f_equal. lia. }
  eexists b, _, _, _, _, w'. split; [done|]. split; [done|]. split; [done|]. split; [done|].
  cbn zeta. assert (Hlen : zlen (ztake size (content b0)) = size) by (apply zlen_ztake; lia).
  rewrite Hlen, Z.min_id, (ztake_ge size (ztake _ _)) by lia.
  destruct (append_ok b (ztake size (content b0)) Hb) as (Hok & Hc' & _); [lia|].
  rewrite Hc, Hlen in *. done.
Qed.

(** [SplitSize] cuts the stream: a front of at most [size] bytes, not empty
    when the first buffer is not, and the rest. *)
Lemma SplitSize_ok mb size w :
  world_ok w → mb_ok mb → 0 ≤ size → zlen (mb_content mb) < 2 ^ 31 →
  (∀ b l, els mb = b :: l → size < zlen (pcontent b) → size ≤ Size) →
  ∃ mb' r arr w', SplitSize mb size w = Ret ((mb', r, arr), w') ∧ world_ok w' ∧
    mb_ok mb' ∧ mb_ok r ∧ mb_content r ++ mb_content mb' = mb_content mb ∧
    zlen (mb_content r) ≤ size ∧
    (∀ b l, els mb = b :: l → pcontent b ≠ [] → 0 < size → mb_content r ≠ []).
Proof.
  intros Hw Hmb Hsz Hlt Hbig. unfold SplitSize, mb_ok, mb_content in *.
  destruct (els mb) as [|b0 l] eqn:Hels.
  { exists mb, None, [], w. rewrite Hels. cbn. rewrite zlen_nil.
    split_and!; first [done|constructor|lia]. }
  pose proof (Forall_inv Hmb) as Hb0. pose proof (Forall_inv_tail Hmb) as Hl.
  rewrite Buffer_Len_ok by done. destruct (size <? zlen (pcontent b0)) eqn:E; bool_hyps.
  - destruct b0 as [b0|]; [|cbn in E; rewrite zlen_nil in E; lia]. cbn in Hb0, E.
    destruct (split_head_ok b0 size w Hw Hb0) as
      (b & off & n & b' & src & w' & Hn & Hx & Hto & Hw' & Hok & Hc); [split; [lia|]; by eapply Hbig|done|].
    rewrite (M_bind_Ret _ _ _ _ _ Hn), Hx, M_bind_lift. cbn [deref].
    rewrite M_bind_mret, Hto, M_bind_lift. eexists _, _, _, _. split; [reflexivity|].
    destruct (Buffer_Advance_ok b0 size Hb0) as (Hok' & Hc' & _); [lia|].
    assert ((size <? 0) = false) as E0 by (apply Z.ltb_ge; lia). rewrite E0 in Hc'.
    rewrite !els_Some, !lcontent_cons, lcontent_nil. cbn [pcontent]. rewrite Hc, Hc'.
    rewrite app_nil_r, app_assoc, ztake_zdrop, zlen_ztake by lia.
    split; [done|]. split; [by constructor|]. split; [by constructor|]. split; [done|]. split; [lia|].
    intros b1 l1 _ _ Hpos H0. apply (f_equal zlen) in H0. rewrite zlen_ztake, zlen_nil in H0; lia.
  - destruct (split_size_loop (b0 :: l) 0 size) as [r rest] eqn:Er.
    destruct (split_size_loop_ok (b0 :: l) 0 size r rest Hmb) as (Happ & Hle & Hhd); [lia|lia|done|].
    eexists _, _, _, _. split; [reflexivity|]. split; [done|].
    rewrite els_go_append. change (els None ++ r) with r.
    assert (els (match rest with Some l' => Some l' | None => reslice0 mb end) = default [] rest) as ->
      by (destruct rest; [done|apply els_reslice0]).
    rewrite <- Happ in Hmb. apply Forall_app in Hmb as [Hr Hrest].
    split; [done|]. split; [done|]. split; [by rewrite <- lcontent_app, Happ|]. split; [done|].
    intros b1 l1 [= <- <-] Hne _. destruct (Hhd b0 l eq_refl ltac:(lia)) as [r' ->].
    rewrite lcontent_cons. by destruct (pcontent b0).
Qed.

Lemma merge_loop_ok fuel dest src w :
  world_ok w → mb_ok dest → (length src ≤ fuel)%nat →
  ∃ mb w', merge_loop fuel dest src w = Ret (mb, w') ∧ world_ok w' ∧ mb_ok mb ∧
           mb_content mb = mb_content dest ++ src ∧ (no_nil dest → no_nil mb).
Proof.
  revert dest src w. induction fuel as [|fuel IH]; intros dest src w Hw Hd Hf.
  { destruct src; [|cbn in Hf; lia]. exists dest, w. rewrite app_nil_r. done. }
  cbn. case_if.
  { pose proof (zlen_nonneg src). rewrite (zlen_0_nil src) by lia. rewrite app_nil_r.
    exists dest, w. done. }
  destruct (New_ok w Hw) as (b & w1 & Hn & Hw1 & Hb & Hc & Hr & _).
  rewrite (M_bind_Ret _ _ _ _ _ Hn).
  destruct (Buffer_Write_ok b src Hb) as (b' & Hwr & Hb' & Hc' & _).
  rewrite Hwr, M_bind_lift. rewrite Hr, Hc in *. unfold Size in *.
  destruct (IH (go_append dest [Some b']) (zdrop (Z.min 8192 (zlen src)) src) w1 Hw1) as
    (mb & w2 & Heq & Hw2 & Hmb & Hcmb & Hnn).
  - unfold mb_ok. rewrite els_go_append. by apply ok_snoc.
  - unfold zdrop. rewrite length_drop.
    pose proof (zlen_pos_length src). lia.
  - exists mb, w2. split; [done|]. split; [done|]. split; [done|]. split.
    + rewrite Hcmb. unfold mb_content.
      rewrite els_go_append, lcontent_snoc. cbn [pcontent]. rewrite Hc'. cbn [app].
      by rewrite <- app_assoc, ztake_zdrop.
    + intros Hd'. apply Hnn. unfold no_nil. rewrite els_go_append. by apply nn_snoc.
Qed.

(** [MergeBytes] appends the bytes to the stream, filling the last buffer
    first; the last element must not be a nil pointer. *)
Lemma MergeBytes_ok dest src w :
  world_ok w → mb_ok dest → last (els dest) ≠ Some None →
  ∃ mb w', MergeBytes dest src w = Ret (mb, w') ∧ world_ok w' ∧ mb_ok mb ∧
           mb_content mb = mb_content dest ++ src ∧ (no_nil dest → no_nil mb).
Proof.
  intros Hw Hd Hl. unfold MergeBytes. destruct (last (els dest)) as [lb|] eqn:El.
  2: { by apply merge_loop_ok. }
  case_if; [|by apply merge_loop_ok].
  destruct lb as [b|]; [|done]. apply last_Some in El as [l0 El]. cbn [deref]. rewrite M_bind_mret.
  unfold mb_ok in Hd. rewrite El in Hd. apply Forall_app in Hd as [Hl0 Hb]. apply Forall_inv in Hb.
  destruct (Buffer_Write_ok b src Hb) as (b' & Hwr & Hb' & Hc' & _). rewrite Hwr, M_bind_lift.
  rewrite El, removelast_last.
  destruct (merge_loop_ok (length src) (Some (l0 ++ [Some b']))
    (zdrop (Z.min (room b) (zlen src)) src) w Hw) as (mb & w' & Heq & Hw' & Hmb & Hc & Hnn).
  - by apply ok_snoc.
  - unfold zdrop. rewrite length_drop. lia.
  - exists mb, w'. split; [done|]. split; [done|]. split; [done|]. split.
    + rewrite Hc. unfold mb_content. rewrite El, !els_Some, !lcontent_snoc. cbn [pcontent].
      rewrite Hc'. by rewrite <- !app_assoc, ztake_zdrop.
    + unfold no_nil. rewrite El. intros [Hn _]%Forall_app. apply Hnn. by apply nn_snoc.
Qed.

#[global] Arguments mb_content : simpl never.
#[global] Arguments els : simpl never.
#[global] Arguments MultiBuffer_Len : simpl never.
#[global] Arguments MultiBuffer_IsEmpty : simpl never.
