(* ===== verification/MultiBufferSpec.v ===== *)
(** * Properties of MultiBuffer

    The functions of buf/multi_buffer.go as operations on the byte stream a
    MultiBuffer stands for: splitting and merging keep the stream, reading a
    whole stream and copying it out gives the same bytes, writing delivers the
    bytes in order. *)
From S2P Require Import Prelude Errors Bytespool IO Buffer MultiBuffer.

(** ** Stream readers and writers of this package *)

#[global] Program Instance Container_stream : StreamReader MultiBufferContainer := {|
  rd_inv c := mb_ok (c_mb c);
  rd_rest c := mb_content (c_mb c);
  rd_meas c := length (mb_content (c_mb c));
  rd_end _ := ErrNew EOF
|}.
Next Obligation.
  intros c n w Hc Hw Hn. unfold io_read, Container_reader, Container_Read.
  rewrite MultiBuffer_IsEmpty_ok by done. case_bool_decide as E.
  - eexists _, _, _, _. split; [reflexivity|]. rewrite E, zlen_nil.
    split_and!; try done; [lia|by intros ? [= <-]].
  - destruct (SplitBytes_ok (c_mb c) n w Hw Hc) as (mb' & arr & w' & Hs & Hw' & Hok & Hr); [lia|].
    rewrite (M_bind_Ret _ _ _ _ _ Hs). eexists _, _, _, _. split; [reflexivity|]. cbn.
    rewrite Hr, ztake_zdrop. unfold zdrop. rewrite length_drop.
    assert (0 < length (mb_content (c_mb c)))%nat by (by destruct (mb_content (c_mb c)); cbn; [|lia]).
    split_and!; try done; try lia. rewrite zlen_ztake_min by lia. lia.
Qed.

#[global] Program Instance Container_stream_writer : StreamWriter MultiBufferContainer := {|
  wr_inv c := mb_ok (c_mb c) ∧ no_nil (c_mb c);
  wr_out c := mb_content (c_mb c)
|}.
Next Obligation.
  intros c p w [Hok Hnn] Hw. unfold io_write, Container_writer, Container_Write.
  destruct (MergeBytes_ok (c_mb c) p w Hw Hok) as (mb & w' & Hm & Hw' & Hmb & Hc & Hn).
  { intros El. apply last_Some in El as [l El]. unfold no_nil in Hnn. rewrite El in Hnn.
    apply Forall_app in Hnn as [_ Hx]. apply Forall_inv in Hx as [? ?]. done. }
  rewrite (M_bind_Ret _ _ _ _ _ Hm). eexists _, _, _, _. split; [reflexivity|]. cbn.
  pose proof (zlen_nonneg p). rewrite ztake_ge by lia. split_and!; auto; lia.
Qed.

(** ** Whole streams *)

(** [Copy] and [String] read the stream without consuming it. *)
Lemma copy_loop_ok l n :
  Forall pbuf_ok l → Forall (λ p : pbuf, is_Some p) l → 0 ≤ n →
  copy_loop l n = Ret (ztake n (lcontent l)).
Proof.
  intros Hl. revert n. induction Hl as [|p l Hp Hl IH]; intros n Hnn Hn.
  { cbn. by rewrite ztake_nil. }
  destruct (Forall_inv Hnn) as [b ->]. apply Forall_inv_tail in Hnn. cbn [copy_loop]. cbn in Hp.
  rewrite Buffer_Bytes_ok by done. rewrite go_bind_Ret. rewrite Buffer_Len_ok by done.
  cbn [pcontent]. rewrite lcontent_cons. cbn [pcontent].
  pose proof (zlen_nonneg (content b)). pose proof (zlen_content b Hp). buf_hyps. unwrap.
  destruct (Z.min_spec n (zlen (content b))) as [[Hlt ->]|[Hge ->]].
  - zltb_solve. by rewrite ztake_app_le by lia.
  - zltb_solve. rewrite IH by (done || lia). rewrite go_bind_Ret.
    rewrite (ztake_ge (zlen (content b))), ztake_app_ge by lia. done.
Qed.

Lemma concat_strings_ok l :
  Forall pbuf_ok l → Forall (λ p : pbuf, is_Some p) l → concat_strings l = Ret (lcontent l).
Proof.
  induction 1 as [|p l Hp Hl IH]; intros Hnn; [done|].
  destruct (Forall_inv Hnn) as [b ->]. apply Forall_inv_tail in Hnn. cbn [concat_strings].
  unfold Buffer_String. rewrite Buffer_Bytes_ok by done. rewrite go_bind_Ret, IH by done. done.
Qed.

Section ReadFromFacts.
Context {R : Type} `{StreamReader R}.

(** The error [ReadFrom] reports for a reader that ends with [e]. *)
Definition read_result (e : error) : option error :=
  if err_is EOF (Cause (Some e)) || err_is ErrUnexpectedEOF (Cause (Some e)) then None else Some e.

Lemma read_result_short n r :
  is_Some (read_result (rd_end r)) →
  read_result (if (0 <? n) && is_sentinel EOF (rd_end r) then ErrNew ErrUnexpectedEOF else rd_end r) =
  read_result (rd_end r).
Proof.
  intros [e He]. destruct (is_sentinel EOF (rd_end r)) eqn:E; [|by rewrite andb_false_r].
  apply is_sentinel_true in E. rewrite E in He. done.
Qed.

Lemma read_result_eof n r :
  read_result (rd_end r) = None →
  read_result (if (0 <? n) && is_sentinel EOF (rd_end r) then ErrNew ErrUnexpectedEOF else rd_end r) = None.
Proof. intros He. by case_if. Qed.

Lemma read_from_loop_ok fuel r acc w :
  rd_inv r → world_ok w → Forall pbuf_ok acc →
  (rd_meas r + length (rd_rest r) < fuel)%nat →
  ∃ mb r' w', read_from_loop fuel r acc w = Ret ((Some mb, read_result (rd_end r), r'), w') ∧
    world_ok w' ∧ Forall pbuf_ok mb ∧ lcontent mb = lcontent acc ++ rd_rest r.
Proof.
  revert r acc w. induction fuel as [|fuel IH]; intros r acc w Hr Hw Hacc Hf; [lia|].
  cbn [read_from_loop].
  destruct (New_ok w Hw) as (b & w1 & Hn & Hw1 & Hb & Hc & Hrm & _).
  rewrite (M_bind_Ret _ _ _ _ _ Hn).
  destruct (Buffer_ReadFullFrom_ok (S fuel) b r Size w1 Hb Hr Hw1) as
    (n & err & b' & r' & w2 & d & Hrd & Hw2 & Hr' & Hb' & -> & Hlen & Hc' & Hrest & Hend & Hm & Hnone & He);
    [unfold Size in *; lia|lia|].
  rewrite (M_bind_Ret _ _ _ _ _ Hrd). rewrite Hc in Hc'. cbn [app] in Hc'.
  assert (∃ acc' w3, (if Buffer_IsEmpty (Some b') then Buffer_Release (Some b');; mret acc
                      else mret (acc ++ [Some b'])) w2 = Ret (acc', w3) ∧ world_ok w3 ∧
            Forall pbuf_ok acc' ∧ lcontent acc' = lcontent acc ++ d) as (acc' & w3 & Hacc' & Hw3 & Hok3 & Hc3).
  { rewrite Buffer_IsEmpty_ok by done. cbn [pcontent]. rewrite Hc'. case_bool_decide as Ed.
    - destruct (Buffer_Release_ok (Some b') w2 Hw2 Hb') as (? & w3 & Hrel & Hw3 & _).
      rewrite (M_bind_Ret _ _ _ _ _ Hrel). exists acc, w3. rewrite Ed, app_nil_r. done.
    - exists (acc ++ [Some b']), w2. rewrite lcontent_snoc. cbn [pcontent]. rewrite Hc'.
      split_and!; try done. by apply ok_snoc. }
  rewrite (M_bind_Ret _ _ _ _ _ Hacc'). destruct err as [e|].
  - destruct (He e eq_refl) as [Hnil ->].
    exists acc', r', w3. rewrite Hc3, Hrest, Hnil, app_nil_r. split; [|done].
    destruct (read_result (rd_end r)) eqn:Er.
    + pose proof (read_result_short (zlen d) r ltac:(by rewrite Er)) as Hs. rewrite Er in Hs.
      unfold read_result in Hs. by destruct (_ || _); simplify_eq.
    + pose proof (read_result_eof (zlen d) r Er) as Hs. unfold read_result in Hs. by destruct (_ || _); simplify_eq.
  - pose proof (proj1 Hnone eq_refl) as Hd. destruct (IH r' acc' w3 Hr' Hw3 Hok3) as
      (mb & r2 & w4 & Heq & Hw4 & Hmb & Hcm).
    { rewrite Hrest, length_app in Hf. pose proof (zlen_pos_length d). unfold Size in *. lia. }
    exists mb, r2, w4. rewrite Heq, Hend, Hcm, Hc3, Hrest, app_assoc. done.
Qed.
End ReadFromFacts.

Section WriteFacts.
Context {T : Type} `{StreamWriter T}.

(** The writer receives the stream in order; after an error it has a prefix of
    it and the buffers not yet tried are returned. *)
Lemma write_multi_loop_ok l t w :
  wr_inv t → world_ok w → Forall pbuf_ok l → Forall (λ p : pbuf, is_Some p) l →
  ∃ mb err t' w' k, write_multi_loop t l w = Ret ((mb, err, t'), w') ∧ world_ok w' ∧ wr_inv t' ∧
    mb_ok mb ∧ 0 ≤ k ≤ zlen (lcontent l) ∧ wr_out t' = wr_out t ++ ztake k (lcontent l) ∧
    (err = None → mb = None ∧ k = zlen (lcontent l)) ∧
    (is_Some err → ∃ m, mb = Some m ∧ m `suffix_of` l ∧ k ≤ zlen (lcontent l) - zlen (lcontent m)).
Proof.
  intros Ht Hw Hl. revert t w Ht Hw. induction Hl as [|p l Hp Hl IH]; intros t w Ht Hw Hnn.
  { exists None, None, t, w, 0. rewrite lcontent_nil, ztake_0, app_nil_r. znil.
    split_and!; try done; try lia; try constructor; by intros [? ?]. }
  destruct (Forall_inv Hnn) as [b ->]. apply Forall_inv_tail in Hnn. cbn in Hp. cbn [write_multi_loop].
  rewrite Buffer_Bytes_ok, M_bind_lift by done.
  destruct (wr_spec t (content b) w Ht Hw) as (n & e & t1 & w1 & Hio & Hw1 & Ht1 & Hn & Hout & He).
  rewrite (M_bind_Ret _ _ _ _ _ Hio).
  destruct (Buffer_Release_ok (Some b) w1 Hw1 Hp) as (? & w2 & Hrel & Hw2 & _).
  rewrite (M_bind_Ret _ _ _ _ _ Hrel). rewrite lcontent_cons, zlen_app. cbn [pcontent].
  pose proof (zlen_nonneg (lcontent l)). destruct e as [e|].
  - exists (Some l), (Some e), t1, w2, n. rewrite ztake_app_le by lia.
    split_and!; try done; try lia. intros _. exists l. split_and!; [done| |lia].
    by apply suffix_cons_r.
  - specialize (He eq_refl). subst n. rewrite (ztake_ge _ (content b)) in Hout by lia.
    destruct (IH t1 w2 Ht1 Hw2 Hnn) as (mb & err & t2 & w3 & k & Heq & Hw3 & Ht2 & Hmb & Hk & Hout2 & HN & HS).
    exists mb, err, t2, w3, (zlen (content b) + k).
    pose proof (zlen_nonneg (content b)).
    rewrite Heq, Hout2, Hout, ztake_app_ge by lia.
    replace (zlen (content b) + k - zlen (content b)) with k by lia. rewrite app_assoc.
    split_and!; try done; try lia.
    + intros Hn'. destruct (HN Hn') as [-> ->]. done.
    + intros Hs. destruct (HS Hs) as (m & -> & Hsuf & Hle). exists m. split_and!; [done| |lia].
      by apply suffix_cons_r.
Qed.
End WriteFacts.

(** ** Compaction *)

(** A buffer nothing was read from yet, of standard size, not empty. *)
Definition fresh (p : pbuf) : Prop :=
  ∃ b, p = Some b ∧ buf_ok b ∧ b_start b = 0 ∧ s_len (v_of b) = Size ∧ content b ≠ [].

(** Reading all of [c] behind the content of [b]. *)
Lemma Buffer_ReadFrom_whole b c w n err b' c' w' :
  buf_ok b → buf_ok c → b_start b = 0 → zlen (content c) ≤ room b → content c ≠ [] →
  Buffer_ReadFrom b (Some c) w = Ret ((n, err, b', c'), w') →
  err = None ∧ content b' = content b ++ content c ∧ b_start b' = 0 ∧ s_len (v_of b') = s_len (v_of b).
Proof.
  intros Hb Hc Hst Hroom Hne Heq. unfold Buffer_ReadFrom in Heq. buf_hyps.
  rewrite s_sub_Ret in Heq by lia. rewrite M_bind_lift in Heq. cbn [s_len] in Heq. fold (room b) in Heq.
  pose proof (Buffer_Read_ok (Some c) (room b) Hc) as Hr. cbn [pcontent] in Hr.
  destruct (content c) as [|x rest] eqn:Ec; [done|]. pose proof (zlen_nonneg (x :: rest)).
  destruct Hr as (c0 & c1 & [= <-] & Hr & _); [lia|]. rewrite Ec, ztake_ge in Hr by lia.
  unfold io_read, Buffer_reader in Heq. rewrite Hr, M_bind_lift in Heq.
  destruct (append_ok b (x :: rest) Hb Hroom) as (Hok & Hc' & Hrm & Hl).
  unfold room in Hroom. injection Heq as _ <- <- _ _. cbn [b_start b_end store_at set_range].
  rewrite (i32_id (zlen _)), i32_id by lia. done.
Qed.

Lemma compact_loop_ok l lastb acc w :
  world_ok w → Forall fresh l → fresh lastb → Forall pbuf_ok acc →
  ∃ mb w', compact_loop l lastb acc w = Ret (mb, w') ∧ world_ok w' ∧ Forall pbuf_ok mb ∧
    lcontent mb = lcontent acc ++ pcontent lastb ++ lcontent l ∧
    (length mb ≤ length acc + 1 + length l)%nat.
Proof.
  intros Hw Hl. revert lastb acc w Hw.
  induction Hl as [|p l Hp Hl IH]; intros lastb acc w Hw (b & -> & Hb & Hst & Hsz & Hne) Hacc.
  { eexists _, _. split; [reflexivity|]. rewrite lcontent_snoc, ?app_nil_r, length_app. cbn [length].
    split; [done|]. split; [by apply ok_snoc|]. split; [done|lia]. }
  destruct Hp as (c & -> & Hc & Hcst & Hcsz & Hcne). cbn [compact_loop].
  rewrite !Buffer_Len_ok by done. cbn [pcontent].
  pose proof (zlen_content b Hb). pose proof (zlen_content c Hc).
  destruct (Size <? i32 (zlen (content b) + zlen (content c))) eqn:E.
  - destruct (IH (Some c) (acc ++ [Some b]) w Hw) as (mb & w' & -> & ? & ? & Hcm & Hlm).
    + exists c. done.
    + by apply ok_snoc.
    + exists mb, w'. rewrite Hcm, lcontent_snoc, lcontent_cons. cbn [pcontent].
      rewrite <- app_assoc, length_app in *. cbn [length] in *. split_and!; try done. lia.
  - buf_hyps. unfold Size in *. rewrite i32_id in E by lia. bool_hyps.
    assert (0 < zlen (content c)).
    { pose proof (zlen_nonneg (content c)). destruct (decide (zlen (content c) = 0)) as [E0|]; [|lia].
      by apply zlen_0_nil in E0. }
    assert (zlen (content c) ≤ room b) as Hroom by (unfold room; lia).
    cbn [deref]. rewrite M_bind_mret.
    assert (rd_inv (Some c : option Buffer)) as Hci by exact Hc.
    destruct (Buffer_ReadFrom_ok b (Some c) w Hb Hci Hw) as
      (n & err & b' & c' & w1 & d & Hrd & Hw1 & Hc' & Hb' & Hn & Hcb & Hrb & Hrest & _ & _ & _ & Herr); [lia|].
    rewrite (M_bind_Ret _ _ _ _ _ Hrd).
    destruct (Buffer_ReadFrom_whole b c w n err b' c' w1 Hb Hc Hst Hroom Hcne Hrd)
      as (-> & Hwhole & Hst' & Hsz').
    destruct (Buffer_Release_ok c' w1 Hw1 Hc') as (? & w2 & Hrel & Hw2 & _).
    rewrite (M_bind_Ret _ _ _ _ _ Hrel).
    destruct (IH (Some b') acc w2 Hw2) as (mb & w' & -> & ? & ? & Hcm & Hlm).
    + exists b'. rewrite Hsz', Hwhole. split_and!; try done. by destruct (content b).
    + done.
    + exists mb, w'. rewrite Hcm, lcontent_cons. cbn [pcontent]. rewrite Hwhole, <- app_assoc.
      cbn [length]. split_and!; try done. lia.
Qed.

(** ** Properties *)

(** Two unmanaged buffers around a nil element. *)
Definition sample_mb : MultiBuffer :=
  Some [Some (FromBytes (Some (slice_of [1; 2; 3]))); None; Some (FromBytes (Some (slice_of [4; 5])))].

Lemma sample_mb_ok : mb_ok sample_mb.
Proof.
  repeat apply Forall_cons_2; try done; try apply Forall_nil_2;
    apply FromBytes_ok; unfold slice_ok; vm_compute; try split; congruence.
Qed.

(** C11: [SplitBytes] into a slice of length [n] copies out exactly the first
    [min n len] bytes of the stream, in order and across buffers (nil elements
    included), and the MultiBuffer it returns holds exactly the rest. *)
Theorem split_bytes_prefix (mb : MultiBuffer) (n : Z) (w : World) :
  world_ok w → mb_ok mb → 0 ≤ n →
  ∃ mb' arr w', SplitBytes mb n w = Ret ((mb', ztake n (mb_content mb), arr), w') ∧
    world_ok w' ∧ mb_ok mb' ∧ mb_content mb' = zdrop n (mb_content mb).
Proof. apply SplitBytes_ok. Qed.

Lemma split_bytes_prefix_witness :
  ∃ mb' arr w', SplitBytes sample_mb 4 empty_world = Ret ((mb', [1; 2; 3; 4], arr), w') ∧
    world_ok w' ∧ mb_ok mb' ∧ mb_content mb' = [5].
Proof. apply (split_bytes_prefix sample_mb 4 empty_world empty_world_ok sample_mb_ok). lia. Defined.

(** [SplitSize] cuts the stream in two without losing or reordering a
    byte: the part returned has at most [size] bytes, is not empty when the
    first buffer is not, and the rest follows it.  (The first buffer may exceed
    [size] only for sizes that fit a standard buffer; otherwise [Extend]
    panics.) *)
Theorem split_size_cuts (mb : MultiBuffer) (size : Z) (w : World) :
  world_ok w → mb_ok mb → 0 ≤ size → zlen (mb_content mb) < 2 ^ 31 →
  (∀ b l, els mb = b :: l → size < zlen (pcontent b) → size ≤ Size) →
  ∃ mb' r arr w', SplitSize mb size w = Ret ((mb', r, arr), w') ∧ world_ok w' ∧
    mb_ok mb' ∧ mb_ok r ∧ mb_content r ++ mb_content mb' = mb_content mb ∧
    zlen (mb_content r) ≤ size ∧
    (∀ b l, els mb = b :: l → pcontent b ≠ [] → 0 < size → mb_content r ≠ []).
Proof. apply SplitSize_ok. Qed.

Lemma split_size_cuts_witness :
  ∃ mb' r arr w', SplitSize sample_mb 2 empty_world = Ret ((mb', r, arr), w') ∧ world_ok w' ∧
    mb_ok mb' ∧ mb_ok r ∧ mb_content r ++ mb_content mb' = [1; 2; 3; 4; 5] ∧
    zlen (mb_content r) ≤ 2 ∧
    (∀ b l, els sample_mb = b :: l → pcontent b ≠ [] → 0 < 2 → mb_content r ≠ []).
Proof.
  apply (split_size_cuts sample_mb 2 empty_world empty_world_ok sample_mb_ok).
  - lia.
  - vm_compute. done.
  - intros b l _ _. unfold Size. lia.
Defined.

(** [MergeBytes] appends the bytes at the end of the stream, for any amount
    of data: it fills the last buffer and then as many new ones as needed. *)
Theorem merge_bytes_appends (dest : MultiBuffer) (src : bytes) (w : World) :
  world_ok w → mb_ok dest → last (els dest) ≠ Some None →
  ∃ mb w', MergeBytes dest src w = Ret (mb, w') ∧ world_ok w' ∧ mb_ok mb ∧
           mb_content mb = mb_content dest ++ src ∧ (no_nil dest → no_nil mb).
Proof. apply MergeBytes_ok. Qed.

Lemma merge_bytes_appends_witness :
  ∃ mb w', MergeBytes sample_mb [6; 7] empty_world = Ret (mb, w') ∧ world_ok w' ∧ mb_ok mb ∧
           mb_content mb = [1; 2; 3; 4; 5; 6; 7] ∧ (no_nil sample_mb → no_nil mb).
Proof.
  apply (merge_bytes_appends sample_mb [6; 7] empty_world empty_world_ok sample_mb_ok).
  vm_compute. congruence.
Defined.

(** [ReadAllToBytes] on any reader that delivers a finite stream ending
    with [io.EOF] terminates and returns exactly the bytes of the stream with a
    nil error (nil for the empty stream), whatever chunks the reader uses. *)
Theorem read_all_to_bytes {R} `{StreamReader R} (fuel : nat) (r : R) (w : World) :
  rd_inv r → world_ok w → rd_end r = ErrNew EOF → zlen (rd_rest r) < 2 ^ 31 →
  (rd_meas r + length (rd_rest r) < fuel)%nat →
  ∃ r' w', ReadAllToBytes fuel r w =
    Ret ((match rd_rest r with [] => None | _ => Some (rd_rest r) end, None, r'), w') ∧ world_ok w'.
Proof.
  intros Hr Hw Hend Hlt Hf. unfold ReadAllToBytes, ReadFrom.
  destruct (read_from_loop_ok fuel r [] w Hr Hw) as (mb & r' & w1 & Heq & Hw1 & Hmb & Hc);
    [constructor|done|].
  rewrite Hend in Heq. rewrite (M_bind_Ret _ _ _ _ _ Heq). cbn match.
  change (lcontent [] ++ rd_rest r) with (rd_rest r) in Hc.
  assert (mb_content (Some mb) = rd_rest r) as Hc' by exact Hc.
  assert (MultiBuffer_Len (Some mb) = zlen (rd_rest r)) as ->
    by (rewrite MultiBuffer_Len_ok, Hc' by (rewrite ?Hc'; done); done).
  pose proof (zlen_nonneg (rd_rest r)). destruct (decide (rd_rest r = [])) as [E|E].
  { exists r', w1. rewrite E. done. }
  assert (zlen (rd_rest r) ≠ 0) by (intros ?%zlen_0_nil; congruence).
  zltb_solve. destruct (SplitBytes_ok (Some mb) (zlen (rd_rest r)) w1 Hw1) as
    (mb' & arr & w2 & Hs & Hw2 & Hmb' & _); [done|lia|].
  change (read_result (ErrNew EOF)) with (@None error). cbn match.
  rewrite (M_bind_Ret _ _ _ _ _ Hs). rewrite Hc', (ztake_ge (zlen (rd_rest r))) by lia.
  destruct (ReleaseMulti_ok mb' w2 Hw2 Hmb') as (w3 & Hrel & Hw3).
  rewrite (M_bind_Ret _ _ _ _ _ Hrel). rewrite Z.sub_diag. cbn [Z.to_nat replicate].
  rewrite app_nil_r. exists r', w3. destruct (rd_rest r); done.
Qed.

Lemma read_all_to_bytes_witness :
  ∃ r' w', ReadAllToBytes 20 (Script [[1; 2]; []; [3]] (ErrNew EOF)) empty_world =
    Ret ((Some [1; 2; 3], None, r'), w') ∧ world_ok w'.
Proof.
  refine (read_all_to_bytes 20 (Script [[1; 2]; []; [3]] (ErrNew EOF)) empty_world _ _ _ _ _);
    [exact I|exact empty_world_ok|reflexivity|vm_compute; reflexivity|cbn; lia].
Defined.

(** [WriteMultiBuffer] delivers the stream to the writer in order: with a
    nil error everything was written and nothing is left; with an error the
    writer has a prefix and the returned MultiBuffer is the tail of untried
    buffers. *)
Theorem write_multi_buffer_in_order {T} `{StreamWriter T} (t : T) (mb : MultiBuffer) (w : World) :
  wr_inv t → world_ok w → mb_ok mb → no_nil mb →
  ∃ mb' err t' w' k, WriteMultiBuffer t mb w = Ret ((mb', err, t'), w') ∧ world_ok w' ∧ wr_inv t' ∧
    mb_ok mb' ∧ 0 ≤ k ≤ zlen (mb_content mb) ∧ wr_out t' = wr_out t ++ ztake k (mb_content mb) ∧
    (err = None → mb' = None ∧ k = zlen (mb_content mb)) ∧
    (is_Some err → ∃ m, mb' = Some m ∧ m `suffix_of` els mb ∧
                        k ≤ zlen (mb_content mb) - zlen (mb_content mb')).
Proof.
  intros Ht Hw Hmb Hnn. unfold WriteMultiBuffer.
  destruct (write_multi_loop_ok (els mb) t w Ht Hw Hmb Hnn)
    as (mb' & err & t' & w' & k & H1 & H2 & H3 & H4 & H5 & H6 & H7 & H8).
  exists mb', err, t', w', k. split_and!; try done; try apply H2; try apply H5.
  intros Hs. destruct (H8 Hs) as (m & -> & Hsuf & Hle). exists m. done.
Qed.

Lemma write_multi_buffer_in_order_witness :
  ∃ mb' err t' w' k,
    WriteMultiBuffer (Sink [] 100 (ErrNew EOF))
      (Some [Some (FromBytes (Some (slice_of [1; 2]))); Some (FromBytes (Some (slice_of [3])))])
      empty_world = Ret ((mb', err, t'), w') ∧
    sk_out t' = ztake k [1; 2; 3].
Proof.
  destruct (write_multi_buffer_in_order (Sink [] 100 (ErrNew EOF))
      (Some [Some (FromBytes (Some (slice_of [1; 2]))); Some (FromBytes (Some (slice_of [3])))])
      empty_world) as (mb' & err & t' & w' & k & H & _ & _ & _ & _ & Ho & _).
  - vm_compute. discriminate.
  - exact empty_world_ok.
  - repeat apply Forall_cons_2; try apply Forall_nil_2;
      apply FromBytes_ok; vm_compute; repeat split; congruence.
  - repeat constructor; by eexists.
  - exists mb', err, t', w', k. split; [exact H|exact Ho].
Defined.

(** [Compact] keeps the stream and never returns more buffers than it was
    given, provided nothing has been consumed from the buffers (all read
    positions are zero), none is empty and all have the standard size. *)
Theorem compact_keeps_stream (mb : MultiBuffer) (w : World) :
  world_ok w → Forall fresh (els mb) →
  ∃ mb' w', Compact mb w = Ret (mb', w') ∧ world_ok w' ∧ mb_content mb' = mb_content mb ∧
            (length (els mb') ≤ length (els mb))%nat.
Proof.
  intros Hw Hf. unfold Compact, mb_content. destruct (els mb) as [|b0 l] eqn:E.
  { exists mb, w. rewrite E. done. }
  destruct (compact_loop_ok l b0 [] w Hw (Forall_inv_tail Hf) (Forall_inv Hf)) as
    (mb' & w' & Heq & Hw' & _ & Hc & Hlen); [constructor|].
  rewrite (M_bind_Ret _ _ _ _ _ Heq). exists (Some mb'), w'. rewrite els_Some. done.
Qed.

(** A standard-size buffer that holds [d] at offset [off]. *)
Definition sample_buffer (off : Z) (d : bytes) : Buffer :=
  mkBuffer (Some (Slice (splice off d (replicate (Z.to_nat 8192) 0)) 8192)) off (off + zlen d) false None.

Lemma compact_keeps_stream_witness :
  ∃ mb' w', Compact (Some [Some (sample_buffer 0 [1]); Some (sample_buffer 0 [2; 3])]) empty_world =
      Ret (mb', w') ∧ world_ok w' ∧ mb_content mb' = [1; 2; 3] ∧
      (length (els mb') ≤ 2)%nat.
Proof.
  apply (compact_keeps_stream (Some [Some (sample_buffer 0 [1]); Some (sample_buffer 0 [2; 3])])
    empty_world empty_world_ok).
  repeat apply Forall_cons_2; try apply Forall_nil_2; eexists; (split; [reflexivity|]);
    (split; [split; try split; vm_compute; try congruence; intros _; right; congruence|]);
    vm_compute; repeat split; congruence.
Defined.

(** Without that proviso [Compact] loses data: with one byte left at the
    end of the first buffer, the two bytes of the second buffer do not fit
    behind it, are not copied, and the buffer holding them is released. *)
Theorem compact_drops_bytes :
  ∃ mb mb' w', mb_ok mb ∧ mb_content mb = [1; 2; 3] ∧
    Compact mb empty_world = Ret (mb', w') ∧ mb_content mb' = [1].
Proof.
  exists (Some [Some (sample_buffer 8191 [1]); Some (sample_buffer 0 [2; 3])]).
  eexists _, _. split_and!.
  - repeat apply Forall_cons_2; try apply Forall_nil_2;
      (split; try split; vm_compute; try congruence; intros _; right; congruence).
  - vm_compute. reflexivity.
  - vm_compute. reflexivity.
  - vm_compute. reflexivity.
Qed.
