(* ===== verification/BufIO.v ===== *)
(** * Readers and writers of MultiBuffers

    buf/io.go, copy.go, reader.go, writer.go, override.go and
    transport/internet/stat (CounterConnection).

    The interfaces [Reader] and [Writer] of the package are the classes
    [MBReader] and [MBWriter]; the type assertions that [NewReader] and
    [NewWriter] make on an [io.Reader] or [io.Writer] are the fields of [Dyn].
    A [stats.Counter] is the list of the values passed to its [Add] method
    ([None] for a nil counter). *)
From S2P Require Import Prelude Errors NetAddr Bytespool IO Buffer MultiBuffer.

(** ** The interfaces *)

Class MBReader (R : Type) := ReadMultiBuffer : R → M (MultiBuffer * option error * R).
Class MBWriter (T : Type) := mb_write : T → MultiBuffer → M (option error * T).

(** [reader.(TimeoutReader)]: the method, if the dynamic type has it. *)
Class TimeoutDyn (R : Type) :=
  ReadMultiBufferTimeout : option (R → Z → M (MultiBuffer * option error * R)).

(** [w.(io.Writer)] for a [Writer]. *)
Class WriterDyn (T : Type) := as_io_writer : option (T → bytes → M (Z * option error * T)).

Definition ErrReadTimeout := Sentinel "buf.ErrReadTimeout" "IO timeout".
Definition ErrNotTimeoutReader := Sentinel "buf.ErrNotTimeoutReader" "not a TimeoutReader".

Abbreviation counter := (option (list Z)).
Definition Counter_Add (c : counter) (n : Z) : counter := (λ l, l ++ [n]) <$> c.

(** [payload[n:]] *)
Definition from (n : Z) (p : bytes) : go bytes :=
  if (0 <=? n) && (n <=? zlen p) then Ret (zdrop n p) else Panic oob.

(** ** io.go *)

(** The loop of [WriteAllBytes]; [wc] bytes have been accepted. *)
Fixpoint write_all_loop {T} `{IOWriter T} (fuel : nat) (writer : T) (payload : bytes) (wc : Z)
  : M (option error * Z * T) :=
  if zlen payload <=? 0 then mret (None, wc, writer)
  else
    match fuel with
    | O => out_of_fuel
    | S fuel' =>
        '(n, err, writer') ← io_write writer payload;
        match err with
        | Some e => mret (Some e, wc + n, writer')
        | None => payload' ← lift (from n payload); write_all_loop fuel' writer' payload' (wc + n)
        end
    end.

Definition WriteAllBytes {T} `{IOWriter T} (fuel : nat) (writer : T) (payload : bytes) (c : counter)
  : M (option error * T * counter) :=
  '(err, wc, writer') ← write_all_loop fuel writer payload 0;
  mret (err, writer', Counter_Add c wc).

(** ** copy.go *)

(** What the data handlers act on: the number of [timer.Update] calls, the
    [SizeCounter] and the stat counter. *)
Record CopyEnv := mkCopyEnv { ce_updates : nat; ce_Size : Z; ce_counter : counter }.

Definition dataHandler : Type := MultiBuffer → CopyEnv → CopyEnv.
Definition copyHandler : Type := list dataHandler.
Definition CopyOption : Type := copyHandler → copyHandler.

Definition UpdateActivity : CopyOption := λ handler,
  handler ++ [λ _ env, mkCopyEnv (S (ce_updates env)) (ce_Size env) (ce_counter env)].

Definition CountSize : CopyOption := λ handler,
  handler ++ [λ b env, mkCopyEnv (ce_updates env) (i64 (ce_Size env + MultiBuffer_Len b)) (ce_counter env)].

Definition AddToStatCounter : CopyOption := λ handler,
  handler ++ [λ b env, mkCopyEnv (ce_updates env) (ce_Size env) (Counter_Add (ce_counter env) (MultiBuffer_Len b))].

Definition IsReadError (e : option error) : bool :=
  match e with Some (ReadError _) => true | _ => false end.
Definition IsWriteError (e : option error) : bool :=
  match e with Some (WriteError _) => true | _ => false end.

Definition run_handlers (handler : copyHandler) (b : MultiBuffer) (env : CopyEnv) : CopyEnv :=
  foldl (λ env h, h b env) env handler.

Fixpoint copyInternal {R T} `{MBReader R} `{MBWriter T} (fuel : nat) (reader : R) (writer : T)
  (handler : copyHandler) (env : CopyEnv) : M (option error * R * T * CopyEnv) :=
  match fuel with
  | O => out_of_fuel
  | S fuel' =>
      '(buffer, err, reader') ← ReadMultiBuffer reader;
      '(werr, writer', env') ←
        (if negb (MultiBuffer_IsEmpty buffer) then
           let env1 := run_handlers handler buffer env in
           '(werr, writer1) ← mb_write writer buffer;
           mret (werr, writer1, env1)
         else mret (None, writer, env));
      match werr with
      | Some e => mret (Some (WriteError e), reader', writer', env')
      | None =>
          match err with
          | Some e => mret (Some (ReadError e), reader', writer', env')
          | None => copyInternal fuel' reader' writer' handler env'
          end
      end
  end.

Definition Copy {R T} `{MBReader R} `{MBWriter T} (fuel : nat) (reader : R) (writer : T)
  (options : list CopyOption) (env : CopyEnv) : M (option error * R * T * CopyEnv) :=
  let handler := foldl (λ h option, option h) [] options in
  '(err, reader', writer', env') ← copyInternal fuel reader writer handler env;
  match err with
  | Some e => if negb (err_is EOF (Cause (Some e))) then mret (Some e, reader', writer', env')
              else mret (None, reader', writer', env')
  | None => mret (None, reader', writer', env')
  end.

Definition CopyOnceTimeout {R T} `{TimeoutDyn R} `{MBWriter T} (reader : R) (writer : T) (timeout : Z)
  : M (option error * R * T) :=
  match ReadMultiBufferTimeout (R := R) with
  | None => mret (Some (ErrNew ErrNotTimeoutReader), reader, writer)
  | Some read =>
      '(mb, err, reader') ← read reader timeout;
      match err with
      | Some e => mret (Some e, reader', writer)
      | None => '(werr, writer') ← mb_write writer mb; mret (werr, reader', writer')
      end
  end.

(** ** reader.go *)

Definition ErrTooManyEmpty := Sentinel "buf.readOneUDP" "Reader returns too many empty payloads.".

(** The loop of [readOneUDP], [i] turns left. *)
Fixpoint read_udp_loop {R} `{IOReader R} (i : nat) (b : Buffer) (r : R)
  : M (option Buffer * option error * R) :=
  match i with
  | O => Buffer_Release (Some b);; mret (None, Some (ErrNew ErrTooManyEmpty), r)
  | S i' =>
      '(_, err, b', r') ← Buffer_ReadFrom b r;
      if negb (Buffer_IsEmpty (Some b')) then mret (Some b', None, r')
      else
        match err with
        | Some e => Buffer_Release (Some b');; mret (None, Some e, r')
        | None => read_udp_loop i' b' r'
        end
  end.

Definition readOneUDP {R} `{IOReader R} (r : R) : M (option Buffer * option error * R) :=
  b ← New; read_udp_loop 64 b r.

Definition ReadBuffer {R} `{IOReader R} (r : R) : M (option Buffer * option error * R) :=
  b ← New;
  '(n, err, b', r') ← Buffer_ReadFrom b r;
  if 0 <? n then mret (Some b', err, r')
  else Buffer_Release (Some b');; mret (None, err, r').

Record SingleReader (R : Type) := mkSingleReader { sr_Reader : R }.
Arguments mkSingleReader {R}.
Arguments sr_Reader {R}.

#[global] Instance SingleReader_ReadMultiBuffer {R} `{IOReader R} : MBReader (SingleReader R) := λ r,
  '(b, err, r') ← ReadBuffer (sr_Reader r);
  mret (Some [b], err, mkSingleReader r').

Record PacketReader (R : Type) := mkPacketReader { pr_Reader : R }.
Arguments mkPacketReader {R}.
Arguments pr_Reader {R}.

#[global] Instance PacketReader_ReadMultiBuffer {R} `{IOReader R} : MBReader (PacketReader R) := λ r,
  '(b, err, r') ← readOneUDP (pr_Reader r);
  match err with
  | Some e => mret (None, Some e, mkPacketReader r')
  | None => mret (Some [b], None, mkPacketReader r')
  end.

(** *** BufferedReader *)

Record BufferedReader (R : Type) := mkBufferedReader {
  br_Reader : R;
  br_Buffer : MultiBuffer;
  br_Spliter : option (MultiBuffer → Z → M (MultiBuffer * bytes))
}.
Arguments mkBufferedReader {R}.
Arguments br_Reader {R}.
Arguments br_Buffer {R}.
Arguments br_Spliter {R}.

Definition split_bytes_fn (mb : MultiBuffer) (n : Z) : M (MultiBuffer * bytes) :=
  '(mb', d, _) ← SplitBytes mb n; mret (mb', d).

(** [if mb.IsEmpty() { mb = nil }] *)
Definition nil_if_empty (mb : MultiBuffer) : MultiBuffer :=
  if MultiBuffer_IsEmpty mb then None else mb.

Definition BufferedBytes {R} (r : BufferedReader R) : Z := MultiBuffer_Len (br_Buffer r).

Definition BufferedReader_Read {R} `{MBReader R} (r : BufferedReader R) (n : Z)
  : M (bytes * option error * BufferedReader R) :=
  let spliter := default split_bytes_fn (br_Spliter r) in
  if negb (MultiBuffer_IsEmpty (br_Buffer r)) then
    '(buffer, d) ← spliter (br_Buffer r) n;
    mret (d, None, mkBufferedReader (br_Reader r) (nil_if_empty buffer) (br_Spliter r))
  else
    '(mb, err, reader') ← ReadMultiBuffer (br_Reader r);
    match err with
    | Some e => mret ([], Some e, mkBufferedReader reader' (br_Buffer r) (br_Spliter r))
    | None =>
        '(mb', d) ← spliter mb n;
        mret (d, None,
              mkBufferedReader reader' (if negb (MultiBuffer_IsEmpty mb') then mb' else br_Buffer r)
                (br_Spliter r))
    end.

#[global] Instance BufferedReader_reader {R} `{MBReader R} : IOReader (BufferedReader R) :=
  BufferedReader_Read.

Definition BufferedReader_ReadByte {R} `{MBReader R} (r : BufferedReader R)
  : M (Z * option error * BufferedReader R) :=
  '(d, err, r') ← BufferedReader_Read r 1;
  mret (default 0 (head d), err, r').

Definition BufferedReader_ReadMultiBuffer {R} `{MBReader R} (r : BufferedReader R)
  : M (MultiBuffer * option error * BufferedReader R) :=
  if negb (MultiBuffer_IsEmpty (br_Buffer r)) then
    mret (br_Buffer r, None, mkBufferedReader (br_Reader r) None (br_Spliter r))
  else
    '(mb, err, reader') ← ReadMultiBuffer (br_Reader r);
    mret (mb, err, mkBufferedReader reader' (br_Buffer r) (br_Spliter r)).

#[global] Instance BufferedReader_mbreader {R} `{MBReader R} : MBReader (BufferedReader R) :=
  BufferedReader_ReadMultiBuffer.

Definition BufferedReader_ReadAtMost {R} `{MBReader R} (r : BufferedReader R) (size : Z)
  : M (MultiBuffer * option error * BufferedReader R) :=
  let split (r : BufferedReader R) : M (MultiBuffer * option error * BufferedReader R) :=
    '(rb, mb, _) ← SplitSize (br_Buffer r) size;
    mret (mb, None, mkBufferedReader (br_Reader r) (nil_if_empty rb) (br_Spliter r)) in
  if MultiBuffer_IsEmpty (br_Buffer r) then
    '(mb, err, reader') ← ReadMultiBuffer (br_Reader r);
    match MultiBuffer_IsEmpty mb, err with
    | true, Some e => mret (None, Some e, mkBufferedReader reader' (br_Buffer r) (br_Spliter r))
    | _, _ => split (mkBufferedReader reader' mb (br_Spliter r))
    end
  else split r.

(** [Interrupt] and [Close]: what the underlying reader has of the two methods.  The
    buffered data stay where they are. *)
Definition BufferedReader_Interrupt {R} (methods : Lang.object R) (r : BufferedReader R) : BufferedReader R :=
  mkBufferedReader (Lang.Interrupt methods (br_Reader r)).2 (br_Buffer r) (br_Spliter r).
Definition BufferedReader_Close {R} (methods : Lang.object R) (r : BufferedReader R) : option error * BufferedReader R :=
  let '(err, reader') := Lang.Close methods (br_Reader r) in (err, mkBufferedReader reader' (br_Buffer r) (br_Spliter r)).

(** ** writer.go *)

(** *** net.Buffers *)

(** [Buffers.WriteTo]: one [Write] per element, stopping at an error. *)
Fixpoint buffers_write {T} `{IOWriter T} (writer : T) (v : list bytes) (n : Z)
  : M (Z * option error * T) :=
  match v with
  | [] => mret (n, None, writer)
  | b :: v' =>
      '(nb, err, writer') ← io_write writer b;
      match err with
      | Some e => mret (n + nb, Some e, writer')
      | None => buffers_write writer' v' (n + nb)
      end
  end.

(** [Buffers.consume] *)
Fixpoint buffers_consume (v : list bytes) (n : Z) : list bytes :=
  match v with
  | [] => []
  | b :: v' => if n <? zlen b then zdrop n b :: v' else buffers_consume v' (n - zlen b)
  end.

Definition Buffers_WriteTo {T} `{IOWriter T} (v : list bytes) (writer : T)
  : M (Z * option error * T * list bytes) :=
  '(n, err, writer') ← buffers_write writer v 0;
  mret (n, err, writer', buffers_consume v n).

(** *** BufferToBytesWriter *)

(** [bw_cache] is the capacity of the cache; its length is always zero. *)
Record BufferToBytesWriter (T : Type) := mkBytesWriter {
  bw_Writer : T;
  bw_counter : counter;
  bw_cache : Z
}.
Arguments mkBytesWriter {T}.
Arguments bw_Writer {T}.
Arguments bw_counter {T}.
Arguments bw_cache {T}.

(** The loop [for size > 0]. *)
Fixpoint bytes_writer_loop {T} `{IOWriter T} (fuel : nat) (writer : T) (nb : list bytes) (size wc : Z)
  : M (option error * Z * T) :=
  if size <=? 0 then mret (None, wc, writer)
  else
    match fuel with
    | O => out_of_fuel
    | S fuel' =>
        '(n, err, writer', nb') ← Buffers_WriteTo nb writer;
        match err with
        | Some e => mret (Some e, wc + n, writer')
        | None => bytes_writer_loop fuel' writer' nb' (i32 (size - i32 n)) (wc + n)
        end
    end.

(** [for _, b := range mb { bs = append(bs, b.Bytes()) }] *)
Fixpoint collect_bytes (l : list pbuf) : M (list bytes) :=
  match l with
  | [] => mret []
  | pb :: l' =>
      b ← deref pb; bs ← lift (Buffer_Bytes b); rest ← collect_bytes l'; mret (bs :: rest)
  end.

(** The method up to its deferred [ReleaseMulti(mb)]. *)
Definition bytes_writer_body {T} `{IOWriter T} (fuel : nat) (w : BufferToBytesWriter T) (mb : MultiBuffer)
  : M (option error * BufferToBytesWriter T) :=
  let size := MultiBuffer_Len mb in
  if size =? 0 then mret (None, w)
  else
    match els mb with
    | [p] =>
        b ← deref p; bs ← lift (Buffer_Bytes b);
        '(err, writer', c') ← WriteAllBytes fuel (bw_Writer w) bs (bw_counter w);
        mret (err, mkBytesWriter writer' c' (bw_cache w))
    | l =>
        let cache := if bw_cache w <? zlen l then zlen l else bw_cache w in
        bs ← collect_bytes l;
        '(err, wc, writer') ← bytes_writer_loop fuel (bw_Writer w) bs size 0;
        mret (err, mkBytesWriter writer' (Counter_Add (bw_counter w) wc) cache)
    end.

Definition BufferToBytesWriter_WriteMultiBuffer {T} `{IOWriter T} (fuel : nat)
  (w : BufferToBytesWriter T) (mb : MultiBuffer) : M (option error * BufferToBytesWriter T) :=
  r ← bytes_writer_body fuel w mb;
  ReleaseMulti mb;;
  mret r.

(** The embedded [io.Writer] is promoted. *)
Definition BufferToBytesWriter_Write {T} `{IOWriter T} (w : BufferToBytesWriter T) (p : bytes)
  : M (Z * option error * BufferToBytesWriter T) :=
  '(n, err, writer') ← io_write (bw_Writer w) p;
  mret (n, err, mkBytesWriter writer' (bw_counter w) (bw_cache w)).

#[global] Instance BytesWriter_dyn {T} `{IOWriter T} : WriterDyn (BufferToBytesWriter T) :=
  Some BufferToBytesWriter_Write.

(** *** SequentialWriter *)

Record SequentialWriter (T : Type) := mkSequentialWriter { sw_Writer : T }.
Arguments mkSequentialWriter {T}.
Arguments sw_Writer {T}.

#[global] Instance SequentialWriter_WriteMultiBuffer {T} `{IOWriter T} : MBWriter (SequentialWriter T) := λ w mb,
  '(mb', err, writer') ← WriteMultiBuffer (sw_Writer w) mb;
  ReleaseMulti mb';;
  mret (err, mkSequentialWriter writer').

#[global] Instance SequentialWriter_dyn {T} `{IOWriter T} : WriterDyn (SequentialWriter T) :=
  Some (λ w p, '(n, err, writer') ← io_write (sw_Writer w) p; mret (n, err, mkSequentialWriter writer')).

(** *** BufferedWriter

    The mutex is held for the whole of each method, so a method is one step. *)
Record BufferedWriter (T : Type) := mkBufferedWriter {
  fw_writer : T;
  fw_buffer : option Buffer;
  fw_buffered : bool
}.
Arguments mkBufferedWriter {T}.
Arguments fw_writer {T}.
Arguments fw_buffer {T}.
Arguments fw_buffered {T}.

Definition NewBufferedWriter {T} (writer : T) : M (BufferedWriter T) :=
  b ← New; mret (mkBufferedWriter writer (Some b) true).

(** [WriteAllBytes] through the [io.Writer] a [Writer] was asserted to be. *)
Definition write_all_dyn {T} (write : T → bytes → M (Z * option error * T)) (fuel : nat) (t : T) (p : bytes)
  : M (option error * T * counter) := @WriteAllBytes T write fuel t p None.

Definition flushInternal {T} `{MBWriter T} `{WriterDyn T} (fuel : nat) (w : BufferedWriter T)
  : M (option error * BufferedWriter T) :=
  if Buffer_IsEmpty (fw_buffer w) then mret (None, w)
  else
    match as_io_writer (T := T) with
    | Some write =>
        b ← deref (fw_buffer w);
        bs ← lift (Buffer_Bytes b);
        '(err, writer', _) ← write_all_dyn write fuel (fw_writer w) bs;
        Buffer_Release (Some b);;
        mret (err, mkBufferedWriter writer' None (fw_buffered w))
    | None =>
        '(err, writer') ← mb_write (fw_writer w) (Some [fw_buffer w]);
        mret (err, mkBufferedWriter writer' None (fw_buffered w))
    end.

(** [if w.buffer == nil { w.buffer = New() }] *)
Definition ensure_buffer {T} (w : BufferedWriter T) : M Buffer :=
  match fw_buffer w with Some b => mret b | None => New end.

Fixpoint buffered_write_loop {T} `{MBWriter T} `{WriterDyn T} (fuel : nat) (w : BufferedWriter T)
  (b : bytes) (totalBytes : Z) : M (Z * option error * BufferedWriter T) :=
  if zlen b <=? 0 then mret (totalBytes, None, w)
  else
    match fuel with
    | O => out_of_fuel
    | S fuel' =>
        buffer ← ensure_buffer w;
        '(nBytes, err, buffer') ← lift (Buffer_Write buffer b);
        let w1 := mkBufferedWriter (fw_writer w) (Some buffer') (fw_buffered w) in
        match err with
        | Some e => mret (totalBytes + nBytes, Some e, w1)
        | None =>
            '(ferr, w2) ← (if negb (fw_buffered w1) || Buffer_IsFull (fw_buffer w1)
                           then flushInternal fuel w1 else mret (None, w1));
            match ferr with
            | Some e => mret (totalBytes + nBytes, Some e, w2)
            | None => b' ← lift (from nBytes b); buffered_write_loop fuel' w2 b' (totalBytes + nBytes)
            end
        end
    end.

Definition BufferedWriter_Write {T} `{MBWriter T} `{WriterDyn T} (fuel : nat) (w : BufferedWriter T) (b : bytes)
  : M (Z * option error * BufferedWriter T) :=
  if zlen b =? 0 then mret (0, None, w)
  else
    match (if fw_buffered w then None else as_io_writer (T := T)) with
    | Some write =>
        '(n, err, writer') ← write (fw_writer w) b;
        mret (n, err, mkBufferedWriter writer' (fw_buffer w) (fw_buffered w))
    | None => buffered_write_loop fuel w b 0
    end.

Definition BufferedWriter_WriteByte {T} `{MBWriter T} `{WriterDyn T} (fuel : nat) (w : BufferedWriter T) (c : Z)
  : M (option error * BufferedWriter T) :=
  '(_, err, w') ← BufferedWriter_Write fuel w [c];
  mret (err, w').

(** The loop of [WriteMultiBuffer], with the deferred [reader.Close()] at its
    exits. *)
Fixpoint buffered_write_mb_loop {T} `{MBWriter T} `{WriterDyn T} (fuel : nat) (w : BufferedWriter T)
  (reader : MultiBufferContainer) : M (option error * BufferedWriter T) :=
  if MultiBuffer_IsEmpty (c_mb reader) then Container_Close reader;; mret (None, w)
  else
    match fuel with
    | O => out_of_fuel
    | S fuel' =>
        buffer ← ensure_buffer w;
        '(_, err, buffer', reader') ← Buffer_ReadFrom buffer reader;
        match err with
        | Some _ => panic "panic(err)"
        | None =>
            let w1 := mkBufferedWriter (fw_writer w) (Some buffer') (fw_buffered w) in
            '(ferr, w2) ← (if Buffer_IsFull (fw_buffer w1) then flushInternal fuel w1 else mret (None, w1));
            match ferr with
            | Some e => Container_Close reader';; mret (Some e, w2)
            | None => buffered_write_mb_loop fuel' w2 reader'
            end
        end
    end.

Definition BufferedWriter_WriteMultiBuffer {T} `{MBWriter T} `{WriterDyn T} (fuel : nat)
  (w : BufferedWriter T) (b : MultiBuffer) : M (option error * BufferedWriter T) :=
  if MultiBuffer_IsEmpty b then mret (None, w)
  else if negb (fw_buffered w) then
    '(err, writer') ← mb_write (fw_writer w) b;
    mret (err, mkBufferedWriter writer' (fw_buffer w) (fw_buffered w))
  else buffered_write_mb_loop fuel w (mkContainer b).

Definition BufferedWriter_Flush {T} `{MBWriter T} `{WriterDyn T} (fuel : nat) (w : BufferedWriter T)
  : M (option error * BufferedWriter T) := flushInternal fuel w.

Definition SetBuffered {T} `{MBWriter T} `{WriterDyn T} (fuel : nat) (w : BufferedWriter T) (f : bool)
  : M (option error * BufferedWriter T) :=
  let w1 := mkBufferedWriter (fw_writer w) (fw_buffer w) f in
  if negb f then flushInternal fuel w1 else mret (None, w1).

(** [lang.Close(w.writer)] for the methods [obj] the writer has. *)
Definition BufferedWriter_Close {T} `{MBWriter T} `{WriterDyn T} (fuel : nat) (obj : Lang.object T)
  (w : BufferedWriter T) : M (option error * BufferedWriter T) :=
  '(err, w1) ← BufferedWriter_Flush fuel w;
  match err with
  | Some e => mret (Some e, w1)
  | None =>
      let '(cerr, writer') := Lang.Close obj (fw_writer w1) in
      mret (cerr, mkBufferedWriter writer' (fw_buffer w1) (fw_buffered w1))
  end.

(** *** noOpWriter *)

Definition noOp_WriteMultiBuffer (b : MultiBuffer) : M (option error) := ReleaseMulti b;; mret None.
Definition noOp_Write (b : bytes) : Z * option error := (zlen b, None).

Fixpoint noOp_read_loop {R} `{IOReader R} (fuel : nat) (b : Buffer) (reader : R) (totalBytes : Z)
  : M (Z * option error * Buffer * R) :=
  match fuel with
  | O => out_of_fuel
  | S fuel' =>
      '(_, err, b', reader') ← Buffer_ReadFrom (Buffer_Clear b) reader;
      let total := i64 (totalBytes + Buffer_Len (Some b')) in
      match err with
      | Some e => if err_is EOF (Cause (Some e)) then mret (total, None, b', reader')
                  else mret (total, Some e, b', reader')
      | None => noOp_read_loop fuel' b' reader' total
      end
  end.

Definition noOp_ReadFrom {R} `{IOReader R} (fuel : nat) (reader : R) : M (Z * option error * R) :=
  b ← New;
  '(total, err, b', reader') ← noOp_read_loop fuel b reader 0;
  Buffer_Release (Some b');;
  mret (total, err, reader').

(** ** override.go *)

(** [if b.UDP != nil && b.UDP.Address == old { b.UDP.Address = new }] over the
    elements; a nil element is dereferenced. *)
Fixpoint override_loop (old new : option Address) (l : list pbuf) : go (list pbuf) :=
  match l with
  | [] => Ret []
  | None :: _ => Panic nil_deref
  | Some b :: l' =>
      let b' :=
        match b_UDP b with
        | Some d =>
            if bool_decide (d_Address d = old)
            then mkBuffer (b_v b) (b_start b) (b_end b) (b_unmanaged b)
                   (Some (mkDestination new (d_Port d) (d_Network d)))
            else b
        | None => b
        end in
      rest ← override_loop old new l'; Ret (Some b' :: rest)
  end.

Definition override_all (old new : option Address) (mb : MultiBuffer) : go MultiBuffer :=
  match mb with None => Ret None | Some l => l' ← override_loop old new l; Ret (Some l') end.

Record EndpointOverrideReader (R : Type) := mkOverrideReader {
  or_Reader : R; or_Dest : option Address; or_OriginalDest : option Address }.
Arguments mkOverrideReader {R}.
Arguments or_Reader {R}.
Arguments or_Dest {R}.
Arguments or_OriginalDest {R}.

#[global] Instance OverrideReader_ReadMultiBuffer {R} `{MBReader R} : MBReader (EndpointOverrideReader R) := λ r,
  '(mb, err, reader') ← ReadMultiBuffer (or_Reader r);
  mb' ← (match err with
         | None => lift (override_all (or_OriginalDest r) (or_Dest r) mb)
         | Some _ => mret mb
         end);
  mret (mb', err, mkOverrideReader reader' (or_Dest r) (or_OriginalDest r)).

Record EndpointOverrideWriter (T : Type) := mkOverrideWriter {
  ow_Writer : T; ow_Dest : option Address; ow_OriginalDest : option Address }.
Arguments mkOverrideWriter {T}.
Arguments ow_Writer {T}.
Arguments ow_Dest {T}.
Arguments ow_OriginalDest {T}.

#[global] Instance OverrideWriter_WriteMultiBuffer {T} `{MBWriter T} : MBWriter (EndpointOverrideWriter T) := λ w mb,
  mb' ← lift (override_all (ow_Dest w) (ow_OriginalDest w) mb);
  '(err, writer') ← mb_write (ow_Writer w) mb';
  mret (err, mkOverrideWriter writer' (ow_Dest w) (ow_OriginalDest w)).
