(* ===== verification/ReadV.v ===== *)
(** * Connections, readv and the choice of reader and writer

    transport/internet/stat/connection.go, buf/readv_reader.go,
    buf/readv_posix.go and the constructors of buf/io.go, with the methods that
    use them ([BufferedReader.WriteTo], the [ReadFrom] methods). *)
From S2P Require Import Prelude Errors Bytespool IO Buffer MultiBuffer BufIO.

(** ** Dynamic types

    What the program asks of a connection by type assertion.  [dyn_Reader] and
    [dyn_Writer] are the methods of the interfaces [Reader] and [Writer]. *)
Class Dyn (W : Type) := {
  dyn_Reader : option (W → M (MultiBuffer * option error * W));
  dyn_Writer : option (W → MultiBuffer → M (option error * W));
  dyn_PacketConn : bool;
  dyn_File : bool;
  dyn_SyscallConn : option (W → option error)
}.

(** ** stat.CounterConnection *)

(** An [io.Reader]/[io.Writer] value: a connection, or a [*CounterConnection]
    around one. *)
Inductive Endpoint (W : Type) : Type :=
  | Conn (w : W)
  | CounterConnection (Connection : W) (ReadCounter WriteCounter : counter).
Arguments Conn {W} w.
Arguments CounterConnection {W} Connection ReadCounter WriteCounter.

Definition Endpoint_Read {W} `{IOReader W} (c : Endpoint W) (n : Z) : M (bytes * option error * Endpoint W) :=
  match c with
  | Conn w => '(d, err, w') ← io_read w n; mret (d, err, Conn w')
  | CounterConnection w rc wc =>
      '(d, err, w') ← io_read w n;
      mret (d, err, CounterConnection w' (Counter_Add rc (zlen d)) wc)
  end.

Definition Endpoint_Write {W} `{IOWriter W} (c : Endpoint W) (b : bytes) : M (Z * option error * Endpoint W) :=
  match c with
  | Conn w => '(n, err, w') ← io_write w b; mret (n, err, Conn w')
  | CounterConnection w rc wc =>
      '(n, err, w') ← io_write w b;
      mret (n, err, CounterConnection w' rc (Counter_Add wc n))
  end.

#[global] Instance Endpoint_reader {W} `{IOReader W} : IOReader (Endpoint W) := Endpoint_Read.
#[global] Instance Endpoint_writer {W} `{IOWriter W} : IOWriter (Endpoint W) := Endpoint_Write.

(** The embedded interface [net.Conn] promotes its own methods only. *)
Definition on_conn {W A} (c : Endpoint W) (f : W → option A) : option A :=
  match c with Conn w => f w | CounterConnection _ _ _ => None end.

(** ** readv *)

(** The descriptor behind a [syscall.RawConn].  [raw_prepare] and [raw_wait]
    are the checks [RawConn.Read] makes before the first call of its argument
    and after each call that returned false; [sys_readv] is the system call on
    buffers of the given lengths ([None]: an errno). *)
Class RawConn (W : Type) := {
  raw_prepare : W → option error * W;
  raw_wait : W → option error * W;
  sys_readv : W → list Z → option bytes * W
}.

(** An iovec: the index of the buffer its base points into, and its length. *)
Abbreviation iovec := (option nat * Z)%type.

(** The loop of [Init] appends an iovec without a length for each buffer and then
    sets the length of the one at the index of the buffer. *)
Fixpoint init_iovecs (iovecs : list iovec) (bs : list Buffer) (idx : nat) : go (list iovec) :=
  match bs with
  | [] => Ret iovecs
  | b :: bs' =>
      s_index (v_of b) 0;;
      init_iovecs (alter (λ io, (io.1, Size)) idx (iovecs ++ [(Some idx, 0)])) bs' (S idx)
  end.

Definition posixReader_Init (iovecs : list iovec) (bs : list Buffer) : go (list iovec) := init_iovecs iovecs bs 0.

Definition posixReader_Clear (iovecs : list iovec) : list iovec := [].

(** The kernel fills the buffers of the iovecs in order. *)
Fixpoint scatter (iovecs : list iovec) (d : bytes) (bs : list Buffer) : list Buffer :=
  match iovecs with
  | [] => bs
  | (base, len) :: iovecs' =>
      let chunk := ztake len d in
      scatter iovecs' (zdrop len d)
        (match base with
         | Some i => match bs !! i with Some b => <[i := store_at b 0 chunk]> bs | None => bs end
         | None => bs
         end)
  end.

(** [r.mr.Read(fd)]: -1 for an errno. *)
Definition posixReader_Read {W} `{RawConn W} (iovecs : list iovec) (w : W) (bs : list Buffer)
  : go (Z * W * list Buffer) :=
  match iovecs with
  | [] => Panic oob_index
  | _ =>
      match sys_readv w (iovecs.*2) with
      | (None, w') => Ret (-1, w', bs)
      | (Some d, w') => Ret (i32 (zlen d), w', scatter iovecs d bs)
      end
  end.

(** [rawConn.Read(func(fd) bool {...})] *)
Fixpoint raw_read_loop {W} `{RawConn W} (fuel : nat) (iovecs : list iovec) (w : W) (bs : list Buffer)
  : go (option error * Z * W * list Buffer) :=
  match fuel with
  | O => OutOfFuel
  | S fuel' =>
      '(n, w', bs') ← posixReader_Read iovecs w bs;
      if n <? 0 then
        match raw_wait w' with
        | (Some e, w'') => Ret (Some e, 0, w'', bs')
        | (None, w'') => raw_read_loop fuel' iovecs w'' bs'
        end
      else Ret (None, n, w', bs')
  end.

Definition rawConn_Read {W} `{RawConn W} (fuel : nat) (iovecs : list iovec) (w : W) (bs : list Buffer)
  : go (option error * Z * W * list Buffer) :=
  match raw_prepare w with
  | (Some e, w') => Ret (Some e, 0, w', bs)
  | (None, w') => raw_read_loop fuel iovecs w' bs
  end.

(** *** allocStrategy *)

Definition allocStrategy_Adjust (current n : Z) : Z :=
  let current := if current <=? n then u32 (current * 2) else n in
  let current := if 8 <? current then 8 else current in
  if current =? 0 then 1 else current.

Fixpoint alloc_loop (k : nat) : M (list Buffer) :=
  match k with
  | O => mret []
  | S k' => b ← New; bs ← alloc_loop k'; mret (b :: bs)
  end.
Definition allocStrategy_Alloc (current : Z) : M (list Buffer) := alloc_loop (Z.to_nat current).

(** *** ReadVReader *)

Record ReadVReader (W : Type) := mkReadVReader {
  rv_Reader : Endpoint W;
  rv_mr : list iovec;
  rv_alloc : Z;
  rv_counter : counter
}.
Arguments mkReadVReader {W}.
Arguments rv_Reader {W}.
Arguments rv_mr {W}.
Arguments rv_alloc {W}.
Arguments rv_counter {W}.

Definition NewReadVReader {W} (reader : Endpoint W) (c : counter) : ReadVReader W :=
  mkReadVReader reader [] 1 c.

(** The connection whose descriptor the reader's [rawConn] holds. *)
Definition endpoint_conn {W} (c : Endpoint W) : W :=
  match c with Conn w => w | CounterConnection w _ _ => w end.
Definition with_conn {W} (c : Endpoint W) (w : W) : Endpoint W :=
  match c with Conn _ => Conn w | CounterConnection _ rc wc => CounterConnection w rc wc end.

(** Set [end] of the buffers the data reaches; the rest is released. *)
Fixpoint set_ends (bs : list Buffer) (nBytes : Z) : list Buffer * list Buffer :=
  match bs with
  | [] => ([], [])
  | b :: bs' =>
      if nBytes <=? 0 then ([], bs)
      else
        let en := if Size <? nBytes then Size else nBytes in
        let '(used, rest) := set_ends bs' (i32 (nBytes - en)) in
        (set_range b (b_start b) en :: used, rest)
  end.

Definition readMulti {W} `{RawConn W} (fuel : nat) (r : ReadVReader W)
  : M (MultiBuffer * option error * ReadVReader W) :=
  bs ← allocStrategy_Alloc (rv_alloc r);
  iovecs ← lift (posixReader_Init (rv_mr r) bs);
  '(err, nBytes, w', bs') ← lift (rawConn_Read fuel iovecs (endpoint_conn (rv_Reader r)) bs);
  let r' := mkReadVReader (with_conn (rv_Reader r) w') (posixReader_Clear iovecs) (rv_alloc r) (rv_counter r) in
  match err with
  | Some e => ReleaseMulti (Some (Some <$> bs'));; mret (None, Some e, r')
  | None =>
      if nBytes =? 0 then ReleaseMulti (Some (Some <$> bs'));; mret (None, Some (ErrNew EOF), r')
      else
        let '(used, rest) := set_ends bs' nBytes in
        release_loop (Some <$> rest);;
        mret (Some (Some <$> used), None, r')
  end.

Definition ReadVReader_ReadMultiBuffer {W} `{IOReader W} `{RawConn W} (fuel : nat) (r : ReadVReader W)
  : M (MultiBuffer * option error * ReadVReader W) :=
  if rv_alloc r =? 1 then
    '(b, err, reader') ← ReadBuffer (rv_Reader r);
    let alloc := if Buffer_IsFull b then allocStrategy_Adjust (rv_alloc r) 1 else rv_alloc r in
    let c := match b with Some _ => Counter_Add (rv_counter r) (Buffer_Len b) | None => rv_counter r end in
    mret (Some [b], err, mkReadVReader reader' (rv_mr r) alloc c)
  else
    '(mb, err, r1) ← readMulti fuel r;
    let c := match mb with Some _ => Counter_Add (rv_counter r1) (MultiBuffer_Len mb) | None => rv_counter r1 end in
    match err with
    | Some e => mret (None, Some e, mkReadVReader (rv_Reader r1) (rv_mr r1) (rv_alloc r1) c)
    | None =>
        mret (mb, None, mkReadVReader (rv_Reader r1) (rv_mr r1)
                          (allocStrategy_Adjust (rv_alloc r1) (u32 (zlen (els mb)))) c)
    end.

(** ** NewReader and NewWriter *)

Inductive AnyReader (W : Type) : Type :=
  | AsReader (c : Endpoint W)
  | APacketReader (r : PacketReader (Endpoint W))
  | AReadVReader (r : ReadVReader W)
  | ASingleReader (r : SingleReader (Endpoint W)).
Arguments AsReader {W} c.
Arguments APacketReader {W} r.
Arguments AReadVReader {W} r.
Arguments ASingleReader {W} r.

(** [init] of readv_reader.go, for the value of the environment flag. *)
Definition defaultFlagValue : string := "NOT_DEFINED_AT_ALL".
Definition useReadv_of (value : string) : bool :=
  bool_decide (value = defaultFlagValue ∨ value = "auto"%string ∨ value = "enable"%string).

Definition isPacketReader {W} `{Dyn W} (c : Endpoint W) : bool :=
  match c with Conn _ => dyn_PacketConn (W := W) | CounterConnection _ _ _ => false end.

Definition is_file {W} `{Dyn W} (c : Endpoint W) : bool :=
  match c with Conn _ => dyn_File (W := W) | CounterConnection _ _ _ => false end.

Definition NewReader {W} `{Dyn W} (useReadv : bool) (reader : Endpoint W) : AnyReader W :=
  match on_conn reader (λ _, dyn_Reader (W := W)) with
  | Some _ => AsReader reader
  | None =>
      if isPacketReader reader then APacketReader (mkPacketReader reader)
      else
        match (if negb (is_file reader) && useReadv
               then on_conn reader (λ w, (λ f, f w) <$> dyn_SyscallConn (W := W)) else None) with
        | Some None =>
            match reader with
            | CounterConnection w rc _ => AReadVReader (NewReadVReader (Conn w) rc)
            | Conn _ => AReadVReader (NewReadVReader reader None)
            end
        | Some (Some _) | None => ASingleReader (mkSingleReader reader)
        end
  end.

Definition NewPacketReader {W} `{Dyn W} (reader : Endpoint W) : AnyReader W :=
  match on_conn reader (λ _, dyn_Reader (W := W)) with
  | Some _ => AsReader reader
  | None => APacketReader (mkPacketReader reader)
  end.

(** The method call through the interface [Reader]. *)
Definition AnyReader_ReadMultiBuffer {W} `{Dyn W} `{IOReader W} `{RawConn W} (fuel : nat) (r : AnyReader W)
  : M (MultiBuffer * option error * AnyReader W) :=
  match r with
  | AsReader c =>
      match c, dyn_Reader (W := W) with
      | Conn w, Some read => '(mb, err, w') ← read w; mret (mb, err, AsReader (Conn w'))
      | _, _ => panic nil_deref
      end
  | APacketReader p => '(mb, err, p') ← ReadMultiBuffer p; mret (mb, err, APacketReader p')
  | AReadVReader v => '(mb, err, v') ← ReadVReader_ReadMultiBuffer fuel v; mret (mb, err, AReadVReader v')
  | ASingleReader s => '(mb, err, s') ← ReadMultiBuffer s; mret (mb, err, ASingleReader s')
  end.

Inductive AnyWriter (W : Type) : Type :=
  | AsWriter (c : Endpoint W)
  | ASequentialWriter (w : SequentialWriter (Endpoint W))
  | ABytesWriter (w : BufferToBytesWriter (Endpoint W)).
Arguments AsWriter {W} c.
Arguments ASequentialWriter {W} w.
Arguments ABytesWriter {W} w.

Definition isPacketWriter {W} `{Dyn W} (c : Endpoint W) : bool :=
  match c with
  | Conn _ => if dyn_PacketConn (W := W) then true
              else match dyn_SyscallConn (W := W) with None => true | Some _ => false end
  | CounterConnection _ _ _ => true
  end.

Definition NewWriter {W} `{Dyn W} (writer : Endpoint W) : AnyWriter W :=
  match on_conn writer (λ _, dyn_Writer (W := W)) with
  | Some _ => AsWriter writer
  | None =>
      let iConn := match writer with CounterConnection w _ _ => Conn w | Conn _ => writer end in
      if isPacketWriter iConn then ASequentialWriter (mkSequentialWriter writer)
      else
        let c := match writer with CounterConnection _ _ wc => wc | Conn _ => None end in
        ABytesWriter (mkBytesWriter iConn c 0)
  end.

Definition AnyWriter_WriteMultiBuffer {W} `{Dyn W} `{IOWriter W} (fuel : nat) (t : AnyWriter W) (mb : MultiBuffer)
  : M (option error * AnyWriter W) :=
  match t with
  | AsWriter c =>
      match c, dyn_Writer (W := W) with
      | Conn w, Some write => '(err, w') ← write w mb; mret (err, AsWriter (Conn w'))
      | _, _ => panic nil_deref
      end
  | ASequentialWriter s => '(err, s') ← mb_write s mb; mret (err, ASequentialWriter s')
  | ABytesWriter b =>
      '(err, b') ← BufferToBytesWriter_WriteMultiBuffer fuel b mb; mret (err, ABytesWriter b')
  end.

(** ** The methods that copy whole streams *)

(** What is left in the array of a MultiBuffer whose writer took it over: the
    elements are set to nil as they are released. *)
Definition taken (mb : MultiBuffer) : MultiBuffer := (λ l, replicate (length l) None) <$> mb.

Definition counting (c : Z) : CopyEnv := mkCopyEnv 0 c None.

Definition writeToInternal {R W} `{MBReader R} `{Dyn W} `{IOWriter W} (fuel : nat)
  (r : BufferedReader R) (writer : Endpoint W)
  : M (Z * option error * BufferedReader R * AnyWriter W) :=
  let mbWriter := NewWriter writer in
  '(sc, err, mbWriter1, r1) ←
    (match br_Buffer r with
     | None => mret (0, None, mbWriter, r)
     | Some _ =>
         '(err, mbWriter1) ← AnyWriter_WriteMultiBuffer fuel mbWriter (br_Buffer r);
         match err with
         | Some e => mret (0, Some e, mbWriter1,
                           mkBufferedReader (br_Reader r) (taken (br_Buffer r)) (br_Spliter r))
         | None => mret (MultiBuffer_Len (br_Buffer r), None, mbWriter1,
                         mkBufferedReader (br_Reader r) None (br_Spliter r))
         end
     end);
  match err with
  | Some e => mret (0, Some e, r1, mbWriter1)
  | None =>
      '(cerr, reader', mbWriter2, env) ←
        @Copy R (AnyWriter W) _ (AnyWriter_WriteMultiBuffer fuel) fuel (br_Reader r1) mbWriter1
          [CountSize] (counting sc);
      mret (ce_Size env, cerr, mkBufferedReader reader' (br_Buffer r1) (br_Spliter r1), mbWriter2)
  end.

Definition BufferedReader_WriteTo {R W} `{MBReader R} `{Dyn W} `{IOWriter W} (fuel : nat)
  (r : BufferedReader R) (writer : Endpoint W)
  : M (Z * option error * BufferedReader R * AnyWriter W) :=
  '(nBytes, err, r', t') ← writeToInternal fuel r writer;
  if err_is EOF (Cause err) then mret (nBytes, None, r', t') else mret (nBytes, err, r', t').

Definition BufferToBytesWriter_ReadFrom {T W} `{IOWriter T} `{Dyn W} `{IOReader W} `{RawConn W}
  (useReadv : bool) (fuel : nat) (w : BufferToBytesWriter T) (reader : Endpoint W)
  : M (Z * option error * BufferToBytesWriter T * AnyReader W) :=
  '(err, reader', w', env) ←
    @Copy (AnyReader W) (BufferToBytesWriter T) (AnyReader_ReadMultiBuffer fuel)
      (BufferToBytesWriter_WriteMultiBuffer fuel) fuel (NewReader useReadv reader) w [CountSize] (counting 0);
  mret (ce_Size env, err, w', reader').

Definition BufferedWriter_ReadFrom {T W} `{MBWriter T} `{WriterDyn T} `{Dyn W} `{IOReader W} `{RawConn W}
  (useReadv : bool) (fuel : nat) (w : BufferedWriter T) (reader : Endpoint W)
  : M (Z * option error * BufferedWriter T * Endpoint W) :=
  '(err, w1) ← SetBuffered fuel w false;
  match err with
  | Some e => mret (0, Some e, w1, reader)
  | None =>
      '(cerr, reader', w2, env) ←
        @Copy (AnyReader W) (BufferedWriter T) (AnyReader_ReadMultiBuffer fuel)
          (BufferedWriter_WriteMultiBuffer fuel) fuel (NewReader useReadv reader) w1 [CountSize] (counting 0);
      mret (ce_Size env, cerr, w2,
            match reader' with
            | AsReader c => c
            | APacketReader p => pr_Reader p
            | AReadVReader v => rv_Reader v
            | ASingleReader s => sr_Reader s
            end)
  end.
