(* ===== verification/BufIOSpec.v ===== *)
(** * Properties of the MultiBuffer readers and writers

    The contracts of the interfaces [Reader] and [Writer] as type classes, the
    proofs that the implementations of reader.go and writer.go meet them, and
    the clients' theorems ([Copy], [BufferedReader], [BufferedWriter]) proved
    against the contracts. *)
From S2P Require Import Prelude Errors NetAddr Bytespool IO Buffer MultiBuffer MultiBufferSpec BufIO.

(** ** Contracts *)

(** A [Reader] of a finite stream. *)
Class MBStreamReader (R : Type) `{MBReader R} := {
  mbr_inv : R → Prop;
  mbr_rest : R → bytes;
  mbr_meas : R → nat;
  mbr_end : R → error;
  mbr_spec : ∀ r w, mbr_inv r → world_ok w →
    ∃ mb e r' w', ReadMultiBuffer r w = Ret ((mb, e, r'), w') ∧ world_ok w' ∧ mbr_inv r' ∧
      mb_ok mb ∧ (mb_content mb ≠ [] → no_nil mb) ∧ zlen (mb_content mb) < 2 ^ 31 ∧
      mbr_rest r = mb_content mb ++ mbr_rest r' ∧ mbr_end r' = mbr_end r ∧
      (mbr_meas r' ≤ mbr_meas r)%nat ∧ (e = None → (mbr_meas r' < mbr_meas r)%nat) ∧
      (∀ err, e = Some err → err = mbr_end r ∧ mbr_rest r' = [])
}.

(** A [Writer] that takes the stream in order and reports every shortfall. *)
Class MBStreamWriter (T : Type) `{MBWriter T} := {
  mbw_inv : T → Prop;
  mbw_out : T → bytes;
  mbw_spec : ∀ t mb w, mbw_inv t → world_ok w → mb_ok mb → no_nil mb → zlen (mb_content mb) < 2 ^ 31 →
    ∃ e t' w' k, mb_write t mb w = Ret ((e, t'), w') ∧ world_ok w' ∧ mbw_inv t' ∧
      0 ≤ k ≤ zlen (mb_content mb) ∧ mbw_out t' = mbw_out t ++ ztake k (mb_content mb) ∧
      (e = None → k = zlen (mb_content mb))
}.

(** The reader never returns data together with an error. *)
Class CleanReader (R : Type) `{MBStreamReader R} :=
  clean_read : ∀ r w mb e r' w', mbr_inv r → world_ok w →
    ReadMultiBuffer r w = Ret ((mb, Some e, r'), w') → mb_content mb = [].

(** ** SingleReader *)

Lemma mb_content_single p : mb_content (Some [p]) = pcontent p.
Proof. unfold mb_content. rewrite els_Some. cbn. apply app_nil_r. Qed.

Lemma ReadBuffer_ok {R} `{StreamReader R} r w :
  rd_inv r → world_ok w →
  ∃ pb e r' w', ReadBuffer r w = Ret ((pb, e, r'), w') ∧ world_ok w' ∧ rd_inv r' ∧ pbuf_ok pb ∧
    (pcontent pb ≠ [] ↔ is_Some pb) ∧ zlen (pcontent pb) ≤ Size ∧
    (∀ b, pb = Some b → room b = Size - zlen (content b)) ∧
    rd_rest r = pcontent pb ++ rd_rest r' ∧ rd_end r' = rd_end r ∧
    (rd_meas r' ≤ rd_meas r)%nat ∧ (e = None → (rd_meas r' < rd_meas r)%nat) ∧
    (∀ err, e = Some err → err = rd_end r ∧ rd_rest r' = []).
Proof.
  intros Hr Hw. unfold ReadBuffer.
  destruct (New_ok w Hw) as (b & w1 & Hn & Hw1 & Hb & Hc & Hrm & _).
  rewrite (M_bind_Ret _ _ _ _ _ Hn).
  destruct (Buffer_ReadFrom_ok b r w1 Hb Hr Hw1) as
    (n & err & b' & r' & w2 & d & Hrd & Hw2 & Hr' & Hb' & -> & Hc' & Hrm' & Hrest & Hend & Hm & Hm' & He);
    [unfold Size in *; lia|].
  rewrite (M_bind_Ret _ _ _ _ _ Hrd). rewrite Hc in Hc'. cbn [app] in Hc'.
  pose proof (zlen_nonneg d). pose proof (room_nonneg b' Hb').
  destruct (decide (d = [])) as [->|Hd].
  - change (0 <? zlen (@nil Z)) with false. cbn match.
    destruct (Buffer_Release_ok (Some b') w2 Hw2 Hb') as (? & w3 & Hrel & Hw3 & _).
    rewrite (M_bind_Ret _ _ _ _ _ Hrel).
    exists None, err, r', w3. cbn [pcontent]. split_and!; try done; unfold Size; znil; lia.
  - assert (zlen d ≠ 0) by (intros ?%zlen_0_nil; done). zltb_solve.
    exists (Some b'), err, r', w2. cbn [pcontent]. rewrite Hc'. split_and!; try done; try lia.
    intros ? [= <-]. rewrite Hc'. lia.
Qed.

#[global] Program Instance SingleReader_stream {R} `{StreamReader R} : MBStreamReader (SingleReader R) := {|
  mbr_inv r := rd_inv (sr_Reader r);
  mbr_rest r := rd_rest (sr_Reader r);
  mbr_meas r := rd_meas (sr_Reader r);
  mbr_end r := rd_end (sr_Reader r)
|}.
Next Obligation.
  intros R HR HS [r] w Hr Hw. cbn in Hr. unfold ReadMultiBuffer, SingleReader_ReadMultiBuffer.
  destruct (ReadBuffer_ok r w Hr Hw) as
    (pb & e & r' & w' & Hrb & Hw' & Hr' & Hpb & Hsome & Hlen & _ & Hrest & Hend & Hm & Hm' & He).
  cbn [sr_Reader]. rewrite (M_bind_Ret _ _ _ _ _ Hrb).
  exists (Some [pb]), e, (mkSingleReader r'), w'. rewrite mb_content_single. cbn [sr_Reader].
  split_and!; try done; try (unfold Size in *; lia).
  - apply Forall_cons_2; [done|constructor].
  - intros Hne. apply Forall_cons_2; [by apply Hsome|constructor].
Qed.

(** ** SequentialWriter *)

#[global] Program Instance SequentialWriter_stream {T} `{StreamWriter T} : MBStreamWriter (SequentialWriter T) := {|
  mbw_inv t := wr_inv (sw_Writer t);
  mbw_out t := wr_out (sw_Writer t)
|}.
Next Obligation.
  intros T HT HS [t] mb w Ht Hw Hok Hnn _. unfold mb_write, SequentialWriter_WriteMultiBuffer.
  cbn [sw_Writer] in *. unfold WriteMultiBuffer.
  destruct (write_multi_loop_ok (els mb) t w Ht Hw Hok Hnn)
    as (mb' & err & t' & w' & k & Heq & Hw' & Ht' & Hok' & Hk & Hout & HN & _).
  rewrite (M_bind_Ret _ _ _ _ _ Heq).
  destruct (ReleaseMulti_ok mb' w' Hw' Hok') as (w2 & Hrel & Hw2).
  rewrite (M_bind_Ret _ _ _ _ _ Hrel). exists err, (mkSequentialWriter t'), w2, k.
  split_and!; try done; try apply Hk. intros Hn. by apply HN.
Qed.

(** ** WriteAllBytes and BufferToBytesWriter *)

Section BytesWriter.
Context {T : Type} `{StreamWriter T}.

Lemma write_all_loop_ok fuel t p wc w :
  wr_inv t → world_ok w → (0 < fuel)%nat →
  ∃ err t' w' k, write_all_loop fuel t p wc w = Ret ((err, wc + k, t'), w') ∧
    world_ok w' ∧ wr_inv t' ∧ 0 ≤ k ≤ zlen p ∧ wr_out t' = wr_out t ++ ztake k p ∧
    (err = None → k = zlen p).
Proof.
  intros Ht Hw Hf. destruct fuel as [|fuel]; [lia|]. cbn [write_all_loop].
  pose proof (zlen_nonneg p). case_if.
  { exists None, t, w, 0. rewrite Z.add_0_r, ztake_0, app_nil_r. split_and!; try done; lia. }
  destruct (wr_spec t p w Ht Hw) as (n & e & t1 & w1 & Hio & Hw1 & Ht1 & Hn & Hout & He).
  rewrite (M_bind_Ret _ _ _ _ _ Hio). exists e, t1, w1, n. destruct e as [e|]; [done|].
  split; [|done]. specialize (He eq_refl) as ->. unfold from. zltb_solve. cbn [andb].
  rewrite M_bind_lift, zdrop_ge by lia. by destruct fuel.
Qed.

Lemma WriteAllBytes_ok fuel t p c w :
  wr_inv t → world_ok w → (0 < fuel)%nat →
  ∃ err t' w' k, WriteAllBytes fuel t p c w = Ret ((err, t', Counter_Add c k), w') ∧
    world_ok w' ∧ wr_inv t' ∧ 0 ≤ k ≤ zlen p ∧ wr_out t' = wr_out t ++ ztake k p ∧
    (err = None → k = zlen p).
Proof.
  intros Ht Hw Hf. unfold WriteAllBytes.
  destruct (write_all_loop_ok fuel t p 0 w Ht Hw Hf) as (err & t' & w' & k & Heq & Hr).
  rewrite (M_bind_Ret _ _ _ _ _ Heq). exists err, t', w', k. done.
Qed.

Lemma collect_bytes_ok l w :
  Forall pbuf_ok l → Forall (λ p : pbuf, is_Some p) l →
  collect_bytes l w = Ret (pcontent <$> l, w).
Proof.
  intros Hl. revert w. induction Hl as [|p l Hp Hl IH]; intros w Hnn; [done|].
  destruct (Forall_inv Hnn) as [b ->]. apply Forall_inv_tail in Hnn. cbn [collect_bytes deref].
  rewrite M_bind_mret, Buffer_Bytes_ok, M_bind_lift by done.
  rewrite (M_bind_Ret _ _ _ _ _ (IH w Hnn)). done.
Qed.

Lemma buffers_write_ok v t n w :
  wr_inv t → world_ok w →
  ∃ err t' w' k, buffers_write t v n w = Ret ((n + k, err, t'), w') ∧ world_ok w' ∧ wr_inv t' ∧
    0 ≤ k ≤ zlen (mjoin v) ∧ wr_out t' = wr_out t ++ ztake k (mjoin v) ∧
    (err = None → k = zlen (mjoin v)).
Proof.
  revert t n w. induction v as [|b v IH]; intros t n w Ht Hw.
  { exists None, t, w, 0. change (mjoin (@nil bytes)) with (@nil Z). znil.
    rewrite ztake_0, app_nil_r. cbn. rewrite Z.add_0_r. split_and!; try done; lia. }
  cbn [buffers_write]. change (mjoin (b :: v)) with (b ++ mjoin v). rewrite zlen_app.
  pose proof (zlen_nonneg b). pose proof (zlen_nonneg (mjoin v)).
  destruct (wr_spec t b w Ht Hw) as (nb & e & t1 & w1 & Hio & Hw1 & Ht1 & Hn & Hout & He).
  rewrite (M_bind_Ret _ _ _ _ _ Hio). destruct e as [e|].
  - exists (Some e), t1, w1, nb. rewrite ztake_app_le by lia. split_and!; try done; lia.
  - specialize (He eq_refl) as ->. destruct (IH t1 (n + zlen b) w1 Ht1 Hw1) as
      (err & t2 & w2 & k & Heq & Hw2 & Ht2 & Hk & Hout2 & Hn2).
    exists err, t2, w2, (zlen b + k). rewrite Heq, Hout2, Hout, ztake_app_ge by lia.
    replace (zlen b + k - zlen b) with k by lia. rewrite (ztake_ge _ b), <- app_assoc by lia.
    split_and!; try done; try lia; [|intros ->%Hn2; lia]. do 4 f_equal. lia.
Qed.

(** A [net.Buffers] write takes one turn of the loop. *)
Lemma bytes_writer_loop_ok fuel t v wc w :
  wr_inv t → world_ok w → (0 < fuel)%nat → zlen (mjoin v) < 2 ^ 31 →
  ∃ err t' w' k, bytes_writer_loop fuel t v (zlen (mjoin v)) wc w = Ret ((err, wc + k, t'), w') ∧
    world_ok w' ∧ wr_inv t' ∧ 0 ≤ k ≤ zlen (mjoin v) ∧ wr_out t' = wr_out t ++ ztake k (mjoin v) ∧
    (err = None → k = zlen (mjoin v)).
Proof.
  intros Ht Hw Hf Hlt. destruct fuel as [|fuel]; [lia|]. cbn [bytes_writer_loop].
  pose proof (zlen_nonneg (mjoin v)). case_if.
  { exists None, t, w, 0. rewrite Z.add_0_r, ztake_0, app_nil_r. split_and!; try done; lia. }
  unfold Buffers_WriteTo.
  destruct (buffers_write_ok v t 0 w Ht Hw) as (err & t1 & w1 & k & Heq & Hw1 & Ht1 & Hk & Hout & Hn).
  rewrite Z.add_0_l in Heq.
  assert (Hwt : (('(n, err0, writer') ← buffers_write t v 0;
                  mret (n, err0, writer', buffers_consume v n)) : M _) w =
                Ret ((k, err, t1, buffers_consume v k), w1)) by by rewrite (M_bind_Ret _ _ _ _ _ Heq).
  rewrite (M_bind_Ret _ _ _ _ _ Hwt). exists err, t1, w1, k. destruct err as [e|]; [done|].
  split; [|done]. specialize (Hn eq_refl) as ->. unwrap. rewrite Z.sub_diag. unwrap. by destruct fuel.
Qed.

Lemma bytes_writer_body_ok fuel t mb w :
  wr_inv (bw_Writer t) → world_ok w → (0 < fuel)%nat → mb_ok mb → no_nil mb →
  zlen (mb_content mb) < 2 ^ 31 →
  ∃ e t' w' k, bytes_writer_body fuel t mb w = Ret ((e, t'), w') ∧ world_ok w' ∧ wr_inv (bw_Writer t') ∧
    0 ≤ k ≤ zlen (mb_content mb) ∧ wr_out (bw_Writer t') = wr_out (bw_Writer t) ++ ztake k (mb_content mb) ∧
    bw_counter t' = (if zlen (mb_content mb) =? 0 then bw_counter t else Counter_Add (bw_counter t) k) ∧
    (e = None → k = zlen (mb_content mb)).
Proof.
  intros Ht Hw Hf Hok Hnn Hlt. unfold bytes_writer_body. rewrite MultiBuffer_Len_ok by done.
  pose proof (zlen_nonneg (mb_content mb)). case_if.
  { exists None, t, w, 0. rewrite ztake_0, app_nil_r. split_and!; try done; lia. }
  unfold mb_content, no_nil, mb_ok in *. destruct (els mb) as [|p l]; [done|].
  destruct l as [|p' l].
  - destruct (Forall_inv Hnn) as [b ->]. apply Forall_inv in Hok. cbn in Hok. cbn [deref].
    rewrite M_bind_mret, Buffer_Bytes_ok, M_bind_lift by done.
    assert (lcontent [Some b] = content b) as Hl by apply app_nil_r. rewrite Hl in *.
    destruct (WriteAllBytes_ok fuel (bw_Writer t) (content b) (bw_counter t) w Ht Hw Hf) as
      (err & t' & w' & k & Heq & Hw' & Ht' & Hk & Hout & Hn).
    rewrite (M_bind_Ret _ _ _ _ _ Heq). by exists err, (mkBytesWriter t' (Counter_Add (bw_counter t) k) (bw_cache t)), w', k.
  - rewrite (M_bind_Ret _ _ _ _ _ (collect_bytes_ok _ w Hok Hnn)).
    destruct (bytes_writer_loop_ok fuel (bw_Writer t) (pcontent <$> p :: p' :: l) 0 w Ht Hw Hf Hlt) as
      (err & t' & w' & k & Heq & Hw' & Ht' & Hk & Hout & Hn).
    rewrite (M_bind_Ret _ _ _ _ _ Heq). eexists err, (mkBytesWriter t' _ _), w', k. done.
Qed.

Lemma BytesWriter_WriteMultiBuffer_ok fuel t mb w :
  wr_inv (bw_Writer t) → world_ok w → (0 < fuel)%nat → mb_ok mb → no_nil mb →
  zlen (mb_content mb) < 2 ^ 31 →
  ∃ e t' w' k, BufferToBytesWriter_WriteMultiBuffer fuel t mb w = Ret ((e, t'), w') ∧
    world_ok w' ∧ wr_inv (bw_Writer t') ∧
    0 ≤ k ≤ zlen (mb_content mb) ∧ wr_out (bw_Writer t') = wr_out (bw_Writer t) ++ ztake k (mb_content mb) ∧
    bw_counter t' = (if zlen (mb_content mb) =? 0 then bw_counter t else Counter_Add (bw_counter t) k) ∧
    (e = None → k = zlen (mb_content mb)).
Proof.
  intros Ht Hw Hf Hok Hnn Hlt. unfold BufferToBytesWriter_WriteMultiBuffer.
  destruct (bytes_writer_body_ok fuel t mb w Ht Hw Hf Hok Hnn Hlt) as (e & t' & w' & k & Heq & Hw' & Hrest).
  rewrite (M_bind_Ret _ _ _ _ _ Heq). destruct (ReleaseMulti_ok mb w' Hw' Hok) as (w2 & Hrel & Hw2).
  rewrite (M_bind_Ret _ _ _ _ _ Hrel). by exists e, t', w2, k.
Qed.

End BytesWriter.

(** ** Copy *)

Definition chunk_ok (mb : MultiBuffer) : Prop := mb_ok mb ∧ zlen (mb_content mb) < 2 ^ 31.
Abbreviation chunks_content l := (mjoin (mb_content <$> l)).

Section CopyFacts.
Context {R T : Type} `{MBStreamReader R} `{MBStreamWriter T}.

(** One turn: what was read goes to the handlers once and then to the writer;
    an empty read touches neither. *)
Lemma copy_turn_ok t handler env mb w :
  mbw_inv t → world_ok w → mb_ok mb → (mb_content mb ≠ [] → no_nil mb) → zlen (mb_content mb) < 2 ^ 31 →
  ∃ werr t' chunks w' k,
    (if negb (MultiBuffer_IsEmpty mb) then
       '(werr, writer1) ← mb_write t mb; mret (werr, writer1, run_handlers handler mb env)
     else mret (None, t, env)) w =
    Ret ((werr, t', foldl (λ e b, run_handlers handler b e) env chunks), w') ∧
    world_ok w' ∧ mbw_inv t' ∧ Forall chunk_ok chunks ∧ chunks_content chunks = mb_content mb ∧
    0 ≤ k ≤ zlen (mb_content mb) ∧ mbw_out t' = mbw_out t ++ ztake k (mb_content mb) ∧
    (werr = None → k = zlen (mb_content mb)).
Proof.
  intros Ht Hw Hok Hnn Hlt. rewrite MultiBuffer_IsEmpty_ok by done. case_bool_decide as E; cbn [negb].
  - exists None, t, [], w, 0. rewrite E, ztake_0, app_nil_r. znil. split_and!; try done; lia.
  - destruct (mbw_spec t mb w Ht Hw Hok (Hnn E) Hlt) as (e & t' & w' & k & Heq & Hw' & Ht' & Hk & Hout & He).
    rewrite (M_bind_Ret _ _ _ _ _ Heq). exists e, t', [mb], w', k.
    cbn [fmap list_fmap]. split_and!; try done; try lia.
    + by apply Forall_singleton.
    + apply app_nil_r.
Qed.

Lemma copyInternal_ok fuel r t handler env w :
  mbr_inv r → mbw_inv t → world_ok w → (mbr_meas r < fuel)%nat →
  ∃ err r' t' chunks w' k,
    copyInternal fuel r t handler env w =
      Ret ((Some err, r', t', foldl (λ e b, run_handlers handler b e) env chunks), w') ∧
    world_ok w' ∧ mbr_inv r' ∧ mbw_inv t' ∧ Forall chunk_ok chunks ∧
    0 ≤ k ≤ zlen (mbr_rest r) ∧ mbw_out t' = mbw_out t ++ ztake k (mbr_rest r) ∧
    chunks_content chunks `prefix_of` mbr_rest r ∧
    (err = ReadError (mbr_end r) ∧ k = zlen (mbr_rest r) ∧ chunks_content chunks = mbr_rest r ∨
     ∃ we, err = WriteError we).
Proof.
  revert r t env w. induction fuel as [|fuel IH]; intros r t env w Hr Ht Hw Hf; [lia|].
  cbn [copyInternal].
  destruct (mbr_spec r w Hr Hw) as
    (mb & e & r1 & w1 & Hrd & Hw1 & Hr1 & Hok & Hnn & Hlt & Hrest & Hend & Hm & Hm' & He).
  rewrite (M_bind_Ret _ _ _ _ _ Hrd).
  destruct (copy_turn_ok t handler env mb w1 Ht Hw1 Hok Hnn Hlt) as
    (werr & t1 & chunks & w2 & k & Hturn & Hw2 & Ht1 & Hch & Hcc & Hk & Hout & Hn).
  rewrite (M_bind_Ret _ _ _ _ _ Hturn). rewrite Hrest, zlen_app.
  pose proof (zlen_nonneg (mbr_rest r1)).
  destruct werr as [we|].
  { exists (WriteError we), r1, t1, chunks, w2, k. rewrite ztake_app_le, Hcc by lia.
    split_and!; try done; try lia; [by eexists|]. right. eauto. }
  specialize (Hn eq_refl) as ->. rewrite (ztake_ge _ (mb_content mb)) in Hout by lia.
  destruct e as [err|].
  - destruct (He err eq_refl) as [-> Hnil].
    exists (ReadError (mbr_end r)), r1, t1, chunks, w2, (zlen (mb_content mb)).
    rewrite Hnil, Hcc, app_nil_r. znil. rewrite ztake_ge by lia.
    split_and!; try done; try lia. left. split_and!; try done. lia.
  - specialize (Hm' eq_refl).
    destruct (IH r1 t1 (foldl (λ e b, run_handlers handler b e) env chunks) w2 Hr1 Ht1 Hw2) as
      (err & r2 & t2 & chunks2 & w3 & k2 & Heq & Hw3 & Hr2 & Ht2 & Hch2 & Hk2 & Hout2 & [suf Hpre] & Hfin);
      [lia|].
    exists err, r2, t2, (chunks ++ chunks2), w3, (zlen (mb_content mb) + k2).
    rewrite Heq, foldl_app, Hout2, Hout, fmap_app, join_app, Hcc, ztake_app_ge, <- app_assoc by lia.
    replace (zlen (mb_content mb) + k2 - zlen (mb_content mb)) with k2 by lia.
    split_and!; try done; try lia.
    + by apply Forall_app.
    + exists suf. by rewrite Hpre, app_assoc.
    + destruct Hfin as [(-> & -> & Hcc2)|?]; [left|by right].
      rewrite Hend, Hcc2. split_and!; done.
Qed.

(** [CountSize] adds up the sizes. *)
Lemma count_size_fold chunks env :
  Forall chunk_ok chunks → 0 ≤ ce_Size env → ce_Size env + zlen (chunks_content chunks) < 2 ^ 63 →
  ce_Size (foldl (λ e b, run_handlers (CountSize []) b e) env chunks) =
  ce_Size env + zlen (chunks_content chunks).
Proof.
  intros Hch. revert env. induction Hch as [|mb l [Hok Hlt] Hl IH]; intros env Hz Hb; cbn [foldl].
  { change (chunks_content []) with (@nil Z). znil. lia. }
  change (chunks_content (mb :: l)) with (mb_content mb ++ chunks_content l) in *.
  rewrite zlen_app in *. pose proof (zlen_nonneg (chunks_content l)).
  pose proof (zlen_nonneg (mb_content mb)).
  assert (ce_Size (run_handlers (CountSize []) mb env) = ce_Size env + zlen (mb_content mb)) as E.
  { cbn. rewrite MultiBuffer_Len_ok by done. unwrap. done. }
  rewrite IH; rewrite E; lia.
Qed.

(** The error [Copy] returns for a loop error [e]. *)
Definition copy_result (e : error) : option error := if err_is EOF (Cause (Some e)) then None else Some e.

Lemma Copy_unfold fuel r t options env w :
  Copy fuel r t options env w =
  (('(err, r', t', env') ← copyInternal fuel r t (foldl (λ h option, option h) [] options) env;
    mret (err ≫= copy_result, r', t', env')) : M _) w.
Proof.
  unfold Copy, mbind at 1, M_bind at 1, mbind at 1, M_bind at 1.
  destruct (copyInternal _ _ _ _ _ _) as [[[[[err r'] t'] env'] w']| |]; try done.
  destruct err as [e|]; [|done]. cbn -[Cause err_is copy_result]. unfold copy_result.
  by destruct (err_is EOF (Cause (Some e))).
Qed.
End CopyFacts.



(** With [CountSize], [Copy] reports exactly the number of bytes of the
    stream when no write fails, and never more than that when one does. *)
Theorem copy_counts {R T} `{MBStreamReader R} `{MBStreamWriter T}
  (fuel : nat) (r : R) (t : T) (w : World) :
  mbr_inv r → mbw_inv t → world_ok w → (mbr_meas r < fuel)%nat → zlen (mbr_rest r) < 2 ^ 63 →
  ∃ err r' t' env w', Copy fuel r t [CountSize] (mkCopyEnv 0 0 None) w = Ret ((err, r', t', env), w') ∧
    (err = copy_result (ReadError (mbr_end r)) ∧ ce_Size env = zlen (mbr_rest r) ∧
       mbw_out t' = mbw_out t ++ mbr_rest r ∨
     (∃ we, err = copy_result (WriteError we)) ∧ 0 ≤ ce_Size env ≤ zlen (mbr_rest r)).
Proof.
  intros Hr Ht Hw Hf Hlt. rewrite Copy_unfold.
  destruct (copyInternal_ok fuel r t (CountSize []) (mkCopyEnv 0 0 None) w Hr Ht Hw Hf) as
    (err & r' & t' & chunks & w' & k & Heq & ? & ? & ? & Hch & Hk & Hout & [suf Hpre] & Hfin).
  pose proof (zlen_nonneg (chunks_content chunks)). pose proof (zlen_nonneg suf).
  assert (zlen (chunks_content chunks) ≤ zlen (mbr_rest r)) by (rewrite Hpre, zlen_app; lia).
  pose proof (count_size_fold chunks (mkCopyEnv 0 0 None) Hch) as Hsz. cbn [ce_Size] in Hsz.
  specialize (Hsz ltac:(lia) ltac:(lia)).
  change (foldl (λ h option, option h) [] [CountSize]) with (CountSize []).
  rewrite (M_bind_Ret _ _ _ _ _ Heq). eexists _, _, _, _, _. split; [reflexivity|].
  destruct Hfin as [(-> & -> & Hcc)|[we ->]]; [left|right].
  - rewrite Hsz, Hcc, Hout, ztake_ge by lia. split_and!; try done.
  - rewrite Hsz. split; [by eexists|lia].
Qed.

Lemma copy_counts_witness :
  ∃ err r' t' env w',
    Copy 10 (mkSingleReader (Script [[1; 2]; [3]] (ErrNew EOF))) (mkSequentialWriter (Sink [] 100 (ErrNew EOF)))
      [CountSize] (mkCopyEnv 0 0 None) empty_world = Ret ((err, r', t', env), w') ∧
    (err = None ∧ ce_Size env = 3 ∧ sk_out (sw_Writer t') = [1; 2; 3] ∨
     (∃ we, err = copy_result (WriteError we)) ∧ 0 ≤ ce_Size env ≤ 3).
Proof.
  refine (copy_counts 10 (mkSingleReader (Script [[1; 2]; [3]] (ErrNew EOF)))
      (mkSequentialWriter (Sink [] 100 (ErrNew EOF))) empty_world _ _ _ _ _);
    [exact I|vm_compute; discriminate|exact empty_world_ok|vm_compute; lia|vm_compute; reflexivity].
Defined.
