(* ===== verification/BufferedSpec.v ===== *)
(** * Properties of BufferedReader and BufferedWriter

    Both are proved against the contracts of the [Reader] or [Writer] they
    wrap: a BufferedReader is again an [io.Reader] of the same stream, and a
    BufferedWriter never reorders, duplicates or drops what it accepted. *)
From S2P Require Import Prelude Errors Bytespool IO Buffer MultiBuffer MultiBufferSpec BufIO BufIOSpec.

(** ** BufferedReader *)

Section BufferedReaderFacts.
Context {R : Type} `{CleanReader R}.

Definition br_inv (r : BufferedReader R) : Prop :=
  mbr_inv (br_Reader r) ∧ mb_ok (br_Buffer r) ∧ br_Spliter r = None.
Definition br_rest (r : BufferedReader R) : bytes := mb_content (br_Buffer r) ++ mbr_rest (br_Reader r).
Definition br_meas (r : BufferedReader R) : nat := (mbr_meas (br_Reader r) + length (br_rest r))%nat.

Lemma nil_if_empty_ok mb : mb_ok mb → mb_ok (nil_if_empty mb) ∧ mb_content (nil_if_empty mb) = mb_content mb.
Proof.
  intros Hok. unfold nil_if_empty. rewrite MultiBuffer_IsEmpty_ok by done.
  case_bool_decide as E; [|done]. split; [constructor|by rewrite E].
Qed.

Lemma split_bytes_fn_ok mb n w :
  world_ok w → mb_ok mb → 0 ≤ n →
  ∃ mb' w', split_bytes_fn mb n w = Ret ((mb', ztake n (mb_content mb)), w') ∧
    world_ok w' ∧ mb_ok mb' ∧ mb_content mb' = zdrop n (mb_content mb).
Proof.
  intros Hw Hok Hn. unfold split_bytes_fn.
  destruct (SplitBytes_ok mb n w Hw Hok Hn) as (mb' & arr & w' & Hs & Hrest).
  rewrite (M_bind_Ret _ _ _ _ _ Hs). by exists mb', w'.
Qed.

Lemma length_zdrop_lt {A} n (l : list A) : 0 < n → l ≠ [] → (length (zdrop n l) < length l)%nat.
Proof. intros Hn Hl. unfold zdrop. rewrite length_drop. destruct l; [done|]. cbn. lia. Qed.

Lemma BufferedReader_Read_ok r n w :
  br_inv r → world_ok w → 0 < n →
  ∃ d e r' w', BufferedReader_Read r n w = Ret ((d, e, r'), w') ∧ world_ok w' ∧ br_inv r' ∧
    zlen d ≤ n ∧ br_rest r = d ++ br_rest r' ∧ mbr_end (br_Reader r') = mbr_end (br_Reader r) ∧
    (br_meas r' ≤ br_meas r)%nat ∧ (e = None → (br_meas r' < br_meas r)%nat) ∧
    (∀ err, e = Some err → err = mbr_end (br_Reader r) ∧ br_rest r' = []).
Proof.
  intros (Hr & Hok & Hsp) Hw Hn. unfold BufferedReader_Read, br_meas, br_rest. rewrite Hsp. cbn [default].
  rewrite MultiBuffer_IsEmpty_ok by done. case_bool_decide as E; cbn [negb].
  - destruct (mbr_spec (br_Reader r) w Hr Hw) as
      (mb & e & r1 & w1 & Hrd & Hw1 & Hr1 & Hok1 & _ & _ & Hrest & Hend & Hm & Hm' & He).
    rewrite (M_bind_Ret _ _ _ _ _ Hrd). rewrite E. cbn [app]. destruct e as [err|].
    + destruct (He err eq_refl) as [-> Hnil].
      pose proof (clean_read _ _ _ _ _ _ Hr Hw Hrd) as Hcl. rewrite Hcl in Hrest. cbn in Hrest.
      eexists _, _, _, _. split; [reflexivity|]. cbn [br_Reader br_Buffer].
      rewrite Hrest, Hnil, E. cbn [app length]. znil. split_and!; try done; try lia. by intros ? [= <-].
    + specialize (Hm' eq_refl). destruct (split_bytes_fn_ok mb n w1 Hw1 Hok1) as
        (mb' & w2 & Hs & Hw2 & Hok2 & Hc2); [lia|].
      rewrite (M_bind_Ret _ _ _ _ _ Hs). eexists _, _, _, _. split; [reflexivity|].
      cbn [br_Reader br_Buffer]. rewrite MultiBuffer_IsEmpty_ok by done.
      assert (mb_content (if negb (bool_decide (mb_content mb' = [])) then mb' else br_Buffer r) = mb_content mb')
        as -> by (case_bool_decide as E'; cbn [negb]; congruence).
      assert (zlen (ztake n (mb_content mb)) ≤ n) by (rewrite zlen_ztake_min by lia; lia).
      rewrite Hrest, Hc2, !length_app, app_assoc, ztake_zdrop. unfold zdrop. rewrite length_drop.
      split_and!; try done; try lia. split_and!; try done. by case_bool_decide.
  - destruct (split_bytes_fn_ok (br_Buffer r) n w Hw Hok) as (mb' & w2 & Hs & Hw2 & Hok2 & Hc2); [lia|].
    rewrite (M_bind_Ret _ _ _ _ _ Hs). eexists _, _, _, _. split; [reflexivity|].
    cbn [br_Reader br_Buffer]. destruct (nil_if_empty_ok mb' Hok2) as [Hok3 Hc3].
    assert (zlen (ztake n (mb_content (br_Buffer r))) ≤ n) by (rewrite zlen_ztake_min by lia; lia).
    pose proof (length_zdrop_lt n _ Hn E).
    rewrite Hc3, Hc2, !length_app, app_assoc, ztake_zdrop. split_and!; try done; lia.
Qed.

#[global] Program Instance BufferedReader_stream : StreamReader (BufferedReader R) := {|
  rd_inv := br_inv;
  rd_rest := br_rest;
  rd_meas := br_meas;
  rd_end r := mbr_end (br_Reader r)
|}.
Next Obligation. exact BufferedReader_Read_ok. Qed.
End BufferedReaderFacts.

(** ** BufferedWriter *)

(** The [io.Writer] side of a [Writer] that has one writes to the same sink. *)
Class DynStreamWriter (T : Type) `{MBStreamWriter T} `{WriterDyn T} :=
  dyn_spec : ∀ write, as_io_writer (T := T) = Some write → ∀ t p w, mbw_inv t → world_ok w →
    ∃ n e t' w', write t p w = Ret ((n, e, t'), w') ∧ world_ok w' ∧ mbw_inv t' ∧
      0 ≤ n ≤ zlen p ∧ mbw_out t' = mbw_out t ++ ztake n p ∧ (e = None → n = zlen p).

#[global] Instance SequentialWriter_dynstream {T} `{StreamWriter T} : DynStreamWriter (SequentialWriter T).
Proof.
  intros write [= <-] [t] p w Ht Hw. cbn in Ht.
  destruct (wr_spec t p w Ht Hw) as (n & e & t1 & w1 & Hio & Hrest).
  cbn [sw_Writer]. rewrite (M_bind_Ret _ _ _ _ _ Hio). by exists n, e, (mkSequentialWriter t1), w1.
Qed.

Section BufferedWriterFacts.
Context {T : Type} `{DynStreamWriter T}.

(** The pending bytes are in the buffer, which is never full between calls;
    nothing is pending while the writer is unbuffered. *)
Definition fw_inv (w : BufferedWriter T) : Prop :=
  mbw_inv (fw_writer w) ∧
  match fw_buffer w with None => True | Some b => buf_ok b ∧ 0 < room b end ∧
  (fw_buffered w = false → pcontent (fw_buffer w) = []).

Definition fw_pending (w : BufferedWriter T) : bytes := pcontent (fw_buffer w).

(** [w'] is [w] after the bytes [s] were appended to what it has pending, of
    which the first [j] have reached the sink; without error the rest is
    pending. *)
Definition fw_delivers (w : BufferedWriter T) (s : bytes) (e : option error) (w' : BufferedWriter T) : Prop :=
  fw_inv w' ∧
  ∃ j, 0 ≤ j ≤ zlen (fw_pending w ++ s) ∧
    mbw_out (fw_writer w') = mbw_out (fw_writer w) ++ ztake j (fw_pending w ++ s) ∧
    (e = None → fw_pending w' = zdrop j (fw_pending w ++ s)).

Definition fw_took w s e w' : Prop := fw_delivers w s e w' ∧ fw_buffered w' = fw_buffered w.

Lemma write_all_dyn_ok write fuel t p w :
  as_io_writer (T := T) = Some write → mbw_inv t → world_ok w → (0 < fuel)%nat →
  ∃ err t' c w' k, write_all_dyn write fuel t p w = Ret ((err, t', c), w') ∧
    world_ok w' ∧ mbw_inv t' ∧ 0 ≤ k ≤ zlen p ∧ mbw_out t' = mbw_out t ++ ztake k p ∧
    (err = None → k = zlen p).
Proof.
  intros Hdyn Ht Hw Hf. unfold write_all_dyn.
  pose (S := Build_StreamWriter T write mbw_inv mbw_out (dyn_spec write Hdyn)).
  destruct (@WriteAllBytes_ok T write S fuel t p None w Ht Hw Hf) as (err & t' & w' & k & Heq & Hrest).
  by exists err, t', (Counter_Add None k), w', k.
Qed.

(** [flushInternal] on a buffer that may be full. *)
Lemma flushInternal_ok fuel w wd :
  mbw_inv (fw_writer w) → pbuf_ok (fw_buffer w) → zlen (fw_pending w) < 2 ^ 31 → world_ok wd → (0 < fuel)%nat →
  ∃ e w' wd' k, flushInternal fuel w wd = Ret ((e, w'), wd') ∧ world_ok wd' ∧
    mbw_inv (fw_writer w') ∧ fw_buffered w' = fw_buffered w ∧ fw_pending w' = [] ∧
    (fw_buffer w' = None ∨ w' = w) ∧ 0 ≤ k ≤ zlen (fw_pending w) ∧
    mbw_out (fw_writer w') = mbw_out (fw_writer w) ++ ztake k (fw_pending w) ∧
    (e = None → k = zlen (fw_pending w)).
Proof.
  intros Ht Hb Hlt Hw Hf. unfold flushInternal, fw_pending in *. rewrite Buffer_IsEmpty_ok by done.
  case_bool_decide as E.
  { exists None, w, wd, 0. rewrite E, ztake_0, app_nil_r. znil. split_and!; try done; try lia. by right. }
  destruct (fw_buffer w) as [b|] eqn:Eb; [|done]. cbn in Hb, E.
  destruct (as_io_writer (T := T)) as [write|] eqn:Ed.
  - cbn [deref]. rewrite M_bind_mret, Buffer_Bytes_ok, M_bind_lift by done. cbn [pcontent].
    destruct (write_all_dyn_ok write fuel (fw_writer w) (content b) wd Ed Ht Hw Hf) as
      (err & t' & c & w1 & k & Heq & Hw1 & Ht' & Hk & Hout & Hn).
    rewrite (M_bind_Ret _ _ _ _ _ Heq).
    destruct (Buffer_Release_ok (Some b) w1 Hw1 Hb) as (? & w2 & Hrel & Hw2 & _).
    rewrite (M_bind_Ret _ _ _ _ _ Hrel).
    exists err, (mkBufferedWriter t' None (fw_buffered w)), w2, k. split_and!; try done; try lia. by left.
  - destruct (mbw_spec (fw_writer w) (Some [Some b]) wd Ht Hw) as
      (e & t' & w1 & k & Heq & Hw1 & Ht' & Hk & Hout & Hn).
    + by apply Forall_singleton.
    + by apply Forall_singleton.
    + by rewrite mb_content_single.
    + rewrite (M_bind_Ret _ _ _ _ _ Heq). rewrite mb_content_single in *.
      exists e, (mkBufferedWriter t' None (fw_buffered w)), w1, k. split_and!; try done; try lia. by left.
Qed.

Lemma ensure_buffer_ok w wd :
  fw_inv w → world_ok wd →
  ∃ b wd', ensure_buffer w wd = Ret (b, wd') ∧ world_ok wd' ∧ buf_ok b ∧ 0 < room b ∧ content b = fw_pending w.
Proof.
  intros (Ht & Hb & _) Hw. unfold ensure_buffer, fw_pending. destruct (fw_buffer w) as [b|].
  - destruct Hb. by exists b, wd.
  - destruct (New_ok wd Hw) as (b & w1 & Hn & Hw1 & Hb1 & Hc & Hrm & _). exists b, w1.
    split_and!; try done. rewrite Hrm. unfold Size. lia.
Qed.

Lemma fw_delivers_trans w s1 w1 s2 e w2 :
  fw_delivers w s1 None w1 → fw_delivers w1 s2 e w2 → fw_delivers w (s1 ++ s2) e w2.
Proof.
  intros (_ & j1 & Hj1 & Hout1 & Hp1) (Hi2 & j2 & Hj2 & Hout2 & Hp2).
  specialize (Hp1 eq_refl). rewrite Hp1 in *. rewrite zlen_app, zlen_zdrop in Hj2 by lia.
  split; [done|]. exists (j1 + j2). rewrite app_assoc, zlen_app.
  rewrite ztake_split, (ztake_app_le j1), (zdrop_app_le j1) by lia.
  split_and!; try lia; [by rewrite Hout2, Hout1, app_assoc|].
  intros He. rewrite Hp2 by done. rewrite <- zdrop_app_le, zdrop_zdrop by lia. done.
Qed.

Lemma fw_delivers_fail w s1 s2 e w' : fw_delivers w s1 (Some e) w' → fw_delivers w (s1 ++ s2) (Some e) w'.
Proof.
  intros (Hi & j & Hj & Hout & _). split; [done|]. exists j.
  rewrite app_assoc, ztake_app_le, zlen_app by lia. pose proof (zlen_nonneg s2).
  split_and!; try done; lia.
Qed.

Lemma fw_delivers_nil w w' :
  fw_inv w' → fw_writer w' = fw_writer w → fw_buffer w' = fw_buffer w → fw_delivers w [] None w'.
Proof.
  intros Hi Hw Hb. split; [done|]. unfold fw_pending. rewrite Hw, Hb. exists 0.
  rewrite ztake_0, zdrop_0, !app_nil_r.
  pose proof (zlen_nonneg (pcontent (fw_buffer w))). split_and!; try done; lia.
Qed.

Lemma fw_took_trans w s1 w1 s2 e w2 :
  fw_took w s1 None w1 → fw_took w1 s2 e w2 → fw_took w (s1 ++ s2) e w2.
Proof. intros [Ha Ea] [Hb Eb]. split; [by eapply fw_delivers_trans|congruence]. Qed.

Lemma fw_took_fail w s1 s2 e w' : fw_took w s1 (Some e) w' → fw_took w (s1 ++ s2) (Some e) w'.
Proof. intros [Ha Ea]. split; [by apply fw_delivers_fail|done]. Qed.

Lemma fw_took_nil w : fw_inv w → fw_took w [] None w.
Proof. intros Hi. split; [by apply fw_delivers_nil|done]. Qed.

(** After [d] was stored in the buffer: flush when it is full (or when nothing
    may stay pending). *)
Lemma maybe_flush_ok fuel w b' d wd :
  fw_inv w → buf_ok b' → d ≠ [] → content b' = fw_pending w ++ d → world_ok wd → (0 < fuel)%nat →
  let w1 := mkBufferedWriter (fw_writer w) (Some b') (fw_buffered w) in
  ∃ e w2 wd', (if negb (fw_buffered w1) || Buffer_IsFull (fw_buffer w1)
               then flushInternal fuel w1 else mret (None, w1)) wd = Ret ((e, w2), wd') ∧
    world_ok wd' ∧ fw_took w d e w2.
Proof.
  intros (Ht & _ & _) Hb Hd Hc Hw Hf w1. cbn [w1 fw_buffered fw_buffer].
  assert (pbuf_ok (Some b')) as Hpb by exact Hb.
  rewrite Buffer_IsFull_ok by done. destruct (negb (fw_buffered w) || (room b' =? 0)) eqn:E.
  - destruct (flushInternal_ok fuel w1 wd) as
      (e & w2 & wd' & k & Heq & Hw' & Ht2 & Hbf & Hp2 & Hnone & Hk & Hout & Hn); try done.
    { unfold fw_pending. cbn [w1 fw_buffer pcontent]. pose proof (zlen_content b' Hb). buf_hyps. lia. }
    exists e, w2, wd'. unfold fw_pending in Hk, Hout, Hn. cbn [w1 fw_buffer pcontent fw_writer] in *.
    rewrite Hc in *. split_and!; [done..|]. split; [split|done].
    + split_and!; [done| |intros _; exact Hp2]. destruct Hnone as [->| ->]; [done|].
      unfold fw_pending in Hp2. cbn in Hp2. rewrite Hc in Hp2. by apply app_eq_nil in Hp2 as [_ ?].
    + exists k. split_and!; [lia..|done|]. intros He. rewrite Hp2, zdrop_ge; [done|]. specialize (Hn He). lia.
  - apply orb_false_iff in E as [E1 E2]. bool_hyps. pose proof (room_nonneg b' Hb).
    eexists _, _, _. split; [reflexivity|]. split; [done|]. split; [split|done].
    + split_and!; cbn; try done; [split; [done|lia]|]. intros Hf'. by rewrite Hf' in E1.
    + exists 0. unfold fw_pending. cbn [w1 fw_buffer pcontent fw_writer].
      rewrite ztake_0, zdrop_0, app_nil_r, Hc. pose proof (zlen_nonneg (fw_pending w ++ d)).
      split_and!; try done; lia.
Qed.

Lemma buffered_write_loop_ok fuel w b total wd :
  fw_inv w → world_ok wd → (length b < fuel)%nat →
  ∃ n e w' wd', buffered_write_loop fuel w b total wd = Ret ((n, e, w'), wd') ∧ world_ok wd' ∧
    fw_took w b e w' ∧ (e = None → n = total + zlen b) ∧ total ≤ n ≤ total + zlen b.
Proof.
  revert w b total wd. induction fuel as [|fuel IH]; intros w b total wd Hi Hw Hf; [lia|].
  cbn [buffered_write_loop]. pose proof (zlen_nonneg b). case_if.
  { assert (b = []) as -> by (apply zlen_0_nil; lia). exists total, None, w, wd. znil.
    split_and!; try done; try lia. by apply fw_took_nil. }
  destruct (ensure_buffer_ok w wd Hi Hw) as (buf & w1 & Hen & Hw1 & Hb & Hroom & Hc).
  rewrite (M_bind_Ret _ _ _ _ _ Hen).
  destruct (Buffer_Write_ok buf b Hb) as (b' & Hwr & Hb' & Hc' & Hrm & _).
  rewrite Hwr, M_bind_lift. set (m := Z.min (room buf) (zlen b)) in *. rewrite Hc in Hc'.
  assert (zlen (ztake m b) = m) as Hm by (apply zlen_ztake; lia).
  destruct (maybe_flush_ok (S fuel) w b' (ztake m b) w1 Hi Hb') as (e & w2 & w3 & Hfl & Hw3 & Htook);
    [by intros E; rewrite E in Hm; znil; lia|done|done|lia|].
  cbn zeta in Hfl |- *. rewrite (M_bind_Ret _ _ _ _ _ Hfl). destruct e as [e|].
  - exists (total + m), (Some e), w2, w3. split_and!; try done; try lia.
    rewrite <- (ztake_zdrop m b). by apply fw_took_fail.
  - unfold from. zltb_solve. cbn [andb]. rewrite M_bind_lift.
    assert (b ≠ []) by (intros ->; znil; lia).
    assert (length (zdrop m b) < length b)%nat by (apply length_zdrop_lt; [lia|done]).
    destruct (IH w2 (zdrop m b) (total + m) w3) as
      (n & e & w4 & w5 & Heq & Hw5 & Htook2 & Hn & Hle); [apply Htook|done|lia|].
    rewrite zlen_zdrop in Hn, Hle by lia. exists n, e, w4, w5. split_and!; try done; try lia.
    + rewrite <- (ztake_zdrop m b). by eapply fw_took_trans.
    + intros He. specialize (Hn He). lia.
Qed.

(** Reading from a non-empty container into a buffer with room never fails. *)
Lemma ReadFrom_container_ok b c w :
  buf_ok b → world_ok w → mb_ok (c_mb c) → 0 < room b → mb_content (c_mb c) ≠ [] →
  ∃ n b' c' w' d, Buffer_ReadFrom b c w = Ret ((n, None, b', c'), w') ∧ world_ok w' ∧ buf_ok b' ∧
    mb_ok (c_mb c') ∧ d ≠ [] ∧ content b' = content b ++ d ∧ mb_content (c_mb c) = d ++ mb_content (c_mb c').
Proof.
  intros Hb Hw Hok Hroom Hne. unfold Buffer_ReadFrom. buf_hyps. rewrite s_sub_Ret by lia.
  rewrite M_bind_lift. cbn [s_len]. fold (room b). unfold io_read, Container_reader, Container_Read.
  rewrite MultiBuffer_IsEmpty_ok by done. rewrite bool_decide_eq_false_2 by done.
  destruct (SplitBytes_ok (c_mb c) (room b) w Hw Hok) as (mb' & arr & w' & Hs & Hw' & Hok' & Hc'); [lia|].
  assert (Hrd : (('(mb, d, _) ← SplitBytes (c_mb c) (room b); mret (d, None, mkContainer mb)) : M _) w =
                Ret ((ztake (room b) (mb_content (c_mb c)), @None error, mkContainer mb'), w'))
    by by rewrite (M_bind_Ret _ _ _ _ _ Hs).
  rewrite (M_bind_Ret _ _ _ _ _ Hrd). set (d := ztake (room b) (mb_content (c_mb c))) in *.
  assert (zlen d ≤ room b) as Hd by (unfold d; rewrite zlen_ztake_min by lia; lia).
  destruct (append_ok b d Hb Hd) as (Hok2 & Hc2 & Hrm & Hl). pose proof (zlen_nonneg d).
  unfold room in Hd. cbn [store_at b_start b_end]. unwrap.
  eexists _, _, _, _, d. split; [reflexivity|]. cbn [c_mb].
  split_and!; try done; [|by unfold d; rewrite Hc', ztake_zdrop].
  unfold d, ztake. destruct (mb_content (c_mb c)); [done|]. by destruct (Z.to_nat (room b)) eqn:?; [lia|].
Qed.

Lemma buffered_write_mb_loop_ok fuel w c wd :
  fw_inv w → fw_buffered w = true → world_ok wd → mb_ok (c_mb c) →
  (length (mb_content (c_mb c)) < fuel)%nat →
  ∃ e w' wd', buffered_write_mb_loop fuel w c wd = Ret ((e, w'), wd') ∧ world_ok wd' ∧
    fw_took w (mb_content (c_mb c)) e w'.
Proof.
  revert w c wd. induction fuel as [|fuel IH]; intros w c wd Hi Hbf Hw Hok Hf; [lia|].
  cbn [buffered_write_mb_loop]. rewrite MultiBuffer_IsEmpty_ok by done.
  assert (Hclose : ∀ c wd, mb_ok (c_mb c) → world_ok wd → ∃ r wd', Container_Close c wd = Ret (r, wd') ∧ world_ok wd').
  { intros c0 wd0 Hok0 Hw0. unfold Container_Close. destruct (ReleaseMulti_ok (c_mb c0) wd0 Hw0 Hok0) as (w2 & Hrel & Hw2).
    rewrite (M_bind_Ret _ _ _ _ _ Hrel). by eexists _, _. }
  case_bool_decide as E.
  { destruct (Hclose c wd Hok Hw) as (r & wd' & Hcl & Hw'). rewrite (M_bind_Ret _ _ _ _ _ Hcl).
    exists None, w, wd'. rewrite E. split_and!; try done. by apply fw_took_nil. }
  destruct (ensure_buffer_ok w wd Hi Hw) as (buf & w1 & Hen & Hw1 & Hb & Hroom & Hc).
  rewrite (M_bind_Ret _ _ _ _ _ Hen).
  destruct (ReadFrom_container_ok buf c w1 Hb Hw1 Hok Hroom E) as
    (n & b' & c' & w2 & d & Hrd & Hw2 & Hb' & Hok' & Hd & Hc' & Hrest).
  rewrite (M_bind_Ret _ _ _ _ _ Hrd). rewrite Hc in Hc'.
  destruct (maybe_flush_ok (S fuel) w b' d w2 Hi Hb' Hd Hc' Hw2) as (e & w3 & w4 & Hfl & Hw4 & Htook); [lia|].
  cbn [fw_buffered] in Hfl. rewrite Hbf in Hfl |- *. cbn [negb orb] in Hfl. cbn zeta.
  rewrite (M_bind_Ret _ _ _ _ _ Hfl). rewrite Hrest. destruct e as [e|].
  - destruct (Hclose c' w4 Hok' Hw4) as (r & wd' & Hcl & Hw'). rewrite (M_bind_Ret _ _ _ _ _ Hcl).
    exists (Some e), w3, wd'. split_and!; try done. by apply fw_took_fail.
  - destruct (IH w3 c' w4) as (e & w5 & w6 & Heq & Hw6 & Htook2); try done.
    + apply Htook.
    + by destruct Htook as [_ ->].
    + rewrite Hrest, length_app in Hf. destruct d; [done|]. cbn in Hf. lia.
    + exists e, w5, w6. split_and!; try done. by eapply fw_took_trans.
Qed.

(** ** Sequences of calls *)

Inductive bw_op : Type :=
  | BWrite (p : bytes)
  | BWriteByte (c : Z)
  | BWriteMulti (mb : MultiBuffer)
  | BFlush
  | BSetBuffered (f : bool).

Definition op_data (op : bw_op) : bytes :=
  match op with
  | BWrite p => p
  | BWriteByte c => [c]
  | BWriteMulti mb => mb_content mb
  | BFlush | BSetBuffered _ => []
  end.

Definition op_ok (op : bw_op) : Prop :=
  match op with
  | BWriteMulti mb => mb_ok mb ∧ no_nil mb ∧ zlen (mb_content mb) < 2 ^ 31
  | _ => True
  end.

Definition run_bw_op (fuel : nat) (op : bw_op) (w : BufferedWriter T) : M (option error * BufferedWriter T) :=
  match op with
  | BWrite p => '(_, e, w') ← BufferedWriter_Write fuel w p; mret (e, w')
  | BWriteByte c => BufferedWriter_WriteByte fuel w c
  | BWriteMulti mb => BufferedWriter_WriteMultiBuffer fuel w mb
  | BFlush => BufferedWriter_Flush fuel w
  | BSetBuffered f => SetBuffered fuel w f
  end.

(** The calls one after the other, up to the first error. *)
Fixpoint run_bw_ops (fuel : nat) (ops : list bw_op) (w : BufferedWriter T) : M (option error * BufferedWriter T) :=
  match ops with
  | [] => mret (None, w)
  | op :: ops' =>
      '(e, w') ← run_bw_op fuel op w;
      match e with Some err => mret (Some err, w') | None => run_bw_ops fuel ops' w' end
  end.

Lemma fw_pbuf_ok w : fw_inv w → pbuf_ok (fw_buffer w) ∧ zlen (fw_pending w) < 2 ^ 31.
Proof.
  intros (_ & Hb & _). unfold fw_pending. destruct (fw_buffer w) as [b|]; cbn; [|znil; lia].
  destruct Hb as [Hb _]. split; [done|]. rewrite zlen_content by done. buf_hyps. lia.
Qed.

(** A direct write of [s] with nothing pending. *)
Lemma direct_ok w s e t' k :
  fw_inv w → fw_buffered w = false → mbw_inv t' → 0 ≤ k ≤ zlen s →
  mbw_out t' = mbw_out (fw_writer w) ++ ztake k s → (e = None → k = zlen s) →
  fw_delivers w s e (mkBufferedWriter t' (fw_buffer w) (fw_buffered w)).
Proof.
  intros (Ht & Hb & Hp) Hbf Ht' Hk Hout Hn. specialize (Hp Hbf).
  split; [done|]. unfold fw_pending. cbn [fw_writer fw_buffer]. rewrite Hp. exists k. cbn [app].
  split_and!; try done; try lia. intros He. rewrite (Hn He), zdrop_ge; [done|lia].
Qed.

Lemma Write_ok fuel w p wd :
  fw_inv w → world_ok wd → (length p < fuel)%nat →
  ∃ n e w' wd', BufferedWriter_Write fuel w p wd = Ret ((n, e, w'), wd') ∧ world_ok wd' ∧
    fw_delivers w p e w' ∧ (e = None → n = zlen p).
Proof.
  intros Hi Hw Hf. unfold BufferedWriter_Write. case_if.
  { exists 0, None, w, wd. assert (p = []) as -> by by apply zlen_0_nil.
    split_and!; try done. by apply fw_delivers_nil. }
  assert (∃ n e w' wd', buffered_write_loop fuel w p 0 wd = Ret ((n, e, w'), wd') ∧ world_ok wd' ∧
    fw_delivers w p e w' ∧ (e = None → n = zlen p)) as Hloop.
  { destruct (buffered_write_loop_ok fuel w p 0 wd Hi Hw Hf) as (n & e & w' & wd' & Heq & Hw' & [Hd _] & Hn & _).
    by exists n, e, w', wd'. }
  destruct (fw_buffered w) eqn:Hbf; [done|]. destruct (as_io_writer (T := T)) as [write|] eqn:Ed; [|done].
  destruct (dyn_spec write Ed (fw_writer w) p wd) as (n & e & t' & wd' & Heq & Hw' & Ht' & Hn & Hout & He);
    [apply Hi|done|].
  rewrite (M_bind_Ret _ _ _ _ _ Heq). eexists _, _, _, _. split; [reflexivity|]. split_and!; try done.
  rewrite <- Hbf. by eapply direct_ok.
Qed.

Lemma Flush_ok fuel w wd :
  fw_inv w → world_ok wd → (0 < fuel)%nat →
  ∃ e w' wd', flushInternal fuel w wd = Ret ((e, w'), wd') ∧ world_ok wd' ∧ fw_delivers w [] e w' ∧
    fw_buffered w' = fw_buffered w ∧ fw_pending w' = [].
Proof.
  intros Hi Hw Hf. destruct (fw_pbuf_ok w Hi) as [Hpb Hlt].
  destruct (flushInternal_ok fuel w wd) as
    (e & w2 & wd' & k & Heq & Hw' & Ht2 & Hbf & Hp2 & Hnone & Hk & Hout & Hn); [apply Hi|done..|].
  exists e, w2, wd'. split_and!; try done. split.
  - destruct Hnone as [Hnone| ->]; [|done]. split_and!; [done| |done]. by rewrite Hnone.
  - exists k. rewrite app_nil_r. split_and!; try done; try lia.
    intros He. rewrite Hp2, (Hn He), zdrop_ge; [done|lia].
Qed.

Lemma run_bw_op_ok fuel op w wd :
  fw_inv w → world_ok wd → op_ok op → (length (op_data op) < fuel)%nat →
  ∃ e w' wd', run_bw_op fuel op w wd = Ret ((e, w'), wd') ∧ world_ok wd' ∧ fw_delivers w (op_data op) e w'.
Proof.
  intros Hi Hw Hop Hf. destruct op as [p|c|mb| |f]; cbn [run_bw_op op_data] in *.
  - destruct (Write_ok fuel w p wd Hi Hw Hf) as (n & e & w' & wd' & Heq & Hw' & Hd & _).
    rewrite (M_bind_Ret _ _ _ _ _ Heq). by exists e, w', wd'.
  - unfold BufferedWriter_WriteByte.
    destruct (Write_ok fuel w [c] wd Hi Hw Hf) as (n & e & w' & wd' & Heq & Hw' & Hd & _).
    rewrite (M_bind_Ret _ _ _ _ _ Heq). by exists e, w', wd'.
  - destruct Hop as (Hok & Hnn & Hlt). unfold BufferedWriter_WriteMultiBuffer.
    rewrite MultiBuffer_IsEmpty_ok by done. case_bool_decide as E.
    { rewrite E. exists None, w, wd. split_and!; try done. by apply fw_delivers_nil. }
    destruct (fw_buffered w) eqn:Hbf; cbn [negb].
    + destruct (buffered_write_mb_loop_ok fuel w (mkContainer mb) wd Hi Hbf Hw Hok Hf) as
        (e & w' & wd' & Heq & Hw' & [Hd _]). by exists e, w', wd'.
    + destruct (mbw_spec (fw_writer w) mb wd (proj1 Hi) Hw Hok Hnn Hlt) as
        (e & t' & w1 & k & Heq & Hw1 & Ht' & Hk & Hout & Hn).
      rewrite (M_bind_Ret _ _ _ _ _ Heq). eexists _, _, _. split; [reflexivity|]. split; [done|].
      rewrite <- Hbf. by eapply direct_ok.
  - destruct (Flush_ok fuel w wd Hi Hw) as (e & w' & wd' & Heq & Hw' & Hd & _); [lia|]. by exists e, w', wd'.
  - unfold SetBuffered. destruct f; cbn [negb].
    + eexists _, _, _. split; [reflexivity|]. split; [done|]. apply fw_delivers_nil; [|done..].
      destruct Hi as (? & ? & ?). by split_and!.
    + destruct (fw_pbuf_ok w Hi) as [Hpb Hlt].
      destruct (flushInternal_ok fuel (mkBufferedWriter (fw_writer w) (fw_buffer w) false) wd) as
        (e & w2 & wd' & k & Heq & Hw' & Ht2 & Hbf & Hp2 & Hnone & Hk & Hout & Hn); [apply Hi|done..|].
      exists e, w2, wd'. split_and!; try done. split.
      * split_and!; [done| |done]. destruct Hnone as [-> | ->]; [done|]. apply Hi.
      * exists k. rewrite app_nil_r. split_and!; try done; try (unfold fw_pending in *; cbn in Hk; lia).
        intros He. rewrite Hp2, (Hn He), zdrop_ge; [done|]. unfold fw_pending; cbn; lia.
Qed.

Lemma run_bw_ops_ok fuel ops w wd :
  fw_inv w → world_ok wd → Forall (λ op, op_ok op ∧ (length (op_data op) < fuel)%nat) ops →
  ∃ e w' wd', run_bw_ops fuel ops w wd = Ret ((e, w'), wd') ∧ world_ok wd' ∧
    fw_delivers w (mjoin (op_data <$> ops)) e w'.
Proof.
  intros Hi Hw Hops. revert w wd Hi Hw. induction Hops as [|op ops [Hop Hf] Hops IH]; intros w wd Hi Hw.
  { exists None, w, wd. split_and!; try done. by apply fw_delivers_nil. }
  cbn [run_bw_ops]. change (mjoin (op_data <$> op :: ops)) with (op_data op ++ mjoin (op_data <$> ops)).
  destruct (run_bw_op_ok fuel op w wd Hi Hw Hop Hf) as (e & w1 & wd1 & Heq & Hw1 & Hd).
  rewrite (M_bind_Ret _ _ _ _ _ Heq). destruct e as [e|].
  - exists (Some e), w1, wd1. split_and!; try done. by apply fw_delivers_fail.
  - destruct (IH w1 wd1 (proj1 Hd) Hw1) as (e & w2 & wd2 & Heq2 & Hw2 & Hd2).
    exists e, w2, wd2. split_and!; try done. by eapply fw_delivers_trans.
Qed.

Lemma NewBufferedWriter_ok t wd :
  mbw_inv t → world_ok wd →
  ∃ w wd', NewBufferedWriter t wd = Ret (w, wd') ∧ world_ok wd' ∧ fw_inv w ∧ fw_pending w = [] ∧ fw_writer w = t.
Proof.
  intros Ht Hw. unfold NewBufferedWriter.
  destruct (New_ok wd Hw) as (b & w1 & Hn & Hw1 & Hb1 & Hc & Hrm & _).
  rewrite (M_bind_Ret _ _ _ _ _ Hn). eexists _, _. split; [reflexivity|].
  unfold fw_inv, fw_pending. cbn. rewrite Hrm, Hc. unfold Size. split_and!; try done; lia.
Qed.
End BufferedWriterFacts.

(** ** Properties *)

(** A BufferedReader over any reader that never returns data together with
    an error is an [io.Reader] of the same stream: each [Read] returns the next
    bytes of (buffered data followed by the underlying stream), makes progress,
    and reports the underlying error only when everything was delivered. *)
Theorem buffered_reader_reads_stream {R} `{CleanReader R} (r : BufferedReader R) (n : Z) (w : World) :
  br_inv r → world_ok w → 0 < n →
  ∃ d e r' w', BufferedReader_Read r n w = Ret ((d, e, r'), w') ∧ world_ok w' ∧ br_inv r' ∧
    zlen d ≤ n ∧ br_rest r = d ++ br_rest r' ∧ (e = None → (br_meas r' < br_meas r)%nat) ∧
    (∀ err, e = Some err → err = mbr_end (br_Reader r) ∧ br_rest r' = []).
Proof.
  intros Hr Hw Hn. destruct (BufferedReader_Read_ok r n w Hr Hw Hn) as
    (d & e & r' & w' & ? & ? & ? & ? & ? & _ & _ & ? & ?). by exists d, e, r', w'.
Qed.

#[global] Instance SingleReader_script_clean : CleanReader (SingleReader ScriptReader).
Proof.
  intros [[cs err]] w mb e r' w' _ Hw Heq. unfold ReadMultiBuffer, SingleReader_ReadMultiBuffer, ReadBuffer in Heq.
  cbn [sr_Reader] in Heq. apply M_bind_inv in Heq as ([[pb e1] r1] & w1 & Hrb & Heq).
  injection Heq as <- -> _ _. rewrite mb_content_single.
  apply M_bind_inv in Hrb as (b & w2 & _ & Hrb).
  apply M_bind_inv in Hrb as ([[[n e2] b'] r2] & w3 & Hrf & Hrb).
  unfold Buffer_ReadFrom in Hrf. apply M_bind_inv in Hrf as (dst & w4 & _ & Hrf).
  apply M_bind_inv in Hrf as ([[d e3] r3] & w5 & Hio & Hrf). injection Hrf as <- <- _ _ _.
  unfold io_read, ScriptReader_reader in Hio. cbn [sc_chunks sc_err] in Hio.
  destruct cs as [|c cs].
  2: { assert (e3 = None) as -> by (destruct (zlen c <=? _); injection Hio; congruence).
       destruct (0 <? zlen d); [injection Hrb; congruence|].
       apply M_bind_inv in Hrb as (? & w6 & _ & Hrb). injection Hrb. congruence. }
  injection Hio as <- <- _ _. change (0 <? zlen (@nil Z)) with false in Hrb. cbn match in Hrb.
  apply M_bind_inv in Hrb as (? & w6 & _ & Hrb). by injection Hrb as <- _ _ _.
Qed.

Lemma buffered_reader_reads_stream_witness :
  ∃ d e r' w',
    BufferedReader_Read (mkBufferedReader (mkSingleReader (Script [[1; 2]; [3]] (ErrNew EOF))) None None) 1
      empty_world = Ret ((d, e, r'), w') ∧ world_ok w' ∧ br_inv r' ∧ zlen d ≤ 1 ∧ [1; 2; 3] = d ++ br_rest r'.
Proof.
  destruct (buffered_reader_reads_stream
    (mkBufferedReader (mkSingleReader (Script [[1; 2]; [3]] (ErrNew EOF))) None None) 1 empty_world)
    as (d & e & r' & w' & ? & ? & ? & ? & ? & _).
  - split_and!; [exact I|constructor|done].
  - exact empty_world_ok.
  - lia.
  - exists d, e, r', w'. split_and!; assumption.
Defined.

(** C6: through a new BufferedWriter, any sequence of [Write], [WriteByte],
    [WriteMultiBuffer], [Flush] and [SetBuffered] calls delivers the data in
    order: while no call fails, what has reached the sink followed by what is
    still buffered is exactly the data passed in; after a failed call the sink
    has a prefix of it; and when a final [Flush] succeeds the sink has all. *)
Theorem buffered_writer_in_order {T} `{DynStreamWriter T} (fuel : nat) (t : T) (ops : list bw_op) (wd : World) :
  mbw_inv t → world_ok wd → (0 < fuel)%nat →
  Forall (λ op, op_ok op ∧ (length (op_data op) < fuel)%nat) ops →
  ∃ w0 wd0 e w1 wd1 e' w2 wd2, NewBufferedWriter t wd = Ret (w0, wd0) ∧
    run_bw_ops fuel ops w0 wd0 = Ret ((e, w1), wd1) ∧
    BufferedWriter_Flush fuel w1 wd1 = Ret ((e', w2), wd2) ∧
    mbw_out (fw_writer w1) `prefix_of` mbw_out t ++ mjoin (op_data <$> ops) ∧
    (e = None → mbw_out (fw_writer w1) ++ fw_pending w1 = mbw_out t ++ mjoin (op_data <$> ops)) ∧
    (e = None → e' = None → mbw_out (fw_writer w2) = mbw_out t ++ mjoin (op_data <$> ops)).
Proof.
  intros Ht Hw Hf Hops.
  destruct (NewBufferedWriter_ok t wd Ht Hw) as (w0 & wd0 & Hnew & Hw0 & Hi0 & Hp0 & Ht0).
  destruct (run_bw_ops_ok fuel ops w0 wd0 Hi0 Hw0 Hops) as (e & w1 & wd1 & Hrun & Hw1 & Hi1 & j & Hj & Hout & Hp).
  destruct (Flush_ok fuel w1 wd1 Hi1 Hw1 Hf) as (e' & w2 & wd2 & Hfl & Hw2 & (_ & j2 & Hj2 & Hout2 & Hp2) & _ & Hnil).
  rewrite Hp0, Ht0, app_nil_r in *. cbn [app] in *.
  exists w0, wd0, e, w1, wd1, e', w2, wd2. split_and!; try done.
  - rewrite Hout. exists (zdrop j (mjoin (op_data <$> ops))). by rewrite <- app_assoc, ztake_zdrop.
  - intros He. by rewrite Hout, (Hp He), <- app_assoc, ztake_zdrop.
  - intros He He'. specialize (Hp2 He'). rewrite Hnil in Hp2. symmetry in Hp2.
    pose proof (ztake_zdrop j2 (fw_pending w1)) as Hall. rewrite Hp2, app_nil_r in Hall.
    by rewrite Hout2, Hall, Hout, (Hp He), <- app_assoc, ztake_zdrop.
Qed.

Lemma buffered_writer_in_order_witness :
  ∃ w0 wd0 e w1 wd1 e' w2 wd2,
    NewBufferedWriter (mkSequentialWriter (Sink [] 100 (ErrNew EOF))) empty_world = Ret (w0, wd0) ∧
    run_bw_ops 10 [BWrite [1; 2]; BWriteByte 3; BFlush; BWriteMulti (Some [Some (FromBytes (Some (slice_of [4])))]);
                   BSetBuffered false; BWrite [5]] w0 wd0 = Ret ((e, w1), wd1) ∧
    BufferedWriter_Flush 10 w1 wd1 = Ret ((e', w2), wd2) ∧
    sk_out (sw_Writer (fw_writer w1)) `prefix_of` [1; 2; 3; 4; 5] ∧
    (e = None → sk_out (sw_Writer (fw_writer w1)) ++ fw_pending w1 = [1; 2; 3; 4; 5]) ∧
    (e = None → e' = None → sk_out (sw_Writer (fw_writer w2)) = [1; 2; 3; 4; 5]).
Proof.
  refine (buffered_writer_in_order 10 (mkSequentialWriter (Sink [] 100 (ErrNew EOF)))
    [BWrite [1; 2]; BWriteByte 3; BFlush; BWriteMulti (Some [Some (FromBytes (Some (slice_of [4])))]);
     BSetBuffered false; BWrite [5]] empty_world _ _ _ _).
  - vm_compute. discriminate.
  - exact empty_world_ok.
  - lia.
  - repeat apply Forall_cons_2; try apply Forall_nil_2; (split; [|vm_compute; lia]); try exact I.
    split_and!; [apply Forall_singleton; apply FromBytes_ok; vm_compute; repeat split; congruence
                |apply Forall_singleton; by eexists|vm_compute; reflexivity].
Defined.

(** A reader that returns its data together with [io.EOF], as [io.Reader]
    allows. *)
Record EagerReader := Eager { eg_data : bytes }.
#[global] Instance EagerReader_reader : IOReader EagerReader := λ r n,
  mret (ztake n (eg_data r), if zlen (eg_data r) <=? n then Some (ErrNew EOF) else None, Eager (zdrop n (eg_data r))).

(** Without that condition data is lost: [BufferedReader.Read] over a
    [SingleReader] drops the bytes that the underlying reader returned together
    with [io.EOF]. *)
Theorem buffered_read_drops_final_data :
  ∃ r' w', io_read (Eager [1; 2; 3]) 10 empty_world = Ret (([1; 2; 3], Some (ErrNew EOF), Eager []), empty_world) ∧
    BufferedReader_Read (mkBufferedReader (mkSingleReader (Eager [1; 2; 3])) None None) 10 empty_world =
      Ret (([], Some (ErrNew EOF), r'), w') ∧
    mb_content (br_Buffer r') = [] ∧ eg_data (sr_Reader (br_Reader r')) = [].
Proof. eexists _, _. split_and!; vm_compute; reflexivity. Qed.
