(* ===== verification/ReadVSpec.v ===== *)
(** * Properties of the readv reader

    A ReadVReader delivers the same stream as the connection it reads from,
    whichever of its two paths a call takes, and its allocation strategy stays
    between one and eight buffers. *)
From S2P Require Import Prelude Errors Bytespool IO Buffer MultiBuffer MultiBufferSpec BufIO BufIOSpec ReadV.

(** ** Endpoints are streams *)

Section EndpointFacts.
Context {W : Type} `{StreamReader W}.

#[global] Program Instance Endpoint_stream : StreamReader (Endpoint W) := {|
  rd_inv c := rd_inv (endpoint_conn c);
  rd_rest c := rd_rest (endpoint_conn c);
  rd_meas c := rd_meas (endpoint_conn c);
  rd_end c := rd_end (endpoint_conn c)
|}.
Next Obligation.
  intros c n w Hc Hw Hn. unfold io_read, Endpoint_reader, Endpoint_Read.
  destruct (rd_spec (endpoint_conn c) n w Hc Hw Hn) as (d & e & r' & w' & Hio & Hrest).
  destruct c as [v|v rc wc]; cbn [endpoint_conn] in *; rewrite (M_bind_Ret _ _ _ _ _ Hio);
    (eexists _, _, _, _; split; [reflexivity|]; exact Hrest).
Qed.
End EndpointFacts.

Section EndpointWriterFacts.
Context {W : Type} `{StreamWriter W}.

#[global] Program Instance Endpoint_stream_writer : StreamWriter (Endpoint W) := {|
  wr_inv c := wr_inv (endpoint_conn c);
  wr_out c := wr_out (endpoint_conn c)
|}.
Next Obligation.
  intros c p w Hc Hw. unfold io_write, Endpoint_writer, Endpoint_Write.
  destruct (wr_spec (endpoint_conn c) p w Hc Hw) as (n & e & t' & w' & Hio & Hrest).
  destruct c as [v|v rc wc]; cbn [endpoint_conn] in *; rewrite (M_bind_Ret _ _ _ _ _ Hio);
    (eexists _, _, _, _; split; [reflexivity|]; exact Hrest).
Qed.
End EndpointWriterFacts.

(** ** The contract of readv *)

(** readv(2) delivers the next bytes of the stream, no more than the buffers
    hold; zero bytes mean the end of the stream; an errno leaves the stream as
    it is, and only finitely many come in a row ([raw_delay]).  The connection
    is neither closed nor past a deadline. *)
Class RawStream (W : Type) `{StreamReader W} `{RawConn W} := {
  raw_delay : W → nat;
  raw_ready : ∀ w, raw_prepare w = (None, w) ∧ raw_wait w = (None, w);
  raw_eof : ∀ w, rd_end w = ErrNew EOF;
  raw_spec : ∀ w lens, rd_inv w → 0 < foldr Z.add 0 lens →
    match sys_readv w lens with
    | (None, w') => rd_inv w' ∧ rd_rest w' = rd_rest w ∧ (rd_meas w' ≤ rd_meas w)%nat ∧
                    (raw_delay w' < raw_delay w)%nat
    | (Some d, w') => rd_inv w' ∧ rd_rest w = d ++ rd_rest w' ∧ zlen d ≤ foldr Z.add 0 lens ∧
                      (rd_meas w' ≤ rd_meas w)%nat ∧
                      (if bool_decide (d = []) then rd_rest w' = [] else (rd_meas w' < rd_meas w)%nat)
    end
}.

(** ** Allocation *)

(** What [New] returns. *)
Definition new_buf (b : Buffer) : Prop :=
  buf_ok b ∧ content b = [] ∧ room b = Size ∧ b_start b = 0 ∧ s_len (v_of b) = Size.

Lemma alloc_loop_ok k w :
  world_ok w → ∃ bs w', alloc_loop k w = Ret (bs, w') ∧ world_ok w' ∧ length bs = k ∧ Forall new_buf bs.
Proof.
  revert w. induction k as [|k IH]; intros w Hw; [by exists [], w|].
  cbn [alloc_loop]. destruct (New_ok w Hw) as (b & w1 & Hn & Hw1 & Hb & Hc & Hrm & Hst & _ & _ & Hl).
  rewrite (M_bind_Ret _ _ _ _ _ Hn). destruct (IH w1 Hw1) as (bs & w2 & Heq & Hw2 & Hlen & Hbs).
  rewrite (M_bind_Ret _ _ _ _ _ Heq). exists (b :: bs), w2. split_and!; try done; [cbn; lia|].
  apply Forall_cons_2; [|done]. by split_and!.
Qed.

Lemma new_buf_end b : new_buf b → b_end b = 0.
Proof. intros (Hb & _ & Hr & _ & Hl). unfold room in Hr. lia. Qed.

(** The iovecs of [k] buffers from index [idx] on. *)
Fixpoint iovecs_from (idx k : nat) : list iovec :=
  match k with O => [] | S k' => (Some idx, Size) :: iovecs_from (S idx) k' end.

Lemma iovecs_from_snoc idx k : iovecs_from idx (S k) = iovecs_from idx k ++ [(Some (idx + k)%nat, Size)].
Proof.
  revert idx. induction k as [|k IH]; intros idx; [by rewrite Nat.add_0_r|].
  change (iovecs_from idx (S (S k))) with ((Some idx, Size) :: iovecs_from (S idx) (S k)). rewrite IH.
  cbn [iovecs_from app]. by rewrite Nat.add_succ_comm.
Qed.

Lemma length_iovecs_from idx k : length (iovecs_from idx k) = k.
Proof. revert idx. induction k as [|k IH]; intros idx; cbn; auto. Qed.

(** Behind the iovecs of [k] buffers, [Init] adds those of the next ones. *)
Lemma init_iovecs_ok bs k : Forall new_buf bs → init_iovecs (iovecs_from 0 k) bs k = Ret (iovecs_from 0 (k + length bs)).
Proof.
  intros Hbs. revert k. induction Hbs as [|b bs Hb Hbs IH]; intros k; [by rewrite Nat.add_0_r|].
  cbn [init_iovecs length]. destruct Hb as (Hb & _ & _ & _ & Hl).
  destruct (s_index_Ret (v_of b) 0) as (x & -> & _); [apply Hb|unfold Size in *; lia|].
  rewrite go_bind_Ret. replace (alter _ k _) with (iovecs_from 0 (S k)).
  - rewrite IH, <- plus_n_Sm. done.
  - rewrite iovecs_from_snoc, alter_app_r_alt, length_iovecs_from, Nat.sub_diag by (by rewrite length_iovecs_from).
    done.
Qed.

Lemma iovecs_total idx k : foldr Z.add 0 (iovecs_from idx k).*2 = Size * Z.of_nat k.
Proof. revert idx. induction k as [|k IH]; intros idx; [done|]. cbn -[Z.of_nat]. rewrite IH. unfold Size. lia. Qed.

(** The buffers after the kernel stored [d] in them in order. *)
Fixpoint filled (bs : list Buffer) (d : bytes) : list Buffer :=
  match bs with [] => [] | b :: bs' => store_at b 0 (ztake Size d) :: filled bs' (zdrop Size d) end.

Lemma scatter_ok pre bs d :
  scatter (iovecs_from (length pre) (length bs)) d (pre ++ bs) = pre ++ filled bs d.
Proof.
  revert pre d. induction bs as [|b bs IH]; intros pre d; [done|].
  cbn [length iovecs_from scatter]. rewrite list_lookup_middle by done.
  rewrite insert_app_r_alt, Nat.sub_diag by done. cbn [list_insert].
  change (<[0%nat:=store_at b 0 (ztake Size d)]> (b :: bs)) with (store_at b 0 (ztake Size d) :: bs).
  specialize (IH (pre ++ [store_at b 0 (ztake Size d)]) (zdrop Size d)).
  rewrite length_app, Nat.add_1_r, <- !app_assoc in IH. exact IH.
Qed.

Lemma fill_one b d :
  new_buf b → zlen d ≤ Size →
  let b' := set_range (store_at b 0 d) (b_start b) (zlen d) in buf_ok b' ∧ content b' = d.
Proof.
  intros Hnb Hd. pose proof (new_buf_end b Hnb) as He. destruct Hnb as (Hb & Hc & Hr & Hst & Hl).
  destruct (append_ok b d Hb) as (Hok & Hc' & _); [lia|]. rewrite He, Z.add_0_l, Hc in *. done.
Qed.

Lemma store_at_ok b d : new_buf b → zlen d ≤ Size → buf_ok (store_at b 0 d).
Proof.
  intros Hnb Hd. pose proof (new_buf_end b Hnb) as He. destruct Hnb as (Hb & Hc & Hr & Hst & Hl).
  assert (b_v b ≠ None) as Hv.
  { intros Hv. destruct (room_nil b Hb Hv). unfold Size in *. lia. }
  pose proof (zlen_nonneg d). pose proof Hb as Hb'. buf_hyps. unfold s_cap in *.
  assert (Hve : v_of (store_at b 0 d) = Slice (splice 0 d (s_arr (v_of b))) (s_len (v_of b)))
    by (apply v_of_store_at; by left).
  split; rewrite ?Hve; cbn [s_len store_at b_start b_end]; try lia.
  split; cbn; [lia|]. unfold s_cap. cbn. rewrite zlen_splice by lia. lia.
Qed.

Lemma set_ends_ok bs d used rest :
  Forall new_buf bs → zlen d ≤ Size * zlen bs → zlen d < 2 ^ 31 →
  set_ends (filled bs d) (zlen d) = (used, rest) →
  Forall buf_ok used ∧ Forall buf_ok rest ∧ mjoin (content <$> used) = d ∧
  (length used ≤ length bs)%nat ∧ (d ≠ [] → used ≠ []).
Proof.
  intros Hbs. revert d used rest. induction Hbs as [|b bs Hb Hbs IH]; intros d used rest Hd Hlt Heq.
  { cbn in Heq. injection Heq as <- <-. change (zlen (@nil Buffer)) with 0 in Hd. pose proof (zlen_nonneg d).
    assert (d = []) as -> by (apply zlen_0_nil; lia). done. }
  cbn [filled set_ends] in Heq. rewrite zlen_cons in Hd. pose proof (zlen_nonneg d).
  assert (Hall : Forall buf_ok (filled (b :: bs) d)).
  { assert (∀ bs d, Forall new_buf bs → Forall buf_ok (filled bs d)) as Hf; [|by apply Hf; constructor].
    intros bs0 d0 Hbs0. revert d0. induction Hbs0; intros d0; cbn [filled]; constructor; [|done].
    apply store_at_ok; [done|]. rewrite zlen_ztake_min by (unfold Size; lia). lia. }
  destruct (zlen d <=? 0) eqn:E; bool_hyps.
  { injection Heq as <- <-. assert (d = []) as -> by (apply zlen_0_nil; lia). split_and!; try done; cbn; lia. }
  set (en := if Size <? zlen d then Size else zlen d) in *.
  assert (en = Z.min Size (zlen d)) as Hen by (unfold en; case_if; lia).
  clearbody en. pose proof (zlen_nonneg bs).
  assert (zlen (ztake Size d) = en) as Hlen by (rewrite zlen_ztake_min by (unfold Size; lia); lia).
  assert (zlen (zdrop Size d) = zlen d - en) as Hrest.
  { destruct (Z.le_gt_cases Size (zlen d)); [rewrite zlen_zdrop by (unfold Size in *; lia); lia|].
    rewrite zdrop_ge by lia. znil. lia. }
  destruct (set_ends (filled bs (zdrop Size d)) (i32 (zlen d - en))) as [used' rest'] eqn:Eq.
  injection Heq as <- <-. unfold Size in Hen. rewrite i32_id, <- Hrest in Eq by lia.
  destruct (IH (zdrop Size d) used' rest') as (H1 & H2 & H3 & H4 & _); [unfold Size in *; lia|lia|done|].
  destruct (fill_one b (ztake Size d) Hb) as [Hok Hcon]; [rewrite Hlen; unfold Size; lia|]. rewrite Hlen in *.
  split_and!; try done; [by constructor| |cbn; lia].
  cbn [fmap list_fmap]. change (mjoin (?x :: ?y)) with (x ++ mjoin y).
  cbn [store_at b_start] in Hcon |- *. rewrite Hcon, H3. apply ztake_zdrop.
Qed.

(** ** Reading *)

Lemma Adjust_range current n :
  1 ≤ current ≤ 8 → 0 ≤ n < 2 ^ 32 → 1 ≤ allocStrategy_Adjust current n ≤ 8.
Proof.
  intros Hc Hn. unfold allocStrategy_Adjust. unwrap. repeat case_if; lia.
Qed.

Lemma mb_of_bufs l :
  Forall buf_ok l → mb_ok (Some (Some <$> l)) ∧ no_nil (Some (Some <$> l)) ∧
  mb_content (Some (Some <$> l)) = mjoin (content <$> l).
Proof.
  intros Hl. unfold mb_ok, no_nil, mb_content. rewrite els_Some, <- list_fmap_compose.
  split_and!; [| |done]; apply Forall_fmap.
  - eapply Forall_impl; [exact Hl|done].
  - by apply Forall_true; eexists.
Qed.

Section ReadVFacts.
Context {W : Type} `{RawStream W}.

Definition rv_inv (r : ReadVReader W) : Prop :=
  rd_inv (endpoint_conn (rv_Reader r)) ∧ rv_mr r = [] ∧ 1 ≤ rv_alloc r ≤ 8.
Abbreviation conn_of r := (endpoint_conn (rv_Reader r)).

Lemma raw_read_loop_ok fuel w bs :
  rd_inv w → (raw_delay w < fuel)%nat → (0 < length bs ≤ 8)%nat →
  ∃ d w', raw_read_loop fuel (iovecs_from 0 (length bs)) w bs = Ret (None, zlen d, w', filled bs d) ∧
    rd_inv w' ∧ rd_rest w = d ++ rd_rest w' ∧ zlen d ≤ Size * zlen bs ∧ zlen d < 2 ^ 31 ∧
    (rd_meas w' ≤ rd_meas w)%nat ∧
    (if bool_decide (d = []) then rd_rest w' = [] else (rd_meas w' < rd_meas w)%nat).
Proof.
  revert w. induction fuel as [|fuel IH]; intros w Hi Hf Hl; [lia|]. cbn [raw_read_loop].
  unfold posixReader_Read.
  assert (zlen bs = Z.of_nat (length bs)) as Hzl by done.
  pose proof (raw_spec w (iovecs_from 0 (length bs)).*2 Hi) as Hs. rewrite iovecs_total, <- Hzl in Hs.
  specialize (Hs ltac:(unfold Size; lia)).
  destruct (sys_readv w (iovecs_from 0 (length bs)).*2) as [[d|] w'] eqn:Es.
  - destruct Hs as (Hi' & Hrest & Hd & Hm & Hm'). exists d, w'. pose proof (zlen_nonneg d).
    assert (zlen d < 2 ^ 31) by (unfold Size in *; lia).
    pose proof (scatter_ok [] bs d) as Hsc. cbn [length app] in Hsc. rewrite Hsc.
    assert (Hne : match iovecs_from 0 (length bs) with
                  | [] => Panic oob_index
                  | _ => Ret (i32 (zlen d), w', filled bs d)
                  end = Ret (zlen d, w', filled bs d)).
    { unwrap. by destruct bs; [cbn in Hl; lia|]. }
    split_and!; try done; try lia. etrans; [|reflexivity].
    rewrite Hne, go_bind_Ret. zltb_solve. done.
  - destruct Hs as (Hi' & Hrest & Hm & Hdel).
    destruct (IH w' Hi') as (d & w2 & Heq & Hi2 & Hrest2 & Hd & Hlt & Hm2 & Hfin); [lia|done|].
    exists d, w2. assert (Hne : match iovecs_from 0 (length bs) with
                  | [] => Panic oob_index
                  | _ => Ret (-1, w', bs)
                  end = Ret (-1, w', bs)) by by destruct bs; [cbn in Hl; lia|].
    rewrite Hne, go_bind_Ret. cbn [Z.ltb Z.compare]. rewrite (proj2 (raw_ready w')), Heq, <- Hrest.
    split_and!; try done; try lia. case_bool_decide; [done|lia].
Qed.

Lemma readMulti_ok fuel r w :
  rv_inv r → world_ok w → (raw_delay (conn_of r) < fuel)%nat →
  ∃ mb e r' w', readMulti fuel r w = Ret ((mb, e, r'), w') ∧ world_ok w' ∧ rv_inv r' ∧
    mb_ok mb ∧ (mb_content mb ≠ [] → no_nil mb) ∧ zlen (mb_content mb) < 2 ^ 31 ∧
    rd_rest (conn_of r) = mb_content mb ++ rd_rest (conn_of r') ∧ rv_alloc r' = rv_alloc r ∧
    rv_counter r' = rv_counter r ∧ rd_end (conn_of r') = rd_end (conn_of r) ∧
    (rd_meas (conn_of r') ≤ rd_meas (conn_of r))%nat ∧ (length (els mb) ≤ 8)%nat ∧
    (e = None → mb_content mb ≠ [] ∧ is_Some mb ∧ (rd_meas (conn_of r') < rd_meas (conn_of r))%nat) ∧
    (∀ err, e = Some err → mb = None ∧ err = rd_end (conn_of r) ∧ rd_rest (conn_of r') = []).
Proof.
  intros (Hi & Hmr & Hal) Hw Hf. unfold readMulti, allocStrategy_Alloc.
  destruct (alloc_loop_ok (Z.to_nat (rv_alloc r)) w Hw) as (bs & w1 & Hbs & Hw1 & Hlen & Hnew).
  rewrite (M_bind_Ret _ _ _ _ _ Hbs). unfold posixReader_Init.
  rewrite Hmr. change (init_iovecs [] bs 0) with (init_iovecs (iovecs_from 0 0) bs 0).
  rewrite (init_iovecs_ok bs 0) by done. rewrite M_bind_lift. cbn [Nat.add]. unfold rawConn_Read.
  rewrite (proj1 (raw_ready (conn_of r))).
  destruct (raw_read_loop_ok fuel (conn_of r) bs Hi Hf) as
    (d & w' & Heq & Hi' & Hrest & Hd & Hlt & Hm & Hfin); [lia|].
  rewrite Heq, M_bind_lift. pose proof (zlen_nonneg d).
  assert (Hconn : ∀ w, endpoint_conn (with_conn (rv_Reader r) w) = w) by by destruct (rv_Reader r).
  assert (Hall : Forall buf_ok (filled bs d)).
  { clear - Hnew. revert d. induction Hnew; intros d; cbn [filled]; constructor; [|done].
    apply store_at_ok; [done|]. rewrite zlen_ztake_min by (unfold Size; lia). lia. }
  case_bool_decide as E.
  - subst d. change (zlen (@nil Z) =? 0) with true. cbn match.
    destruct (mb_of_bufs _ Hall) as (Hok & _).
    destruct (ReleaseMulti_ok _ w1 Hw1 Hok) as (w2 & Hrel & Hw2).
    rewrite (M_bind_Ret _ _ _ _ _ Hrel). eexists _, _, _, _. split; [reflexivity|].
    unfold rv_inv. cbn [rv_Reader rv_mr rv_alloc rv_counter]. rewrite !Hconn, !raw_eof.
    change (mb_content None) with (@nil Z). change (els None) with (@nil pbuf). znil.
    split_and!; try done; try (cbn; lia); [exact (Forall_nil_2 _)|]. by intros ? [= <-].
  - assert (zlen d ≠ 0) by (intros ?%zlen_0_nil; done). zltb_solve.
    destruct (set_ends (filled bs d) (zlen d)) as [used rest] eqn:Es.
    destruct (set_ends_ok bs d used rest Hnew Hd Hlt Es) as (Hu & Hr & Hj & Hlu & _).
    destruct (mb_of_bufs _ Hr) as (Hokr & _). destruct (mb_of_bufs _ Hu) as (Hoku & Hnn & Hcu).
    destruct (release_loop_ok (Some <$> rest) w1 Hw1 Hokr) as (w2 & Hrel & Hw2).
    rewrite (M_bind_Ret _ _ _ _ _ Hrel). eexists _, _, _, _. split; [reflexivity|].
    unfold rv_inv. cbn [rv_Reader rv_mr rv_alloc rv_counter]. rewrite !Hconn, !raw_eof, Hcu, Hj.
    rewrite els_Some, length_fmap.
    split_and!; try done; lia.
Qed.

Lemma ReadV_ReadMultiBuffer_ok fuel r w :
  rv_inv r → world_ok w → (raw_delay (conn_of r) < fuel)%nat →
  ∃ mb e r' w', ReadVReader_ReadMultiBuffer fuel r w = Ret ((mb, e, r'), w') ∧ world_ok w' ∧ rv_inv r' ∧
    mb_ok mb ∧ (mb_content mb ≠ [] → no_nil mb) ∧
    rd_rest (conn_of r) = mb_content mb ++ rd_rest (conn_of r') ∧
    rv_counter r' = (if bool_decide (mb_content mb = []) then rv_counter r
                     else Counter_Add (rv_counter r) (zlen (mb_content mb))) ∧
    (e = None → (rd_meas (conn_of r') < rd_meas (conn_of r))%nat) ∧
    (∀ err, e = Some err → err = rd_end (conn_of r) ∧ rd_rest (conn_of r') = []).
Proof.
  intros Hinv Hw Hf. pose proof Hinv as (Hi & Hmr & Hal). unfold ReadVReader_ReadMultiBuffer.
  destruct (rv_alloc r =? 1) eqn:E; bool_hyps.
  - assert (rd_inv (rv_Reader r)) as Hi' by exact Hi.
    destruct (ReadBuffer_ok (rv_Reader r) w Hi' Hw) as
      (pb & e & r' & w' & Hrb & Hw' & Hr' & Hpb & Hsome & Hlen & _ & Hrest & Hend & Hm & Hm' & He).
    rewrite (M_bind_Ret _ _ _ _ _ Hrb). eexists _, _, _, _. split; [reflexivity|].
    rewrite mb_content_single. unfold rv_inv. cbn [rv_Reader rv_mr rv_alloc rv_counter].
    split_and!; try done.
    + destruct (Buffer_IsFull pb); [|lia]. apply Adjust_range; lia.
    + destruct (Buffer_IsFull pb); [|lia]. apply Adjust_range; lia.
    + by apply Forall_singleton.
    + intros Hne. apply Forall_singleton. by apply Hsome.
    + rewrite Buffer_Len_ok by done. destruct pb as [b|]; [|done].
      rewrite bool_decide_eq_false_2; [done|]. by apply Hsome.
  - destruct (readMulti_ok fuel r w Hinv Hw Hf) as
      (mb & e & r1 & w1 & Heq & Hw1 & Hr1 & Hok & Hnn & Hlt & Hrest & Hal1 & Hc1 & Hend & Hm & Hle & HN & HS).
    rewrite (M_bind_Ret _ _ _ _ _ Heq). pose proof Hr1 as (Hi1 & Hmr1 & _). destruct e as [err|].
    + destruct (HS err eq_refl) as (-> & -> & Hnil).
      eexists _, _, _, _. split; [reflexivity|]. unfold rv_inv. cbn [rv_Reader rv_mr rv_alloc rv_counter].
      split_and!; try done; try lia. by intros ? [= <-].
    + destruct (HN eq_refl) as (Hne & [l Hl] & Hmm).
      eexists _, _, _, _. split; [reflexivity|]. unfold rv_inv. cbn [rv_Reader rv_mr rv_alloc rv_counter].
      assert (1 ≤ allocStrategy_Adjust (rv_alloc r1) (u32 (zlen (els mb))) ≤ 8).
      { rewrite u32_id by (change (zlen (els mb)) with (Z.of_nat (length (els mb))); lia).
        apply Adjust_range; [lia|]. change (zlen (els mb)) with (Z.of_nat (length (els mb))). lia. }
      rewrite bool_decide_eq_false_2 by done. split_and!; try done; try lia.
      rewrite MultiBuffer_Len_ok by done. by rewrite Hl, Hc1.
Qed.
End ReadVFacts.

(** ** Properties *)


(** A connection whose readv returns the chunks of a script, an empty chunk
    standing for EAGAIN. *)
Record ScriptConn := mkScriptConn { scn_chunks : list bytes }.

Definition scn_read (c : ScriptConn) (n : Z) : bytes * option error * ScriptConn :=
  match scn_chunks c with
  | [] => ([], Some (ErrNew EOF), c)
  | d :: ds => if zlen d <=? n then (d, None, mkScriptConn ds)
               else (ztake n d, None, mkScriptConn (zdrop n d :: ds))
  end.

#[global] Instance ScriptConn_reader : IOReader ScriptConn := λ c n, mret (scn_read c n).
#[global] Program Instance ScriptConn_stream : StreamReader ScriptConn := {|
  rd_inv _ := True;
  rd_rest c := mjoin (scn_chunks c);
  rd_meas c := script_meas (scn_chunks c);
  rd_end _ := ErrNew EOF
|}.
Next Obligation.
  intros [cs] n w _ Hw Hn.
  assert (rd_inv (Script cs (ErrNew EOF))) as Hi by exact I.
  destruct (rd_spec (Script cs (ErrNew EOF)) n w Hi Hw Hn) as (d & e & [cs' err'] & w' & Hio & Hrest).
  unfold io_read, ScriptReader_reader in Hio. unfold io_read, ScriptConn_reader, scn_read. cbn in Hio |- *.
  destruct cs as [|c cs]; [|case_if]; cbn in Hio; injection Hio as <- <- <- <- <-;
    (eexists _, _, _, _; split; [reflexivity|]; exact Hrest).
Qed.

#[global] Instance ScriptConn_raw : RawConn ScriptConn := {|
  raw_prepare c := (None, c);
  raw_wait c := (None, c);
  sys_readv c lens :=
    match scn_chunks c with
    | [] => (Some [], c)
    | [] :: ds => (None, mkScriptConn ds)
    | _ => let '(d, _, c') := scn_read c (foldr Z.add 0 lens) in (Some d, c')
    end
|}.

#[global] Program Instance ScriptConn_rawstream : RawStream ScriptConn := {| raw_delay c := length (scn_chunks c) |}.
Next Obligation. done. Qed.
Next Obligation. done. Qed.
Next Obligation.
  intros [[|[|x d] ds]] lens _ Hpos; cbn [sys_readv ScriptConn_raw scn_chunks].
  - cbn [rd_inv rd_rest rd_meas ScriptConn_stream]. znil. split_and!; try done; lia.
  - cbn [rd_inv rd_rest rd_meas ScriptConn_stream scn_chunks]. split_and!; try done; unfold script_meas; cbn; lia.
  - set (n := foldr Z.add 0 lens) in *. unfold scn_read. cbn [scn_chunks]. case_if; cbn [rd_inv rd_rest rd_meas ScriptConn_stream scn_chunks].
    + split_and!; try done; [unfold script_meas; cbn; lia|].
      rewrite bool_decide_eq_false_2 by done. unfold script_meas; cbn; lia.
    + assert (Hlen : (length (zdrop n (x :: d)) < length (x :: d))%nat).
      { unfold zdrop. rewrite length_drop. cbn [length]. lia. }
      assert (Hne : ztake n (x :: d) ≠ []).
      { unfold ztake. destruct (Z.to_nat n) eqn:?; [lia|done]. }
      rewrite bool_decide_eq_false_2 by done. rewrite zlen_ztake by lia.
      change (mjoin (?a :: ?b)) with (a ++ mjoin b). rewrite app_assoc, ztake_zdrop.
      change (script_meas (?a :: ?b)) with (S (length a) + script_meas b)%nat.
      split_and!; try done; lia.
Qed.

