(* ===== verification/ReadVPlatforms.v ===== *)
(** * The scatter readers of the other platforms

    buf/readv_unix.go (illumos) and buf/readv_windows.go, the two other
    implementations of the interface [multiReader] that buf/readv_reader.go uses,
    and their agreement with that of buf/readv_posix.go ([ReadV]). *)
From S2P Require Import Prelude Errors Bytespool IO Buffer MultiBuffer BufIO BufIOSpec ReadV ReadVSpec.

(** ** unixReader

    [iovs] holds the slices themselves: the index of the buffer, the length of its
    slice. *)
Definition unixReader_Init (iovs : list (nat * Z)) (bs : list Buffer) : list (nat * Z) :=
  iovs ++ imap (λ i b, (i, s_len (v_of b))) bs.

(** [unix.Readv(int(fd), r.iovs)] *)
Definition unixReader_Read {W} `{RawConn W} (iovs : list (nat * Z)) (w : W) (bs : list Buffer) : go (Z * W * list Buffer) :=
  match sys_readv w (iovs.*2) with
  | (None, w') => Ret (-1, w', bs)
  | (Some d, w') => Ret (i32 (zlen d), w', scatter ((λ io, (Some io.1, io.2)) <$> iovs) d bs)
  end.

Definition unixReader_Clear (iovs : list (nat * Z)) : list (nat * Z) := [].

(** ** windowsReader

    A [WSABuf] has a length and a base, as an iovec has. *)
Fixpoint windows_init_loop (bufs : list iovec) (bs : list Buffer) (idx : nat) : go (list iovec) :=
  match bs with
  | [] => Ret bufs
  | b :: bs' => s_index (v_of b) 0;; windows_init_loop (bufs ++ [(Some idx, u32 Size)]) bs' (S idx)
  end.
Definition windowsReader_Init (bufs : list iovec) (bs : list Buffer) : go (list iovec) := windows_init_loop bufs bs 0.

(** [syscall.WSARecv(syscall.Handle(fd), &r.bufs[0], uint32(len(r.bufs)), &nBytes, ...)] *)
Definition windowsReader_Read {W} `{RawConn W} (bufs : list iovec) (w : W) (bs : list Buffer) : go (Z * W * list Buffer) :=
  match bufs with
  | [] => Panic oob_index
  | _ =>
      match sys_readv w (bufs.*2) with
      | (None, w') => Ret (-1, w', bs)
      | (Some d, w') => Ret (i32 (u32 (zlen d)), w', scatter bufs d bs)
      end
  end.

Definition windowsReader_Clear (bufs : list iovec) : list iovec := [].

(** ** Lemmas *)

Lemma unix_iovs_ok bs : Forall new_buf bs →
  (λ io : nat * Z, (Some io.1, io.2)) <$> unixReader_Init [] bs = iovecs_from 0 (length bs) ∧
  (unixReader_Init [] bs).*2 = (iovecs_from 0 (length bs)).*2.
Proof.
  intros Hbs. unfold unixReader_Init. cbn [app].
  assert (Hgen : ∀ k, (λ io : nat * Z, (Some io.1, io.2)) <$> imap (λ i b, ((k + i)%nat, s_len (v_of b))) bs = iovecs_from k (length bs)).
  { induction Hbs as [|b bs Hb Hbs IH]; intros k; [done|]. destruct Hb as (_ & _ & _ & _ & Hl).
    cbn [imap length iovecs_from fmap list_fmap]. rewrite Nat.add_0_r, Hl. cbn [fst snd]. f_equal.
    rewrite <- (IH (S k)). f_equal. apply imap_ext. intros i x _. unfold compose. f_equal. lia. }
  specialize (Hgen 0%nat). cbn [Nat.add] in Hgen. split; [exact Hgen|]. rewrite <- Hgen, <- list_fmap_compose. done.
Qed.

Lemma windows_init_ok bs k :
  Forall new_buf bs → windows_init_loop (iovecs_from 0 k) bs k = Ret (iovecs_from 0 (k + length bs)).
Proof.
  intros Hbs. revert k. induction Hbs as [|b bs Hb Hbs IH]; intros k; [by rewrite Nat.add_0_r|].
  cbn [windows_init_loop length]. destruct Hb as (Hb & _ & _ & _ & Hl).
  destruct (s_index_Ret (v_of b) 0) as (x & -> & _); [apply Hb|unfold Size in *; lia|].
  rewrite go_bind_Ret. change (u32 Size) with Size. change [(Some k, Size)] with [(Some (0 + k)%nat, Size)].
  rewrite <- (iovecs_from_snoc 0 k), IH, <- plus_n_Sm. done.
Qed.

(** The platforms agree: after [Init] of a cleared reader with fresh buffers, the
    call of [Read] returns the same count, takes the same bytes from the connection
    and leaves the same bytes in the same buffers on all three. *)
Theorem platform_readers_agree {W} `{RawConn W} (w : W) (bs : list Buffer) :
  Forall new_buf bs → bs ≠ [] →
  ∃ iovecs bufs, posixReader_Init (posixReader_Clear []) bs = Ret iovecs ∧
    windowsReader_Init (windowsReader_Clear []) bs = Ret bufs ∧
    windowsReader_Read bufs w bs = posixReader_Read iovecs w bs ∧
    unixReader_Read (unixReader_Init (unixReader_Clear []) bs) w bs = posixReader_Read iovecs w bs.
Proof.
  intros Hbs Hne. exists (iovecs_from 0 (length bs)), (iovecs_from 0 (length bs)).
  split; [exact (init_iovecs_ok bs 0 Hbs)|]. split; [exact (windows_init_ok bs 0 Hbs)|].
  destruct (unix_iovs_ok bs Hbs) as [E1 E2]. unfold windowsReader_Read, posixReader_Read, unixReader_Read, unixReader_Clear.
  rewrite E1, E2. destruct bs as [|b bs]; [done|]. cbn [length iovecs_from].
  by destruct (sys_readv w _) as [[d|] w']; rewrite ?i32_u32.
Qed.

(** Without [Clear] in between, the second [Init] of the posix reader gives the
    lengths to the iovecs of the first call: those it adds stay empty. *)
Example posix_init_twice b : s_len (v_of b) = 1 → slice_ok (v_of b) →
  init_iovecs [(Some 0%nat, Size)] [b] 0 = Ret [(Some 0%nat, Size); (Some 0%nat, 0)].
Proof. intros Hl Hok. cbn [init_iovecs]. destruct (s_index_Ret (v_of b) 0) as (x & -> & _); [done|lia|]. done. Qed.
