(* ===== verification/Pipe.v ===== *)
(** * Signals and the in-memory pipe

    signal/notifier.go, signal/done/done.go, signal/semaphore/semaphore.go and
    transport/pipe (impl.go, pipe.go, reader.go, writer.go).

    The pipe is shared by any number of goroutines.  A goroutine is at a
    program point of the method it runs ([thread]); a mutex-protected section,
    one channel operation and one [select] are each one step.  [exec_step] runs
    one step of one goroutine, with a [choice] that resolves what the language
    leaves open (which ready case a [select] takes, which call an idle
    goroutine makes, when a timer fires); a state is reachable when some
    sequence of steps leads to it. *)
From S2P Require Import Prelude Errors Bytespool IO Buffer MultiBuffer BufIO.

(** ** signal.Notifier

    A channel of capacity one; the state is whether it holds a token. *)
Definition Notifier : Type := bool.
Definition NewNotifier : Notifier := false.

(** [select { case n.c <- struct{}{}: default: }] *)
Definition Notifier_Signal (n : Notifier) : Notifier := if n then n else true.

(** [<-n.Wait()]: [None] blocks. *)
Definition Notifier_receive (n : Notifier) : option Notifier := if n then Some false else None.

(** ** done.Instance *)
Module Done.

(** Whether the channel [c] is closed, and the flag [closed]. *)
Record Instance := mkInstance { c_closed : bool; closed : bool }.

Definition New : Instance := mkInstance false false.

(** The builtin [close]. *)
Definition close_chan (d : Instance) : go Instance :=
  if c_closed d then Panic "close of closed channel" else Ret (mkInstance true (closed d)).

Definition Done (d : Instance) : bool := c_closed d.

Definition Close (d : Instance) : go (option error * Instance) :=
  if closed d then Ret (None, d)
  else d' ← close_chan (mkInstance (c_closed d) true); Ret (None, d').

End Done.

(** ** semaphore.Instance *)
Module Semaphore.

(** Number of tokens in the channel and its capacity. *)
Record Instance := mkInstance { token : nat; cap : nat }.

(** The loop of [New]: each send needs room. *)
Fixpoint fill (i : nat) (s : Instance) : option Instance :=
  match i with
  | O => Some s
  | S i' => if (token s <? cap s)%nat then fill i' (mkInstance (S (token s)) (cap s)) else None
  end.
Definition New (n : nat) : option Instance := fill n (mkInstance 0 n).

(** Acquire and release; [None] blocks. *)
Definition Wait (s : Instance) : option Instance :=
  match token s with O => None | S t => Some (mkInstance t (cap s)) end.
Definition Signal (s : Instance) : option Instance :=
  if (token s <? cap s)%nat then Some (mkInstance (S (token s)) (cap s)) else None.

End Semaphore.

(** ** pipe *)

Inductive state := Open | Closed | Errord.

#[global] Instance state_eq_dec : EqDecision state.
Proof. solve_decision. Defined.

Record pipeOption := mkPipeOption { limit : Z; discardOverflow : bool }.

Definition isFull (o : pipeOption) (curSize : Z) : bool := (0 <=? limit o) && (limit o <? curSize).

Record pipe := mkPipe {
  p_data : MultiBuffer;
  p_readSignal : Notifier;
  p_writeSignal : Notifier;
  p_done : Done.Instance;
  p_errChan : option (option error);
  p_option : pipeOption;
  p_state : state
}.

Definition set_data (p : pipe) (d : MultiBuffer) : pipe :=
  mkPipe d (p_readSignal p) (p_writeSignal p) (p_done p) (p_errChan p) (p_option p) (p_state p).
Definition set_readSignal (p : pipe) (n : Notifier) : pipe :=
  mkPipe (p_data p) n (p_writeSignal p) (p_done p) (p_errChan p) (p_option p) (p_state p).
Definition set_writeSignal (p : pipe) (n : Notifier) : pipe :=
  mkPipe (p_data p) (p_readSignal p) n (p_done p) (p_errChan p) (p_option p) (p_state p).
Definition set_errChan (p : pipe) (e : option (option error)) : pipe :=
  mkPipe (p_data p) (p_readSignal p) (p_writeSignal p) (p_done p) e (p_option p) (p_state p).
Definition set_state (p : pipe) (s : state) (d : Done.Instance) : pipe :=
  mkPipe (p_data p) (p_readSignal p) (p_writeSignal p) d (p_errChan p) (p_option p) s.

Definition errBufferFull := Sentinel "pipe.errBufferFull" "buffer full".
Definition errSlowDown := Sentinel "pipe.errSlowDown" "slow down".

(** *** Options and construction *)

Definition Option : Type := pipeOption → pipeOption.
Definition WithoutSizeLimit : Option := λ opt, mkPipeOption (-1) (discardOverflow opt).
Definition WithSizeLimit (l : Z) : Option := λ opt, mkPipeOption l (discardOverflow opt).
Definition DiscardOverflow : Option := λ opt, mkPipeOption (limit opt) true.

(** [OptionsFromContext], for the buffer policy found in the context. *)
Definition OptionsFromContext (PerConnection : Z) : list Option :=
  if 0 <=? PerConnection then [WithSizeLimit PerConnection] else [WithoutSizeLimit].

Definition New (opts : list Option) : pipe :=
  mkPipe None NewNotifier NewNotifier Done.New None (foldl (λ o opt, opt o) (mkPipeOption (-1) false) opts) Open.

(** *** Sections under the mutex *)

Definition getState (p : pipe) (forRead : bool) : option error :=
  match p_state p with
  | Open => if negb forRead && isFull (p_option p) (MultiBuffer_Len (p_data p))
            then Some (ErrNew errBufferFull) else None
  | Closed => if negb forRead then Some (ErrNew ErrClosedPipe)
              else if negb (MultiBuffer_IsEmpty (p_data p)) then None else Some (ErrNew EOF)
  | Errord => Some (ErrNew ErrClosedPipe)
  end.

Definition readMultiBufferInternal (p : pipe) : MultiBuffer * option error * pipe :=
  match getState p true with
  | Some err => (None, Some err, p)
  | None => (p_data p, None, set_data p None)
  end.

Definition writeMultiBufferInternal (p : pipe) (mb : MultiBuffer) : option error * pipe :=
  match getState p false with
  | Some err => (Some err, p)
  | None =>
      match p_data p with
      | None => (None, set_data p mb)
      | Some _ => let '(data, _, _) := MergeMulti (p_data p) mb in (Some (ErrNew errSlowDown), set_data p data)
      end
  end.

Definition Pipe_Close (p : pipe) : go (option error * pipe) :=
  match p_state p with
  | Closed | Errord => Ret (None, p)
  | Open =>
      '(err, d) ← Done.Close (p_done p);
      match err with
      | Some _ => Panic "panic(err)"
      | None => Ret (None, set_state p Closed d)
      end
  end.

Definition Pipe_Interrupt (p : pipe) : M pipe :=
  match p_state p with
  | Closed | Errord => mret p
  | Open =>
      p1 ← (if negb (MultiBuffer_IsEmpty (p_data p))
            then ReleaseMulti (p_data p);; mret (set_data p None) else mret p);
      '(err, d) ← lift (Done.Close (p_done p1));
      match err with
      | Some _ => panic "panic(err)"
      | None => mret (set_state p1 Errord d)
      end
  end.

(** *** Goroutines *)

(** The methods of [Reader] and [Writer]. *)
Inductive call :=
  | CallReadMultiBuffer
  | CallReadMultiBufferTimeout
  | CallWriteMultiBuffer (mb : MultiBuffer)
  | CallClose
  | CallInterrupt
  | CallReturnAnError (err : option error)
  | CallRecover.

(** What a call returned. *)
Inductive result :=
  | RData (mb : MultiBuffer) (err : option error)
  | RErr (err : option error)
  | RUnit.

Inductive thread :=
  (** no call in progress; the result of the last one *)
  | TIdle (last : option result)
  (** head of the read loop; [timed] for ReadMultiBufferTimeout *)
  | TRead (timed : bool)
  (** before [p.writeSignal.Signal()] and [return data, err] *)
  | TReadSignal (data : MultiBuffer) (err : option error)
  (** in the [select] of the read loop *)
  | TReadSelect (timed : bool)
  (** head of the write loop *)
  | TWrite (mb : MultiBuffer)
  (** before [p.readSignal.Signal()] and [return nil] *)
  | TWriteSignal
  (** before [buf.ReleaseMulti(mb)] and [return nil] *)
  | TWriteDiscard (mb : MultiBuffer)
  (** before [buf.ReleaseMulti(mb)], [p.readSignal.Signal()] and [return err] *)
  | TWriteFail (mb : MultiBuffer) (err : option error)
  (** in the [select] of the write loop *)
  | TWriteSelect (mb : MultiBuffer)
  (** sending on [errChan] *)
  | TReturnErr (err : option error).

Inductive choice :=
  | Go                      (** the only continuation *)
  | Do (c : call)           (** an idle goroutine makes a call *)
  | OnReadSignal            (** the [select] takes [<-p.readSignal.Wait()] *)
  | OnWriteSignal           (** ... [<-p.writeSignal.Wait()] *)
  | OnDone                  (** ... [<-p.done.Wait()] *)
  | OnErr                   (** ... [err = <-p.errChan] *)
  | OnTimer.                (** ... [<-timer.C] *)

Definition ret (r : result) : thread := TIdle (Some r).

(** The start of a call. *)
Definition start_call (c : call) (p : pipe) : M (thread * pipe) :=
  match c with
  | CallReadMultiBuffer => mret (TRead false, p)
  | CallReadMultiBufferTimeout => mret (TRead true, p)
  | CallWriteMultiBuffer mb =>
      if MultiBuffer_IsEmpty mb then mret (ret (RErr None), p) else mret (TWrite mb, p)
  | CallClose => '(err, p') ← lift (Pipe_Close p); mret (ret (RErr err), p')
  | CallInterrupt => p' ← Pipe_Interrupt p; mret (ret RUnit, p')
  | CallReturnAnError err => mret (TReturnErr err, p)
  | CallRecover =>
      match p_errChan p with
      | Some err => mret (ret (RErr err), set_errChan p None)
      | None => mret (ret (RErr None), p)
      end
  end.

(** One step of a goroutine; [None]: it cannot take this choice now. *)
Definition thread_step (t : thread) (c : choice) (p : pipe) : M (option (thread * pipe)) :=
  match t, c with
  | TIdle _, Do call => r ← start_call call p; mret (Some r)
  | TRead timed, Go =>
      let '(data, err, p') := readMultiBufferInternal p in
      match data, err with
      | None, None => mret (Some (TReadSelect timed, p'))
      | _, _ => mret (Some (TReadSignal data err, p'))
      end
  | TReadSignal data err, Go =>
      mret (Some (ret (RData data err), set_writeSignal p (Notifier_Signal (p_writeSignal p))))
  | TReadSelect timed, OnReadSignal =>
      match Notifier_receive (p_readSignal p) with
      | Some n => mret (Some (TRead timed, set_readSignal p n))
      | None => mret None
      end
  | TReadSelect timed, OnDone =>
      if Done.Done (p_done p) then mret (Some (TRead timed, p)) else mret None
  | TReadSelect false, OnErr =>
      match p_errChan p with
      | Some err => mret (Some (ret (RData None err), set_errChan p None))
      | None => mret None
      end
  | TReadSelect true, OnTimer => mret (Some (ret (RData None (Some (ErrNew ErrReadTimeout))), p))
  | TWrite mb, Go =>
      let '(err, p') := writeMultiBufferInternal p mb in
      match err with
      | None => mret (Some (TWriteSignal, p'))
      | Some e =>
          if is_sentinel errSlowDown e then mret (Some (TWriteSignal, p'))
          else if is_sentinel errBufferFull e && discardOverflow (p_option p')
          then mret (Some (TWriteDiscard mb, p'))
          else if negb (is_sentinel errBufferFull e) then mret (Some (TWriteFail mb err, p'))
          else mret (Some (TWriteSelect mb, p'))
      end
  | TWriteSignal, Go =>
      mret (Some (ret (RErr None), set_readSignal p (Notifier_Signal (p_readSignal p))))
  | TWriteDiscard mb, Go => ReleaseMulti mb;; mret (Some (ret (RErr None), p))
  | TWriteFail mb err, Go =>
      ReleaseMulti mb;;
      mret (Some (ret (RErr err), set_readSignal p (Notifier_Signal (p_readSignal p))))
  | TWriteSelect mb, OnWriteSignal =>
      match Notifier_receive (p_writeSignal p) with
      | Some n => mret (Some (TWrite mb, set_writeSignal p n))
      | None => mret None
      end
  | TWriteSelect mb, OnDone =>
      if Done.Done (p_done p) then mret (Some (ret (RErr (Some (ErrNew ErrClosedPipe))), p)) else mret None
  | TReturnErr err, Go =>
      match p_errChan p with
      | None => mret (Some (ret RUnit, set_errChan p (Some err)))
      | Some _ => mret None
      end
  | _, _ => mret None
  end.

(** ** The system

    [s_in] and [s_out] record the bytes that writers have put into the pipe and
    readers have taken out of it, in the order of the critical sections. *)
Record sys := mkSys {
  s_pipe : pipe;
  s_world : World;
  s_threads : list thread;
  s_in : bytes;
  s_out : bytes
}.

Definition init_sys (opts : list Option) (n : nat) : sys :=
  mkSys (New opts) empty_world (replicate n (TIdle None)) [] [].

(** Bytes a step moves into and out of [p_data]. *)
Definition moved_in (t t' : thread) : bytes :=
  match t, t' with TWrite mb, TWriteSignal => mb_content mb | _, _ => [] end.
Definition moved_out (t t' : thread) : bytes :=
  match t, t' with TRead _, TReadSignal data _ => mb_content data | _, _ => [] end.

Definition exec_step (i : nat) (c : choice) (s : sys) : go (option sys) :=
  match s_threads s !! i with
  | None => Ret None
  | Some t =>
      '(r, w') ← thread_step t c (s_pipe s) (s_world s);
      match r with
      | None => Ret None
      | Some (t', p') =>
          Ret (Some (mkSys p' w' (<[i := t']> (s_threads s)) (s_in s ++ moved_in t t') (s_out s ++ moved_out t t')))
      end
  end.

(** A schedule, for evaluation; it stops at a step that is not enabled. *)
Fixpoint run (sched : list (nat * choice)) (s : sys) : go (option sys) :=
  match sched with
  | [] => Ret (Some s)
  | (i, c) :: sched' =>
      r ← exec_step i c s;
      match r with None => Ret None | Some s' => run sched' s' end
  end.
