(* ===== verification/PipeSpec.v ===== *)
(** * Properties of the pipe

    Invariants of every reachable state, for any number of goroutines and any
    interleaving: bytes leave the pipe in the order they entered it, none is
    lost or duplicated unless the pipe is interrupted, its size stays bounded,
    nothing panics, and no wake-up is lost. *)
From S2P Require Import Prelude Errors Bytespool IO Buffer MultiBuffer BufIO Pipe.

(** ** The steps as rules *)

Inductive tstep (p : pipe) (w : World) : thread → choice → thread → pipe → World → Prop :=
  | step_call last c t' p' w' :
      start_call c p w = Ret ((t', p'), w') → tstep p w (TIdle last) (Do c) t' p' w'
  | step_read_data timed data p' :
      readMultiBufferInternal p = (data, None, p') → is_Some data →
      tstep p w (TRead timed) Go (TReadSignal data None) p' w
  | step_read_err timed err p' :
      readMultiBufferInternal p = (None, Some err, p') →
      tstep p w (TRead timed) Go (TReadSignal None (Some err)) p' w
  | step_read_block timed p' :
      readMultiBufferInternal p = (None, None, p') →
      tstep p w (TRead timed) Go (TReadSelect timed) p' w
  | step_read_signal data err :
      tstep p w (TReadSignal data err) Go (ret (RData data err)) (set_writeSignal p true) w
  | step_read_wake timed :
      p_readSignal p = true →
      tstep p w (TReadSelect timed) OnReadSignal (TRead timed) (set_readSignal p false) w
  | step_read_done timed :
      Done.c_closed (p_done p) = true → tstep p w (TReadSelect timed) OnDone (TRead timed) p w
  | step_read_errchan err :
      p_errChan p = Some err →
      tstep p w (TReadSelect false) OnErr (ret (RData None err)) (set_errChan p None) w
  | step_read_timer :
      tstep p w (TReadSelect true) OnTimer (ret (RData None (Some (ErrNew ErrReadTimeout)))) p w
  | step_write_in mb err p' :
      writeMultiBufferInternal p mb = (err, p') → getState p false = None →
      tstep p w (TWrite mb) Go TWriteSignal p' w
  | step_write_discard mb :
      getState p false = Some (ErrNew errBufferFull) → discardOverflow (p_option p) = true →
      tstep p w (TWrite mb) Go (TWriteDiscard mb) p w
  | step_write_fail mb err :
      getState p false = Some err → err ≠ ErrNew errBufferFull →
      tstep p w (TWrite mb) Go (TWriteFail mb (Some err)) p w
  | step_write_block mb :
      getState p false = Some (ErrNew errBufferFull) → discardOverflow (p_option p) = false →
      tstep p w (TWrite mb) Go (TWriteSelect mb) p w
  | step_write_signal :
      tstep p w TWriteSignal Go (ret (RErr None)) (set_readSignal p true) w
  | step_discard mb r w' :
      ReleaseMulti mb w = Ret (r, w') → tstep p w (TWriteDiscard mb) Go (ret (RErr None)) p w'
  | step_fail mb err r w' :
      ReleaseMulti mb w = Ret (r, w') →
      tstep p w (TWriteFail mb err) Go (ret (RErr err)) (set_readSignal p true) w'
  | step_write_wake mb :
      p_writeSignal p = true →
      tstep p w (TWriteSelect mb) OnWriteSignal (TWrite mb) (set_writeSignal p false) w
  | step_write_done mb :
      Done.c_closed (p_done p) = true →
      tstep p w (TWriteSelect mb) OnDone (ret (RErr (Some (ErrNew ErrClosedPipe)))) p w
  | step_return_err err :
      p_errChan p = None → tstep p w (TReturnErr err) Go (ret RUnit) (set_errChan p (Some err)) w.

Lemma getState_write p err :
  getState p false = Some err →
  err = ErrNew errBufferFull ∧ p_state p = Open ∧ isFull (p_option p) (MultiBuffer_Len (p_data p)) = true ∨
  err = ErrNew ErrClosedPipe ∧ p_state p ≠ Open.
Proof.
  unfold getState. destruct (p_state p); cbn [negb andb]; [|by intros [= <-]; right..].
  destruct (isFull _ _) eqn:E; [|done]. intros [= <-]. by left.
Qed.

Lemma Notifier_Signal_true n : Notifier_Signal n = true.
Proof. by destruct n. Qed.

(** Every enabled step of the code is one of the rules. *)
Lemma thread_step_tstep t c p w t' p' w' :
  thread_step t c p w = Ret (Some (t', p'), w') → tstep p w t c t' p' w'.
Proof.
  intros Heq. unfold thread_step in Heq.
  destruct t as [last|timed|data err|timed|mb| |mb|mb err|mb|err], c; try done; try (by destruct timed).
  - apply M_bind_inv in Heq as ([t1 p1] & w1 & Hs & Heq). injection Heq as -> -> ->. by constructor.
  - destruct (readMultiBufferInternal p) as [[data err] p1] eqn:E.
    destruct data as [l|]; [destruct err as [e|]|destruct err as [e|]]; injection Heq as <- <- <-.
    + unfold readMultiBufferInternal in E. by destruct (getState p true).
    + econstructor; eauto.
    + by constructor.
    + by constructor.
  - injection Heq as <- <- <-. rewrite Notifier_Signal_true. constructor.
  - destruct (p_readSignal p) eqn:E; [|by destruct timed]. change (Notifier_receive true) with (Some false) in Heq.
    by destruct timed; injection Heq as <- <- <-; constructor.
  - destruct (Done.Done (p_done p)) eqn:E; [|by destruct timed].
    by destruct timed; injection Heq as <- <- <-; constructor.
  - destruct timed; [done|]. destruct (p_errChan p) eqn:E; [|done]. injection Heq as <- <- <-. by constructor.
  - destruct timed; [|done]. injection Heq as <- <- <-. constructor.
  - destruct (writeMultiBufferInternal p mb) as [err p1] eqn:E. pose proof E as Ew.
    unfold writeMultiBufferInternal in E. destruct (getState p false) as [e|] eqn:Eg.
    + injection E as <- <-. destruct (getState_write p e Eg) as [(-> & _)|(-> & _)].
      * change (is_sentinel errSlowDown (ErrNew errBufferFull)) with false in Heq.
        change (is_sentinel errBufferFull (ErrNew errBufferFull)) with true in Heq. cbn [andb negb] in Heq.
        destruct (discardOverflow (p_option p)) eqn:Ed; injection Heq as <- <- <-; by constructor.
      * injection Heq as <- <- <-. by constructor.
    + destruct (p_data p); injection E as <- <-; injection Heq as <- <- <-; econstructor; done.
  - injection Heq as <- <- <-. rewrite Notifier_Signal_true. constructor.
  - apply M_bind_inv in Heq as (r & w1 & Hs & Heq). injection Heq as <- <- <-. by econstructor.
  - apply M_bind_inv in Heq as (r & w1 & Hs & Heq). injection Heq as <- <- <-.
    rewrite Notifier_Signal_true. by econstructor.
  - destruct (p_writeSignal p) eqn:E; [|done]. change (Notifier_receive true) with (Some false) in Heq. injection Heq as <- <- <-. by constructor.
  - destruct (Done.Done (p_done p)) eqn:E; [|done]. injection Heq as <- <- <-. by constructor.
  - destruct (p_errChan p) eqn:E; [done|]. injection Heq as <- <- <-. by constructor.
Qed.

(** ** Reachable states *)

(** The buffers a client passes to a write. *)
Definition arg_ok (mb : MultiBuffer) : Prop := mb_ok mb ∧ no_nil mb.
Definition choice_ok (c : choice) : Prop :=
  match c with Do (CallWriteMultiBuffer mb) => arg_ok mb | _ => True end.

Inductive reachable (opts : list Option) (n : nat) : sys → Prop :=
  | reach_init : reachable opts n (init_sys opts n)
  | reach_step s i c s' :
      reachable opts n s → choice_ok c → exec_step i c s = Ret (Some s') → reachable opts n s'.

Lemma run_reachable opts n sched s s' :
  reachable opts n s → Forall (λ ic, choice_ok (snd ic)) sched →
  run sched s = Ret (Some s') → reachable opts n s'.
Proof.
  intros Hs Hc. revert s Hs. induction Hc as [|[i c] sched Hc Hcs IH]; intros s Hs; cbn [run].
  { by intros [= <-]. }
  intros Heq. apply go_bind_inv in Heq as ([s1|] & He & Heq); [|done].
  apply (IH s1); [|done]. by eapply reach_step.
Qed.

(** A step of the system is a step of one goroutine. *)
Lemma exec_step_inv i c s s' :
  exec_step i c s = Ret (Some s') →
  ∃ t t' p' w', s_threads s !! i = Some t ∧ tstep (s_pipe s) (s_world s) t c t' p' w' ∧
    s' = mkSys p' w' (<[i := t']> (s_threads s)) (s_in s ++ moved_in t t') (s_out s ++ moved_out t t').
Proof.
  unfold exec_step. destruct (s_threads s !! i) as [t|] eqn:Ht; [|done]. intros Heq.
  apply go_bind_inv in Heq as ([r w'] & Hts & Heq). destruct r as [[t' p']|]; [|done].
  injection Heq as <-. exists t, t', p', w'. split_and!; try done. by apply thread_step_tstep.
Qed.

(** ** Invariant of the pipe *)

Record pipe_ok (p : pipe) : Prop := {
  po_data : mb_ok (p_data p);
  po_nn : no_nil (p_data p);
  po_nonempty : is_Some (p_data p) → mb_content (p_data p) ≠ [];
  po_done : Done.c_closed (p_done p) = negb (bool_decide (p_state p = Open)) ∧
            Done.closed (p_done p) = negb (bool_decide (p_state p = Open))
}.

(** A goroutine inside a write holds a non-empty MultiBuffer. *)
Definition thread_ok (t : thread) : Prop :=
  match t with
  | TWrite mb | TWriteSelect mb | TWriteDiscard mb | TWriteFail mb _ => arg_ok mb ∧ mb_content mb ≠ []
  | _ => True
  end.

(** What went in is what came out followed by what is inside; an interrupted
    pipe has dropped what was inside. *)
Definition fifo_ok (ins outs : bytes) (p : pipe) : Prop :=
  match p_state p with
  | Errord => outs `prefix_of` ins ∧ p_data p = None
  | _ => ins = outs ++ mb_content (p_data p)
  end.

Lemma mb_content_None : mb_content None = [].
Proof. done. Qed.

Lemma pipe_ok_empty p : pipe_ok p → MultiBuffer_IsEmpty (p_data p) = true → p_data p = None.
Proof.
  intros Hp He. rewrite MultiBuffer_IsEmpty_ok in He by apply Hp. apply bool_decide_eq_true in He.
  destruct (p_data p) eqn:E; [|done]. exfalso. apply (po_nonempty p Hp); rewrite E; [by eexists|done].
Qed.

Lemma pipe_ok_none p d : pipe_ok p → p_done p = p_done d → p_state p = p_state d → p_data d = None → pipe_ok d.
Proof.
  intros Hp Hd Hs Hn. destruct Hp as [? ? ? Hdone]. split; rewrite ?Hn, <- ?Hd, <- ?Hs; try done;
    first [exact (Forall_nil_2 _)|by intros [? ?]].
Qed.

(** Changes of the channels do not touch the invariant. *)
Lemma pipe_ok_ext p q :
  p_data q = p_data p → p_state q = p_state p → p_done q = p_done p → pipe_ok p → pipe_ok q.
Proof. intros E1 E2 E3 [? ? ? ?]. split; by rewrite ?E1, ?E2, ?E3. Qed.

Lemma fifo_ext p q ins outs :
  p_data q = p_data p → p_state q = p_state p → fifo_ok ins outs p → fifo_ok (ins ++ []) (outs ++ []) q.
Proof. intros E1 E2. unfold fifo_ok. by rewrite E1, E2, !app_nil_r. Qed.

Lemma read_internal_ok p data err p' ins outs :
  pipe_ok p → fifo_ok ins outs p → readMultiBufferInternal p = (data, err, p') →
  pipe_ok p' ∧ fifo_ok ins (outs ++ mb_content data) p' ∧
  p_readSignal p' = p_readSignal p ∧ p_writeSignal p' = p_writeSignal p ∧ p_state p' = p_state p ∧
  p_option p' = p_option p ∧
  match err with None => data = p_data p ∧ p_data p' = None | Some _ => data = None ∧ p' = p ∧ p_state p ≠ Open end.
Proof.
  intros Hp Hf. unfold readMultiBufferInternal.
  destruct (getState p true) as [e|] eqn:Eg; intros [= <- <- <-].
  - rewrite mb_content_None, app_nil_r. split_and!; try done. intros Eo. unfold getState in Eg. by rewrite Eo in Eg.
  - split_and!; try done; [by eapply pipe_ok_none|]. unfold fifo_ok, getState in *. cbn [set_data p_state p_data].
    destruct (p_state p); try done; by rewrite mb_content_None, app_nil_r.
Qed.

Lemma MergeMulti_data d mb l :
  d = Some l → mb_ok d → no_nil d → mb_content d ≠ [] → arg_ok mb →
  let d' := fst (fst (MergeMulti d mb)) in
  mb_ok d' ∧ no_nil d' ∧ mb_content d' = mb_content d ++ mb_content mb ∧ mb_content d' ≠ [].
Proof.
  intros E Hok Hnn Hne [Hok2 Hnn2]. cbn [MergeMulti fst].
  assert (mb_content (go_append d (els mb)) = mb_content d ++ mb_content mb) as Hc
    by (unfold mb_content; by rewrite els_go_append, lcontent_app).
  unfold mb_ok, no_nil. rewrite els_go_append, Hc. split_and!; try done; try by apply Forall_app.
  intros Hn. by apply app_eq_nil in Hn as [? _].
Qed.

Lemma write_internal_ok p mb err p' ins outs :
  pipe_ok p → fifo_ok ins outs p → arg_ok mb → mb_content mb ≠ [] → getState p false = None →
  writeMultiBufferInternal p mb = (err, p') →
  pipe_ok p' ∧ fifo_ok (ins ++ mb_content mb) outs p' ∧ is_Some (p_data p') ∧
  p_readSignal p' = p_readSignal p ∧ p_writeSignal p' = p_writeSignal p ∧
  p_state p' = Open ∧ p_state p = Open ∧ p_option p' = p_option p ∧
  mb_content (p_data p') = mb_content (p_data p) ++ mb_content mb.
Proof.
  intros Hp Hf Harg Hne Hg. unfold writeMultiBufferInternal. rewrite Hg.
  assert (p_state p = Open) as Ho by (unfold getState in Hg; by destruct (p_state p)).
  pose proof Hp as [Hd Hn Hnon Hdone]. destruct (p_data p) as [l|] eqn:Ed.
  - pose proof (MergeMulti_data (Some l) mb l eq_refl Hd Hn) as Hm. cbn [fst] in Hm.
    destruct Hm as (H1 & H2 & H3 & H4); [apply Hnon; by eexists|done|].
    cbn [MergeMulti]. intros [= <- <-]. cbn [set_data p_data p_readSignal p_writeSignal p_state p_option].
    change (MergeMulti (Some l) mb).1.1 with (Some (els (Some l) ++ els mb)) in *.
    split_and!; try done. unfold fifo_ok in *. cbn [set_data p_data p_state]. rewrite Ho, Ed in *.
    by rewrite H3, Hf, app_assoc.
  - intros [= <- <-]. cbn [set_data p_data p_readSignal p_writeSignal p_state p_option].
    destruct Harg as [Ha1 Ha2]. split_and!; try done.
    + unfold fifo_ok in *. cbn [set_data p_data p_state]. rewrite Ho, Ed in *.
      by rewrite Hf, mb_content_None, app_nil_r.
    + destruct mb; [by eexists|done].
Qed.

Lemma Done_Close_ok p :
  pipe_ok p → p_state p = Open → Done.Close (p_done p) = Ret (None, Done.mkInstance true true).
Proof.
  intros Hp Ho. destruct (po_done p Hp) as [H1 H2]. rewrite Ho in *. cbn in *.
  unfold Done.Close, Done.close_chan. rewrite H2. cbn. by rewrite H1.
Qed.

(** A call by an idle goroutine returns; it changes the data only by an
    interrupt. *)
Lemma start_call_ok c p w ins outs :
  pipe_ok p → world_ok w → choice_ok (Do c) → fifo_ok ins outs p →
  ∃ t' p' w', start_call c p w = Ret ((t', p'), w') ∧ pipe_ok p' ∧ world_ok w' ∧ thread_ok t' ∧
    fifo_ok ins outs p' ∧ p_readSignal p' = p_readSignal p ∧ p_writeSignal p' = p_writeSignal p ∧
    p_option p' = p_option p ∧
    (p_data p' = p_data p ∧ p_state p' = p_state p ∨ p_state p' ≠ Open ∧ (p_data p' = p_data p ∨ p_data p' = None)) ∧
    match t' with TIdle _ | TRead _ | TWrite _ | TReturnErr _ => True | _ => False end.
Proof.
  intros Hp Hw Hc Hf. destruct c as [| |mb| | |err|]; cbn [start_call].
  - eexists _, _, _. split; [reflexivity|]. by split_and!; auto.
  - eexists _, _, _. split; [reflexivity|]. by split_and!; auto.
  - destruct Hc as [Hok Hnn]. rewrite MultiBuffer_IsEmpty_ok by done.
    case_bool_decide; (eexists _, _, _; split; [reflexivity|]); by split_and!; auto.
  - unfold Pipe_Close. destruct (p_state p) eqn:Es.
    + rewrite (Done_Close_ok p Hp Es). eexists _, _, _. split; [reflexivity|].
      split_and!; try done; [|unfold fifo_ok in *; rewrite Es in Hf; done|].
      * destruct Hp. by split; cbn.
      * right. cbn. auto.
    + eexists _, _, _. split; [reflexivity|]. by rewrite Es; split_and!; auto.
    + eexists _, _, _. split; [reflexivity|]. by rewrite Es; split_and!; auto.
  - unfold Pipe_Interrupt. destruct (p_state p) eqn:Es.
    + assert (∃ p1 w1, (if negb (MultiBuffer_IsEmpty (p_data p))
            then ReleaseMulti (p_data p);; mret (set_data p None) else mret p) w = Ret (p1, w1) ∧
            p1 = set_data p None ∧ world_ok w1) as (p1 & w1 & Hp1 & -> & Hw1).
      { destruct (MultiBuffer_IsEmpty (p_data p)) eqn:Ee; cbn [negb].
        - exists p, w. split_and!; try done. pose proof (pipe_ok_empty p Hp Ee) as En. destruct p. cbn in En. by subst.
        - destruct (ReleaseMulti_ok (p_data p) w Hw (po_data p Hp)) as (w2 & Hrel & Hw2).
          rewrite (M_bind_Ret _ _ _ _ _ Hrel). by eexists _, _. }
      assert (Hint : ((p2 ← (if negb (MultiBuffer_IsEmpty (p_data p))
            then ReleaseMulti (p_data p);; mret (set_data p None) else mret p);
          '(err, d) ← lift (Done.Close (p_done p2));
          match err with Some _ => panic "panic(err)" | None => mret (set_state p2 Errord d) end) : M _) w =
          Ret (set_state (set_data p None) Errord (Done.mkInstance true true), w1)).
      { rewrite (M_bind_Ret _ _ _ _ _ Hp1). cbn [set_data p_done]. by rewrite (Done_Close_ok p Hp Es). }
      rewrite (M_bind_Ret _ _ _ _ _ Hint). eexists _, _, _. split; [reflexivity|].
      split_and!; try done.
      * split; cbn; try done; first [exact (Forall_nil_2 _)|by intros [? ?]].
      * unfold fifo_ok in *. rewrite Es in Hf. cbn. split; [|done]. rewrite Hf. by eexists.
      * right. cbn. auto.
    + eexists _, _, _. split; [reflexivity|]. by rewrite Es; split_and!; auto.
    + eexists _, _, _. split; [reflexivity|]. by rewrite Es; split_and!; auto.
  - eexists _, _, _. split; [reflexivity|]. by split_and!; auto.
  - destruct (p_errChan p); (eexists _, _, _; split; [reflexivity|]); split_and!; try done; try (by left);
      try exact Hf; eapply pipe_ok_ext; [..|exact Hp]; done.
Qed.

(** ** Wake-ups *)

Definition in_read_select (t : thread) : Prop := match t with TReadSelect _ => True | _ => False end.
Definition in_write_select (t : thread) : Prop := match t with TWriteSelect _ => True | _ => False end.

(** Goroutines that are about to look at the data, or to signal the readers. *)
Definition serves_readers (t : thread) : Prop :=
  match t with TRead _ | TWriteSignal | TWriteFail _ _ => True | _ => False end.
Definition serves_writers (t : thread) : Prop :=
  match t with TWrite _ | TReadSignal _ _ => True | _ => False end.

(** If a reader sleeps while data is there, a token is in [readSignal] or some
    running goroutine will read or signal; likewise for a writer sleeping while
    the pipe is drained. *)
Definition readers_woken (p : pipe) (ts : list thread) : Prop :=
  Exists in_read_select ts → is_Some (p_data p) → p_state p = Open →
  p_readSignal p = true ∨ Exists serves_readers ts.
Definition writers_woken (p : pipe) (ts : list thread) : Prop :=
  Exists in_write_select ts → p_data p = None → p_state p = Open →
  p_writeSignal p = true ∨ Exists serves_writers ts.

Section Threads.
Context (P : thread → Prop) (ts : list thread) (i : nat) (t t' : thread) (Hi : ts !! i = Some t).

Lemma ex_insert_new : P t' → Exists P (<[i := t']> ts).
Proof using Hi.
  intros HP. apply Exists_exists. exists t'. split; [|done].
  apply list_elem_of_lookup. exists i. apply list_lookup_insert_eq. by eapply lookup_lt_Some.
Qed.

Lemma ex_insert_old : Exists P (<[i := t']> ts) → P t' ∨ Exists P ts.
Proof using Hi.
  rewrite !Exists_exists. intros (x & Hx & HP). apply list_elem_of_lookup in Hx as [j Hj].
  destruct (decide (j = i)) as [->|Hne].
  - rewrite list_lookup_insert_eq in Hj by (by eapply lookup_lt_Some). injection Hj as <-. by left.
  - rewrite list_lookup_insert_ne in Hj by done. right. exists x. split; [|done].
    apply list_elem_of_lookup. eauto.
Qed.

Lemma ex_insert_keep : Exists P ts → ¬ P t ∨ P t' → Exists P (<[i := t']> ts).
Proof using Hi.
  rewrite !Exists_exists. intros (x & Hx & HP) Hor. apply list_elem_of_lookup in Hx as [j Hj].
  destruct (decide (j = i)) as [->|Hne].
  - destruct Hor as [Hn|HP']; [congruence|]. by apply Exists_exists, ex_insert_new.
  - exists x. split; [|done]. apply list_elem_of_lookup. exists j. by rewrite list_lookup_insert_ne.
Qed.
End Threads.

(** A step that leaves data, state and signals alone, and does not put the
    goroutine to sleep or take away a goroutine that was going to serve. *)
Lemma woken_keep p q ts i t t' :
  ts !! i = Some t → (p_data q = p_data p ∧ p_state q = p_state p ∨ p_state q ≠ Open) →
  (p_readSignal q = p_readSignal p ∨ p_readSignal q = true) →
  (p_writeSignal q = p_writeSignal p ∨ p_writeSignal q = true) →
  ¬ in_read_select t' → ¬ in_write_select t' →
  (¬ serves_readers t ∨ serves_readers t' ∨ p_readSignal q = true) →
  (¬ serves_writers t ∨ serves_writers t' ∨ p_writeSignal q = true) →
  readers_woken p ts → writers_woken p ts →
  readers_woken q (<[i := t']> ts) ∧ writers_woken q (<[i := t']> ts).
Proof.
  intros Hi Hd Hr Hw Hnr Hnw Hsr Hsw HR HW.
  split; intros Hex Hdata Ho; (destruct Hd as [[Ed Es]|?]; [|done]); rewrite Ed, Es in *.
  - destruct (ex_insert_old _ _ _ _ _ Hi Hex) as [?|Hex']; [done|].
    destruct Hr as [Er|Er]; [rewrite Er in *|by left].
    destruct (HR Hex' Hdata Ho) as [?|Hs]; [by left|].
    destruct Hsr as [?|[?|?]]; [right; eapply ex_insert_keep; eauto..|by left].
  - destruct (ex_insert_old _ _ _ _ _ Hi Hex) as [?|Hex']; [done|].
    destruct Hw as [Er|Er]; [rewrite Er in *|by left].
    destruct (HW Hex' Hdata Ho) as [?|Hs]; [by left|].
    destruct Hsw as [?|[?|?]]; [right; eapply ex_insert_keep; eauto..|by left].
Qed.

(** ** Preservation *)

Record sys_ok (s : sys) : Prop := {
  so_pipe : pipe_ok (s_pipe s);
  so_world : world_ok (s_world s);
  so_threads : Forall thread_ok (s_threads s);
  so_fifo : fifo_ok (s_in s) (s_out s) (s_pipe s);
  so_readers : readers_woken (s_pipe s) (s_threads s);
  so_writers : writers_woken (s_pipe s) (s_threads s)
}.

(** The part of the invariant that concerns one goroutine and the pipe. *)
Lemma tstep_ok p w t c t' p' w' ins outs :
  pipe_ok p → world_ok w → thread_ok t → choice_ok c → fifo_ok ins outs p → tstep p w t c t' p' w' →
  pipe_ok p' ∧ world_ok w' ∧ thread_ok t' ∧ fifo_ok (ins ++ moved_in t t') (outs ++ moved_out t t') p' ∧
  p_option p' = p_option p.
Proof.
  intros Hp Hw Ht Hc Hf Hstep.
  assert (Hsame : ∀ q, p_data q = p_data p → p_state q = p_state p → p_done q = p_done p →
            p_option q = p_option p →
            pipe_ok q ∧ fifo_ok (ins ++ []) (outs ++ []) q ∧ p_option q = p_option p).
  { intros q E1 E2 E3 E4. split_and!; [by eapply pipe_ok_ext|by eapply fifo_ext|done]. }
  destruct Hstep.
  - destruct (start_call_ok c p w ins outs Hp Hw Hc Hf) as
      (t2 & p2 & w2 & Heq & Hp2 & Hw2 & Ht2 & Hf2 & _ & _ & Ho & _). rewrite Heq in H. injection H as <- <- <-.
    cbn [moved_in moved_out]. rewrite !app_nil_r. done.
  - destruct (read_internal_ok p _ _ _ ins outs Hp Hf H) as (Hp2 & Hf2 & _ & _ & _ & Ho & _).
    cbn [moved_in moved_out]. rewrite app_nil_r. done.
  - destruct (read_internal_ok p _ _ _ ins outs Hp Hf H) as (Hp2 & Hf2 & _ & _ & _ & Ho & _).
    cbn [moved_in moved_out]. rewrite app_nil_r. done.
  - destruct (read_internal_ok p _ _ _ ins outs Hp Hf H) as (Hp2 & Hf2 & _ & _ & _ & Ho & _).
    cbn [moved_in moved_out]. rewrite mb_content_None in Hf2. rewrite app_nil_r. done.
  - destruct (Hsame (set_writeSignal p true)) as (? & ? & ?); done.
  - destruct (Hsame (set_readSignal p false)) as (? & ? & ?); done.
  - destruct (Hsame p) as (? & ? & ?); done.
  - destruct (Hsame (set_errChan p None)) as (? & ? & ?); done.
  - destruct (Hsame p) as (? & ? & ?); done.
  - destruct Ht as [Harg Hne].
    destruct (write_internal_ok p mb err p' ins outs Hp Hf Harg Hne H0 H) as (Hp2 & Hf2 & _ & _ & _ & _ & _ & Ho & _).
    cbn [moved_in moved_out]. rewrite app_nil_r. done.
  - destruct (Hsame p) as (? & ? & ?); done.
  - destruct (Hsame p) as (? & ? & ?); done.
  - destruct (Hsame p) as (? & ? & ?); done.
  - destruct (Hsame (set_readSignal p true)) as (? & ? & ?); done.
  - destruct Ht as [[Hok _] _]. destruct (ReleaseMulti_ok mb w Hw Hok) as (w2 & Hrel & Hw2).
    rewrite Hrel in H. injection H as _ <-. destruct (Hsame p) as (? & ? & ?); done.
  - destruct Ht as [[Hok _] _]. destruct (ReleaseMulti_ok mb w Hw Hok) as (w2 & Hrel & Hw2).
    rewrite Hrel in H. injection H as _ <-. destruct (Hsame (set_readSignal p true)) as (? & ? & ?); done.
  - destruct (Hsame (set_writeSignal p false)) as (? & ? & ?); done.
  - destruct (Hsame p) as (? & ? & ?); done.
  - destruct (Hsame (set_errChan p (Some err))) as (? & ? & ?); done.
Qed.

Lemma isFull_nonempty p : isFull (p_option p) (MultiBuffer_Len (p_data p)) = true → p_data p ≠ None.
Proof.
  unfold isFull. intros Hf En. rewrite En in Hf. change (MultiBuffer_Len None) with 0 in Hf. bool_hyps. lia.
Qed.

(** What a read takes and leaves. *)
Lemma read_internal_frame p data err q :
  readMultiBufferInternal p = (data, err, q) →
  p_readSignal q = p_readSignal p ∧ p_writeSignal q = p_writeSignal p ∧ p_state q = p_state p ∧
  match err with
  | None => data = p_data p ∧ p_data q = None
  | Some _ => data = None ∧ q = p ∧ p_state p ≠ Open
  end.
Proof.
  unfold readMultiBufferInternal.
  destruct (getState p true) as [e|] eqn:Eg; intros [= <- <- <-]; split_and!; try done.
  intros Eo. unfold getState in Eg. by rewrite Eo in Eg.
Qed.

Lemma full_nonempty p : getState p false = Some (ErrNew errBufferFull) → p_data p ≠ None.
Proof. intros Hg. destruct (getState_write p _ Hg) as [(_ & _ & Hf)|(? & _)]; [by apply isFull_nonempty|done]. Qed.

(** A thread that neither sleeps nor serves changes nothing for the others. *)
Ltac keep_woken Hi H :=
  let Hex := fresh in let Hd := fresh in let Ho := fresh in let Hex' := fresh in
  intros Hex Hd Ho; destruct (ex_insert_old _ _ _ _ _ Hi Hex) as [[]|Hex'];
  destruct (H Hex' Hd Ho) as [?|?]; [by left|]; right; eapply ex_insert_keep; eauto.
Ltac keep_both Hi HR HW := eapply woken_keep; [exact Hi|..|exact HR|exact HW]; cbn; intuition.

Lemma tstep_woken p w t c t' p' w' ts i ins outs :
  pipe_ok p → world_ok w → thread_ok t → choice_ok c → fifo_ok ins outs p → ts !! i = Some t → tstep p w t c t' p' w' →
  readers_woken p ts → writers_woken p ts →
  readers_woken p' (<[i := t']> ts) ∧ writers_woken p' (<[i := t']> ts).
Proof.
  intros Hp Hw Ht Hc Hfifo Hi Hstep HR HW.
  destruct Hstep as
    [last c t' p' w' Hcall|timed data p' Hr Hs|timed err p' Hr|timed p' Hr|data err|timed Htok|timed Hdone|err He|
     |mb err p' Hwr Hg|mb Hg Hdis|mb err Hg Hne|mb Hg Hkeep| |mb r w' Hrel|mb err r w' Hrel|mb Htok|mb Hdone|err He].
  - destruct (start_call_ok c p w ins outs Hp Hw Hc Hfifo) as
      (t2 & p2 & w2 & Heq & _ & _ & _ & _ & Er & Ew & _ & Hd & Hk).
    rewrite Heq in Hcall. injection Hcall as <- <- <-.
    eapply woken_keep; [exact Hi|destruct Hd as [?|[? _]]; [by left|by right]|by left|by left
      |destruct t2; cbn in *; tauto|destruct t2; cbn in *; tauto|left; by intros []|left; by intros []|exact HR|exact HW].
  - destruct (read_internal_frame _ _ _ _ Hr) as (Er & Ew & Es & -> & Ed). split.
    + intros _ Hd. rewrite Ed in Hd. by destruct Hd.
    + intros _ _ _. right. by eapply ex_insert_new.
  - destruct (read_internal_frame _ _ _ _ Hr) as (Er & Ew & Es & _ & -> & Hno). split; intros _ _ Ho; done.
  - destruct (read_internal_frame _ _ _ _ Hr) as (Er & Ew & Es & Hnone & Ed). split.
    + intros _ Hd. rewrite Ed in Hd. by destruct Hd.
    + intros Hex _ Ho. rewrite Es in Ho.
      destruct (ex_insert_old _ _ _ _ _ Hi Hex) as [[]|Hex'].
      destruct (HW Hex' (eq_sym Hnone) Ho) as [?|Hsv]; [left; congruence|].
      right. eapply ex_insert_keep; eauto.
  - keep_both Hi HR HW.
  - split.
    + intros _ _ _. right. by eapply ex_insert_new.
    + keep_woken Hi HW.
  - assert (p_state p ≠ Open) as Hno.
    { intros Eo. destruct (po_done p Hp) as [E1 _]. rewrite Eo in E1. by rewrite Hdone in E1. }
    split; intros _ _ Ho; done.
  - keep_both Hi HR HW.
  - keep_both Hi HR HW.
  - split; [intros _ _ _; right; by eapply ex_insert_new|].
    assert (p_data p' ≠ None) as Hnn.
    { destruct Ht as [_ Hne]. unfold writeMultiBufferInternal in Hwr. rewrite Hg in Hwr.
      destruct (p_data p); injection Hwr as <- <-; cbn; [done|]. by destruct mb. }
    intros _ Hd. done.
  - pose proof (full_nonempty p Hg). split; [|intros _ Hd; done]. keep_woken Hi HR.
  - destruct (getState_write p _ Hg) as [(-> & _)|(_ & Hno)]; [done|]. split; intros _ _ Ho; done.
  - pose proof (full_nonempty p Hg). split; [|intros _ Hd; done]. keep_woken Hi HR.
  - keep_both Hi HR HW.
  - keep_both Hi HR HW.
  - keep_both Hi HR HW.
  - split.
    + keep_woken Hi HR.
    + intros _ _ _. right. by eapply ex_insert_new.
  - keep_both Hi HR HW.
  - keep_both Hi HR HW.
Qed.

Lemma reachable_ok opts n s : reachable opts n s → sys_ok s.
Proof.
  induction 1 as [|s i c s' Hs IH Hc Hex].
  - assert (Hidle : ∀ P : thread → Prop, ¬ P (TIdle None) → ¬ Exists P (replicate n (TIdle None))).
    { intros P HP Hex. apply Exists_exists in Hex as (x & Hx & HPx).
      apply elem_of_replicate in Hx as [-> _]. done. }
    split; cbn.
    + split; cbn; try done; first [exact (Forall_nil_2 _)|by intros [? ?]].
    + exact empty_world_ok.
    + apply Forall_replicate. done.
    + done.
    + intros Hex. exfalso. revert Hex. apply Hidle. by intros [].
    + intros Hex. exfalso. revert Hex. apply Hidle. by intros [].
  - destruct (exec_step_inv i c s s' Hex) as (t & t' & p' & w' & Ht & Hstep & ->).
    destruct IH as [Hp Hw Hts Hf HR HW].
    pose proof (Forall_lookup_1 _ _ _ _ Hts Ht) as Htok.
    destruct (tstep_ok _ _ _ _ _ _ _ _ _ Hp Hw Htok Hc Hf Hstep) as (Hp' & Hw' & Ht' & Hf' & _).
    destruct (tstep_woken _ _ _ _ _ _ _ _ _ _ _ Hp Hw Htok Hc Hf Ht Hstep HR HW) as [HR' HW'].
    split; cbn; try done. by apply Forall_insert.
Qed.

(** ** No step panics *)

Lemma thread_step_total t c p w ins outs :
  pipe_ok p → world_ok w → thread_ok t → choice_ok c → fifo_ok ins outs p →
  ∃ r w', thread_step t c p w = Ret (r, w').
Proof.
  intros Hp Hw Ht Hc Hf.
  assert (Hrel : ∀ mb, arg_ok mb → ∃ w', ReleaseMulti mb w = Ret ((reslice0 mb, replicate (length (els mb)) None), w')).
  { intros mb [Hok _]. destruct (ReleaseMulti_ok mb w Hw Hok) as (w2 & Hr & _). eauto. }
  unfold thread_step.
  destruct t as [last|timed|data err|timed|mb| |mb|mb err|mb|err], c as [|cl| | | | |]; try (by eexists _, _);
    try (destruct timed; by eexists _, _).
  - destruct (start_call_ok cl p w ins outs Hp Hw Hc Hf) as (t2 & p2 & w2 & Heq & _).
    rewrite (M_bind_Ret _ _ _ _ _ Heq). by eexists _, _.
  - destruct (readMultiBufferInternal p) as [[[l|] [e|]] p1]; by eexists _, _.
  - destruct timed, (Notifier_receive (p_readSignal p)); by eexists _, _.
  - destruct timed, (Done.Done (p_done p)); by eexists _, _.
  - destruct timed, (p_errChan p); by eexists _, _.
  - destruct (writeMultiBufferInternal p mb) as [[e|] p1]; [|by eexists _, _].
    repeat case_match; by eexists _, _.
  - destruct (Hrel mb (proj1 Ht)) as (w2 & Hr). rewrite (M_bind_Ret _ _ _ _ _ Hr). by eexists _, _.
  - destruct (Hrel mb (proj1 Ht)) as (w2 & Hr). rewrite (M_bind_Ret _ _ _ _ _ Hr). by eexists _, _.
  - destruct (Notifier_receive (p_writeSignal p)); by eexists _, _.
  - destruct (Done.Done (p_done p)); by eexists _, _.
  - destruct (p_errChan p); by eexists _, _.
Qed.

Lemma exec_step_total opts n s i c :
  reachable opts n s → choice_ok c → ∃ r, exec_step i c s = Ret r.
Proof.
  intros Hs Hc. apply reachable_ok in Hs as [Hp Hw Hts Hf _ _]. unfold exec_step.
  destruct (s_threads s !! i) as [t|] eqn:Ht; [|by eexists].
  destruct (thread_step_total t c (s_pipe s) (s_world s) _ _ Hp Hw (Forall_lookup_1 _ _ _ _ Hts Ht) Hc Hf)
    as ([[t' p']|] & w' & ->); by eexists.
Qed.

(** ** Bounded size *)

(** No write passes more than [m] bytes. *)
Definition small_choice (m : Z) (c : choice) : Prop :=
  match c with Do (CallWriteMultiBuffer mb) => zlen (mb_content mb) ≤ m | _ => True end.
Definition small_thread (m : Z) (t : thread) : Prop :=
  match t with TWrite mb | TWriteSelect mb => zlen (mb_content mb) ≤ m | _ => True end.

Inductive reachable_small (opts : list Option) (n : nat) (m : Z) : sys → Prop :=
  | small_init : reachable_small opts n m (init_sys opts n)
  | small_step s i c s' :
      reachable_small opts n m s → choice_ok c → small_choice m c →
      exec_step i c s = Ret (Some s') → reachable_small opts n m s'.

Lemma small_reachable opts n m s : reachable_small opts n m s → reachable opts n s.
Proof. induction 1; [constructor|by eapply reach_step]. Qed.

Lemma run_small opts n m sched s s' :
  reachable_small opts n m s → Forall (λ ic, choice_ok (snd ic) ∧ small_choice m (snd ic)) sched →
  run sched s = Ret (Some s') → reachable_small opts n m s'.
Proof.
  intros Hs Hc. revert s Hs. induction Hc as [|[i c] sched [Hc Hm] Hcs IH]; intros s Hs; cbn [run].
  { by intros [= <-]. }
  intros Heq. apply go_bind_inv in Heq as ([s1|] & He & Heq); [|done].
  apply (IH s1); [|done]. by eapply small_step.
Qed.

Lemma tstep_small p w t c t' p' w' m ins outs :
  pipe_ok p → world_ok w → thread_ok t → choice_ok c → fifo_ok ins outs p → small_choice m c →
  0 ≤ m → 0 ≤ limit (p_option p) → limit (p_option p) + m < 2 ^ 31 →
  small_thread m t → zlen (mb_content (p_data p)) ≤ limit (p_option p) + m →
  tstep p w t c t' p' w' →
  small_thread m t' ∧ zlen (mb_content (p_data p')) ≤ limit (p_option p) + m.
Proof.
  intros Hp Hw Ht Hc Hf Hsc Hm Hl Hb Hst Hd Hstep.
  destruct Hstep as
    [last c t' p' w' Hcall|timed data p' Hr Hs|timed err p' Hr|timed p' Hr|data err|timed Htok|timed Hdone|err He|
     |mb err p' Hwr Hg|mb Hg Hdis|mb err Hg Hne|mb Hg Hkeep| |mb r w' Hrel|mb err r w' Hrel|mb Htok|mb Hdone|err He];
    try done.
  - destruct (start_call_ok c p w ins outs Hp Hw Hc Hf) as (t2 & p2 & w2 & Heq & _ & _ & _ & _ & _ & _ & _ & Hdd & _).
    pose proof Hcall as Hcall'. rewrite Heq in Hcall. injection Hcall as <- <- <-. split.
    + destruct c; cbn [start_call] in Hcall'; try (by destruct t2); try (by injection Hcall' as <- _ _).
      * case_match; by injection Hcall' as <- _ _.
      * apply M_bind_inv in Hcall' as ([] & ? & _ & Hcall'). by injection Hcall' as <- _ _.
      * apply M_bind_inv in Hcall' as (? & ? & _ & Hcall'). by injection Hcall' as <- _ _.
      * case_match; by injection Hcall' as <- _ _.
    + destruct Hdd as [[-> _]|[_ [-> | ->]]]; [done..|]. rewrite mb_content_None. znil. lia.
  - destruct (read_internal_ok p _ _ _ ins outs Hp Hf Hr) as (_ & _ & _ & _ & _ & _ & _ & ->).
    rewrite mb_content_None. znil. split; [done|lia].
  - destruct (read_internal_ok p _ _ _ ins outs Hp Hf Hr) as (_ & _ & _ & _ & _ & _ & _ & -> & _). done.
  - destruct (read_internal_ok p _ _ _ ins outs Hp Hf Hr) as (_ & _ & _ & _ & _ & _ & _ & ->).
    rewrite mb_content_None. znil. split; [done|lia].
  - split; [done|]. destruct Ht as [Harg Hne].
    destruct (write_internal_ok p mb err p' ins outs Hp Hf Harg Hne Hg Hwr) as
      (_ & _ & _ & _ & _ & _ & Ho & _ & ->). rewrite zlen_app. cbn in Hst.
    unfold getState in Hg. rewrite Ho in Hg. cbn [negb andb] in Hg.
    destruct (isFull _ _) eqn:Ef; [done|]. unfold isFull in Ef.
    rewrite MultiBuffer_Len_ok in Ef by (apply Hp || lia).
    apply andb_false_iff in Ef as [Ef|Ef]; bool_hyps; lia.
Qed.

Lemma reachable_small_ok opts n m s :
  0 ≤ m → 0 ≤ limit (p_option (New opts)) → limit (p_option (New opts)) + m < 2 ^ 31 →
  reachable_small opts n m s →
  p_option (s_pipe s) = p_option (New opts) ∧ Forall (small_thread m) (s_threads s) ∧
  zlen (mb_content (p_data (s_pipe s))) ≤ limit (p_option (New opts)) + m.
Proof.
  intros Hm Hl Hb. induction 1 as [|s i c s' Hs (Ho & Hst & Hd) Hc Hsc Hex].
  - split_and!; [done|by apply Forall_replicate|]. cbn [init_sys s_pipe]. change (p_data (New opts)) with (@None (list pbuf)).
    rewrite mb_content_None. znil. lia.
  - pose proof (reachable_ok _ _ _ (small_reachable _ _ _ _ Hs)) as [Hp Hw Hts Hf _ _].
    destruct (exec_step_inv i c s s' Hex) as (t & t' & p' & w' & Ht & Hstep & ->).
    pose proof (Forall_lookup_1 _ _ _ _ Hts Ht) as Htok. pose proof (Forall_lookup_1 _ _ _ _ Hst Ht) as Hstt.
    destruct (tstep_ok _ _ _ _ _ _ _ _ _ Hp Hw Htok Hc Hf Hstep) as (_ & _ & _ & _ & Ho').
    rewrite <- Ho in *.
    destruct (tstep_small _ _ _ _ _ _ _ m _ _ Hp Hw Htok Hc Hf Hsc Hm Hl Hb Hstt Hd Hstep) as [Hst' Hd'].
    cbn. split_and!; try done. by apply Forall_insert.
Qed.

(** ** Progress *)

(** A goroutine that serves readers or writers is never blocked. *)
Lemma serving_enabled opts n s i t :
  reachable opts n s → s_threads s !! i = Some t → serves_readers t ∨ serves_writers t →
  ∃ s', exec_step i Go s = Ret (Some s').
Proof.
  intros Hs Ht Hserve. destruct (exec_step_total opts n s i Go Hs I) as [r Hr]. rewrite Hr.
  destruct r as [s'|]; [by eexists|exfalso].
  unfold exec_step in Hr. rewrite Ht in Hr. apply go_bind_inv in Hr as ([r w'] & Hts & Hr).
  destruct r as [[t' p']|]; [done|]. unfold thread_step in Hts.
  destruct t as [last|timed|data err|timed|mb| |mb|mb err|mb|err]; cbn in Hserve; try tauto; try done.
  - destruct (readMultiBufferInternal (s_pipe s)) as [[[l|] [e|]] p1]; done.
  - destruct (writeMultiBufferInternal (s_pipe s) mb) as [[e|] p1]; [|done]. repeat case_match; done.
  - by apply M_bind_inv in Hts as (? & ? & _ & ?).
Qed.

Lemma wake_enabled opts n s i t c :
  reachable opts n s → s_threads s !! i = Some t →
  (∃ timed, t = TReadSelect timed ∧ c = OnReadSignal ∧ p_readSignal (s_pipe s) = true) ∨
  (∃ mb, t = TWriteSelect mb ∧ c = OnWriteSignal ∧ p_writeSignal (s_pipe s) = true) →
  ∃ s', exec_step i c s = Ret (Some s').
Proof.
  intros Hs Ht Hw. unfold exec_step. rewrite Ht.
  destruct Hw as [(timed & -> & -> & Htok)|(mb & -> & -> & Htok)]; unfold thread_step; rewrite Htok;
    [destruct timed|]; by eexists.
Qed.

Lemma Exists_lookup_thread (P : thread → Prop) ts : Exists P ts → ∃ i t, ts !! i = Some t ∧ P t.
Proof.
  intros (x & Hx & HP)%Exists_exists. apply list_elem_of_lookup in Hx as [i Hi]. eauto.
Qed.

(** ** Properties *)

(** C1: in every reachable state of a pipe -- any number of goroutines, calls
    and interleavings -- the bytes readers have taken are a prefix of the bytes
    writers have put in, and unless the pipe was interrupted the two differ
    exactly by what is still inside: order is kept, nothing is lost or
    duplicated. *)
Theorem pipe_fifo (opts : list Option) (n : nat) (s : sys) :
  reachable opts n s →
  s_out s `prefix_of` s_in s ∧
  (p_state (s_pipe s) ≠ Errord → s_in s = s_out s ++ mb_content (p_data (s_pipe s))).
Proof.
  intros Hs. pose proof (so_fifo s (reachable_ok _ _ _ Hs)) as Hf. unfold fifo_ok in Hf.
  destruct (p_state (s_pipe s)); try (split; [rewrite Hf; by eexists|done]).
  split; [apply Hf|done].
Qed.

(** Two goroutines: the first writes [1; 2; 3] and closes, the second reads. *)
Definition sample_write : MultiBuffer := Some [Some (FromBytes (Some (slice_of [1; 2; 3])))].
Definition sample_sched : list (nat * choice) :=
  [(1%nat, Do CallReadMultiBuffer); (1%nat, Go); (0%nat, Do (CallWriteMultiBuffer sample_write)); (0%nat, Go);
   (0%nat, Go); (1%nat, OnReadSignal); (1%nat, Go)].

Lemma sample_write_ok : arg_ok sample_write.
Proof.
  split; apply Forall_singleton; [|by eexists]. apply FromBytes_ok; vm_compute; repeat split; congruence.
Qed.

Lemma sample_reachable s' :
  run sample_sched (init_sys [] 2) = Ret (Some s') → reachable [] 2 s'.
Proof.
  apply run_reachable; [constructor|]. repeat apply Forall_cons_2; try apply Forall_nil_2; try exact I.
  exact sample_write_ok.
Qed.

Lemma pipe_fifo_witness :
  ∃ s, run sample_sched (init_sys [] 2) = Ret (Some s) ∧ s_out s = [1; 2; 3] ∧ s_out s `prefix_of` s_in s.
Proof.
  destruct (run sample_sched (init_sys [] 2)) as [[s|]| |] eqn:E; try (vm_compute in E; discriminate E).
  exists s. split; [reflexivity|]. split.
  - vm_compute in E. injection E as <-. reflexivity.
  - apply (pipe_fifo [] 2 s). by apply sample_reachable.
Defined.

(** C3: no wake-up is lost.  In every reachable state of an open pipe: if a
    reader sleeps although data is available, then a token is waiting for it or
    another goroutine is about to read or to signal; if a writer sleeps although
    the pipe was drained, then a token is waiting or another goroutine is about
    to write or to signal.  Such a goroutine is not blocked, so whenever readers
    and writers sleep at the same time some step of the pipe is enabled. *)
Theorem pipe_no_lost_wakeup (opts : list Option) (n : nat) (s : sys) :
  reachable opts n s → p_state (s_pipe s) = Open →
  (Exists in_read_select (s_threads s) → is_Some (p_data (s_pipe s)) →
     p_readSignal (s_pipe s) = true ∨ Exists serves_readers (s_threads s)) ∧
  (Exists in_write_select (s_threads s) → p_data (s_pipe s) = None →
     p_writeSignal (s_pipe s) = true ∨ Exists serves_writers (s_threads s)) ∧
  (Exists in_read_select (s_threads s) → Exists in_write_select (s_threads s) →
     ∃ i c s', c ∈ [Go; OnReadSignal; OnWriteSignal] ∧ exec_step i c s = Ret (Some s')).
Proof.
  intros Hs Ho. pose proof (reachable_ok _ _ _ Hs) as [_ _ _ _ HR HW].
  split_and!; [intros; by apply HR|intros; by apply HW|]. intros Hr Hw.
  destruct (p_data (s_pipe s)) as [l|] eqn:Ed.
  - destruct (HR Hr) as [Htok|Hsv]; [by rewrite Ed|done| |].
    + apply Exists_lookup_thread in Hr as (i & t & Ht & Hsel). destruct t; try done.
      destruct (wake_enabled opts n s i (TReadSelect timed) OnReadSignal Hs Ht) as [s' Hex]; [left; eauto|].
      exists i, OnReadSignal, s'. split; [set_solver|done].
    + apply Exists_lookup_thread in Hsv as (i & t & Ht & Hsv).
      destruct (serving_enabled opts n s i t Hs Ht) as [s' Hex]; [by left|].
      exists i, Go, s'. split; [set_solver|done].
  - destruct (HW Hw Ed Ho) as [Htok|Hsv].
    + apply Exists_lookup_thread in Hw as (i & t & Ht & Hsel). destruct t; try done.
      destruct (wake_enabled opts n s i (TWriteSelect mb) OnWriteSignal Hs Ht) as [s' Hex]; [right; eauto|].
      exists i, OnWriteSignal, s'. split; [set_solver|done].
    + apply Exists_lookup_thread in Hsv as (i & t & Ht & Hsv).
      destruct (serving_enabled opts n s i t Hs Ht) as [s' Hex]; [by right|].
      exists i, Go, s'. split; [set_solver|done].
Qed.

Lemma pipe_no_lost_wakeup_witness :
  ∃ s, run (take 5 sample_sched) (init_sys [] 2) = Ret (Some s) ∧
    (Exists in_read_select (s_threads s) → is_Some (p_data (s_pipe s)) →
     p_readSignal (s_pipe s) = true ∨ Exists serves_readers (s_threads s)).
Proof.
  destruct (run (take 5 sample_sched) (init_sys [] 2)) as [[s|]| |] eqn:E; try (vm_compute in E; discriminate E).
  exists s. split; [reflexivity|]. apply (pipe_no_lost_wakeup [] 2 s).
  - eapply run_reachable; [constructor| |exact E].
    repeat apply Forall_cons_2; try apply Forall_nil_2; try exact I. exact sample_write_ok.
  - vm_compute in E. injection E as <-. reflexivity.
Defined.

(** A pipe with a size limit holds at most the limit plus one write: if no
    write passes more than [m] bytes, at most [limit + m] bytes are ever inside
    (the code checks the size before it adds, not after). *)
Theorem pipe_bounded (opts : list Option) (n : nat) (m : Z) (s : sys) :
  0 ≤ m → 0 ≤ limit (p_option (New opts)) → limit (p_option (New opts)) + m < 2 ^ 31 →
  reachable_small opts n m s →
  zlen (mb_content (p_data (s_pipe s))) ≤ limit (p_option (New opts)) + m.
Proof. intros Hm Hl Hb Hs. by apply (reachable_small_ok opts n m s). Qed.

(** A limit of two bytes, and a write of three. *)
Definition bounded_sched : list (nat * choice) := [(0%nat, Do (CallWriteMultiBuffer sample_write)); (0%nat, Go)].

Lemma pipe_bounded_witness :
  ∃ s, run bounded_sched (init_sys [WithSizeLimit 2] 2) = Ret (Some s) ∧
    mb_content (p_data (s_pipe s)) = [1; 2; 3] ∧ zlen (mb_content (p_data (s_pipe s))) ≤ 2 + 3.
Proof.
  destruct (run bounded_sched (init_sys [WithSizeLimit 2] 2)) as [[s|]| |] eqn:E; try (vm_compute in E; discriminate E).
  exists s. split; [reflexivity|]. split; [vm_compute in E; injection E as <-; reflexivity|].
  apply (pipe_bounded [WithSizeLimit 2] 2 3 s); try (cbn; lia).
  apply (run_small _ _ _ bounded_sched (init_sys [WithSizeLimit 2] 2)); [constructor| |done].
  repeat apply Forall_cons_2; try apply Forall_nil_2; split; try exact I; [exact sample_write_ok|vm_compute; congruence].
Defined.



(** After [Close], writes fail with [io.ErrClosedPipe] and readers get
    everything that is still inside, with a nil error, and [io.EOF] once the
    pipe is drained. *)
Theorem pipe_close_drains (opts : list Option) (n : nat) (s : sys) (i : nat) (t : thread) :
  reachable opts n s → p_state (s_pipe s) = Closed → s_threads s !! i = Some t →
  match t with
  | TRead timed =>
      ∃ s', exec_step i Go s = Ret (Some s') ∧
        s_threads s' = <[i := (if bool_decide (mb_content (p_data (s_pipe s)) = [])
                               then TReadSignal None (Some (ErrNew EOF))
                               else TReadSignal (p_data (s_pipe s)) None)]> (s_threads s) ∧
        mb_content (p_data (s_pipe s')) = []
  | TWrite mb =>
      ∃ s', exec_step i Go s = Ret (Some s') ∧
        s_threads s' = <[i := TWriteFail mb (Some (ErrNew ErrClosedPipe))]> (s_threads s) ∧
        s_pipe s' = s_pipe s
  | _ => True
  end.
Proof.
  intros Hs Hst Ht. pose proof (reachable_ok _ _ _ Hs) as [Hp _ _ _ _ _].
  destruct t as [last|timed|data err|timed|mb| |mb|mb err|mb|err]; try done;
    unfold exec_step; rewrite Ht; cbn [thread_step].
  - unfold readMultiBufferInternal, getState. rewrite Hst. cbn [negb].
    rewrite MultiBuffer_IsEmpty_ok by apply Hp. case_bool_decide as E; cbn [negb].
    + eexists. split; [reflexivity|]. split; [reflexivity|]. exact E.
    + destruct (p_data (s_pipe s)) as [l|] eqn:Ed; [|done].
      eexists. split; [reflexivity|]. split; [reflexivity|]. done.
  - unfold writeMultiBufferInternal, getState. rewrite Hst. cbn [negb].
    eexists. split; [reflexivity|]. split; reflexivity.
Qed.

Lemma pipe_close_drains_witness :
  ∃ s, run [(0%nat, Do CallClose); (1%nat, Do CallReadMultiBuffer)] (init_sys [] 2) = Ret (Some s) ∧
    ∃ s', exec_step 1 Go s = Ret (Some s') ∧
      s_threads s' = <[1%nat := TReadSignal None (Some (ErrNew EOF))]> (s_threads s) ∧
      mb_content (p_data (s_pipe s')) = [].
Proof.
  destruct (run [(0%nat, Do CallClose); (1%nat, Do CallReadMultiBuffer)] (init_sys [] 2)) as [[s|]| |] eqn:E;
    try (vm_compute in E; discriminate E).
  exists s. split; [reflexivity|]. assert (reachable [] 2 s) as Hs.
  { eapply run_reachable; [constructor| |exact E]. repeat apply Forall_cons_2; try apply Forall_nil_2; exact I. }
  vm_compute in E. injection E as <-.
  exact (pipe_close_drains [] 2 _ 1 (TRead false) Hs eq_refl eq_refl).
Defined.
