(* ===== verification/Serializer.v ===== *)
(** * Unbounded buffer and callback serializer

    buffer/unbounded.go, concurrent/callback_serializer.go and
    incubator/coroutines/callback_serializer.go.

    Each method of [Unbounded] runs under its mutex and is one step; the
    serializer's goroutine [run] is a state machine whose steps interleave with
    calls of [Put] by any number of producers and with the cancellation of the
    context. *)
From S2P Require Import Prelude Errors.

(** ** buffer.Unbounded *)
Module Unbounded.

(** [c] is a channel of capacity one: what it holds and whether it is closed. *)
Record Unbounded (A : Type) := mkUnbounded {
  c : option A;
  c_closed : bool;
  closed : bool;
  closing : bool;
  backlog : list A
}.
Arguments mkUnbounded {A}.
Arguments c {A}.
Arguments c_closed {A}.
Arguments closed {A}.
Arguments closing {A}.
Arguments backlog {A}.

Definition NewUnbounded {A} : Unbounded A := mkUnbounded None false false false [].

Definition errBufferClosed := Sentinel "buffer.errBufferClosed" "Put called on closed buffer.Unbounded".

(** [select { case b.c <- t: ... default: ... }]: [Ret None] is the default
    case; a send on a closed channel panics. *)
Definition try_send {A} (b : Unbounded A) (t : A) : go (option (Unbounded A)) :=
  if c_closed b then Panic "send on closed channel"
  else match c b with
       | None => Ret (Some (mkUnbounded (Some t) (c_closed b) (closed b) (closing b) (backlog b)))
       | Some _ => Ret None
       end.

(** [close(b.c)] *)
Definition close_c {A} (b : Unbounded A) : go (Unbounded A) :=
  if c_closed b then Panic "close of closed channel"
  else Ret (mkUnbounded (c b) true (closed b) (closing b) (backlog b)).

Definition Put {A} (b : Unbounded A) (t : A) : go (option error * Unbounded A) :=
  if closing b then Ret (Some (ErrNew errBufferClosed), b)
  else
    let append := Ret (None, mkUnbounded (c b) (c_closed b) (closed b) (closing b) (backlog b ++ [t])) in
    match backlog b with
    | [] => r ← try_send b t; match r with Some b' => Ret (None, b') | None => append end
    | _ => append
    end.

Definition Load {A} (b : Unbounded A) : go (Unbounded A) :=
  match backlog b with
  | x :: rest =>
      r ← try_send b x;
      match r with
      | Some b' => Ret (mkUnbounded (c b') (c_closed b') (closed b') (closing b') rest)
      | None => Ret b
      end
  | [] => if closing b && negb (closed b) then close_c b else Ret b
  end.

Definition Close {A} (b : Unbounded A) : go (Unbounded A) :=
  if closing b then Ret b
  else
    let b1 := mkUnbounded (c b) (c_closed b) (closed b) true (backlog b) in
    match backlog b1 with
    | [] => close_c (mkUnbounded (c b1) (c_closed b1) true (closing b1) (backlog b1))
    | _ => Ret b1
    end.

(** A receive on [Get()]. *)
Inductive received (A : Type) := Value (a : A) | ChanClosed | Blocked.
Arguments Value {A} a.
Arguments ChanClosed {A}.
Arguments Blocked {A}.

Definition receive {A} (b : Unbounded A) : received A * Unbounded A :=
  match c b with
  | Some a => (Value a, mkUnbounded None (c_closed b) (closed b) (closing b) (backlog b))
  | None => (if c_closed b then ChanClosed else Blocked, b)
  end.

End Unbounded.

(** ** concurrent.CallbackSerializer *)
Module Serializer.
Import Unbounded.

Section Model.
Context {A : Type}.

(** Program points of [run]. *)
Inductive pc :=
  | RLoop                    (** [for ctx.Err() == nil] *)
  | RSelect                  (** in the [select] *)
  | RLoad (cb : A)           (** before [cs.callbacks.Load()], first loop *)
  | RRun (cb : A)            (** before calling the callback, first loop *)
  | RClose                   (** before [cs.callbacks.Close()] *)
  | RRange                   (** head of the [range] loop *)
  | RLoad2 (cb : A)
  | RRun2 (cb : A)
  | RDone.                   (** returned; [cs.done] is closed *)

Record cs := mkCs {
  callbacks : Unbounded A;
  ctx_canceled : bool;
  run_pc : pc;
  done_closed : bool;
  (** history: callbacks run so far, and callbacks accepted by [Put] *)
  executed : list A;
  accepted : list A
}.

Definition NewCallbackSerializer : cs := mkCs NewUnbounded false RLoop false [] [].

Definition set_run (s : cs) (u : Unbounded A) (p : pc) : cs :=
  mkCs u (ctx_canceled s) p (done_closed s) (executed s) (accepted s).

(** The ready cases of the [select]. *)
Inductive pick := PickDone | PickCallback.

(** One step of [run]; [None]: blocked.  A nil interface value (a receive from
    a closed channel) fails the type assertion. *)
Definition run_step (k : pick) (s : cs) : go (option cs) :=
  match run_pc s with
  | RLoop => Ret (Some (set_run s (callbacks s) (if ctx_canceled s then RClose else RSelect)))
  | RSelect =>
      match k with
      | PickDone => if ctx_canceled s then Ret (Some (set_run s (callbacks s) RLoop)) else Ret None
      | PickCallback =>
          match receive (callbacks s) with
          | (Value cb, u) => Ret (Some (set_run s u (RLoad cb)))
          | (ChanClosed, _) => Panic "interface conversion: interface {} is nil, not func(context.Context)"
          | (Blocked, _) => Ret None
          end
      end
  | RLoad cb => u ← Load (callbacks s); Ret (Some (set_run s u (RRun cb)))
  | RRun cb =>
      Ret (Some (mkCs (callbacks s) (ctx_canceled s) RLoop (done_closed s) (executed s ++ [cb]) (accepted s)))
  | RClose => u ← Close (callbacks s); Ret (Some (set_run s u RRange))
  | RRange =>
      match receive (callbacks s) with
      | (Value cb, u) => Ret (Some (set_run s u (RLoad2 cb)))
      | (ChanClosed, u) =>
          if done_closed s then Panic "close of closed channel"
          else Ret (Some (mkCs u (ctx_canceled s) RDone true (executed s) (accepted s)))
      | (Blocked, _) => Ret None
      end
  | RLoad2 cb => u ← Load (callbacks s); Ret (Some (set_run s u (RRun2 cb)))
  | RRun2 cb =>
      Ret (Some (mkCs (callbacks s) (ctx_canceled s) RRange (done_closed s) (executed s ++ [cb]) (accepted s)))
  | RDone => Ret None
  end.

(** [TrySchedule(f)] *)
Definition TrySchedule (s : cs) (f : A) : go cs :=
  '(err, u) ← Put (callbacks s) f;
  Ret (mkCs u (ctx_canceled s) (run_pc s) (done_closed s) (executed s)
        (match err with None => accepted s ++ [f] | Some _ => accepted s end)).

(** [ScheduleOr(f, onFailure)]: also whether [onFailure] was called. *)
Definition ScheduleOr (s : cs) (f : A) : go (bool * cs) :=
  '(err, u) ← Put (callbacks s) f;
  match err with
  | Some _ => Ret (true, mkCs u (ctx_canceled s) (run_pc s) (done_closed s) (executed s) (accepted s))
  | None => Ret (false, mkCs u (ctx_canceled s) (run_pc s) (done_closed s) (executed s) (accepted s ++ [f]))
  end.

Definition cancel (s : cs) : cs :=
  mkCs (callbacks s) true (run_pc s) (done_closed s) (executed s) (accepted s).

(** [Done()] *)
Definition Done (s : cs) : bool := done_closed s.

(** Interleavings. *)
Inductive event := ERun (k : pick) | ESchedule (f : A) | EScheduleOr (f : A) | ECancel.

Definition exec (e : event) (s : cs) : go (option cs) :=
  match e with
  | ERun k => run_step k s
  | ESchedule f => s' ← TrySchedule s f; Ret (Some s')
  | EScheduleOr f => '(_, s') ← ScheduleOr s f; Ret (Some s')
  | ECancel => Ret (Some (cancel s))
  end.

Fixpoint exec_all (es : list event) (s : cs) : go (option cs) :=
  match es with
  | [] => Ret (Some s)
  | e :: es' => r ← exec e s; match r with None => Ret None | Some s' => exec_all es' s' end
  end.

Inductive reachable : cs → Prop :=
  | reach_init : reachable NewCallbackSerializer
  | reach_step s e s' : reachable s → exec e s = Ret (Some s') → reachable s'.

End Model.
Arguments pc : clear implicits.
Arguments cs : clear implicits.
Arguments event : clear implicits.

End Serializer.

(** ** coroutines.CallbackSerializer: a bounded channel and a loop *)
Module Coroutines.
Section Model.
Context {A : Type}.

(** [None] in the queue is a nil function; [loop_done]: [loop] has returned. *)
Record cs := mkCs {
  ch : list (option A); channelSize : nat; ctx_canceled : bool; loop_done : bool; executed : list A }.

Definition NewCallbackSerializer (size : nat) : cs := mkCs [] size false false [].

(** [cs.ch <- f]: [None] blocks (a receiver waiting at an unbuffered channel
    is the receive step of [loop]). *)
Definition Schedule (s : cs) (f : option A) : option cs :=
  if (length (ch s) <? channelSize s)%nat
  then Some (mkCs (ch s ++ [f]) (channelSize s) (ctx_canceled s) (loop_done s) (executed s)) else None.

Inductive pick := PickFunc | PickDone.

Definition loop_step (k : pick) (s : cs) : option cs :=
  if loop_done s then None
  else
    match k with
    | PickFunc =>
        match ch s with
        | [] => None
        | f :: rest =>
            Some (mkCs rest (channelSize s) (ctx_canceled s) (loop_done s)
                    (match f with Some g => executed s ++ [g] | None => executed s end))
        end
    | PickDone =>
        if ctx_canceled s then Some (mkCs (ch s) (channelSize s) (ctx_canceled s) true (executed s)) else None
    end.
End Model.
End Coroutines.

(** ** Properties *)
Import Unbounded Serializer.

Section Facts.
Context {A : Type}.
Implicit Types (s : cs A) (u : Unbounded A).

(** What is between acceptance and execution, oldest first. *)
Definition in_flight (p : pc A) : list A :=
  match p with RLoad cb | RRun cb | RLoad2 cb | RRun2 cb => [cb] | _ => [] end.
Definition queued u : list A := option_list (c u) ++ backlog u.

(** The state of the buffer at each program point. *)
Definition phase_ok (p : pc A) u : Prop :=
  match p with
  | RLoop | RSelect | RRun _ | RClose =>
      closing u = false ∧ closed u = false ∧ c_closed u = false ∧ (backlog u ≠ [] → is_Some (c u))
  | RLoad _ => closing u = false ∧ closed u = false ∧ c_closed u = false
  | RRange | RRun2 _ =>
      closing u = true ∧ (backlog u ≠ [] → is_Some (c u)) ∧ (c_closed u = true ∨ is_Some (c u)) ∧
      (closed u = true → c_closed u = true) ∧ (c_closed u = true → backlog u = []) ∧
      (c_closed u = true → closed u = false → c u = None)
  | RLoad2 _ =>
      closing u = true ∧ c u = None ∧ closed u = c_closed u ∧ (c_closed u = true → backlog u = [])
  | RDone => closing u = true ∧ c u = None ∧ backlog u = []
  end.

(** Facts about flags and options, by cases and congruence. *)
Ltac phase_tac :=
  repeat match goal with H : _ ∧ _ |- _ => destruct H end;
  split_and?; intros; try done; try congruence;
  repeat match goal with
  | H : ?P → _ |- _ =>
      let HP := fresh in assert (HP : P) by first [done | congruence | by eexists]; specialize (H HP); clear HP
  | H : _ ∨ _ |- _ => destruct H
  | H : is_Some _ |- _ => destruct H
  end; split_and?; try done; try congruence; try (by eexists); try (left; congruence); try (right; by eexists).

Record ser_ok s : Prop := {
  so_fifo : accepted s = executed s ++ in_flight (run_pc s) ++ queued (callbacks s);
  so_phase : phase_ok (run_pc s) (callbacks s);
  so_done : done_closed s = match run_pc s with RDone => true | _ => false end
}.

Lemma Put_ok (p : pc A) u f :
  phase_ok p u →
  ∃ e u', Put u f = Ret (e, u') ∧ phase_ok p u' ∧
    (e = None → closing u = false ∧ queued u' = queued u ++ [f]) ∧ (is_Some e → u' = u ∧ closing u = true).
Proof.
  intros Hp. unfold Put. destruct (closing u) eqn:Ec.
  { eexists _, _. split; [reflexivity|]. by split_and!. }
  assert (Hopen : closed u = false ∧ c_closed u = false) by (destruct p; cbn in Hp; phase_tac).
  destruct Hopen as [Hcl Hcc].
  unfold try_send, queued. destruct (backlog u) as [|x rest] eqn:Eb.
  - rewrite Hcc. destruct (c u) as [y|] eqn:Ecu; (eexists _, _; split; [reflexivity|]); cbn.
    + split_and!; try done; try (by intros [? ?]). destruct p; cbn in *; rewrite ?Ecu, ?Eb in *; phase_tac.
    + rewrite ?Eb. split_and!; try done; try (by intros [? ?]).
      destruct p; cbn in *; rewrite ?Ecu, ?Eb in *; phase_tac.
  - eexists _, _. split; [reflexivity|]. cbn. split_and!; try (by intros [? ?]);
      [|intros _; split; [done|by rewrite <- app_assoc]].
    destruct p; cbn in *; rewrite ?Eb in *; phase_tac.
Qed.

Lemma run_step_ok k s s' : ser_ok s → run_step k s = Ret (Some s') → ser_ok s'.
Proof.
  intros [Hf Hp Hd] Heq. unfold run_step in Heq.
  destruct (run_pc s) as [| |cb|cb| | |cb|cb|] eqn:Epc; cbn in Hf, Hp.
  - injection Heq as <-. split; cbn; destruct (ctx_canceled s); done.
  - destruct k; [destruct (ctx_canceled s); [|done]; injection Heq as <-; by split|].
    unfold receive in Heq. unfold queued in Hf. destruct (c (callbacks s)) as [a|] eqn:Ec.
    + injection Heq as <-. split; cbn; [done|phase_tac|done].
    + destruct (c_closed (callbacks s)); done.
  - destruct Hp as (H1 & H2 & H3). unfold Load, try_send in Heq. rewrite H3 in Heq.
    unfold queued in Hf. destruct (backlog (callbacks s)) as [|x rest] eqn:Eb.
    + rewrite H1 in Heq. cbn in Heq. injection Heq as <-. split; cbn; unfold queued; rewrite ?Eb; phase_tac.
    + destruct (c (callbacks s)) as [a|] eqn:Ec; cbn in Heq; injection Heq as <-; split; cbn; unfold queued;
        rewrite ?Eb, ?Ec; phase_tac.
  - injection Heq as <-. split; cbn; [|done|done]. by rewrite <- app_assoc.
  - destruct Hp as (H1 & H2 & H3 & H4). unfold Close in Heq. rewrite H1 in Heq. cbn in Heq.
    unfold queued in Hf. destruct (backlog (callbacks s)) as [|x rest] eqn:Eb.
    + unfold close_c in Heq. cbn in Heq. rewrite H3 in Heq. cbn in Heq. injection Heq as <-.
      split; cbn; unfold queued; cbn; rewrite ?Eb; phase_tac.
    + cbn in Heq. injection Heq as <-. split; cbn; unfold queued; cbn; rewrite ?Eb; phase_tac.
  - destruct Hp as (H1 & H2 & H3 & H4 & H5 & H6). unfold receive in Heq. unfold queued in Hf.
    destruct (c (callbacks s)) as [a|] eqn:Ec.
    + injection Heq as <-. split; cbn; [done| |done]. split_and!; try done.
      destruct (closed (callbacks s)) eqn:E1, (c_closed (callbacks s)) eqn:E2; phase_tac.
    + destruct (c_closed (callbacks s)) eqn:E2; [|done]. rewrite Hd in Heq. injection Heq as <-.
      split; cbn; [|phase_tac|done]. unfold queued. rewrite Ec, H5 in * by done. done.
  - destruct Hp as (H1 & H2 & H3 & H4). unfold Load, try_send in Heq. unfold queued in Hf. rewrite H2 in *.
    destruct (backlog (callbacks s)) as [|x rest] eqn:Eb.
    + rewrite H1 in Heq. cbn in Heq. destruct (closed (callbacks s)) eqn:E1; cbn in Heq.
      * injection Heq as <-. split; cbn; unfold queued; rewrite ?Eb, ?H2; phase_tac.
      * unfold close_c in Heq. rewrite <- H3 in Heq. cbn in Heq. injection Heq as <-.
        split; cbn; unfold queued; cbn; rewrite ?Eb, ?H2; phase_tac.
    + destruct (c_closed (callbacks s)) eqn:E2; [phase_tac|]. cbn in Heq. injection Heq as <-.
      split; cbn; unfold queued; cbn; phase_tac.
  - injection Heq as <-. split; cbn; [|done|done]. by rewrite <- app_assoc.
  - done.
Qed.

Lemma exec_ok e s s' : ser_ok s → exec e s = Ret (Some s') → ser_ok s'.
Proof.
  intros Hs Heq. destruct e as [k|f|f|]; cbn in Heq.
  - by eapply run_step_ok.
  - destruct Hs as [Hf Hp Hd]. apply go_bind_inv in Heq as (s1 & Ht & [= <-]). unfold TrySchedule in Ht.
    destruct (Put_ok (run_pc s) (callbacks s) f Hp) as (e & u' & Hput & Hp' & HN & HS). rewrite Hput in Ht.
    injection Ht as <-. split; cbn; [|done|done]. destruct e as [e|].
    + destruct HS as [-> _]; [by eexists|done].
    + destruct HN as [_ ->]; [done|]. by rewrite Hf, !app_assoc.
  - destruct Hs as [Hf Hp Hd]. apply go_bind_inv in Heq as ([b s1] & Ht & [= <-]). unfold ScheduleOr in Ht.
    destruct (Put_ok (run_pc s) (callbacks s) f Hp) as (e & u' & Hput & Hp' & HN & HS). rewrite Hput in Ht.
    destruct e as [e|]; injection Ht as <- <-; split; cbn; try done.
    + destruct HS as [-> _]; [by eexists|done].
    + destruct HN as [_ ->]; [done|]. by rewrite Hf, !app_assoc.
  - injection Heq as <-. destruct Hs. by split.
Qed.

Lemma reachable_ser_ok s : reachable s → ser_ok s.
Proof. induction 1; [by split|by eapply exec_ok]. Qed.
End Facts.

Section Progress.
Context {A : Type}.
Implicit Types (s : cs A) (u : Unbounded A).

Lemma run_step_total k s : ser_ok s → ∃ r, run_step k s = Ret r.
Proof.
  intros [Hf Hp Hd]. unfold run_step.
  destruct (run_pc s) as [| |cb|cb| | |cb|cb|] eqn:Epc; cbn in Hp; try (by eexists).
  - destruct k; [destruct (ctx_canceled s); by eexists|]. destruct Hp as (_ & _ & Hc & _).
    unfold receive. destruct (c (callbacks s)); [by eexists|]. rewrite Hc. by eexists.
  - destruct Hp as (H1 & H2 & H3). unfold Load, try_send. rewrite H1, H3.
    destruct (backlog (callbacks s)), (c (callbacks s)); by eexists.
  - destruct Hp as (H1 & H2 & H3 & _). unfold Close, close_c. rewrite H1. cbn. rewrite H3.
    destruct (backlog (callbacks s)); by eexists.
  - unfold receive. rewrite Hd. destruct (c (callbacks s)); [by eexists|]. destruct (c_closed (callbacks s)); by eexists.
  - destruct Hp as (H1 & H2 & H3 & H4). unfold Load, try_send, close_c. rewrite H1, H2.
    destruct (backlog (callbacks s)) eqn:Eb.
    + rewrite H3. destruct (c_closed (callbacks s)); by eexists.
    + destruct (c_closed (callbacks s)); [by specialize (H4 eq_refl)|by eexists].
Qed.

Lemma exec_total e s : ser_ok s → ∃ r, exec e s = Ret r.
Proof.
  intros Hs. destruct e as [k|f|f|]; cbn.
  - by apply run_step_total.
  - unfold TrySchedule. destruct (Put_ok _ _ f (so_phase s Hs)) as (e & u' & -> & _). by eexists.
  - unfold ScheduleOr. destruct (Put_ok _ _ f (so_phase s Hs)) as ([e|] & u' & -> & _); by eexists.
  - by eexists.
Qed.

Lemma exec_all_reachable es s s' : reachable s → exec_all es s = Ret (Some s') → reachable s'.
Proof.
  revert s. induction es as [|e es IH]; intros s Hs Heq; cbn in Heq; [by injection Heq as <-|].
  apply go_bind_inv in Heq as ([s1|] & He & Heq); [|done]. eapply IH; [|done]. by eapply reach_step.
Qed.

(** [n] steps of [run] alone, taking the context's case of the [select]. *)
Definition run_n (n : nat) s : go (option (cs A)) := exec_all (replicate n (ERun PickDone)) s.

Lemma run_n_step n s s' : run_step PickDone s = Ret (Some s') → run_n (S n) s = run_n n s'.
Proof. intros Hs. unfold run_n. cbn [replicate exec_all exec]. by rewrite Hs. Qed.

(** Steps left when nothing is added any more. *)
Definition steps_left s : nat :=
  let q := length (queued (callbacks s)) in
  match run_pc s with
  | RDone => 0
  | RRange => 3 * q + 1
  | RLoad2 _ => 3 * q + 3
  | RRun2 _ => 3 * q + 2
  | RClose => 3 * q + 2
  | RLoop => 3 * q + 3
  | RSelect => 3 * q + 4
  | RRun _ => 3 * q + 4
  | RLoad _ => 3 * q + 5
  end.

(** Once the context is cancelled, [run] is never blocked before it has
    returned, and each step brings the end nearer. *)
Lemma run_step_progress s :
  ser_ok s → ctx_canceled s = true → run_pc s ≠ RDone →
  ∃ s', run_step PickDone s = Ret (Some s') ∧ ctx_canceled s' = true ∧ accepted s' = accepted s ∧
        (steps_left s' < steps_left s)%nat.
Proof.
  intros Hs Hc Hne. pose proof Hs as [Hf Hp Hd].
  unfold run_step, steps_left, queued.
  destruct (run_pc s) as [| |cb|cb| | |cb|cb|] eqn:Epc; cbn in Hp; rewrite ?Hc; try done;
    try (eexists; split; [reflexivity|]; cbn; unfold queued; split_and!; [done..|lia]).
  - destruct Hp as (H1 & H2 & H3). unfold Load, try_send. rewrite H1, H3.
    destruct (backlog (callbacks s)) eqn:Eb, (c (callbacks s)) eqn:Ec; (eexists; split; [reflexivity|]); cbn;
      unfold queued; rewrite ?Eb, ?Ec; cbn; split_and!; try done; lia.
  - destruct Hp as (H1 & H2 & H3 & _). unfold Close, close_c. rewrite H1. cbn. rewrite H3.
    destruct (backlog (callbacks s)) eqn:Eb; (eexists; split; [reflexivity|]); cbn; unfold queued; rewrite ?Eb;
      cbn; rewrite ?Eb; split_and!; try done; lia.
  - destruct Hp as (H1 & H2 & H3 & H4 & H5 & H6). unfold receive. rewrite Hd.
    destruct (c (callbacks s)) eqn:Ec.
    + eexists. split; [reflexivity|]. cbn. unfold queued; cbn. split_and!; try done. lia.
    + destruct H3 as [H3|[? ?]]; [|done]. rewrite H3. eexists. split; [reflexivity|]. cbn. split_and!; try done. lia.
  - destruct Hp as (H1 & H2 & H3 & H4). unfold Load, try_send, close_c. rewrite H1, H2.
    destruct (backlog (callbacks s)) eqn:Eb.
    + rewrite H3. destruct (c_closed (callbacks s)); (eexists; split; [reflexivity|]); cbn; unfold queued; cbn;
        rewrite ?Eb, ?H2; cbn; split_and!; try done; lia.
    + destruct (c_closed (callbacks s)); [by specialize (H4 eq_refl)|]. eexists. split; [reflexivity|]. cbn.
      unfold queued; cbn. split_and!; try done. lia.
Qed.

Lemma run_n_drains k s :
  ser_ok s → ctx_canceled s = true → (steps_left s ≤ k)%nat →
  ∃ n s', (n ≤ k)%nat ∧ run_n n s = Ret (Some s') ∧ run_pc s' = RDone ∧ done_closed s' = true ∧
    accepted s' = accepted s ∧ executed s' = accepted s.
Proof.
  revert s. induction k as [|k IH]; intros s Hs Hc Hk.
  - destruct (run_pc s) eqn:Epc; unfold steps_left in Hk; rewrite Epc in Hk; try lia.
    exists 0%nat, s. destruct Hs as [Hf Hp Hd]. rewrite Epc in *. cbn in *. unfold queued in Hf.
    destruct Hp as (_ & H1 & H2). rewrite H1, H2 in Hf. cbn in Hf. rewrite app_nil_r in Hf. done.
  - destruct (decide (steps_left s = 0%nat)) as [H0|H0].
    { destruct (IH s Hs Hc) as (n & s' & Hn & Hrest); [lia|]. exists n, s'. split; [lia|done]. }
    assert (run_pc s ≠ RDone) as Hne by (intros E; unfold steps_left in H0; by rewrite E in H0).
    destruct (run_step_progress s Hs Hc Hne) as (s1 & Hst & Hc1 & Ha1 & Hlt).
    destruct (IH s1) as (n & s' & Hn & Hrun & Hpc & Hdn & Ha & He); [by eapply run_step_ok|done|lia|].
    exists (S n), s'. rewrite (run_n_step n s s1 Hst). split_and!; try done; [lia|congruence..].
Qed.
End Progress.

(** C32: the callback serializer runs callbacks in the order they were
    accepted, each at most once: in every reachable state the callbacks run so
    far, the one being run and those queued are together exactly the accepted
    ones. *)
Theorem serializer_fifo {A : Type} (s : cs A) :
  reachable s →
  accepted s = executed s ++ in_flight (run_pc s) ++ queued (callbacks s) ∧ executed s `prefix_of` accepted s.
Proof.
  intros Hs. pose proof (so_fifo s (reachable_ser_ok s Hs)) as Hf. split; [done|]. rewrite Hf. by eexists.
Qed.

Lemma serializer_fifo_witness :
  ∃ s : cs Z, exec_all [ESchedule 1; ESchedule 2; ERun PickDone; ERun PickCallback; ERun PickDone; ERun PickDone]
      NewCallbackSerializer = Ret (Some s) ∧ executed s = [1] ∧ executed s `prefix_of` accepted s.
Proof.
  destruct (exec_all [ESchedule 1; ESchedule 2; ERun PickDone; ERun PickCallback; ERun PickDone; ERun PickDone]
      (NewCallbackSerializer (A := Z))) as [[s|]| |] eqn:E; try (vm_compute in E; discriminate E).
  exists s. split; [reflexivity|]. split; [vm_compute in E; injection E as <-; reflexivity|].
  apply (serializer_fifo s). eapply exec_all_reachable; [constructor|exact E].
Defined.

(** C17: shutdown runs everything.  From any reachable state, once the context
    is cancelled, [run] left to itself returns within a bounded number of steps
    without blocking; by then every accepted callback has been run exactly once
    and in order, and [Done()] is closed. *)
Theorem serializer_shutdown {A : Type} (s : cs A) :
  reachable s → ctx_canceled s = true →
  ∃ n s', (n ≤ 3 * length (queued (callbacks s)) + 5)%nat ∧ run_n n s = Ret (Some s') ∧
    run_pc s' = RDone ∧ Done s' = true ∧ executed s' = accepted s ∧ accepted s' = accepted s.
Proof.
  intros Hs Hc. destruct (run_n_drains (steps_left s) s (reachable_ser_ok s Hs) Hc) as
    (n & s' & Hn & Hrun & Hpc & Hd & Ha & He); [lia|].
  exists n, s'. split_and!; try done. unfold steps_left in Hn. destruct (run_pc s); lia.
Qed.

Lemma serializer_shutdown_witness :
  ∃ s : cs Z, exec_all [ESchedule 1; ESchedule 2; ECancel] NewCallbackSerializer = Ret (Some s) ∧
    ∃ n s', (n ≤ 11)%nat ∧ run_n n s = Ret (Some s') ∧ executed s' = [1; 2].
Proof.
  destruct (exec_all [ESchedule 1; ESchedule 2; ECancel] (NewCallbackSerializer (A := Z))) as [[s|]| |] eqn:E;
    try (vm_compute in E; discriminate E).
  exists s. split; [reflexivity|].
  assert (reachable s) as Hs by (eapply exec_all_reachable; [constructor|exact E]).
  vm_compute in E. injection E as <-.
  destruct (serializer_shutdown _ Hs eq_refl) as (n & s' & Hn & Hrun & _ & _ & He & _).
  exists n, s'. split; [exact Hn|]. split; [exact Hrun|exact He].
Defined.

(** No step of the serializer panics: the one goroutine that receives
    never closes a closed channel, sends on one, or runs a nil callback. *)
Theorem serializer_never_panics {A : Type} (s : cs A) (e : event A) :
  reachable s → ∃ r, exec e s = Ret r.
Proof. intros Hs. by apply exec_total, reachable_ser_ok. Qed.

Lemma serializer_never_panics_witness :
  ∃ r, exec (ERun PickCallback) (NewCallbackSerializer (A := Z)) = Ret r.
Proof. apply serializer_never_panics. constructor. Defined.

(** Cancelling the context does not by itself stop new callbacks from
    being accepted: until [run] has reached [callbacks.Close()], a callback
    scheduled after the cancellation is accepted and run. *)
Theorem serializer_accepts_after_cancel {A : Type} (f : A) :
  ∃ s : cs A, exec_all [ECancel; ESchedule f] NewCallbackSerializer = Ret (Some s) ∧
    ctx_canceled s = true ∧ accepted s = [f] ∧
    ∃ n s', run_n n s = Ret (Some s') ∧ executed s' = [f].
Proof.
  eexists. split; [reflexivity|]. split_and!; [done..|].
  exists 6%nat. eexists. split; reflexivity.
Qed.

(** An [Unbounded] read by two goroutines that follow its documentation
    (one [Load] per value read) can panic.  The first takes 1 and is delayed
    before its [Load]; 2 and 3 are put and the buffer is closed; the second
    takes 2, loads, and takes 3; the two remaining [Load]s both find an empty
    backlog and close the channel, because [Load] does not set [closed]. *)
Theorem unbounded_two_readers_panic :
  ∃ u : Unbounded Z,
    (('(_, u) ← Put NewUnbounded 1;
      let '(_, u) := receive u in
      '(_, u) ← Put u 2; '(_, u) ← Put u 3; u ← Close u;
      let '(_, u) := receive u in
      u ← Load u;
      let '(_, u) := receive u in
      Load u) = Ret u) ∧
    Load u = Panic "close of closed channel".
Proof. eexists. split; reflexivity. Qed.
