(* ===== verification/Http2Frames.v ===== *)
(** * HTTP/2 frames and gRPC messages on the wire

    binproto/http2 (grpc.go, reader.go, writer.go), grpc/tcpclient/writer.go and
    http/client/codec.go.  Logging is left out.  Code of other modules enters as
    parameters: protobuf's [Marshal]/[Unmarshal], HPACK's encoder and gzip. *)
From S2P Require Import Prelude Errors Bytespool IO Wire.

Definition http2frameHeaderLen : Z := 9.

(** Write the header, then the payload; the first error stops. *)
Definition write_two {T} `{IOWriter T} (w : T) (header payload : bytes) (skip_payload : bool)
  : M (option error * T) :=
  '(_, err, w1) ← io_write w header;
  match err with
  | Some e => mret (Some e, w1)
  | None =>
      if skip_payload then mret (None, w1)
      else '(_, err2, w2) ← io_write w1 payload; mret (err2, w2)
  end.

(** The nine header bytes: [buf[0..2]] the length, [buf[3]] the type, [buf[4]]
    the flags, [buf[5..8]] the stream identifier. *)
Definition frame_header (length typ flags streamID : Z) : bytes :=
  put_len24 length ++ [typ; flags] ++ be_PutUint32 streamID.

(** ** gRPC messages *)
Module Grpc.

Definition errInvalidFrame := Errorf "invalid grpc frame data" None.
Definition errCompressed := Errorf "compressed responses are not supported in this client" None.

Definition EncodeGrpcPayload (payload : bytes) : bytes :=
  [0] ++ be_PutUint32 (u32 (zlen payload)) ++ payload.

(** [binary.BigEndian.Uint32(data[1:5])] *)
Definition message_length (data : slice) : go Z :=
  b ← s_sub data 1 5;
  b0 ← s_index b 0; b1 ← s_index b 1; b2 ← s_index b 2; b3 ← s_index b 3;
  Ret (be_Uint32 b0 b1 b2 b3).

(** [data[5 : 5+messageLength]], the sum in 32 bits; a slice expression checks
    against the capacity. *)
Definition message_data (data : slice) (messageLength : Z) : go bytes :=
  s ← s_sub data 5 (u32 (5 + messageLength)); Ret (s_bytes s).

Definition DecodeGrpcPayload (data : slice) : go (option bytes * option error) :=
  if s_len data <? 5 then Ret (None, Some errInvalidFrame)
  else
    compressedFlag ← s_index data 0;
    if negb (compressedFlag =? 0) then Ret (None, Some errCompressed)
    else
      messageLength ← message_length data;
      messageData ← message_data data messageLength;
      Ret (Some messageData, None).

Section Proto.
Context {Msg : Type} (Marshal : Msg → bytes + error) (Unmarshal : bytes → Msg → option error * Msg).
Context (decompress_gzip : bytes → bytes + error).

(** [log.Fatalf] exits the process. *)
Definition EncodeGrpcFrame (message : Msg) : go (bytes * option error) :=
  match Marshal message with
  | inr _ => Panic "Failed to serialize request"
  | inl protoData => Ret ([0] ++ be_PutUint32 (u32 (zlen protoData)) ++ protoData, None)
  end.

Definition DecodeGrpcFrame (data : slice) (message : Msg) : go (option error * Msg) :=
  if s_len data <? 5 then Ret (Some errInvalidFrame, message)
  else
    compressedFlag ← s_index data 0;
    messageLength ← message_length data;
    messageData ← message_data data messageLength;
    if negb (compressedFlag =? 0) then Ret (Some errCompressed, message)
    else Ret (Unmarshal messageData message).

Definition decompress (data algo : bytes) : bytes + error :=
  if bool_decide (algo = str "gzip") then decompress_gzip data
  else inr (Errorf "unsupported compression algorithm" None).

Definition DecodeGrpcFrameWithDecompress (data : slice) (compressionAlgo : bytes) (message : Msg)
  : go (option error * Msg) :=
  if s_len data <? 5 then Ret (Some errInvalidFrame, message)
  else
    compressedFlag ← s_index data 0;
    messageLength ← message_length data;
    messageData ← message_data data messageLength;
    if negb (compressedFlag =? 0) then
      match decompress messageData compressionAlgo with
      | inr err => Ret (Some (Errorf "failed to decompress grpc message" (Some err)), message)
      | inl _ => Ret (Some errCompressed, message)
      end
    else Ret (Unmarshal messageData message).
End Proto.

End Grpc.

(** ** binproto/http2/writer.go *)
Module FrameWriter.
Section Writer.
Context {T : Type} `{IOWriter T}.

Definition WriteDataFrame (w : T) (streamID : Z) (body : bytes) : M (option error * T) :=
  write_two w (frame_header (zlen body) 0 0 streamID) body (zlen body <=? 0).

(** [encode]: HPACK of the headers, skipping fields that fail to encode. *)
Definition WriteHeadersFrame {H} (encode : list H → bytes) (w : T) (streamID : Z) (headers : list H)
  : M (option error * T) :=
  let headersPayload := encode headers in
  write_two w (frame_header (zlen headersPayload) 1 4 streamID) headersPayload false.

Definition WriteSettingsFrame (w : T) (flags : Z) (payload : bytes) : M (option error * T) :=
  write_two w (frame_header (zlen payload) 4 flags 0) payload (zlen payload <=? 0).

Definition WritePingFrame (w : T) (payload : bytes) : M (option error * T) :=
  if negb (zlen payload =? 8) then mret (Some (Errorf "ping payload should be 8" None), w)
  else write_two w (frame_header (zlen payload) 6 0 0) payload false.

(** The [send...] functions ignore the results of [conn.Write]. *)
Fixpoint send_all (conn : T) (parts : list bytes) : M T :=
  match parts with
  | [] => mret conn
  | p :: parts' => '(_, _, conn') ← io_write conn p; send_all conn' parts'
  end.

(** [PutUint32(frameHeader[:4], length)], then bytes 0 to 4 and the stream
    identifier. *)
Definition long_header (length typ flags streamID : Z) : bytes :=
  let h := be_PutUint32 length ++ replicate 5 0 in
  let h := <[0%nat := u8 (Z.land (Z.shiftr length 16) 255)]> h in
  let h := <[1%nat := u8 (Z.land (Z.shiftr length 8) 255)]> h in
  let h := <[2%nat := u8 (Z.land length 255)]> h in
  let h := <[3%nat := typ]> h in
  let h := <[4%nat := flags]> h in
  ztake 5 h ++ be_PutUint32 streamID.

(** The same without the stores to bytes 0, 1 and 2. *)
Definition short_header (length typ flags streamID : Z) : bytes :=
  let h := be_PutUint32 length ++ replicate 5 0 in
  let h := <[3%nat := typ]> h in
  let h := <[4%nat := flags]> h in
  ztake 5 h ++ be_PutUint32 streamID.

Definition sendDataFrame (conn : T) (data : bytes) : M T :=
  send_all conn [long_header (zlen data) 0 1 1; data].
Definition sendHeadersFrame (conn : T) : M T := send_all conn [long_header 1 1 4 1; [136]].
Definition sendPriorityFrame (conn : T) : M T := send_all conn [short_header 5 2 0 1; [0] ++ be_PutUint32 16].
Definition sendResetStreamFrame (conn : T) : M T := send_all conn [short_header 4 3 0 1; be_PutUint32 0].
Definition sendSettingsFrame (conn : T) : M T := send_all conn [short_header 0 4 0 0].
Definition sendPushPromiseFrame (conn : T) : M T :=
  send_all conn [long_header (4 + 1) 5 4 1; be_PutUint32 (Z.land 2 (2 ^ 31 - 1)); [136]].
Definition sendPingFrame (conn : T) : M T := send_all conn [short_header 8 6 0 0; [0; 0; 0; 0; 0; 0; 0; 1]].
Definition sendGoAwayFrame (conn : T) : M T :=
  send_all conn [short_header 8 7 0 0; be_PutUint32 0; be_PutUint32 0].
Definition sendWindowUpdateFrame (conn : T) : M T :=
  send_all conn [short_header 4 8 0 0; be_PutUint32 16384].
Definition sendContinuationFrame (conn : T) : M T := send_all conn [long_header 1 9 4 1; [0]].
End Writer.
End FrameWriter.

(** ** grpc/tcpclient/writer.go *)
Module TcpWriter.
Section Writer.
Context {T : Type} `{IOWriter T}.

Definition FlagHeadersEndHeaders : Z := 4.

Definition WriteDataFrame (w : T) (streamID flags : Z) (body : bytes) : M (option error * T) :=
  write_two w (frame_header (zlen body) 0 (u8 flags) streamID) body (zlen body <=? 0).
Definition WriteHeadersFrame (w : T) (streamID flags : Z) (blockFragment : bytes) : M (option error * T) :=
  write_two w (frame_header (zlen blockFragment) 1 (u8 flags) streamID) blockFragment false.
Definition WriteSettingsFrame (w : T) (flags : Z) (payload : bytes) : M (option error * T) :=
  write_two w (frame_header (zlen payload) 4 (u8 flags) 0) payload (zlen payload <=? 0).
Definition WritePingFrame (w : T) (flags : Z) (payload : bytes) : M (option error * T) :=
  if negb (zlen payload =? 8) then mret (Some (Errorf "ping payload should be 8" None), w)
  else write_two w (frame_header (zlen payload) 6 (u8 flags) 0) payload false.

(** [encodeHpackHeaders] is a parameter. *)
Definition writeHeadersFrame {H} (encodeHpackHeaders : list H → bytes) (conn : T) (streamID : Z) (headers : list H)
  : M (option error * T) :=
  WriteHeadersFrame conn streamID FlagHeadersEndHeaders (encodeHpackHeaders headers).
End Writer.
End TcpWriter.

(** ** binproto/http2/reader.go *)
Module FrameReader.

Definition ack : Z := 1.

Record http2FrameHeader := mkFrameHeader {
  valid : bool; Type_ : Z; Flags : Z; Length : Z; StreamID : Z }.

Section Reader.
Context {R : Type} `{IOReader R}.

Definition nth_byte (l : bytes) (i : nat) : Z := default 0 (l !! i).

Definition parse_header (h : bytes) : http2FrameHeader :=
  mkFrameHeader true (nth_byte h 3) (nth_byte h 4)
    (len24 (nth_byte h 0) (nth_byte h 1) (nth_byte h 2))
    (Z.land (be_Uint32 (nth_byte h 5) (nth_byte h 6) (nth_byte h 7) (nth_byte h 8)) (2 ^ 31 - 1)).

Definition readFrameHeader (fuel : nat) (r : R) : M (option http2FrameHeader * option error * R) :=
  '(headerBuf, err, r') ← ReadFull fuel r http2frameHeaderLen;
  match err with
  | Some e => mret (None, Some e, r')
  | None => mret (Some (parse_header headerBuf), None, r')
  end.

(** [got]: the front of [payload] read so far; the rest is zero. *)
Fixpoint read_payload_loop (fuel : nat) (r : R) (got : bytes) (length : Z) : M (bytes * option error * R) :=
  if length <=? zlen got then mret (got, None, r)
  else
    match fuel with
    | O => out_of_fuel
    | S fuel' =>
        '(d, err, r') ← io_read r (length - zlen got);
        match err with
        | Some e =>
            let stored := got ++ d in
            mret (stored ++ replicate (Z.to_nat (length - zlen stored)) 0, Some e, r')
        | None => read_payload_loop fuel' r' (got ++ d) length
        end
    end.

Definition readFramePayload (fuel : nat) (r : R) (length : Z) : M (bytes * option error * R) :=
  read_payload_loop fuel r [] length.
End Reader.

Section Frames.
Context {RW Msg : Type} `{IOReader RW} `{IOWriter RW} (Unmarshal : bytes → Msg → option error * Msg).

(** The loop of [ReadFrames]; HEADERS and SETTINGS frames are only logged. *)
Fixpoint ReadFrames_loop (fuel : nat) (rw : RW) (response : Msg) (pingCount : Z)
  : M (option error * RW * Msg) :=
  match fuel with
  | O => out_of_fuel
  | S fuel' =>
      '(fh, err, rw1) ← readFrameHeader fuel rw;
      match err, fh with
      | Some e, _ => mret (Some e, rw1, response)
      | None, None => panic nil_deref
      | None, Some frameHeader =>
          if Type_ frameHeader =? 3 then mret (None, rw1, response)
          else
            '(payload, perr, rw2) ← readFramePayload fuel rw1 (Length frameHeader);
            match perr with
            | Some e => mret (Some e, rw2, response)
            | None =>
                if Type_ frameHeader =? 1 then ReadFrames_loop fuel' rw2 response pingCount
                else if Type_ frameHeader =? 6 then
                  '(werr, rw3) ← (if pingCount mod 5 =? 0 then FrameWriter.WritePingFrame rw2 payload
                                  else mret (None, rw2));
                  match werr with
                  | Some e => mret (Some e, rw3, response)
                  | None => ReadFrames_loop fuel' rw3 response (pingCount + 1)
                  end
                else if Type_ frameHeader =? 4 then ReadFrames_loop fuel' rw2 response pingCount
                else if Type_ frameHeader =? 0 then
                  '(_, response') ← lift (Grpc.DecodeGrpcFrame Unmarshal (slice_of payload) response);
                  ReadFrames_loop fuel' rw2 response' pingCount
                else ReadFrames_loop fuel' rw2 response pingCount
            end
      end
  end.

Definition ReadFrames (fuel : nat) (rw : RW) (response : Msg) : M (option error * RW * Msg) :=
  ReadFrames_loop fuel rw response 0.
End Frames.

End FrameReader.
