(* ===== verification/Http2Spec.v ===== *)
(** * Properties of the HTTP/2 frame and gRPC message codecs *)
From S2P Require Import Prelude Errors Bytespool IO Wire Http2Frames.
Import Grpc FrameReader.

(** ** gRPC messages *)

Lemma zlen_replicate {A} n (x : A) : zlen (replicate n x) = Z.of_nat n.
Proof. Transparent zlen. unfold zlen. by rewrite length_replicate. Qed.
#[global] Opaque zlen.

Lemma zlen_be v : zlen (be_PutUint32 v) = 4.
Proof. done. Qed.

(** The declared length of a message whose prefix is the five header bytes. *)
Lemma message_length_Ret f b0 b1 b2 b3 rest n :
  5 ≤ n ≤ zlen (f :: b0 :: b1 :: b2 :: b3 :: rest) →
  message_length (Slice (f :: b0 :: b1 :: b2 :: b3 :: rest) n) = Ret (be_Uint32 b0 b1 b2 b3).
Proof.
  intros Hn. unfold message_length. rewrite s_sub_Ret by (unfold s_cap; cbn [s_arr]; lia). done.
Qed.

Lemma split5 (l : bytes) : 5 ≤ zlen l → ∃ f b0 b1 b2 b3 rest, l = f :: b0 :: b1 :: b2 :: b3 :: rest.
Proof.
  intros Hl. do 5 (destruct l as [|? l]; [exfalso; revert Hl; rewrite ?zlen_cons; znil; lia|]).
  by eexists _, _, _, _, _, _.
Qed.

(** [DecodeGrpcPayload], case by case. *)
Lemma DecodeGrpcPayload_cases f b0 b1 b2 b3 rest n :
  5 ≤ n ≤ zlen (f :: b0 :: b1 :: b2 :: b3 :: rest) → is_byte b0 → is_byte b1 → is_byte b2 → is_byte b3 →
  let m := be_Uint32 b0 b1 b2 b3 in
  DecodeGrpcPayload (Slice (f :: b0 :: b1 :: b2 :: b3 :: rest) n) =
    if negb (f =? 0) then Ret (None, Some errCompressed)
    else if m <=? zlen rest then if m <? 2 ^ 32 - 5 then Ret (Some (ztake m rest), None) else Panic oob
    else Panic oob.
Proof.
  intros Hn H0 H1 H2 H3 m. unfold DecodeGrpcPayload. cbn [s_len]. zltb_solve.
  assert (s_index (Slice (f :: b0 :: b1 :: b2 :: b3 :: rest) n) 0 = Ret f) as ->
    by (unfold s_index; cbn [s_len]; zltb_solve; done).
  rewrite go_bind_Ret. destruct (negb (f =? 0)); [done|].
  rewrite message_length_Ret, go_bind_Ret by done. fold m.
  assert (0 ≤ m < 2 ^ 32) as Hm.
  { unfold m. rewrite be_Uint32_value by done. unfold is_byte in *. lia. }
  pose proof (zlen_nonneg rest). unfold message_data.
  assert (Hcap : s_cap (Slice (f :: b0 :: b1 :: b2 :: b3 :: rest) n) = 5 + zlen rest)
    by (unfold s_cap; cbn [s_arr]; rewrite !zlen_cons; lia).
  destruct (m <? 2 ^ 32 - 5) eqn:E1; bool_hyps.
  - rewrite u32_id by lia. case_if.
    + rewrite s_sub_Ret by (rewrite ?Hcap; lia). rewrite go_bind_Ret. unfold s_bytes. cbn [s_arr s_len].
      replace (5 + m - 5) with m by lia. done.
    + unfold s_sub. rewrite Hcap. zltb_solve. cbn [andb]. done.
  - assert (u32 (5 + m) = m + 5 - 2 ^ 32) as ->.
    { Transparent u32. unfold u32. symmetry. apply Z.mod_unique with 1; lia. }
    unfold s_sub. zltb_solve. cbn [andb]. case_if; done.
Qed.
#[global] Opaque u32.

(** ** Frames *)

(** A frame on the wire. *)
Definition frame (typ flags streamID : Z) (payload : bytes) : bytes :=
  frame_header (zlen payload) typ flags streamID ++ payload.

Lemma zlen_frame_header l t f s : zlen (frame_header l t f s) = 9.
Proof. done. Qed.

Lemma parse_frame_header l t f s :
  0 ≤ l < 2 ^ 24 → 0 ≤ s < 2 ^ 31 →
  parse_header (frame_header l t f s) = mkFrameHeader true t f l s.
Proof.
  intros Hl Hs.
  change (parse_header (frame_header l t f s)) with
    (mkFrameHeader true t f
       (len24 (u8 (Z.land (Z.shiftr l 16) 255)) (u8 (Z.land (Z.shiftr l 8) 255)) (u8 (Z.land l 255)))
       (Z.land (be_Uint32 (u8 (Z.shiftr s 24)) (u8 (Z.shiftr s 16)) (u8 (Z.shiftr s 8)) (u8 s)) (2 ^ 31 - 1))).
  rewrite len24_put, be_Uint32_PutUint32, land_mask31, Z.mod_small by lia. done.
Qed.

Section WriteFacts.
Context {T : Type} `{StreamWriter T}.

Lemma write_two_ok t header payload skip w :
  wr_inv t → world_ok w → (skip = true → payload = []) →
  ∃ err t' w' k, write_two t header payload skip w = Ret ((err, t'), w') ∧ world_ok w' ∧ wr_inv t' ∧
    0 ≤ k ≤ zlen (header ++ payload) ∧ wr_out t' = wr_out t ++ ztake k (header ++ payload) ∧
    (err = None → k = zlen (header ++ payload)).
Proof.
  intros Ht Hw Hskip. unfold write_two.
  destruct (wr_spec t header w Ht Hw) as (n & e & t1 & w1 & Hio & Hw1 & Ht1 & Hn & Hout & He).
  rewrite (M_bind_Ret _ _ _ _ _ Hio). rewrite zlen_app. pose proof (zlen_nonneg payload).
  destruct e as [e|].
  { exists (Some e), t1, w1, n. rewrite ztake_app_le by lia. split_and!; try done; lia. }
  specialize (He eq_refl) as ->. destruct skip.
  { rewrite (Hskip eq_refl) in *. exists None, t1, w1, (zlen header). rewrite app_nil_r. znil.
    split_and!; try done; lia. }
  destruct (wr_spec t1 payload w1 Ht1 Hw1) as (n & e & t2 & w2 & Hio2 & Hw2 & Ht2 & Hn2 & Hout2 & He2).
  rewrite (M_bind_Ret _ _ _ _ _ Hio2). exists e, t2, w2, (zlen header + n).
  rewrite Hout2, Hout, (ztake_ge (zlen header)), ztake_app_ge, <- app_assoc by lia.
  replace (zlen header + n - zlen header) with n by lia. split_and!; try done; try lia.
  intros ->%He2. lia.
Qed.
End WriteFacts.

(** A reader that never returns data together with an error. *)
Class CleanIO (R : Type) `{StreamReader R} :=
  io_clean : ∀ r n w d e r' w', rd_inv r → world_ok w → io_read r n w = Ret ((d, Some e, r'), w') → d = [].

#[global] Instance ScriptReader_clean : CleanIO ScriptReader.
Proof.
  intros [[|c cs] err] n w d e r' w' _ _; unfold io_read, ScriptReader_reader; cbn.
  - by intros [= <- <- <- <-].
  - case_if; done.
Qed.

Section ReadFacts.
Context {R : Type} `{CleanIO R}.

Lemma read_payload_loop_ok fuel r got payload rest w :
  rd_inv r → world_ok w → (rd_meas r < fuel)%nat → rd_rest r = payload ++ rest →
  ∃ r' w', read_payload_loop fuel r got (zlen (got ++ payload)) w = Ret ((got ++ payload, None, r'), w') ∧
    world_ok w' ∧ rd_inv r' ∧ rd_rest r' = rest ∧ rd_end r' = rd_end r ∧ (rd_meas r' ≤ rd_meas r)%nat.
Proof.
  revert r got payload w. induction fuel as [|fuel IH]; intros r got payload w Hr Hw Hf Hrest; [lia|].
  cbn [read_payload_loop]. rewrite zlen_app. pose proof (zlen_nonneg payload). case_if.
  { assert (payload = []) as -> by (apply zlen_0_nil; lia). exists r, w. rewrite app_nil_r. done. }
  destruct (rd_spec r (zlen got + zlen payload - zlen got) w Hr Hw) as
    (d & e & r1 & w1 & Hio & Hw1 & Hr1 & Hd & Hrest1 & Hend & Hm0 & Hm & He); [lia|].
  rewrite (M_bind_Ret _ _ _ _ _ Hio). destruct e as [err|].
  { exfalso. destruct (He err eq_refl) as [_ Hnil]. pose proof (io_clean _ _ _ _ _ _ _ Hr Hw Hio) as ->.
    rewrite Hrest1, Hnil in Hrest. symmetry in Hrest. apply app_eq_nil in Hrest as [-> _]. znil. lia. }
  specialize (Hm eq_refl). rewrite Hrest in Hrest1.
  assert (∃ payload', payload = d ++ payload' ∧ rd_rest r1 = payload' ++ rest) as (payload' & -> & Hr1').
  { exists (zdrop (zlen d) payload).
    assert (ztake (zlen d) (payload ++ rest) = d) as Ht.
    { rewrite Hrest1, ztake_app_le, ztake_ge by lia. done. }
    assert (zdrop (zlen d) (payload ++ rest) = rd_rest r1) as Hz.
    { rewrite Hrest1, zdrop_app_ge, Z.sub_diag by lia. done. }
    rewrite ztake_app_le in Ht by lia. rewrite zdrop_app_le in Hz by lia.
    rewrite <- Ht at 1. rewrite ztake_zdrop. done. }
  destruct (IH r1 (got ++ d) payload' w1 Hr1 Hw1) as (r' & w' & Heq & Hw' & Hr' & Hrest' & Hend' & Hm'); [lia|done|].
  exists r', w'. rewrite zlen_app. rewrite <- app_assoc, !zlen_app in Heq. rewrite Heq, Hend'.
  split_and!; try done; lia.
Qed.

(** Reading a frame that is at the front of the stream. *)
Lemma read_frame_ok fuel r typ flags sid payload rest w :
  rd_inv r → world_ok w → (rd_meas r < fuel)%nat → zlen payload < 2 ^ 24 → 0 ≤ sid < 2 ^ 31 →
  rd_rest r = frame typ flags sid payload ++ rest →
  ∃ r1 w1 r2 w2,
    readFrameHeader fuel r w = Ret ((Some (mkFrameHeader true typ flags (zlen payload) sid), None, r1), w1) ∧
    readFramePayload fuel r1 (zlen payload) w1 = Ret ((payload, None, r2), w2) ∧
    world_ok w2 ∧ rd_inv r2 ∧ rd_rest r2 = rest ∧ rd_end r2 = rd_end r ∧ (rd_meas r2 ≤ rd_meas r)%nat.
Proof.
  intros Hr Hw Hf Hlen Hsid Hrest. unfold readFrameHeader, frame in *. rewrite <- app_assoc in Hrest.
  pose proof (zlen_nonneg payload).
  destruct (ReadFull_spec fuel r http2frameHeaderLen w Hr Hw) as
    (d & e & r1 & w1 & Hio & Hw1 & Hr1 & Hrest1 & Hend & Hm & Hmin & Hn & He); [done|done|].
  rewrite (M_bind_Ret _ _ _ _ _ Hio). unfold http2frameHeaderLen in *.
  assert (zlen d = 9) as Hd.
  { rewrite Hrest, zlen_app, zlen_frame_header in Hmin. pose proof (zlen_nonneg (payload ++ rest)). lia. }
  assert (e = None) as -> by by apply Hn.
  rewrite Hrest in Hrest1. apply app_inj_1 in Hrest1 as [Hh Hr1'].
  2: { Transparent zlen. unfold zlen in Hd. cbn. lia. }
  subst d. rewrite parse_frame_header by lia.
  destruct (read_payload_loop_ok fuel r1 [] payload rest w1 Hr1 Hw1) as
    (r2 & w2 & Heq & Hw2 & Hr2 & Hrest2 & Hend2 & Hm2); [lia|done|].
  exists r1, w1, r2, w2. unfold readFramePayload. cbn [app] in Heq. rewrite Heq, Hend2.
  split_and!; try done; lia.
Qed.
End ReadFacts.
#[global] Opaque zlen.

(** ** Properties *)

(** A gRPC message encoded with [EncodeGrpcPayload] (binproto/http2 and
    http/client) is decoded to the same payload, for every payload that fits
    the 32-bit length with its five-byte prefix. *)
Theorem grpc_payload_roundtrip (p : bytes) :
  zlen p < 2 ^ 32 - 5 → DecodeGrpcPayload (slice_of (EncodeGrpcPayload p)) = Ret (Some p, None).
Proof.
  intros Hp. pose proof (zlen_nonneg p). unfold EncodeGrpcPayload, slice_of. rewrite u32_id by lia.
  unfold be_PutUint32. cbn [app]. rewrite DecodeGrpcPayload_cases; try apply u8_range.
  - rewrite be_Uint32_PutUint32 by lia. cbn [Z.eqb negb]. zltb_solve. by rewrite ztake_ge by lia.
  - rewrite !zlen_cons. lia.
Qed.

Lemma grpc_payload_roundtrip_witness :
  zlen [8; 1] < 2 ^ 32 - 5 ∧ DecodeGrpcPayload (slice_of (EncodeGrpcPayload [8; 1])) = Ret (Some [8; 1], None).
Proof. split; [vm_compute; reflexivity|apply (grpc_payload_roundtrip [8; 1]); vm_compute; reflexivity]. Defined.

(** What [DecodeGrpcPayload] does with any input of five bytes or more: it
    refuses a set compression flag, returns the declared number of bytes when
    they are there, and panics with a slice error when the declared length
    exceeds the data (or makes the 32-bit sum [5 + length] wrap). *)
Theorem grpc_decode_total (f b0 b1 b2 b3 : Z) (rest : bytes) :
  is_byte b0 → is_byte b1 → is_byte b2 → is_byte b3 →
  let m := b3 + 256 * b2 + 65536 * b1 + 16777216 * b0 in
  DecodeGrpcPayload (slice_of (f :: b0 :: b1 :: b2 :: b3 :: rest)) =
    if negb (f =? 0) then Ret (None, Some errCompressed)
    else if (m <=? zlen rest) && (m <? 2 ^ 32 - 5) then Ret (Some (ztake m rest), None)
    else Panic oob.
Proof.
  intros H0 H1 H2 H3 m. unfold slice_of. rewrite DecodeGrpcPayload_cases by (try done; rewrite !zlen_cons; pose proof (zlen_nonneg rest); lia).
  rewrite be_Uint32_value by done. fold m. destruct (negb (f =? 0)); [done|].
  destruct (m <=? zlen rest); [|done]. cbn [andb]. done.
Qed.

Lemma grpc_decode_total_witness :
  DecodeGrpcPayload (slice_of [0; 0; 0; 0; 9; 7]) = Panic oob.
Proof. apply (grpc_decode_total 0 0 0 0 9 [7]); vm_compute; repeat split; congruence. Defined.

(** C9: frame round trip.  Whatever the frame writers put on the wire --
    header and payload of a DATA frame of up to 2^24 - 1 bytes on any stream --
    [readFrameHeader] and [readFramePayload] read back: same type, flags,
    length, stream identifier and payload, leaving the following bytes. *)
Theorem http2_frame_roundtrip {T R} `{StreamWriter T} `{CleanIO R}
  (t : T) (r : R) (fuel : nat) (streamID flags : Z) (body rest : bytes) (w : World) :
  wr_inv t → world_ok w → zlen body < 2 ^ 24 → 0 ≤ streamID < 2 ^ 31 → 0 ≤ flags < 256 →
  rd_inv r → (rd_meas r < fuel)%nat →
  ∃ err t' w', TcpWriter.WriteDataFrame t streamID flags body w = Ret ((err, t'), w') ∧
    (err = None → ∀ sent, wr_out t' = wr_out t ++ sent → rd_rest r = sent ++ rest →
     ∃ r1 w1 r2 w2,
       readFrameHeader fuel r w' = Ret ((Some (mkFrameHeader true 0 flags (zlen body) streamID), None, r1), w1) ∧
       readFramePayload fuel r1 (zlen body) w1 = Ret ((body, None, r2), w2) ∧ rd_rest r2 = rest).
Proof.
  intros Ht Hw Hb Hs Hfl Hr Hf. unfold TcpWriter.WriteDataFrame. pose proof (zlen_nonneg body).
  destruct (write_two_ok t (frame_header (zlen body) 0 (u8 flags) streamID) body (zlen body <=? 0) w Ht Hw) as
    (err & t' & w' & k & Heq & Hw' & Ht' & Hk & Hout & Hn).
  { intros Hz. bool_hyps. apply zlen_0_nil. lia. }
  exists err, t', w'. split; [done|]. intros He sent Hsent Hrest.
  rewrite Hout in Hsent. apply app_inv_head in Hsent. rewrite (Hn He), ztake_ge in Hsent by lia. subst sent.
  rewrite u8_id in Hrest by lia.
  destruct (read_frame_ok fuel r 0 flags streamID body rest w' Hr Hw' Hf Hb Hs Hrest) as
    (r1 & w1 & r2 & w2 & H1' & H2' & _ & _ & H3' & _).
  by exists r1, w1, r2, w2.
Qed.

Lemma http2_frame_roundtrip_witness :
  ∃ err t' w', TcpWriter.WriteDataFrame (Sink [] 100 (ErrNew EOF)) 1 1 [7; 8] empty_world = Ret ((err, t'), w') ∧
    (err = None → ∀ sent, sk_out t' = sent → [0; 0; 2; 0; 1; 0; 0; 0; 1; 7; 8; 5] = sent ++ [5] →
     ∃ r1 w1 r2 w2,
       readFrameHeader 20 (Script [[0; 0; 2; 0; 1; 0]; [0; 0; 1; 7]; [8; 5]] (ErrNew EOF)) w' =
         Ret ((Some (mkFrameHeader true 0 1 2 1), None, r1), w1) ∧
       readFramePayload 20 r1 2 w1 = Ret (([7; 8], None, r2), w2) ∧ rd_rest r2 = [5]).
Proof.
  refine (http2_frame_roundtrip (Sink [] 100 (ErrNew EOF))
    (Script [[0; 0; 2; 0; 1; 0]; [0; 0; 1; 7]; [8; 5]] (ErrNew EOF)) 20 1 1 [7; 8] [5] empty_world _ _ _ _ _ _ _).
  - vm_compute. discriminate.
  - exact empty_world_ok.
  - vm_compute. reflexivity.
  - lia.
  - lia.
  - exact I.
  - vm_compute. lia.
Defined.

(** The PRIORITY, RST_STREAM, PING, GOAWAY and WINDOW_UPDATE frames that
    binproto/http2 sends declare a length of 0 although a payload follows: the
    length stored by [PutUint32(frameHeader[:4], ...)] is in the byte that the
    frame type then overwrites. *)
Theorem send_frames_declare_no_length :
  Forall (λ send : SinkWriter → M SinkWriter,
      ∃ t w, send (Sink [] 100 (ErrNew EOF)) empty_world = Ret (t, w) ∧
        Length (parse_header (ztake 9 (sk_out t))) = 0 ∧ 0 < zlen (zdrop 9 (sk_out t)))
    [FrameWriter.sendPriorityFrame; FrameWriter.sendResetStreamFrame; FrameWriter.sendPingFrame;
     FrameWriter.sendGoAwayFrame; FrameWriter.sendWindowUpdateFrame].
Proof.
  repeat apply Forall_cons_2; try apply Forall_nil_2;
    (eexists _, _; split; [vm_compute; reflexivity|]; split; vm_compute; reflexivity).
Qed.
