(* ===== verification/Protobuf.v ===== *)
(** * The protobuf wire format

    binproto/protobuf/codec.go: a reader of protobuf messages that knows no
    schema.  The [bytes.Reader] is the list of bytes not yet read. *)
From S2P Require Import Prelude Errors Wire.

(** ** Model *)

(** [r.ReadByte()] and the loop of [readVarint]. *)
Fixpoint read_varint_loop (r : bytes) (result shift : Z) : Z * option error * bytes :=
  match r with
  | [] => (0, Some (ErrNew EOF), [])
  | b :: r' =>
      let result := Z.lor result (i64 (Z.shiftl (Z.land b 127) shift)) in
      if Z.land b 128 =? 0 then (result, None, r')
      else
        let shift := shift + 7 in
        if 64 <=? shift then (0, Some (Errorf "varint too long" None), r')
        else read_varint_loop r' result shift
  end.

Definition readVarint (r : bytes) : Z * option error * bytes := read_varint_loop r 0 0.

Definition readFieldHeader (r : bytes) : Z * Z * option error * bytes :=
  match readVarint r with
  | (_, Some err, r') => (0, 0, Some err, r')
  | (tag, None, r') => (Z.shiftr tag 3, Z.land tag 7, None, r')
  end.

(** The values [readValue] returns. *)
Inductive value :=
  | VInt (v : Z)
  | VUint64 (v : Z)
  | VBytes (b : bytes)
  | VUint32 (v : Z).

(** [io.ReadFull] of [n] bytes from a [bytes.Reader]. *)
Definition read_full (r : bytes) (n : Z) : bytes * option error * bytes :=
  if n <=? zlen r then (ztake n r, None, zdrop n r)
  else match r with
       | [] => ([], Some (ErrNew EOF), [])
       | _ => (r, Some (ErrNew ErrUnexpectedEOF), [])
       end.

(** The largest allocation the runtime accepts. *)
Definition maxAlloc : Z := 2 ^ 48.

Definition readValue (r : bytes) (wireType : Z) : go (option value * option error * bytes) :=
  if wireType =? 0 then
    let '(v, err, r') := readVarint r in Ret (Some (VInt v), err, r')
  else if wireType =? 1 then
    match read_full r 8 with
    | (_, Some err, r') => Ret (None, Some err, r')
    | (d, None, r') => Ret (Some (VUint64 (le_value d)), None, r')
    end
  else if wireType =? 2 then
    match readVarint r with
    | (_, Some err, r') => Ret (None, Some err, r')
    | (length, None, r') =>
        if (length <? 0) || (maxAlloc <? length) then Panic "runtime error: makeslice: len out of range"
        else
          match read_full r' length with
          | (_, Some er, r'') => Ret (None, Some er, r'')
          | (d, None, r'') => Ret (Some (VBytes d), None, r'')
          end
    end
  else if wireType =? 5 then
    match read_full r 4 with
    | (_, Some err, r') => Ret (None, Some err, r')
    | (d, None, r') => Ret (Some (VUint32 (le_value d)), None, r')
    end
  else Ret (None, Some (Errorf "unsupported wire type" None), r).

(** What [ParseProtoMessage] prints: the fields, and why it stopped. *)
Record field := mkField { f_number : Z; f_wireType : Z; f_value : value }.
Inductive stop := AtEOF | HeaderError (e : error) | ValueError (e : error).

Fixpoint parse_loop (fuel : nat) (r : bytes) (printed : list field) : go (list field * stop) :=
  match fuel with
  | O => OutOfFuel
  | S fuel' =>
      match readFieldHeader r with
      | (_, _, Some err, _) =>
          if is_sentinel EOF err then Ret (printed, AtEOF) else Ret (printed, HeaderError err)
      | (fieldNumber, wireType, None, r') =>
          '(v, err, r'') ← readValue r' wireType;
          match err, v with
          | Some e, _ => Ret (printed, ValueError e)
          | None, Some x => parse_loop fuel' r'' (printed ++ [mkField fieldNumber wireType x])
          | None, None => Ret (printed, AtEOF)
          end
      end
  end.

(** Each turn reads at least one byte. *)
Definition ParseProtoMessage (data : bytes) : go (list field * stop) := parse_loop (S (length data)) data [].

(** ** Reference encoding (developers.google.com/protocol-buffers, varint.md,
    wire-types.md) *)

Fixpoint encode_varint (fuel : nat) (v : Z) : bytes :=
  match fuel with
  | O => []
  | S fuel' => if v <? 128 then [v] else (v mod 128 + 128) :: encode_varint fuel' (v / 128)
  end.
Definition varint (v : Z) : bytes := encode_varint 10 v.

Fixpoint le_bytes (k : nat) (v : Z) : bytes :=
  match k with O => [] | S k' => (v mod 256) :: le_bytes k' (v / 256) end.

(** The payload of a value, for a field that reads back as [v]. *)
Definition encode_value (v : value) : Z * bytes :=
  match v with
  | VInt x => (0, varint (x mod 2 ^ 64))
  | VUint64 x => (1, le_bytes 8 x)
  | VBytes b => (2, varint (zlen b) ++ b)
  | VUint32 x => (5, le_bytes 4 x)
  end.
Definition encode_field (f : Z * value) : bytes :=
  let '(n, v) := f in let '(wt, d) := encode_value v in varint (8 * n + wt) ++ d.

Definition value_ok (v : value) : Prop :=
  match v with
  | VInt x => - 2 ^ 63 ≤ x < 2 ^ 63
  | VUint64 x => 0 ≤ x < 2 ^ 64
  | VBytes b => zlen b ≤ maxAlloc
  | VUint32 x => 0 ≤ x < 2 ^ 32
  end.

(** ** Lemmas *)

Lemma land_128 b : 0 ≤ b < 256 → (Z.land b 128 =? 0) = (b <? 128).
Proof.
  intros Hb.
  assert (Forall (λ n, (Z.land n 128 =? 0) = (n <? 128)) (seqZ 0 256)) as Hall
    by (apply (bool_decide_unpack _); vm_compute; exact I).
  rewrite Forall_forall in Hall. apply Hall. apply elem_of_seqZ. lia.
Qed.

Lemma land_127 b : Z.land b 127 = b mod 128.
Proof. apply (Z.land_ones b 7). lia. Qed.

(** Adding the next group above the bits read so far. *)
Lemma lor_group acc g shift :
  0 ≤ shift ≤ 63 → 0 ≤ acc < 2 ^ shift → 0 ≤ g < 128 → g * 2 ^ shift < 2 ^ 64 → shift mod 7 = 0 →
  Z.lor acc (i64 (Z.shiftl g shift)) = i64 (acc + g * 2 ^ shift).
Proof.
  intros Hs Hacc Hg Hlt Hmod. rewrite Z.shiftl_mul_pow2 by lia.
  destruct (Z.le_gt_cases shift 56) as [Hle|Hgt].
  - assert (2 ^ shift ≤ 2 ^ 56) by (apply Z.pow_le_mono_r; lia).
    assert (2 ^ 56 * 128 = 2 ^ 63) by lia. assert (g * 2 ^ shift ≤ 127 * 2 ^ 56) by nia.
    rewrite !i64_id by lia. rewrite <- lor_shiftl_add by lia. by rewrite Z.shiftl_mul_pow2 by lia.
  - assert (shift = 63) as -> by (Z.div_mod_to_equations; lia).
    assert (g = 0 ∨ g = 1) as [-> | ->] by lia.
    + rewrite !i64_id by lia. rewrite Z.lor_0_r. lia.
    + replace (i64 (1 * 2 ^ 63)) with (Z.shiftl (-1) 63) by (vm_compute; reflexivity).
      rewrite lor_shiftl_add by lia. Transparent i64. unfold i64.
      rewrite <- (Z.mod_unique (acc + 1 * 2 ^ 63 + 2 ^ 63) (2 ^ 64) 1 acc); lia.
Qed.
#[global] Opaque i64.

Lemma read_varint_encode fuel v acc shift rest :
  0 ≤ shift ≤ 63 → shift mod 7 = 0 → 0 ≤ acc < 2 ^ shift → 0 ≤ v → v * 2 ^ shift < 2 ^ 64 →
  (70 - shift ≤ 7 * Z.of_nat fuel) →
  read_varint_loop (encode_varint fuel v ++ rest) acc shift = (i64 (acc + v * 2 ^ shift), None, rest).
Proof.
  revert v acc shift. induction fuel as [|fuel IH]; intros v acc shift Hs Hmod Hacc Hv Hlt Hf; [lia|].
  cbn [encode_varint]. case_if; cbn [app read_varint_loop]; rewrite land_127, land_128 by (Z.div_mod_to_equations; lia).
  - zltb_solve. rewrite Z.mod_small, lor_group by lia. done.
  - assert (0 < 2 ^ shift) by lia.
    zltb_solve.
    replace ((v mod 128 + 128) mod 128) with (v mod 128) by (Z.div_mod_to_equations; lia).
    assert (v = v mod 128 + 128 * (v / 128)) as Ev by (Z.div_mod_to_equations; lia).
    assert (0 ≤ v mod 128 < 128) by (Z.div_mod_to_equations; lia).
    assert (1 ≤ v / 128) by (Z.div_mod_to_equations; lia).
    assert (2 ^ (shift + 7) = 128 * 2 ^ shift) as Ep by (rewrite Z.pow_add_r by lia; lia).
    assert (shift < 57) as Hs57.
    { destruct (Z.lt_ge_cases shift 57); [done|]. assert (2 ^ 57 ≤ 2 ^ shift) by (apply Z.pow_le_mono_r; lia). nia. }
    assert (shift ≤ 56) by lia. zltb_solve.
    assert (2 ^ shift ≤ 2 ^ 56) by (apply Z.pow_le_mono_r; lia).
    assert (2 ^ 56 * 128 = 2 ^ 63) by lia.
    rewrite lor_group by nia. rewrite i64_id by nia.
    rewrite IH; [do 3 f_equal; nia|lia|Z.div_mod_to_equations; lia|nia|lia|nia|lia].
Qed.

Lemma readVarint_varint v rest : 0 ≤ v < 2 ^ 64 → readVarint (varint v ++ rest) = (i64 v, None, rest).
Proof.
  intros Hv. unfold readVarint, varint. rewrite read_varint_encode by (try done; lia).
  do 3 f_equal. lia.
Qed.

Lemma le_value_bytes k v : 0 ≤ v < 2 ^ (8 * Z.of_nat k) → le_value (le_bytes k v) = v.
Proof.
  revert v. induction k as [|k IH]; intros v Hv; [cbn in *; lia|]. cbn [le_bytes le_value].
  rewrite Nat2Z.inj_succ in Hv. replace (8 * Z.succ (Z.of_nat k)) with (8 + 8 * Z.of_nat k) in Hv by lia.
  rewrite Z.pow_add_r in Hv by lia. change (2 ^ 8) with 256 in Hv.
  rewrite IH by (Z.div_mod_to_equations; nia).
  rewrite lor_shiftl_add by (Z.div_mod_to_equations; lia). Z.div_mod_to_equations. lia.
Qed.

Lemma zlen_le_bytes k v : zlen (le_bytes k v) = Z.of_nat k.
Proof. revert v. induction k as [|k IH]; intros v; [done|]. cbn [le_bytes]. rewrite zlen_cons, IH. lia. Qed.

Lemma read_full_app d rest : read_full (d ++ rest) (zlen d) = (d, None, rest).
Proof.
  unfold read_full. rewrite zlen_app. pose proof (zlen_nonneg rest). zltb_solve.
  rewrite ztake_app_le, ztake_ge, zdrop_app_ge, Z.sub_diag by lia. done.
Qed.

Lemma i64_mod v : - 2 ^ 63 ≤ v < 2 ^ 63 → i64 (v mod 2 ^ 64) = v.
Proof.
  intros Hv. Transparent i64. unfold i64. rewrite Z.add_mod_idemp_l by lia. rewrite Z.mod_small; lia.
Qed.
#[global] Opaque i64.

Lemma readValue_encode v rest :
  value_ok v → readValue ((encode_value v).2 ++ rest) (encode_value v).1 = Ret (Some v, None, rest).
Proof.
  intros Hv. destruct v as [x|x|b|x]; cbn [encode_value fst snd] in *; unfold readValue; cbn [Z.eqb]; cbn in Hv.
  - rewrite readVarint_varint by (apply Z.mod_pos_bound; lia). by rewrite i64_mod.
  - pose proof (read_full_app (le_bytes 8 x) rest) as Hr. rewrite zlen_le_bytes in Hr. change (Z.of_nat 8) with 8 in Hr.
    rewrite Hr, le_value_bytes by (cbn; lia). done.
  - pose proof (zlen_nonneg b). unfold maxAlloc in Hv.
    rewrite <- app_assoc, readVarint_varint, i64_id by lia. unfold maxAlloc. zltb_solve. cbn [orb].
    by rewrite read_full_app.
  - pose proof (read_full_app (le_bytes 4 x) rest) as Hr. rewrite zlen_le_bytes in Hr. change (Z.of_nat 4) with 4 in Hr.
    rewrite Hr, le_value_bytes by (cbn; lia). done.
Qed.

Lemma readFieldHeader_encode n wt rest :
  0 ≤ n < 2 ^ 60 → 0 ≤ wt < 8 → readFieldHeader (varint (8 * n + wt) ++ rest) = (n, wt, None, rest).
Proof.
  intros Hn Hw. unfold readFieldHeader. rewrite readVarint_varint, i64_id by lia.
  rewrite Z.shiftr_div_pow2 by lia. rewrite (Z.land_ones _ 3 ltac:(lia)). change (2 ^ 3) with 8.
  do 3 f_equal; Z.div_mod_to_equations; lia.
Qed.

Lemma varint_nonempty v : varint v ≠ [].
Proof. unfold varint. cbn [encode_varint]. by case_if. Qed.

Lemma wire_range v : 0 ≤ (encode_value v).1 < 8.
Proof. destruct v; cbn; lia. Qed.

Lemma parse_loop_encode fs fuel printed :
  Forall (λ f, 0 ≤ f.1 < 2 ^ 60 ∧ value_ok f.2) fs → (length (mjoin (encode_field <$> fs)) < fuel)%nat →
  parse_loop fuel (mjoin (encode_field <$> fs)) printed =
  Ret (printed ++ ((λ f, mkField f.1 (encode_value f.2).1 f.2) <$> fs), AtEOF).
Proof.
  intros Hfs. revert fuel printed. induction Hfs as [|[n v] fs [Hn Hv] Hfs IH]; intros fuel printed Hf.
  { destruct fuel as [|fuel]; [cbn in Hf; lia|]. cbn. by rewrite app_nil_r. }
  destruct fuel as [|fuel]; [lia|].
  assert (Hj : mjoin (encode_field <$> (n, v) :: fs) =
    varint (8 * n + (encode_value v).1) ++ ((encode_value v).2 ++ mjoin (encode_field <$> fs))).
  { change (mjoin (encode_field <$> (n, v) :: fs)) with (encode_field (n, v) ++ mjoin (encode_field <$> fs)).
    unfold encode_field at 1. destruct (encode_value v). cbn [fst snd]. by rewrite <- app_assoc. }
  rewrite Hj in *. cbn [parse_loop]. cbn [fst snd] in Hn, Hv.
  rewrite readFieldHeader_encode by (done || apply wire_range).
  rewrite readValue_encode, go_bind_Ret by done. rewrite IH.
  - by rewrite fmap_cons, <- app_assoc.
  - rewrite !length_app in Hf. pose proof (varint_nonempty (8 * n + (encode_value v).1)).
    destruct (varint (8 * n + (encode_value v).1)); [done|]. cbn in Hf. lia.
Qed.

(** ** Properties *)

(** A varint reads back: every number below 2^64, in its shortest
    encoding, is read as its 64-bit two's complement value, and exactly its
    bytes are consumed. *)
Theorem varint_roundtrip (v : Z) (rest : bytes) :
  0 ≤ v < 2 ^ 64 → readVarint (varint v ++ rest) = (i64 v, None, rest).
Proof. apply readVarint_varint. Qed.

Lemma varint_roundtrip_witness : readVarint (varint 300 ++ [1]) = (300, None, [1]).
Proof.
  assert (i64 300 = 300) as E by (apply i64_id; lia). rewrite <- E at 2.
  apply (varint_roundtrip 300 [1]). lia.
Defined.

(** C37: [ParseProtoMessage] of an encoded message prints exactly its fields,
    in order, with their numbers, wire types and values, and stops at the end
    of the data. *)
Theorem parse_message_roundtrip (fs : list (Z * value)) :
  Forall (λ f, 0 ≤ f.1 < 2 ^ 60 ∧ value_ok f.2) fs →
  ParseProtoMessage (mjoin (encode_field <$> fs)) =
  Ret ((λ f, mkField f.1 (encode_value f.2).1 f.2) <$> fs, AtEOF).
Proof. intros Hfs. unfold ParseProtoMessage. by rewrite parse_loop_encode by (done || lia). Qed.

Lemma parse_message_roundtrip_witness :
  ParseProtoMessage (mjoin (encode_field <$> [(1, VInt 150); (2, VBytes [104; 105]); (3, VUint32 7)])) =
  Ret ([mkField 1 0 (VInt 150); mkField 2 2 (VBytes [104; 105]); mkField 3 5 (VUint32 7)], AtEOF).
Proof.
  apply (parse_message_roundtrip [(1, VInt 150); (2, VBytes [104; 105]); (3, VUint32 7)]).
  repeat apply Forall_cons_2; try apply Forall_nil_2; vm_compute; repeat split; congruence.
Defined.

(** A length-delimited field whose length varint is negative as an [int]
    makes the parser panic instead of reporting an error. *)
Theorem parse_negative_length_panics :
  ParseProtoMessage [10; 255; 255; 255; 255; 255; 255; 255; 255; 255; 1] =
  Panic "runtime error: makeslice: len out of range".
Proof. vm_compute. reflexivity. Qed.
