(* ===== verification/TcpClient.v ===== *)
(** * The gRPC client over a raw TCP connection

    grpc/tcpclient/client.go and reader.go: a client that writes its own HTTP/2
    frames, a read loop that dispatches received frames to handlers, and the
    registry of open streams the two share.

    A [*clientStream] is shared between the goroutine in [Call] and the read
    loop, so the streams live in a heap ([heap], indexed by location) and the
    registry [clientStreams] maps stream identifiers to locations.  HPACK
    (golang.org/x/net) and protobuf are parameters.  [Call] is split where its
    goroutine can be interleaved with the read loop. *)
From S2P Require Import Prelude Errors Bytespool IO Wire Http2Frames.

(** ** Flags *)

Definition FlagDataEndStream : Z := 1.
Definition FlagHeadersEndStream : Z := 1.
Definition FlagHeadersEndHeaders : Z := 4.
Definition FlagSettingsAck : Z := 1.
Definition FlagPingAck : Z := 1.

Definition Flags_Has (f v : Z) : bool := Z.land f v =? v.

(** ** Text helpers *)

(** [strings.HasPrefix(s, p)] *)
Definition HasPrefix (s p : bytes) : bool := bool_decide (p `prefix_of` s).

(** [strconv.Atoi]: an optional sign and decimal digits in the range of [int]. *)
Fixpoint atoi_digits (l : bytes) (acc : Z) : option Z :=
  match l with
  | [] => Some acc
  | d :: l' => if (48 <=? d) && (d <=? 57) then atoi_digits l' (10 * acc + (d - 48)) else None
  end.
Definition Atoi (s : bytes) : option Z :=
  let '(neg, ds) := match s with
                    | 45 :: ds => (true, ds)
                    | 43 :: ds => (false, ds)
                    | _ => (false, s)
                    end in
  match ds with
  | [] => None
  | _ => v ← atoi_digits ds 0;
         let v := if neg then - v else v in
         if (- 2 ^ 63 <=? v) && (v <? 2 ^ 63) then Some v else None
  end.

Record HeaderField := mkHeaderField { hf_Name : bytes; hf_Value : bytes }.

(** The parts of a [*url.URL] the client reads; [Port()] is a parameter. *)
Record URL := mkURL { u_Scheme : bytes; u_Host : bytes; u_Port : bytes }.

Definition grpcHeaders (serverURL : URL) (fullMethod : bytes) : list HeaderField :=
  let fullMethod := if negb (HasPrefix fullMethod (str "/")) then str "/" ++ fullMethod else fullMethod in
  [mkHeaderField (str ":method") (str "POST");
   mkHeaderField (str ":scheme") (u_Scheme serverURL);
   mkHeaderField (str ":authority") (u_Host serverURL);
   mkHeaderField (str ":path") fullMethod;
   mkHeaderField (str "content-type") (str "application/grpc");
   mkHeaderField (str "te") (str "trailers");
   mkHeaderField (str "grpc-encoding") (str "identity");
   mkHeaderField (str "grpc-accept-encoding") (str "identity")].

Definition getHostAddress (parsedURL : URL) : bytes :=
  if bool_decide (u_Port parsedURL = []) then
    if bool_decide (u_Scheme parsedURL = str "https") then u_Host parsedURL ++ str ":443"
    else if bool_decide (u_Scheme parsedURL = str "http") then u_Host parsedURL ++ str ":80"
    else u_Host parsedURL
  else u_Host parsedURL.

Definition ClientPreface : bytes :=
  str "PRI * HTTP/2.0" ++ [13; 10; 13; 10] ++ str "SM" ++ [13; 10; 13; 10].

(** ** State *)

Record clientStream := mkStream {
  streamId : Z;
  doneCh : bool;                 (** closed? *)
  grpcStatus : Z;
  grpcMessage : bytes;
  compressionAlgo : bytes;
  payload : bytes
}.

Section Client.
Context {T D E : Type} `{IOReader T} `{IOWriter T}.
(** [hpack.Decoder.DecodeFull] and the encoder's [WriteField] over all fields. *)
Context (DecodeFull : D → bytes → (list HeaderField + error) * D).
Context (EncodeFields : E → list HeaderField → bytes * E).

Record grpcClient := mkClient {
  serverURL : URL;
  conn : T;
  streamIdGen : Z;
  heap : list clientStream;
  clientStreams : gmap Z nat;
  ctx_done : bool;
  encoder : E;
  decoder : D;
  settingsAcked : bool          (** closed? *)
}.

Definition with_conn c x := mkClient (serverURL c) x (streamIdGen c) (heap c) (clientStreams c) (ctx_done c)
  (encoder c) (decoder c) (settingsAcked c).
Definition with_streams c h m := mkClient (serverURL c) (conn c) (streamIdGen c) h m (ctx_done c)
  (encoder c) (decoder c) (settingsAcked c).
Definition with_decoder c d := mkClient (serverURL c) (conn c) (streamIdGen c) (heap c) (clientStreams c) (ctx_done c)
  (encoder c) d (settingsAcked c).

(** [close(cs.doneCh)] *)
Definition close_done (cs : clientStream) : go clientStream :=
  if doneCh cs then Panic "close of closed channel"
  else Ret (mkStream (streamId cs) true (grpcStatus cs) (grpcMessage cs) (compressionAlgo cs) (payload cs)).

(** [c.clientStreams.Load(id)]: the location and the stream there. *)
Definition load_stream (c : grpcClient) (id : Z) : option (nat * clientStream) :=
  l ← clientStreams c !! id; cs ← heap c !! l; Some (l, cs).

(** Store the stream at its location; when [finish], delete the registry entry
    [id] and close [doneCh]. *)
Definition update_stream (c : grpcClient) (id : Z) (l : nat) (cs : clientStream) (finish : bool) : go grpcClient :=
  if finish then
    cs' ← close_done cs;
    Ret (with_streams c (<[l := cs']> (heap c)) (delete id (clientStreams c)))
  else Ret (with_streams c (<[l := cs]> (heap c)) (clientStreams c)).

(** ** Frame handlers (reader.go) *)

Import FrameReader.

Definition handleDataFrame (fh : http2FrameHeader) (data : bytes) (c : grpcClient) : go grpcClient :=
  match load_stream c (StreamID fh) with
  | None => Ret c
  | Some (l, cs) =>
      let cs' := mkStream (streamId cs) (doneCh cs) (grpcStatus cs) (grpcMessage cs) (compressionAlgo cs)
                   (payload cs ++ data) in
      update_stream c (StreamID fh) l cs' (Flags_Has (Flags fh) FlagDataEndStream)
  end.

(** One header field of a response. *)
Definition apply_header (cs : clientStream) (hf : HeaderField) : clientStream :=
  if bool_decide (hf_Name hf = str "grpc-status") then
    match Atoi (hf_Value hf) with
    | Some statusCode => mkStream (streamId cs) (doneCh cs) statusCode (grpcMessage cs) (compressionAlgo cs) (payload cs)
    | None => cs
    end
  else if bool_decide (hf_Name hf = str "grpc-message") then
    mkStream (streamId cs) (doneCh cs) (grpcStatus cs) (hf_Value hf) (compressionAlgo cs) (payload cs)
  else if bool_decide (hf_Name hf = str "grpc-encoding") then
    mkStream (streamId cs) (doneCh cs) (grpcStatus cs) (grpcMessage cs) (hf_Value hf) (payload cs)
  else cs.

Definition handleHeadersFrame (fh : http2FrameHeader) (data : bytes) (c : grpcClient)
  : go (option error * grpcClient) :=
  match load_stream c (StreamID fh) with
  | None => Ret (None, c)
  | Some (l, cs) =>
      match DecodeFull (decoder c) data with
      | (inr err, d) => Ret (Some (Errorf "Failed to decode headers" (Some err)), with_decoder c d)
      | (inl headers, d) =>
          let c1 := with_decoder c d in
          let cs' := foldl apply_header cs headers in
          c' ← update_stream c1 (StreamID fh) l cs' (Flags_Has (Flags fh) FlagHeadersEndStream);
          Ret (None, c')
      end
  end.

(** [int(binary.BigEndian.Uint32(payload[lo:lo+4]))] *)
Definition uint32_at (data : bytes) (lo : Z) : go Z :=
  s ← s_sub (slice_of data) lo (lo + 4);
  b0 ← s_index s 0; b1 ← s_index s 1; b2 ← s_index s 2; b3 ← s_index s 3;
  Ret (be_Uint32 b0 b1 b2 b3).

Definition handleRSTStreamFrame (fh : http2FrameHeader) (data : bytes) (c : grpcClient) : go grpcClient :=
  match load_stream c (StreamID fh) with
  | None => Ret c
  | Some (l, cs) =>
      status ← uint32_at data 0;
      update_stream c (StreamID fh) l
        (mkStream (streamId cs) (doneCh cs) status (str "Stream reset by server") (compressionAlgo cs) (payload cs)) true
  end.

Definition handleSettingsFrame (fh : http2FrameHeader) (data : bytes) (c : grpcClient)
  : M (option error * grpcClient) :=
  if Flags_Has (Flags fh) FlagSettingsAck then mret (None, c)
  else
    '(err, x) ← TcpWriter.WriteSettingsFrame (conn c) FlagSettingsAck [];
    let c1 := with_conn c x in
    match err with
    | Some e => mret (Some e, c1)
    | None =>
        if settingsAcked c1 then panic "close of closed channel"
        else mret (None, mkClient (serverURL c1) (conn c1) (streamIdGen c1) (heap c1) (clientStreams c1)
                           (ctx_done c1) (encoder c1) (decoder c1) true)
    end.

Definition handlePingFrame (fh : http2FrameHeader) (data : bytes) (c : grpcClient) : M (option error * grpcClient) :=
  if Flags_Has (Flags fh) FlagPingAck then mret (None, c)
  else
    '(err, x) ← TcpWriter.WritePingFrame (conn c) FlagPingAck data;
    mret (err, with_conn c x).

(** [Range] visits the entries of the registry; each visit deletes the entry
    under the stream's own identifier. *)
Fixpoint goaway_loop (entries : list (Z * nat)) (data : bytes) (c : grpcClient) : go grpcClient :=
  match entries with
  | [] => Ret c
  | (_, l) :: entries' =>
      match heap c !! l with
      | None => goaway_loop entries' data c
      | Some cs =>
          status ← uint32_at data 4;
          let cs' := mkStream (streamId cs) (doneCh cs) status (str "stream go away") (compressionAlgo cs) (payload cs) in
          c' ← update_stream c (streamId cs) l cs' true;
          goaway_loop entries' data c'
      end
  end.

Definition handleGoAwayFrame (data : bytes) (c : grpcClient) : go grpcClient :=
  goaway_loop (map_to_list (clientStreams c)) data c.

(** The table [frameHandlers]; [None]: no handler for this type. *)
Definition frameHandlers (typ : Z) (fh : http2FrameHeader) (data : bytes) (c : grpcClient)
  : option (M (option error * grpcClient)) :=
  if typ =? 0 then Some (c' ← lift (handleDataFrame fh data c); mret (None, c'))
  else if typ =? 1 then Some (lift (handleHeadersFrame fh data c))
  else if typ =? 3 then Some (c' ← lift (handleRSTStreamFrame fh data c); mret (None, c'))
  else if typ =? 4 then Some (handleSettingsFrame fh data c)
  else if typ =? 6 then Some (handlePingFrame fh data c)
  else if typ =? 7 then Some (c' ← lift (handleGoAwayFrame data c); mret (None, c'))
  else None.

Definition tcp_readFrameHeader (fuel : nat) (r : T) : M (option http2FrameHeader * option error * T) :=
  '(headerBuf, err, r') ← ReadFull fuel r http2frameHeaderLen;
  match err with
  | Some e => mret (None, Some e, r')
  | None => mret (Some (parse_header headerBuf), None, r')
  end.

Definition tcp_readFramePayload (fuel : nat) (r : T) (length : Z) : M (bytes * option error * T) :=
  ReadFull fuel r length.

Definition ErrCanceled := Sentinel "context.Canceled" "context canceled".

(** The errors are formatted with [%v]: they do not wrap their cause. *)
Definition readFrame (fuel : nat) (c : grpcClient) : M (option error * grpcClient) :=
  if ctx_done c then mret (Some (ErrNew ErrCanceled), c)
  else
    '(fh, err, x1) ← tcp_readFrameHeader fuel (conn c);
    match err, fh with
    | Some _, _ => mret (Some (Errorf "failed to read frame header" None), with_conn c x1)
    | None, None => panic nil_deref
    | None, Some fh =>
        '(data, perr, x2) ← tcp_readFramePayload fuel x1 (Length fh);
        let c2 := with_conn c x2 in
        match perr with
        | Some _ => mret (Some (Errorf "failed to read frame payload" None), c2)
        | None =>
            match frameHandlers (Type_ fh) fh data c2 with
            | Some handle =>
                '(er, c3) ← handle;
                match er with
                | Some _ => mret (Some (Errorf "failed to handle frame" None), c3)
                | None => mret (None, c3)
                end
            | None => mret (None, c2)
            end
        end
    end.

(** [turns] iterations of the loop at most; [Some]: the loop has returned. *)
Fixpoint readLoop (turns fuel : nat) (c : grpcClient) : M (option unit * grpcClient) :=
  match turns with
  | O => mret (None, c)
  | S turns' =>
      if ctx_done c then mret (Some tt, c)
      else
        '(err, c') ← readFrame fuel c;
        if err_is EOF err then mret (Some tt, c') else readLoop turns' fuel c'
  end.

(** ** Calls (client.go) *)

Definition encodeHpackHeaders (c : grpcClient) (headers : list HeaderField) : bytes * grpcClient :=
  let '(b, e) := EncodeFields (encoder c) headers in
  (b, mkClient (serverURL c) (conn c) (streamIdGen c) (heap c) (clientStreams c) (ctx_done c) e (decoder c) (settingsAcked c)).

(** [Call] up to the first [writeMu.Unlock()]: the new identifier. *)
Definition call_headers (serviceMethod : bytes) (c : grpcClient) : M (Z * option error * grpcClient) :=
  let gen := u32 (streamIdGen c + 2) in
  let id := u32 (gen - 1) in
  let c1 := mkClient (serverURL c) (conn c) gen (heap c) (clientStreams c) (ctx_done c) (encoder c) (decoder c) (settingsAcked c) in
  let '(block, c2) := encodeHpackHeaders c1 (grpcHeaders (serverURL c) serviceMethod) in
  '(err, x) ← TcpWriter.WriteHeadersFrame (conn c2) id FlagHeadersEndHeaders block;
  mret (id, err, with_conn c2 x).

(** [c.clientStreams.Store(streamId, cs)]: the location of the new stream. *)
Definition call_register (id : Z) (c : grpcClient) : nat * grpcClient :=
  let l := length (heap c) in
  (l, with_streams c (heap c ++ [mkStream id false (-1) [] [] []]) (<[id := l]> (clientStreams c))).

Definition call_send (id : Z) (reqBytes : bytes) (c : grpcClient) : M (option error * grpcClient) :=
  '(err, x) ← TcpWriter.WriteDataFrame (conn c) id FlagDataEndStream (Grpc.EncodeGrpcPayload reqBytes);
  mret (err, with_conn c x).

(** The [select] when [doneCh] is closed.  [cs.payload] was grown by [append]:
    [spare] is what its array holds past the length, within the capacity. *)
Definition call_result {Msg} (Unmarshal : bytes → Msg → option error * Msg) (decompress_gzip : bytes → bytes + error)
  (spare : bytes) (cs : clientStream) (res : Msg) : go (option error * Msg) :=
  if negb (grpcStatus cs =? 0) then Ret (Some (Errorf "grpc error" None), res)
  else
    '(er, res') ← Grpc.DecodeGrpcFrameWithDecompress Unmarshal decompress_gzip
                    (Slice (payload cs ++ spare) (zlen (payload cs))) (compressionAlgo cs) res;
    match er with
    | Some e => Ret (Some (Errorf "failed to decode response" (Some e)), res')
    | None => Ret (None, res')
    end.

(** The deferred [c.clientStreams.Delete(streamId)]. *)
Definition call_finish (id : Z) (c : grpcClient) : grpcClient :=
  with_streams c (heap c) (delete id (clientStreams c)).

(** The ready case that the [select] of [Call] takes. *)
Inductive select_case := OnDone | OnCtx (err : error) | OnClientCtx.

Section CallSection.
Context {Msg : Type} (Marshal : Msg → bytes + error) (Unmarshal : bytes → Msg → option error * Msg).
Context (decompress_gzip : bytes → bytes + error) (spare : bytes).
(** What other goroutines (the read loop, other calls) do to the client while
    [writeMu] is free: before the stream is registered, before the DATA frame,
    and during the wait. *)
Context (before_register before_data waiting : grpcClient → M grpcClient).

(** The wait for the stream at location [l]; [None]: the case is not ready. *)
Definition call_wait (sel : select_case) (l : nat) (res : Msg) (c : grpcClient) : go (option (option error * Msg)) :=
  match sel with
  | OnDone =>
      match heap c !! l with
      | Some cs => if doneCh cs then r ← call_result Unmarshal decompress_gzip spare cs res; Ret (Some r) else Ret None
      | None => Panic nil_deref
      end
  | OnCtx err => Ret (Some (Some err, res))
  | OnClientCtx => if ctx_done c then Ret (Some (Some (ErrNew ErrCanceled), res)) else Ret None
  end.

Definition Call (sel : select_case) (serviceMethod : bytes) (req res : Msg) (c : grpcClient)
  : M (option (option error * Msg) * grpcClient) :=
  match Marshal req with
  | inr err => mret (Some (Some (Errorf "failed to marshal request" (Some err)), res), c)
  | inl reqBytes =>
      '(id, er, c1) ← call_headers serviceMethod c;
      match er with
      | Some e => mret (Some (Some e, res), c1)
      | None =>
          c2 ← before_register c1;
          let '(l, c3) := call_register id c2 in
          c4 ← before_data c3;
          '(er, c5) ← call_send id reqBytes c4;
          match er with
          | Some e => mret (Some (Some e, res), call_finish id c5)
          | None =>
              c6 ← waiting c5;
              r ← lift (call_wait sel l res c6);
              match r with
              | Some _ => mret (r, call_finish id c6)
              | None => mret (None, c6)
              end
          end
      end
  end.
End CallSection.

Definition Client_Close (close_conn : T → T) (c : grpcClient) : grpcClient :=
  mkClient (serverURL c) (close_conn (conn c)) (streamIdGen c) (heap c) (clientStreams c) true
    (encoder c) (decoder c) (settingsAcked c).

(** [NewGRPCClient] after [dialConn], up to [go client.readLoop(ctx)]. *)
Definition NewGRPCClient (url : URL) (x : T) (e : E) (d : D) (close_conn : T → T) : M (option error * grpcClient) :=
  let client := mkClient url x 0 [] ∅ false e d false in
  '(er, x') ← TcpWriter.WriteSettingsFrame x 0 [];
  match er with
  | Some err => mret (Some err, Client_Close close_conn (with_conn client x'))
  | None => mret (None, with_conn client x')
  end.

(** [dialConn] after the dial: the connection preface. *)
Definition send_preface (close_conn : T → T) (x : T) : M (option error * T) :=
  '(_, er, x') ← io_write x ClientPreface;
  match er with
  | Some e => mret (Some e, close_conn x')
  | None => mret (None, x')
  end.

End Client.
Arguments grpcClient : clear implicits.
