(* ===== verification/TcpClientSpec.v ===== *)
(** * Properties of the gRPC client over TCP

    The registry invariant (every registered stream is open and stored under
    its own identifier), its preservation by every frame handler, the assembly
    of a response, and two behaviours of the read loop and the SETTINGS
    handler. *)
From S2P Require Import Prelude Errors Bytespool IO Wire Http2Frames Http2Spec TcpClient.
Import Grpc FrameReader.

Section Facts.
Context {T D E : Type} `{StreamReader T} `{StreamWriter T}.
Context (DecodeFull : D → bytes → (list HeaderField + error) * D).

Implicit Types (c : grpcClient T D E).

(** ** Invariant *)

Definition client_ok c : Prop :=
  ∀ id l, clientStreams c !! id = Some l → ∃ cs, heap c !! l = Some cs ∧ streamId cs = id ∧ doneCh cs = false.

Lemma load_stream_ok c id l cs :
  client_ok c → load_stream c id = Some (l, cs) →
  clientStreams c !! id = Some l ∧ heap c !! l = Some cs ∧ streamId cs = id ∧ doneCh cs = false.
Proof.
  intros Hc. unfold load_stream. destruct (clientStreams c !! id) as [l'|] eqn:El; [|done].
  cbn. destruct (Hc id l' El) as (cs' & Hh & Hid & Hd). rewrite Hh. cbn. by intros [= <- <-].
Qed.

Lemma load_other c c' id l id' :
  client_ok c → clientStreams c !! id = Some l → id' ≠ id →
  (∀ l', l' ≠ l → heap c' !! l' = heap c !! l') → clientStreams c' !! id' = clientStreams c !! id' →
  load_stream c' id' = load_stream c id'.
Proof.
  intros Hc Hreg Hne Hh Hm. unfold load_stream. rewrite Hm.
  destruct (clientStreams c !! id') as [l'|] eqn:El; [|done]. cbn [mbind option_bind]. rewrite Hh; [done|].
  intros ->. destruct (Hc id l Hreg) as (cs & ? & ? & _), (Hc id' l El) as (cs' & ? & ? & _). congruence.
Qed.

(** Updating a registered stream keeps the invariant and touches no other
    stream. *)
Lemma update_stream_ok c id l cs cs' fin :
  client_ok c → clientStreams c !! id = Some l → heap c !! l = Some cs →
  streamId cs' = id → doneCh cs' = false →
  ∃ c', update_stream c id l cs' fin = Ret c' ∧ client_ok c' ∧
    (∀ l', l' ≠ l → heap c' !! l' = heap c !! l') ∧
    heap c' !! l = Some (if fin then mkStream (streamId cs') true (grpcStatus cs') (grpcMessage cs')
                                       (compressionAlgo cs') (payload cs') else cs') ∧
    clientStreams c' = (if fin then delete id (clientStreams c) else clientStreams c) ∧
    (∀ id', id' ≠ id → load_stream c' id' = load_stream c id') ∧
    conn c' = conn c ∧ decoder c' = decoder c ∧ settingsAcked c' = settingsAcked c.
Proof.
  intros Hc Hreg Hl Hid Hd. unfold update_stream, close_done. rewrite Hd.
  assert (Hlt : (l < length (heap c))%nat) by by eapply lookup_lt_Some.
  destruct fin; (eexists; split; [reflexivity|]); cbn [with_streams heap clientStreams conn decoder settingsAcked].
  - split_and!; try done.
    + intros id' l' Hl'. cbn in Hl'. apply lookup_delete_Some in Hl' as [Hne Hl'].
      destruct (Hc id' l' Hl') as (cs0 & Hh & Hid0 & Hd0). exists cs0. cbn.
      rewrite list_lookup_insert_ne; [done|]. intros Heq. subst l'.
      destruct (Hc id l Hreg) as (cs1 & Hh1 & Hid1 & _). congruence.
    + intros l' Hne. by rewrite list_lookup_insert_ne.
    + by rewrite list_lookup_insert_eq.
    + intros id' Hne. eapply load_other; [done..|intros l' Hl'; cbn; by rewrite list_lookup_insert_ne|].
      cbn. by rewrite ?lookup_delete_ne.
  - split_and!; try done.
    + intros id' l' Hl'. cbn in Hl'. destruct (Hc id' l' Hl') as (cs0 & Hh & Hid0 & Hd0). cbn.
      destruct (decide (l' = l)) as [->|Hne].
      * rewrite list_lookup_insert_eq by done. exists cs'. split_and!; try done.
        destruct (Hc id l Hreg) as (cs1 & Hh1 & Hid1 & _). congruence.
      * rewrite list_lookup_insert_ne by done. eauto.
    + intros l' Hne. by rewrite list_lookup_insert_ne.
    + by rewrite list_lookup_insert_eq.
    + intros id' Hne. eapply load_other; [done..|intros l' Hl'; cbn; by rewrite list_lookup_insert_ne|].
      cbn. by rewrite ?lookup_delete_ne.
Qed.

Lemma apply_header_id cs hs :
  streamId (foldl apply_header cs hs) = streamId cs ∧ doneCh (foldl apply_header cs hs) = doneCh cs ∧
  payload (foldl apply_header cs hs) = payload cs.
Proof.
  revert cs. induction hs as [|h hs IH]; intros cs; [done|]. cbn [foldl].
  destruct (IH (apply_header cs h)) as (-> & -> & ->).
  unfold apply_header. repeat case_bool_decide; try done. by destruct (Atoi (hf_Value h)).
Qed.

Lemma uint32_at_Ret (data : bytes) lo : 0 ≤ lo → lo + 4 ≤ zlen data → ∃ v, uint32_at data lo = Ret v.
Proof.
  intros H1' H2'. unfold uint32_at. rewrite s_sub_Ret by (unfold s_cap; cbn; lia). rewrite go_bind_Ret.
  set (s := Slice (zdrop lo (s_arr (slice_of data))) (lo + 4 - lo)).
  assert (slice_ok s) as Hs.
  { unfold slice_ok, s_cap. cbn. rewrite zlen_zdrop by lia. lia. }
  assert (s_len s = 4) as Hl by (cbn; lia).
  destruct (s_index_Ret s 0 Hs) as (? & -> & _); [lia|]. destruct (s_index_Ret s 1 Hs) as (? & -> & _); [lia|].
  destruct (s_index_Ret s 2 Hs) as (? & -> & _); [lia|]. destruct (s_index_Ret s 3 Hs) as (? & -> & _); [lia|].
  by eexists.
Qed.

(** GOAWAY finishes every registered stream. *)
Lemma goaway_loop_ok entries data c :
  client_ok c → 8 ≤ zlen data → NoDup entries.*1 →
  (∀ id l, (id, l) ∈ entries → clientStreams c !! id = Some l) →
  ∃ c', goaway_loop entries data c = Ret c' ∧ client_ok c' ∧ conn c' = conn c ∧ settingsAcked c' = settingsAcked c ∧
    (∀ id, clientStreams c' !! id = (if bool_decide (id ∈ entries.*1) then None else clientStreams c !! id)).
Proof.
  revert c. induction entries as [|[id l] entries IH]; intros c Hc Hlen Hnd Hin.
  { exists c. split_and!; try done. }
  cbn [goaway_loop]. cbn in Hnd. apply NoDup_cons in Hnd as [Hni Hnd].
  assert (clientStreams c !! id = Some l) as Hreg by (apply Hin; set_solver).
  destruct (Hc id l Hreg) as (cs & Hh & Hid & Hd). subst id. rewrite Hh.
  destruct (uint32_at_Ret data 4) as (v & Hv); [lia|lia|]. rewrite Hv, go_bind_Ret.
  destruct (update_stream_ok c _ l cs (mkStream (streamId cs) (doneCh cs) v (str "stream go away")
    (compressionAlgo cs) (payload cs)) true Hc Hreg Hh eq_refl Hd) as (c1 & Hu & Hc1 & Hother & _ & Hm & _ & Hcn & _ & Hsa).
  rewrite Hu, go_bind_Ret.
  destruct (IH c1 Hc1 Hlen Hnd) as (c2 & Heq & Hc2 & Hcn2 & Hsa2 & Hm2).
  { intros id' l' Hin'. rewrite Hm. rewrite lookup_delete_ne; [apply Hin; set_solver|].
    intros Heq'. apply Hni. apply list_elem_of_fmap. exists (id', l'). by rewrite Heq'. }
  exists c2. split_and!; try done; [congruence..|]. intros id'. rewrite Hm2, Hm. cbn [fmap list_fmap fst].
  destruct (decide (id' = streamId cs)) as [->|Hne].
  - rewrite lookup_delete_eq. rewrite (bool_decide_eq_true_2 (streamId cs ∈ streamId cs :: _)) by set_solver. by case_bool_decide.
  - rewrite lookup_delete_ne by done. rewrite (bool_decide_ext (id' ∈ _ :: _) (id' ∈ entries.*1)); [done|].
    rewrite elem_of_cons. tauto.
Qed.

(** Frames long enough for what their handlers read. *)
Definition sized (typ : Z) (data : bytes) : Prop :=
  (typ = 3 → 4 ≤ zlen data) ∧ (typ = 7 → 8 ≤ zlen data).

(** The same on a client [c1] that differs from [c] only in its decoder. *)
Lemma finish_ok c c1 id l cs cs' fin :
  client_ok c1 → wr_inv (conn c) → clientStreams c1 !! id = Some l → heap c1 !! l = Some cs →
  streamId cs' = id → doneCh cs' = false → clientStreams c1 = clientStreams c → heap c1 = heap c → conn c1 = conn c →
  ∃ c', update_stream c1 id l cs' fin = Ret c' ∧ client_ok c' ∧ wr_inv (conn c') ∧
        (∀ l', clientStreams c !! id ≠ Some l' → heap c' !! l' = heap c !! l') ∧
        (∀ id', id' ≠ id → load_stream c' id' = load_stream c id').
Proof.
  intros Hc1 Hi Hreg Hl Hid Hd E1 E2 E3.
  destruct (update_stream_ok c1 id l cs cs' fin Hc1 Hreg Hl Hid Hd) as (c' & Hu & Hc' & Ho & _ & _ & Hld & Hcn & _).
  exists c'. rewrite Hcn, E3, <- E1, <- E2. split_and!; try done.
  - intros l' Hne. apply Ho. congruence.
  - intros id' Hne. rewrite Hld by done. unfold load_stream. by rewrite E1, E2.
Qed.

Lemma handle_frame_ok typ fh data c w handle :
  client_ok c → wr_inv (conn c) → world_ok w → sized typ data →
  (typ = 4 → Flags_Has (Flags fh) FlagSettingsAck = false → settingsAcked c = false) →
  frameHandlers DecodeFull typ fh data c = Some handle →
  ∃ e c' w', handle w = Ret ((e, c'), w') ∧ client_ok c' ∧ wr_inv (conn c') ∧ world_ok w' ∧
    (typ ≠ 7 → (∀ l, clientStreams c !! StreamID fh ≠ Some l → heap c' !! l = heap c !! l) ∧
               (∀ id, id ≠ StreamID fh → load_stream c' id = load_stream c id)).
Proof.
  intros Hc Hi Hw [Hs3 Hs7] Hset Hh. unfold frameHandlers in Hh.
  repeat match type of Hh with (if ?b then _ else _) = _ => destruct b eqn:? end; try done; injection Hh as <-.
  - unfold handleDataFrame. destruct (load_stream c (StreamID fh)) as [[l cs]|] eqn:El.
    2: { by eexists _, _, _. }
    destruct (load_stream_ok c _ l cs Hc El) as (Hreg & Hl & Hid & Hd).
    destruct (finish_ok c c _ l cs (mkStream (streamId cs) (doneCh cs) (grpcStatus cs) (grpcMessage cs)
      (compressionAlgo cs) (payload cs ++ data)) (Flags_Has (Flags fh) FlagDataEndStream) Hc Hi Hreg Hl Hid Hd)
      as (c' & -> & Hc' & Hi' & Ho); [done..|]. eexists _, _, _. split; [reflexivity|]. done.
  - unfold handleHeadersFrame. destruct (load_stream c (StreamID fh)) as [[l cs]|] eqn:El.
    2: { by eexists _, _, _. }
    destruct (load_stream_ok c _ l cs Hc El) as (Hreg & Hl & Hid & Hd).
    destruct (DecodeFull (decoder c) data) as [[hs|err] d].
    2: { by eexists _, _, _. }
    destruct (apply_header_id cs hs) as (Hi1 & Hd1 & _).
    destruct (finish_ok c (with_decoder c d) (StreamID fh) l cs (foldl apply_header cs hs)
      (Flags_Has (Flags fh) FlagHeadersEndStream)) as (c' & -> & Hc' & Hi' & Ho); [first [done|congruence]..|].
    eexists _, _, _. split; [reflexivity|]. done.
  - unfold handleRSTStreamFrame. destruct (load_stream c (StreamID fh)) as [[l cs]|] eqn:El.
    2: { by eexists _, _, _. }
    destruct (load_stream_ok c _ l cs Hc El) as (Hreg & Hl & Hid & Hd).
    destruct (uint32_at_Ret data 0) as (v & ->); [lia|apply Hs3; lia|]. rewrite go_bind_Ret.
    destruct (finish_ok c c _ l cs (mkStream (streamId cs) (doneCh cs) v (str "Stream reset by server")
      (compressionAlgo cs) (payload cs)) true Hc Hi Hreg Hl Hid Hd)
      as (c' & -> & Hc' & Hi' & Ho); [done..|]. eexists _, _, _. split; [reflexivity|]. done.
  - unfold handleSettingsFrame. destruct (Flags_Has (Flags fh) FlagSettingsAck) eqn:Ef; [by eexists _, _, _|].
    unfold TcpWriter.WriteSettingsFrame.
    destruct (write_two_ok (conn c) (frame_header (zlen (@nil Z)) 4 (u8 FlagSettingsAck) 0) [] (zlen (@nil Z) <=? 0)
      w Hi Hw) as (err & t' & w' & k & Heq & Hw' & Ht' & _); [done|].
    rewrite (M_bind_Ret _ _ _ _ _ Heq). destruct err as [e|]; [by eexists _, _, _|].
    cbn [with_conn settingsAcked]. rewrite Hset by (done || lia). by eexists _, _, _.
  - unfold handlePingFrame. destruct (Flags_Has (Flags fh) FlagPingAck) eqn:Ef; [by eexists _, _, _|].
    unfold TcpWriter.WritePingFrame. destruct (negb (zlen data =? 8)); [by eexists _, _, _|].
    destruct (write_two_ok (conn c) (frame_header (zlen data) 6 (u8 FlagPingAck) 0) data false
      w Hi Hw) as (err & t' & w' & k & Heq & Hw' & Ht' & _); [done|].
    rewrite (M_bind_Ret _ _ _ _ _ Heq). by eexists _, _, _.
  - unfold handleGoAwayFrame.
    destruct (goaway_loop_ok (map_to_list (clientStreams c)) data c Hc) as (c' & -> & Hc' & Hcn & _ & _).
    + apply Hs7. lia.
    + apply NoDup_fst_map_to_list.
    + intros id l Hin. by apply elem_of_map_to_list.
    + eexists _, _, _. split; [reflexivity|]. rewrite Hcn. split_and!; try done; lia.
Qed.

(** Frame handlers keep the registry sound and streams apart.  One received
    frame that is long enough for its type (and is not a second SETTINGS frame)
    is handled without a panic, keeps every registered stream open and under
    its own identifier, and, unless it is GOAWAY, changes no stream but the one
    it names. *)
Theorem tcp_frames_isolated typ fh data c w handle :
  client_ok c → wr_inv (conn c) → world_ok w → sized typ data →
  (typ = 4 → Flags_Has (Flags fh) FlagSettingsAck = false → settingsAcked c = false) →
  frameHandlers DecodeFull typ fh data c = Some handle →
  ∃ e c' w', handle w = Ret ((e, c'), w') ∧ client_ok c' ∧ wr_inv (conn c') ∧ world_ok w' ∧
    (typ ≠ 7 → (∀ l, clientStreams c !! StreamID fh ≠ Some l → heap c' !! l = heap c !! l) ∧
               (∀ id, id ≠ StreamID fh → load_stream c' id = load_stream c id)).
Proof. apply handle_frame_ok. Qed.

Lemma call_register_ok id c :
  client_ok c → clientStreams c !! id = None →
  let '(l, c') := call_register id c in
  client_ok c' ∧ load_stream c' id = Some (l, mkStream id false (-1) [] [] []) ∧
  (∀ l', (l' < length (heap c))%nat → heap c' !! l' = heap c !! l').
Proof.
  intros Hc Hn. cbn. split_and!.
  - intros id' l Hl. cbn in *. destruct (decide (id' = id)) as [->|Hne].
    + rewrite lookup_insert_eq in Hl. injection Hl as <-. rewrite lookup_app_r, Nat.sub_diag by lia. by eexists.
    + rewrite lookup_insert_ne in Hl by done. destruct (Hc id' l Hl) as (cs & Hh & Hrest).
      exists cs. rewrite lookup_app_l by (by eapply lookup_lt_Some). done.
  - unfold load_stream. cbn. rewrite lookup_insert_eq. cbn. rewrite lookup_app_r, Nat.sub_diag by lia. done.
  - intros l' Hl'. by rewrite lookup_app_l.
Qed.

(** ** Assembling a response *)

(** The read loop over given frames; the error of a handler is only logged. *)
Fixpoint serve (fs : list (http2FrameHeader * bytes)) (c : grpcClient T D E) : M (grpcClient T D E) :=
  match fs with
  | [] => mret c
  | (fh, data) :: fs' =>
      match frameHandlers DecodeFull (Type_ fh) fh data c with
      | Some handle => '(_, c') ← handle; serve fs' c'
      | None => serve fs' c
      end
  end.

Definition data_frame (id : Z) (d : bytes) : http2FrameHeader * bytes := (mkFrameHeader true 0 0 (zlen d) id, d).

(** A response: HEADERS, DATA frames, and HEADERS with END_STREAM. *)
Definition response (id : Z) (hb : bytes) (chunks : list bytes) (tb : bytes) : list (http2FrameHeader * bytes) :=
  (mkFrameHeader true 1 4 (zlen hb) id, hb) :: map (data_frame id) chunks ++ [(mkFrameHeader true 1 5 (zlen tb) id, tb)].

(** A header block that decodes the same in every state of the decoder (it
    does not refer to the dynamic table). *)
Definition stateless (b : bytes) (hs : list HeaderField) : Prop := ∀ d, ∃ d', DecodeFull d b = (inl hs, d').

(** Fields other than the three the client looks at. *)
Definition plain (h : HeaderField) : Prop :=
  hf_Name h ≠ str "grpc-status" ∧ hf_Name h ≠ str "grpc-message" ∧ hf_Name h ≠ str "grpc-encoding".

Lemma apply_plain cs hs : Forall plain hs → foldl apply_header cs hs = cs.
Proof.
  revert cs. induction hs as [|h hs IH]; intros cs; [done|]. intros [(H1' & H2' & H3') Hs]%Forall_cons_1.
  cbn [foldl]. unfold apply_header at 2. rewrite !bool_decide_eq_false_2 by done. by apply IH.
Qed.

Lemma serve_headers_ok id flags b hs fs c l cs w :
  client_ok c → load_stream c id = Some (l, cs) → stateless b hs →
  ∃ c', serve ((mkFrameHeader true 1 flags (zlen b) id, b) :: fs) c w = serve fs c' w ∧ client_ok c' ∧
    (if Flags_Has flags FlagHeadersEndStream then
       let cs' := foldl apply_header cs hs in
       clientStreams c' !! id = None ∧
       heap c' !! l = Some (mkStream id true (grpcStatus cs') (grpcMessage cs') (compressionAlgo cs') (payload cs'))
     else load_stream c' id = Some (l, foldl apply_header cs hs)).
Proof.
  intros Hc Hl Hb. destruct (load_stream_ok c id l cs Hc Hl) as (Hreg & Hh & Hid & Hd).
  destruct (Hb (decoder c)) as (d' & Hdec). destruct (apply_header_id cs hs) as (Hi1 & Hd1 & _).
  destruct (update_stream_ok (with_decoder c d') id l cs (foldl apply_header cs hs)
    (Flags_Has flags FlagHeadersEndStream) Hc Hreg Hh) as (c1 & Hu & Hc1 & _ & Hh1 & Hm1 & _); [congruence..|].
  exists c1. split_and!; [|done|].
  - change (serve ((mkFrameHeader true 1 flags (zlen b) id, b) :: fs) c w) with
      (('(_, c') ← lift (handleHeadersFrame DecodeFull (mkFrameHeader true 1 flags (zlen b) id) b c); serve fs c') w).
    unfold handleHeadersFrame. cbn [StreamID Flags]. rewrite Hl, Hdec, Hu, go_bind_Ret, M_bind_lift. done.
  - destruct (Flags_Has flags FlagHeadersEndStream).
    + rewrite Hm1. split; [apply lookup_delete_eq|]. rewrite Hh1. congruence.
    + unfold load_stream. rewrite Hm1. change (clientStreams (with_decoder c d')) with (clientStreams c).
      rewrite Hreg. cbn [mbind option_bind]. by rewrite Hh1.
Qed.

Lemma serve_data_ok id chunks fs c l cs w :
  client_ok c → load_stream c id = Some (l, cs) →
  ∃ c', serve (map (data_frame id) chunks ++ fs) c w = serve fs c' w ∧ client_ok c' ∧
    load_stream c' id = Some (l, mkStream id false (grpcStatus cs) (grpcMessage cs) (compressionAlgo cs)
                                   (payload cs ++ mjoin chunks)).
Proof.
  revert c cs. induction chunks as [|d chunks IH]; intros c cs Hc Hl;
    destruct (load_stream_ok c id l cs Hc Hl) as (Hreg & Hh & Hid & Hd).
  { exists c. change (mjoin (@nil bytes)) with (@nil Z). rewrite app_nil_r. split_and!; try done.
    rewrite Hl. destruct cs; cbn in *. congruence. }
  destruct (update_stream_ok c id l cs (mkStream (streamId cs) (doneCh cs) (grpcStatus cs) (grpcMessage cs)
      (compressionAlgo cs) (payload cs ++ d)) false Hc Hreg Hh Hid Hd) as
    (c1 & Hu & Hc1 & _ & Hh1 & Hm1 & _).
  destruct (IH c1 (mkStream (streamId cs) (doneCh cs) (grpcStatus cs) (grpcMessage cs) (compressionAlgo cs)
    (payload cs ++ d)) Hc1) as (c2 & Heq & Hc2 & Hl2).
  { unfold load_stream. rewrite Hm1, Hreg. cbn [mbind option_bind]. rewrite Hh1. done. }
  exists c2. rewrite Hl2. cbn [grpcStatus grpcMessage compressionAlgo payload].
  change (mjoin (d :: chunks)) with (d ++ mjoin chunks). rewrite app_assoc. split_and!; try done.
  rewrite <- Heq. change (serve (map (data_frame id) (d :: chunks) ++ fs) c w) with
    ((r ← (c' ← lift (handleDataFrame (mkFrameHeader true 0 0 (zlen d) id) d c); mret (@None error, c'));
      let '(_, c') := r in serve (map (data_frame id) chunks ++ fs) c') w).
  unfold handleDataFrame. cbn [StreamID Flags]. rewrite Hl. change (Flags_Has 0 FlagDataEndStream) with false.
  rewrite Hu. done.
Qed.

(** The frames of a response leave the stream finished, with the payload
    of the DATA frames and the status of the trailers. *)
Lemma serve_response_ok id hb hs chunks tb ts c l cs w :
  client_ok c → load_stream c id = Some (l, cs) → stateless hb hs → Forall plain hs →
  stateless tb (ts ++ [mkHeaderField (str "grpc-status") (str "0")]) → Forall plain ts →
  ∃ c', serve (response id hb chunks tb) c w = Ret (c', w) ∧ client_ok c' ∧ clientStreams c' !! id = None ∧
    heap c' !! l = Some (mkStream id true 0 (grpcMessage cs) (compressionAlgo cs) (payload cs ++ mjoin chunks)).
Proof.
  intros Hc Hl Hhb Hhs Htb Hts. unfold response.
  destruct (serve_headers_ok id 4 hb hs (map (data_frame id) chunks ++ [(mkFrameHeader true 1 5 (zlen tb) id, tb)])
    c l cs w Hc Hl Hhb) as (c1 & -> & Hc1 & Hl1).
  change (Flags_Has 4 FlagHeadersEndStream) with false in Hl1. rewrite apply_plain in Hl1 by done.
  destruct (serve_data_ok id chunks [(mkFrameHeader true 1 5 (zlen tb) id, tb)] c1 l cs w Hc1 Hl1)
    as (c2 & -> & Hc2 & Hl2).
  destruct (serve_headers_ok id 5 tb _ [] c2 l _ w Hc2 Hl2 Htb) as (c3 & -> & Hc3 & Hl3).
  change (Flags_Has 5 FlagHeadersEndStream) with true in Hl3. rewrite foldl_app, (apply_plain _ ts) in Hl3 by done.
  exists c3. destruct Hl3 as [Hn Hh]. split_and!; done.
Qed.
End Facts.

(** ** A whole call *)

(** A writer on which no write fails. *)
Class ReliableWriter (T : Type) `{StreamWriter T} :=
  wr_reliable : ∀ t p w n e t' w', wr_inv t → world_ok w → io_write t p w = Ret ((n, e, t'), w') → e = None.

(** A connection in memory: scripted input, recorded output. *)
Record MemConn := mkMemConn { mc_in : ScriptReader; mc_out : bytes }.

#[global] Instance MemConn_reader : IOReader MemConn := λ c n,
  '(d, e, r) ← io_read (mc_in c) n; mret (d, e, mkMemConn r (mc_out c)).

#[global] Instance MemConn_writer : IOWriter MemConn := λ c p,
  mret (zlen p, None, mkMemConn (mc_in c) (mc_out c ++ p)).

#[global] Program Instance MemConn_stream_reader : StreamReader MemConn := {|
  rd_inv _ := True;
  rd_rest c := rd_rest (mc_in c);
  rd_meas c := rd_meas (mc_in c);
  rd_end c := rd_end (mc_in c)
|}.
Next Obligation.
  intros [r out] n w _ Hw Hn. assert (rd_inv r) as Hr by exact I. destruct (rd_spec r n w Hr Hw Hn) as (d & e & r' & w' & Hio & Hrest).
  exists d, e, (mkMemConn r' out), w'. unfold io_read, MemConn_reader. cbn [mc_in mc_out] in *.
  rewrite (M_bind_Ret _ _ _ _ _ Hio). split; [done|]. tauto.
Qed.

#[global] Program Instance MemConn_stream_writer : StreamWriter MemConn := {|
  wr_inv _ := True;
  wr_out := mc_out
|}.
Next Obligation.
  intros [r out] p w _ Hw. eexists _, _, _, _. split; [reflexivity|]. cbn. pose proof (zlen_nonneg p).
  rewrite ztake_ge by lia. split_and!; try done; lia.
Qed.

#[global] Instance MemConn_reliable : ReliableWriter MemConn.
Proof. intros t p w n e t' w' _ _. unfold io_write, MemConn_writer. cbn. by intros [= _ <- _ _]. Qed.

Section Calls.
Context {T D E Msg : Type} `{StreamReader T} `{ReliableWriter T}.
Context (DecodeFull : D → bytes → (list HeaderField + error) * D).
Context (EncodeFields : E → list HeaderField → bytes * E).
Context (Marshal : Msg → bytes + error) (Unmarshal : bytes → Msg → option error * Msg).
Context (decompress_gzip : bytes → bytes + error).

Lemma write_two_reliable (t : T) header payload skip w :
  wr_inv t → world_ok w → ∃ t' w', write_two t header payload skip w = Ret ((None, t'), w') ∧ wr_inv t' ∧ world_ok w'.
Proof.
  intros Ht Hw. unfold write_two.
  destruct (wr_spec t header w Ht Hw) as (n & e & t1 & w1 & Hio & Hw1 & Ht1 & _).
  rewrite (M_bind_Ret _ _ _ _ _ Hio). rewrite (wr_reliable _ _ _ _ _ _ _ Ht Hw Hio).
  destruct skip; [by eexists _, _|].
  destruct (wr_spec t1 payload w1 Ht1 Hw1) as (n2 & e2 & t2 & w2 & Hio2 & Hw2 & Ht2 & _).
  rewrite (M_bind_Ret _ _ _ _ _ Hio2). rewrite (wr_reliable _ _ _ _ _ _ _ Ht1 Hw1 Hio2). by eexists _, _.
Qed.

Lemma s_index_head f l n : 0 < n → s_index (Slice (f :: l) n) 0 = Ret f.
Proof. intros Hn. unfold s_index. cbn [s_len]. by zltb_solve. Qed.

(** The response to the stream is one message: what [call_result] makes of it. *)
Lemma call_result_ok spare (m : bytes) cs (res : Msg) :
  zlen m < 2 ^ 32 - 5 → grpcStatus cs = 0 → payload cs = EncodeGrpcPayload m →
  call_result Unmarshal decompress_gzip spare cs res =
    Ret (let '(er, res') := Unmarshal m res in
         (match er with Some e => Some (Errorf "failed to decode response" (Some e)) | None => None end, res')).
Proof.
  intros Hm Hst Hp. unfold call_result, DecodeGrpcFrameWithDecompress. rewrite Hst, Hp. cbn [Z.eqb negb s_len].
  pose proof (zlen_nonneg m). pose proof (zlen_nonneg spare).
  unfold EncodeGrpcPayload, be_PutUint32. rewrite u32_id by lia. cbn [app]. rewrite !zlen_cons. zltb_solve.
  rewrite message_length_Ret by (rewrite !zlen_cons, zlen_app; lia).
  rewrite be_Uint32_PutUint32 by lia.
  rewrite s_index_head by lia. rewrite !go_bind_Ret. unfold message_data. rewrite u32_id by lia.
  rewrite s_sub_Ret by (unfold s_cap; cbn [s_arr]; rewrite ?zlen_cons, ?zlen_app; lia).
  rewrite !go_bind_Ret. unfold s_bytes. cbn [Z.eqb negb s_arr s_len].
  replace (5 + zlen m - 5) with (zlen m) by lia.
  match goal with |- context [zdrop 5 ?l] => change (zdrop 5 l) with (m ++ spare) end.
  rewrite ztake_app_le, ztake_ge by lia. destruct (Unmarshal m res) as [[e|] res']; done.
Qed.
(** What other goroutines may do meanwhile: anything that keeps the registry
    invariant and leaves stream [id] alone (frames of other streams do). *)
Definition quiet (id : Z) (env : grpcClient T D E → M (grpcClient T D E)) : Prop :=
  ∀ c w, client_ok c → wr_inv (conn c) → world_ok w →
  ∃ c' w', env c w = Ret (c', w') ∧ client_ok c' ∧ wr_inv (conn c') ∧ world_ok w' ∧
    clientStreams c' !! id = clientStreams c !! id ∧ load_stream c' id = load_stream c id.

Definition next_id (c : grpcClient T D E) : Z := u32 (u32 (streamIdGen c + 2) - 1).

Lemma call_headers_ok svc (c : grpcClient T D E) w :
  client_ok c → wr_inv (conn c) → world_ok w →
  ∃ c' w', call_headers EncodeFields svc c w = Ret ((next_id c, None, c'), w') ∧
    client_ok c' ∧ wr_inv (conn c') ∧ world_ok w' ∧ clientStreams c' = clientStreams c ∧
    heap c' = heap c ∧ streamIdGen c' = u32 (streamIdGen c + 2).
Proof.
  intros Hc Hi Hw. unfold call_headers, encodeHpackHeaders. cbn [encoder conn].
  destruct (EncodeFields (encoder c) _) as [block e]. cbn [conn]. unfold TcpWriter.WriteHeadersFrame.
  match goal with |- context [write_two ?t ?h ?p ?s] => destruct (write_two_reliable t h p s w Hi Hw) as (x & w' & Heq & Hx & Hw') end.
  rewrite (M_bind_Ret _ _ _ _ _ Heq). eexists _, w'. split; [reflexivity|]. done.
Qed.

Lemma call_send_ok id req (c : grpcClient T D E) w :
  client_ok c → wr_inv (conn c) → world_ok w →
  ∃ c' w', call_send id req c w = Ret ((None, c'), w') ∧ client_ok c' ∧ wr_inv (conn c') ∧ world_ok w' ∧
    load_stream c' id = load_stream c id.
Proof.
  intros Hc Hi Hw. unfold call_send, TcpWriter.WriteDataFrame.
  match goal with |- context [write_two ?t ?h ?p ?s] => destruct (write_two_reliable t h p s w Hi Hw) as (x & w' & Heq & Hx & Hw') end.
  rewrite (M_bind_Ret _ _ _ _ _ Heq). eexists _, w'. split; [reflexivity|]. done.
Qed.

End Calls.

(** Witness of [tcp_frames_isolated]: DATA for stream 1 while 3 is open. *)
Definition plain_decoder (d : unit) (b : bytes) : (list HeaderField + error) * unit :=
  (inl (if bool_decide (b = [136]) then [mkHeaderField (str ":status") (str "200")]
        else [mkHeaderField (str "grpc-status") (str "0")]), d).
Definition plain_encoder (e : unit) (hs : list HeaderField) : bytes * unit := (mjoin (map hf_Value hs), e).

Definition demo_conn : MemConn := mkMemConn (Script [] (ErrNew EOF)) [].
Definition demo_client : grpcClient MemConn unit unit :=
  mkClient (mkURL (str "http") (str "h") []) demo_conn 4 [mkStream 1 false (-1) [] [] []; mkStream 3 false (-1) [] [] []]
    (<[1 := 0%nat]> {[3 := 1%nat]}) false tt tt true.

Lemma demo_client_ok : client_ok demo_client.
Proof.
  intros id l. cbn. intros [[<- <-]|[Hne [<- <-]%lookup_singleton_Some]]%lookup_insert_Some; by eexists.
Qed.

Lemma demo_conn_ok : wr_inv (conn demo_client).
Proof. exact I. Qed.

Lemma tcp_frames_isolated_witness :
  ∃ e c' w', (c' ← lift (handleDataFrame (mkFrameHeader true 0 0 2 1) [7; 8] demo_client); mret (@None error, c'))
      empty_world = Ret ((e, c'), w') ∧
    client_ok c' ∧ load_stream c' 3 = load_stream demo_client 3.
Proof.
  destruct (tcp_frames_isolated plain_decoder 0 (mkFrameHeader true 0 0 2 1) [7; 8] demo_client empty_world
    (c' ← lift (handleDataFrame (mkFrameHeader true 0 0 2 1) [7; 8] demo_client); mret (@None error, c'))
    demo_client_ok demo_conn_ok empty_world_ok) as (e & c' & w' & Heq & Hc' & _ & _ & Ho).
  - split; lia.
  - lia.
  - reflexivity.
  - exists e, c', w'. split_and!; [done|done|]. destruct Ho as [_ Ho]; [lia|]. apply Ho. cbn. lia.
Defined.

Lemma mret_quiet {T D E} `{StreamWriter T} id : quiet (T:=T) (D:=D) (E:=E) id mret.
Proof. intros c w Hc Hi Hw. by exists c, w. Qed.


(** ** Failures *)

Lemma uint32_at_short (data : bytes) lo : 0 ≤ lo → zlen data < lo + 4 → uint32_at data lo = Panic oob.
Proof.
  intros Hlo Hs. unfold uint32_at, s_sub, s_cap, slice_of. cbn [s_arr]. zltb_solve. cbn [andb]. done.
Qed.

Section Failures.
Context {T D E : Type} `{StreamReader T} `{ReliableWriter T}.
Context (DecodeFull : D → bytes → (list HeaderField + error) * D).

(** What a peer can do to the client with one frame: RST_STREAM for an open
    stream with fewer than four bytes, GOAWAY with fewer than eight while a
    call is open, and a second SETTINGS frame each panic the read loop. *)
Theorem tcp_peer_can_crash (c : grpcClient T D E) (fh : http2FrameHeader) (data : bytes) (w : World) :
  client_ok c → wr_inv (conn c) → world_ok w →
  (is_Some (load_stream c (StreamID fh)) → zlen data < 4 → handleRSTStreamFrame fh data c = Panic oob) ∧
  (clientStreams c ≠ ∅ → zlen data < 8 → handleGoAwayFrame data c = Panic oob) ∧
  (settingsAcked c = true → Flags_Has (Flags fh) FlagSettingsAck = false →
   handleSettingsFrame fh data c w = Panic "close of closed channel").
Proof.
  intros Hc Hi Hw. split_and!.
  - intros [[l cs] Hl] Hs. unfold handleRSTStreamFrame. rewrite Hl, uint32_at_short by lia. done.
  - intros Hne Hs. unfold handleGoAwayFrame. destruct (map_to_list (clientStreams c)) as [|[id l] rest] eqn:El.
    { by apply map_to_list_empty_iff in El. }
    assert (clientStreams c !! id = Some l) as Hreg by (apply elem_of_map_to_list; rewrite El; set_solver).
    destruct (Hc id l Hreg) as (cs & Hh & _). cbn [goaway_loop]. rewrite Hh, uint32_at_short by lia. done.
  - intros Ha Hf. unfold handleSettingsFrame. rewrite Hf. unfold TcpWriter.WriteSettingsFrame.
    match goal with |- context [write_two ?t ?h ?p ?s] => destruct (write_two_reliable t h p s w Hi Hw) as (x & w' & Heq & _) end.
    rewrite (M_bind_Ret _ _ _ _ _ Heq). cbn [with_conn settingsAcked]. by rewrite Ha.
Qed.

Lemma readFrame_at_eof fuel (c : grpcClient T D E) w :
  rd_inv (conn c) → rd_rest (conn c) = [] → (rd_meas (conn c) < fuel)%nat → ctx_done c = false → world_ok w →
  ∃ x w', readFrame DecodeFull fuel c w = Ret ((Some (Errorf "failed to read frame header" None), with_conn c x), w') ∧
    world_ok w' ∧ rd_inv x ∧ rd_rest x = [] ∧ (rd_meas x < fuel)%nat.
Proof.
  intros Hr Hrest Hf Hctx Hw. unfold readFrame. rewrite Hctx.
  destruct (ReadFull_spec fuel (conn c) http2frameHeaderLen w Hr Hw) as
    (d & e & r1 & w1 & Hio & Hw1 & Hr1 & Hrest1 & Hend & Hm & Hmin & Hn & He); [done|done|].
  rewrite Hrest in Hmin. change (zlen (@nil Z)) with 0 in Hmin.
  destruct e as [err|]; [|exfalso; destruct Hn as [Hn _]; specialize (Hn eq_refl); unfold http2frameHeaderLen in *; lia].
  assert (tcp_readFrameHeader fuel (conn c) w = Ret ((None, Some err, r1), w1)) as Hh.
  { unfold tcp_readFrameHeader. by rewrite (M_bind_Ret _ _ _ _ _ Hio). }
  rewrite (M_bind_Ret _ _ _ _ _ Hh). eexists _, _. split; [reflexivity|]. destruct (He err eq_refl) as [Hnil _].
  split_and!; try done. lia.
Qed.

(** The read loop does not end when the server closes the connection.
    [readFrame] formats the error of the header with [%v], so the test for
    [io.EOF] in [readLoop] never succeeds and the loop turns for as long as the
    context lives. *)
Theorem tcp_readloop_spins_on_eof (turns fuel : nat) (c : grpcClient T D E) (w : World) :
  rd_inv (conn c) → rd_rest (conn c) = [] → (rd_meas (conn c) < fuel)%nat → ctx_done c = false → world_ok w →
  ∃ c' w', readLoop DecodeFull turns fuel c w = Ret ((None, c'), w').
Proof.
  revert c w. induction turns as [|turns IH]; intros c w Hr Hrest Hf Hctx Hw; [by exists c, w|].
  cbn [readLoop]. rewrite Hctx.
  destruct (readFrame_at_eof fuel c w Hr Hrest Hf Hctx Hw) as (x & w1 & Heq & Hw1 & Hr1 & Hrest1 & Hf1).
  rewrite (M_bind_Ret _ _ _ _ _ Heq). by apply IH.
Qed.
End Failures.

Lemma tcp_peer_can_crash_witness :
  handleRSTStreamFrame (mkFrameHeader true 3 0 2 1) [0; 0] demo_client = Panic oob ∧
  handleGoAwayFrame [0; 0] demo_client = Panic oob ∧
  handleSettingsFrame (mkFrameHeader true 4 0 0 0) [] demo_client empty_world = Panic "close of closed channel".
Proof.
  pose proof (tcp_peer_can_crash demo_client (mkFrameHeader true 3 0 2 1) [0; 0] empty_world
    demo_client_ok demo_conn_ok empty_world_ok) as (H1 & H2 & _).
  pose proof (tcp_peer_can_crash demo_client (mkFrameHeader true 4 0 0 0) [] empty_world
    demo_client_ok demo_conn_ok empty_world_ok) as (_ & _ & H3).
  split_and!; [apply H1; [by eexists|done]|apply H2; [|done]|by apply H3].
  intros Hm. assert (clientStreams demo_client !! 1 = None) by (rewrite Hm; done). done.
Defined.

Lemma tcp_readloop_spins_on_eof_witness :
  ∃ c' w', readLoop plain_decoder 1000 1 demo_client empty_world = Ret ((None, c'), w').
Proof.
  refine (tcp_readloop_spins_on_eof plain_decoder 1000 1 demo_client empty_world _ _ _ _ _).
  - exact I.
  - reflexivity.
  - vm_compute. lia.
  - reflexivity.
  - exact empty_world_ok.
Defined.
