(* ===== verification/Http2Client.v ===== *)
(** * The gRPC client on the frames of x/net/http2

    grpc/http2client/http2_client.go: the same client as grpc/tcpclient, but on
    the typed frames of golang.org/x/net/http2.  The [*http2.Framer] is of that
    module and enters as the type class [Framer]: its operations only.  The
    stream type is the one of [TcpClient] (the two Go structs are identical);
    streams live in a heap, because [Call] and the read loop share them. *)
From S2P Require Import Prelude Errors Bytespool IO Wire Http2Frames TcpClient.

(** The frames [Framer.ReadFrame] returns, with what the client reads of them. *)
Inductive h2_frame :=
  | DataFrame (sid : Z) (data : bytes) (ended : bool)
  | HeadersFrame (sid : Z) (fragment : bytes) (ended : bool)
  | PriorityFrame
  | RSTStreamFrame (sid : Z) (code : Z)
  | SettingsFrame (ack : bool) (settings : list (Z * Z))
  | PushPromiseFrame
  | PingFrame (ack : bool) (data : bytes)
  | GoAwayFrame (last code : Z) (debug : bytes)
  | WindowUpdateFrame
  | ContinuationFrame
  | UnknownFrame.

Class Framer (F : Type) := {
  fr_ReadFrame : F → M ((h2_frame + error) * F);
  fr_WriteSettings : F → list (Z * Z) → M (option error * F);
  fr_WriteSettingsAck : F → M (option error * F);
  fr_WriteHeaders : F → Z → bytes → bool → M (option error * F);   (** stream, block, END_HEADERS *)
  fr_WriteData : F → Z → bool → bytes → M (option error * F);
  fr_WritePing : F → bool → bytes → M (option error * F)
}.

Definition SettingMaxConcurrentStreams : Z := 3.

Module H2.
Section Client.
Context {F D E : Type} `{Framer F}.
Context (DecodeFull : D → bytes → (list HeaderField + error) * D).
Context (EncodeFields : E → list HeaderField → bytes * E).

Record grpcClient := mkClient {
  serverURL : URL;
  conn_closed : bool;
  framer : F;
  heap : list clientStream;
  clientStreams : gmap Z nat;
  streamIdGen : Z;
  ctx_done : bool;
  encoder : E;
  decoder : D;
  settingsAcked : bool          (** closed? *)
}.

Definition with_framer c f := mkClient (serverURL c) (conn_closed c) f (heap c) (clientStreams c) (streamIdGen c)
  (ctx_done c) (encoder c) (decoder c) (settingsAcked c).
Definition with_streams c h m := mkClient (serverURL c) (conn_closed c) (framer c) h m (streamIdGen c)
  (ctx_done c) (encoder c) (decoder c) (settingsAcked c).
Definition with_decoder c d := mkClient (serverURL c) (conn_closed c) (framer c) (heap c) (clientStreams c)
  (streamIdGen c) (ctx_done c) (encoder c) d (settingsAcked c).

(** [c.clientStreams.Load(id)] *)
Definition load_stream (c : grpcClient) (id : Z) : option (nat * clientStream) :=
  l ← clientStreams c !! id; cs ← heap c !! l; Some (l, cs).

(** Store the stream; when [finish], delete the entry [id] and close [doneCh]. *)
Definition update_stream (c : grpcClient) (id : Z) (l : nat) (cs : clientStream) (finish : bool) : go grpcClient :=
  if finish then
    cs' ← close_done cs;
    Ret (with_streams c (<[l := cs']> (heap c)) (delete id (clientStreams c)))
  else Ret (with_streams c (<[l := cs]> (heap c)) (clientStreams c)).

(** ** Frames received *)

Definition processDataFrame (sid : Z) (data : bytes) (ended : bool) (c : grpcClient) : go grpcClient :=
  match load_stream c sid with
  | None => Ret c
  | Some (l, cs) =>
      update_stream c sid l
        (mkStream (streamId cs) (doneCh cs) (grpcStatus cs) (grpcMessage cs) (compressionAlgo cs) (payload cs ++ data))
        ended
  end.

Definition processHeaderFrame (sid : Z) (fragment : bytes) (ended : bool) (c : grpcClient)
  : go (option error * grpcClient) :=
  match load_stream c sid with
  | None => Ret (None, c)
  | Some (l, cs) =>
      match DecodeFull (decoder c) fragment with
      | (inr err, d) => Ret (Some (Errorf "Failed to decode headers" (Some err)), with_decoder c d)
      | (inl headers, d) =>
          c' ← update_stream (with_decoder c d) sid l (foldl apply_header cs headers) ended;
          Ret (None, c')
      end
  end.

Definition processRSTStreamFrame (sid code : Z) (c : grpcClient) : go grpcClient :=
  match load_stream c sid with
  | None => Ret c
  | Some (l, cs) =>
      update_stream c sid l
        (mkStream (streamId cs) (doneCh cs) code (str "Stream reset by server") (compressionAlgo cs) (payload cs)) true
  end.

Definition processSettingsFrame (ack : bool) (c : grpcClient) : M (option error * grpcClient) :=
  if ack then mret (None, c)
  else
    '(err, f) ← fr_WriteSettingsAck (framer c);
    let c1 := with_framer c f in
    match err with
    | Some e => mret (Some e, c1)
    | None =>
        if settingsAcked c1 then panic "close of closed channel"
        else mret (None, mkClient (serverURL c1) (conn_closed c1) (framer c1) (heap c1) (clientStreams c1)
                           (streamIdGen c1) (ctx_done c1) (encoder c1) (decoder c1) true)
    end.

Definition processPingFrame (ack : bool) (data : bytes) (c : grpcClient) : M (option error * grpcClient) :=
  if ack then mret (None, c)
  else
    '(err, f) ← fr_WritePing (framer c) true data;
    mret (err, with_framer c f).

(** The callback of [Range], over the entries it visits. *)
Fixpoint goaway_range (entries : list (Z * nat)) (code : Z) (c : grpcClient) : go grpcClient :=
  match entries with
  | [] => Ret c
  | (_, l) :: entries' =>
      match heap c !! l with
      | None => goaway_range entries' code c
      | Some cs =>
          c' ← update_stream c (streamId cs) l
                 (mkStream (streamId cs) (doneCh cs) code (str "stream go away") (compressionAlgo cs) (payload cs)) true;
          goaway_range entries' code c'
      end
  end.

Definition processGoAwayFrame (code : Z) (c : grpcClient) : go grpcClient :=
  goaway_range (map_to_list (clientStreams c)) code c.

(** The type switch of [readFrame]. *)
Definition processFrame (f : h2_frame) (c : grpcClient) : M (option error * grpcClient) :=
  match f with
  | DataFrame sid data ended => c' ← lift (processDataFrame sid data ended c); mret (None, c')
  | HeadersFrame sid fragment ended => lift (processHeaderFrame sid fragment ended c)
  | RSTStreamFrame sid code => c' ← lift (processRSTStreamFrame sid code c); mret (None, c')
  | SettingsFrame ack _ => processSettingsFrame ack c
  | PingFrame ack data => processPingFrame ack data c
  | GoAwayFrame _ code _ => c' ← lift (processGoAwayFrame code c); mret (None, c')
  | _ => mret (None, c)
  end.

(** The context given to [readLoop] is the client's own. *)
Definition readFrame (c : grpcClient) : M (option error * grpcClient) :=
  if ctx_done c then mret (Some (ErrNew ErrCanceled), c)
  else
    '(r, f) ← fr_ReadFrame (framer c);
    let c1 := with_framer c f in
    match r with
    | inr err => mret (Some err, c1)
    | inl frame => processFrame frame c1
    end.

(** [turns] iterations at most; [Some]: the loop has returned. *)
Fixpoint readLoop (turns : nat) (c : grpcClient) : M (option unit * grpcClient) :=
  match turns with
  | O => mret (None, c)
  | S turns' =>
      if ctx_done c then mret (Some tt, c)
      else
        '(err, c') ← readFrame c;
        if err_is EOF err then mret (Some tt, c') else readLoop turns' c'
  end.

(** ** Calls *)

Definition encodeHpackHeaders (c : grpcClient) (headers : list HeaderField) : bytes * grpcClient :=
  let '(b, e) := EncodeFields (encoder c) headers in
  (b, mkClient (serverURL c) (conn_closed c) (framer c) (heap c) (clientStreams c) (streamIdGen c) (ctx_done c) e
        (decoder c) (settingsAcked c)).

(** [Call] up to the first [writeMu.Unlock()]. *)
Definition call_headers (serviceMethod : bytes) (c : grpcClient) : M (Z * option error * grpcClient) :=
  let gen := u32 (streamIdGen c + 2) in
  let id := u32 (gen - 1) in
  let c1 := mkClient (serverURL c) (conn_closed c) (framer c) (heap c) (clientStreams c) gen (ctx_done c) (encoder c)
              (decoder c) (settingsAcked c) in
  let '(block, c2) := encodeHpackHeaders c1 (grpcHeaders (serverURL c) serviceMethod) in
  '(err, f) ← fr_WriteHeaders (framer c2) id block true;
  mret (id, err, with_framer c2 f).

(** [c.clientStreams.Store(streamId, cs)] *)
Definition call_register (id : Z) (c : grpcClient) : nat * grpcClient :=
  let l := length (heap c) in
  (l, with_streams c (heap c ++ [mkStream id false (-1) [] [] []]) (<[id := l]> (clientStreams c))).

Definition call_send (id : Z) (reqBytes : bytes) (c : grpcClient) : M (option error * grpcClient) :=
  '(err, f) ← fr_WriteData (framer c) id true (Grpc.EncodeGrpcPayload reqBytes);
  mret (err, with_framer c f).

Definition call_finish (id : Z) (c : grpcClient) : grpcClient :=
  with_streams c (heap c) (delete id (clientStreams c)).

Section CallSection.
Context {Msg : Type} (Marshal : Msg → bytes + error) (Unmarshal : bytes → Msg → option error * Msg).
Context (decompress_gzip : bytes → bytes + error) (spare : bytes).
(** What other goroutines do while [writeMu] is free. *)
Context (before_register before_data waiting : grpcClient → M grpcClient).

Definition call_wait (sel : select_case) (l : nat) (res : Msg) (c : grpcClient) : go (option (option error * Msg)) :=
  match sel with
  | OnDone =>
      match heap c !! l with
      | Some cs => if doneCh cs then r ← call_result Unmarshal decompress_gzip spare cs res; Ret (Some r) else Ret None
      | None => Panic nil_deref
      end
  | OnCtx err => Ret (Some (Some err, res))
  | OnClientCtx => if ctx_done c then Ret (Some (Some (ErrNew ErrCanceled), res)) else Ret None
  end.

Definition Call (sel : select_case) (serviceMethod : bytes) (req res : Msg) (c : grpcClient)
  : M (option (option error * Msg) * grpcClient) :=
  match Marshal req with
  | inr err => mret (Some (Some (Errorf "failed to marshal request" (Some err)), res), c)
  | inl reqBytes =>
      '(id, er, c1) ← call_headers serviceMethod c;
      match er with
      | Some e => mret (Some (Some e, res), c1)
      | None =>
          c2 ← before_register c1;
          let '(l, c3) := call_register id c2 in
          c4 ← before_data c3;
          '(er, c5) ← call_send id reqBytes c4;
          match er with
          | Some e => mret (Some (Some e, res), call_finish id c5)
          | None =>
              c6 ← waiting c5;
              r ← lift (call_wait sel l res c6);
              match r with
              | Some _ => mret (r, call_finish id c6)
              | None => mret (None, c6)
              end
          end
      end
  end.
End CallSection.

(** [Close]: cancel the context, close the connection. *)
Definition Close (c : grpcClient) : grpcClient :=
  mkClient (serverURL c) true (framer c) (heap c) (clientStreams c) (streamIdGen c) true (encoder c) (decoder c)
    (settingsAcked c).

(** [NewGRPCClient] after [dialConn], up to [go client.readLoop(ctx)]. *)
Definition NewGRPCClient (url : URL) (f : F) (e : E) (d : D) : M (option error * grpcClient) :=
  let client := mkClient url false f [] ∅ 0 false e d false in
  '(er, f') ← fr_WriteSettings f [(SettingMaxConcurrentStreams, 1024)];
  match er with
  | Some err => mret (Some err, Close (with_framer client f'))
  | None => mret (None, with_framer client f')
  end.
End Client.
Arguments grpcClient : clear implicits.
End H2.
