(* ===== verification/Http2ClientSpec.v ===== *)
(** * The two gRPC clients agree

    grpc/http2client and grpc/tcpclient react to the frames of a connection in
    the same way: on the frames a server sends, the read loop of the first
    leaves its streams exactly as the handlers of the second do, and it ends
    when the connection does. *)
From S2P Require Import Prelude Errors Bytespool IO Wire Http2Frames Http2Spec TcpClient TcpClientSpec Http2Client.
Import FrameReader.

(** A framer that delivers the frames [fs_rest], then [io.EOF]. *)
Class FrameStream (F : Type) `{Framer F} := {
  fs_rest : F → list h2_frame;
  fs_spec : ∀ f w, world_ok w → ∃ r f' w', fr_ReadFrame f w = Ret ((r, f'), w') ∧ world_ok w' ∧
    match fs_rest f with
    | [] => r = inr (ErrNew EOF) ∧ fs_rest f' = []
    | x :: rest => r = inl x ∧ fs_rest f' = rest
    end
}.

(** [f] is the frame with header [fh] and payload [data] (RFC 7540, without
    padding and priority fields; SETTINGS and PING as acknowledgements). *)
Definition encodes (fd : http2FrameHeader * bytes) (f : h2_frame) : Prop :=
  let '(fh, data) := fd in
  match f with
  | DataFrame sid d ended =>
      Type_ fh = 0 ∧ StreamID fh = sid ∧ data = d ∧ Flags_Has (Flags fh) FlagDataEndStream = ended
  | HeadersFrame sid b ended =>
      Type_ fh = 1 ∧ StreamID fh = sid ∧ data = b ∧ Flags_Has (Flags fh) FlagHeadersEndStream = ended
  | PriorityFrame => Type_ fh = 2
  | RSTStreamFrame sid code => Type_ fh = 3 ∧ StreamID fh = sid ∧ 0 ≤ code < 2 ^ 32 ∧ data = be_PutUint32 code
  | SettingsFrame ack _ => Type_ fh = 4 ∧ ack = true ∧ Flags_Has (Flags fh) FlagSettingsAck = true
  | PushPromiseFrame => Type_ fh = 5
  | PingFrame ack _ => Type_ fh = 6 ∧ ack = true ∧ Flags_Has (Flags fh) FlagPingAck = true
  | GoAwayFrame last code debug =>
      Type_ fh = 7 ∧ 0 ≤ code < 2 ^ 32 ∧ data = be_PutUint32 last ++ be_PutUint32 code ++ debug
  | WindowUpdateFrame => Type_ fh = 8
  | ContinuationFrame => Type_ fh = 9
  | UnknownFrame => 9 < Type_ fh
  end.

Lemma uint32_at_rst code : 0 ≤ code < 2 ^ 32 → uint32_at (be_PutUint32 code) 0 = Ret code.
Proof.
  intros Hc. unfold uint32_at. rewrite s_sub_Ret by (unfold s_cap, slice_of; cbn [s_arr]; rewrite ?zlen_be; lia). rewrite go_bind_Ret.
  change (Ret (be_Uint32 (u8 (Z.shiftr code 24)) (u8 (Z.shiftr code 16)) (u8 (Z.shiftr code 8)) (u8 code)) = Ret code).
  by rewrite be_Uint32_PutUint32.
Qed.

Lemma uint32_at_goaway last code debug :
  0 ≤ code < 2 ^ 32 → uint32_at (be_PutUint32 last ++ be_PutUint32 code ++ debug) 4 = Ret code.
Proof.
  intros Hc. unfold uint32_at. pose proof (zlen_nonneg debug).
  rewrite s_sub_Ret by (unfold s_cap, slice_of; cbn [s_arr]; rewrite ?zlen_app, ?zlen_be; lia).
  rewrite go_bind_Ret.
  change (Ret (be_Uint32 (u8 (Z.shiftr code 24)) (u8 (Z.shiftr code 16)) (u8 (Z.shiftr code 8)) (u8 code)) = Ret code).
  by rewrite be_Uint32_PutUint32.
Qed.

Section Agree.
Context {T F D E : Type} `{StreamReader T} `{StreamWriter T} `{FrameStream F}.
Context (DecodeFull : D → bytes → (list HeaderField + error) * D).

(** The client of grpc/tcpclient with the same streams, on connection [x]. *)
Definition as_tcp (x : T) (c : H2.grpcClient F D E) : grpcClient T D E :=
  mkClient (H2.serverURL c) x (H2.streamIdGen c) (H2.heap c) (H2.clientStreams c) (H2.ctx_done c)
    (H2.encoder c) (H2.decoder c) (H2.settingsAcked c).

Definition go_map {A B} (f : A → B) (r : go A) : go B := a ← r; Ret (f a).

Lemma update_agree x c id l cs fin :
  update_stream (as_tcp x c) id l cs fin = go_map (as_tcp x) (H2.update_stream c id l cs fin).
Proof. unfold update_stream, H2.update_stream, close_done. destruct fin; [|done]. by destruct (doneCh cs). Qed.

Lemma data_agree x c fh data :
  handleDataFrame fh data (as_tcp x c) =
  go_map (as_tcp x) (H2.processDataFrame (StreamID fh) data (Flags_Has (Flags fh) FlagDataEndStream) c).
Proof.
  unfold handleDataFrame, H2.processDataFrame. change (load_stream (as_tcp x c) _) with (H2.load_stream c (StreamID fh)).
  destruct (H2.load_stream c (StreamID fh)) as [[l cs]|]; [apply update_agree|done].
Qed.

Lemma headers_agree x c fh data :
  handleHeadersFrame DecodeFull fh data (as_tcp x c) =
  go_map (λ '(e, c'), (e, as_tcp x c'))
    (H2.processHeaderFrame DecodeFull (StreamID fh) data (Flags_Has (Flags fh) FlagHeadersEndStream) c).
Proof.
  unfold handleHeadersFrame, H2.processHeaderFrame.
  change (load_stream (as_tcp x c) _) with (H2.load_stream c (StreamID fh)).
  destruct (H2.load_stream c (StreamID fh)) as [[l cs]|]; [|done]. cbn [as_tcp decoder].
  destruct (DecodeFull (H2.decoder c) data) as [[hs|err] d]; [|done].
  change (with_decoder _ d) with (as_tcp x (H2.with_decoder c d)). rewrite update_agree.
  by destruct (H2.update_stream _ _ _ _ _).
Qed.

Lemma rst_agree x c fh code :
  0 ≤ code < 2 ^ 32 →
  handleRSTStreamFrame fh (be_PutUint32 code) (as_tcp x c) =
  go_map (as_tcp x) (H2.processRSTStreamFrame (StreamID fh) code c).
Proof.
  intros Hc. unfold handleRSTStreamFrame, H2.processRSTStreamFrame.
  change (load_stream (as_tcp x c) _) with (H2.load_stream c (StreamID fh)).
  destruct (H2.load_stream c (StreamID fh)) as [[l cs]|]; [|done].
  rewrite uint32_at_rst by done. apply update_agree.
Qed.

Lemma goaway_agree x last code debug entries c :
  0 ≤ code < 2 ^ 32 →
  goaway_loop entries (be_PutUint32 last ++ be_PutUint32 code ++ debug) (as_tcp x c) =
  go_map (as_tcp x) (H2.goaway_range entries code c).
Proof.
  intros Hc. revert c. induction entries as [|[id l] entries IH]; intros c; [done|].
  cbn [goaway_loop H2.goaway_range as_tcp heap]. destruct (H2.heap c !! l) as [cs|]; [|apply IH].
  rewrite uint32_at_goaway, go_bind_Ret by done. fold (as_tcp x c). rewrite update_agree.
  destruct (H2.update_stream c _ _ _ _) as [c'| |]; [|done..]. apply IH.
Qed.

(** One frame: the same step in both clients. *)
Lemma frame_agree x c fd f w :
  encodes fd f →
  match frameHandlers DecodeFull (Type_ fd.1) fd.1 fd.2 (as_tcp x c) with
  | Some handle => handle w = go_map (λ '((e, c'), w'), ((e, as_tcp x c'), w')) (H2.processFrame DecodeFull f c w)
  | None => H2.processFrame DecodeFull f c w = Ret ((None, c), w)
  end.
Proof.
  destruct fd as [fh data]. cbn [fst snd]. unfold frameHandlers.
  destruct f as [sid d ended|sid b ended| |sid code|ack ss| |ack d|last code debug| | |]; cbn [encodes H2.processFrame].
  - intros (-> & <- & -> & <-). cbn [Z.eqb]. rewrite data_agree. by destruct (H2.processDataFrame _ _ _ c).
  - intros (-> & <- & -> & <-). cbn [Z.eqb Pos.eqb]. rewrite headers_agree.
    by destruct (H2.processHeaderFrame _ _ _ _ c) as [[e c']| |].
  - by intros ->.
  - intros (-> & <- & Hc & ->). cbn [Z.eqb Pos.eqb]. rewrite rst_agree by done.
    by destruct (H2.processRSTStreamFrame _ _ c).
  - intros (-> & -> & Hf). cbn [Z.eqb Pos.eqb]. unfold handleSettingsFrame. by rewrite Hf.
  - by intros ->.
  - intros (-> & -> & Hf). cbn [Z.eqb Pos.eqb]. unfold handlePingFrame. by rewrite Hf.
  - intros (-> & Hc & ->). cbn [Z.eqb Pos.eqb]. unfold handleGoAwayFrame, H2.processGoAwayFrame.
    cbn [as_tcp clientStreams]. fold (as_tcp x c). rewrite goaway_agree by done.
    by destruct (H2.goaway_range _ _ c).
  - by intros ->.
  - by intros ->.
  - intros Ht. repeat (rewrite (proj2 (Z.eqb_neq _ _)) by lia). done.
Qed.
(** What a step keeps besides the streams. *)
Definition same_env (c c' : H2.grpcClient F D E) : Prop := H2.framer c' = H2.framer c ∧ H2.ctx_done c' = H2.ctx_done c.

Lemma update_env c id l cs fin c' : H2.update_stream c id l cs fin = Ret c' → same_env c c'.
Proof. unfold H2.update_stream, close_done. destruct fin, (doneCh cs); cbn; by intros [= <-]. Qed.

Lemma goaway_env entries code c c' : H2.goaway_range entries code c = Ret c' → same_env c c'.
Proof.
  revert c. induction entries as [|[id l] entries IH]; intros c; cbn [H2.goaway_range]; [by intros [= <-]|].
  destruct (H2.heap c !! l) as [cs|]; [|apply IH].
  intros (c1 & [E1 E2]%update_env & [E3 E4]%IH)%go_bind_inv. split; congruence.
Qed.

Lemma go_map_Ret {A B} (f : A → B) r b : go_map f r = Ret b → ∃ a, r = Ret a ∧ b = f a.
Proof. destruct r; cbn; try done. intros [= <-]. eauto. Qed.

(** An update of a registered stream succeeds and keeps the registry sound. *)
Lemma h2_update_ok x c id l cs cs' fin :
  client_ok (as_tcp x c) → H2.load_stream c id = Some (l, cs) → streamId cs' = streamId cs → doneCh cs' = doneCh cs →
  ∃ c', H2.update_stream c id l cs' fin = Ret c' ∧ client_ok (as_tcp x c') ∧ same_env c c'.
Proof.
  intros Hc Hl Hid Hd. destruct (load_stream_ok (as_tcp x c) id l cs Hc Hl) as (Hreg & Hh & Hid' & Hd').
  destruct (update_stream_ok (as_tcp x c) id l cs cs' fin Hc Hreg Hh) as (ct & Hu & Hct & _); [congruence..|].
  rewrite update_agree in Hu. apply go_map_Ret in Hu as (c' & Hu & ->).
  exists c'. split_and!; try done; by eapply update_env.
Qed.

(** Processing such a frame touches neither the world nor the connection. *)
Lemma process_ok x c fd f :
  encodes fd f → client_ok (as_tcp x c) →
  ∃ e c', (∀ w, H2.processFrame DecodeFull f c w = Ret ((e, c'), w)) ∧ client_ok (as_tcp x c') ∧ same_env c c' ∧
    err_is EOF e = false.
Proof.
  intros Henc Hc. destruct fd as [fh data].
  destruct f as [sid d ended|sid b ended| |sid code|ack ss| |ack d|last code debug| | |]; cbn [H2.processFrame];
    try (exists None, c; by split_and!).
  - unfold H2.processDataFrame. destruct (H2.load_stream c sid) as [[l cs]|] eqn:El; [|exists None, c; by split_and!].
    destruct (h2_update_ok x c sid l cs (mkStream (streamId cs) (doneCh cs) (grpcStatus cs) (grpcMessage cs)
      (compressionAlgo cs) (payload cs ++ d)) ended Hc El) as (c' & -> & Hc' & He); [done..|].
    exists None, c'. by split_and!.
  - unfold H2.processHeaderFrame. destruct (H2.load_stream c sid) as [[l cs]|] eqn:El; [|exists None, c; by split_and!].
    destruct (DecodeFull (H2.decoder c) b) as [[hs|err] d].
    2: { eexists _, _. by split_and!. }
    destruct (apply_header_id cs hs) as (Hi & Hd & _).
    destruct (h2_update_ok x (H2.with_decoder c d) sid l cs (foldl apply_header cs hs) ended) as (c' & -> & Hc' & He);
      [done..|]. exists None, c'. by split_and!.
  - unfold H2.processRSTStreamFrame. destruct (H2.load_stream c sid) as [[l cs]|] eqn:El; [|exists None, c; by split_and!].
    destruct (h2_update_ok x c sid l cs (mkStream (streamId cs) (doneCh cs) code (str "Stream reset by server")
      (compressionAlgo cs) (payload cs)) true Hc El) as (c' & -> & Hc' & He); [done..|].
    exists None, c'. by split_and!.
  - destruct Henc as (_ & -> & _). exists None, c. by split_and!.
  - destruct Henc as (_ & -> & _). exists None, c. by split_and!.
  - destruct Henc as (_ & Hcode & ->).
    destruct (goaway_loop_ok (map_to_list (H2.clientStreams c)) (be_PutUint32 last ++ be_PutUint32 code ++ debug)
      (as_tcp x c) Hc) as (ct & Heq & Hct & _).
    + rewrite !zlen_app, !zlen_be. pose proof (zlen_nonneg debug). lia.
    + apply NoDup_fst_map_to_list.
    + intros id l Hin. by apply elem_of_map_to_list.
    + rewrite goaway_agree in Heq by done. apply go_map_Ret in Heq as (c' & Heq & ->).
      unfold H2.processGoAwayFrame. rewrite Heq. exists None, c'. split_and!; try done; by eapply goaway_env.
Qed.

Lemma serve_cons x c fd f wire w e c' :
  encodes fd f → (∀ w, H2.processFrame DecodeFull f c w = Ret ((e, c'), w)) →
  serve DecodeFull (fd :: wire) (as_tcp x c) w = serve DecodeFull wire (as_tcp x c') w.
Proof.
  intros Henc Hp. pose proof (frame_agree x c fd f w Henc) as Ha. destruct fd as [fh data]. cbn [serve fst snd] in *.
  rewrite Hp in Ha. destruct (frameHandlers DecodeFull (Type_ fh) fh data (as_tcp x c)) as [handle|].
  - by rewrite (M_bind_Ret _ _ _ _ _ Ha).
  - by injection Ha as _ <-.
Qed.

End Agree.

(** A framer in memory: the frames to be read, the number of frames written. *)
Record ScriptFramer := mkScriptFramer { sf_frames : list h2_frame; sf_written : nat }.

Definition sf_write (f : ScriptFramer) : M (option error * ScriptFramer) :=
  mret (None, mkScriptFramer (sf_frames f) (S (sf_written f))).

#[global] Instance ScriptFramer_framer : Framer ScriptFramer := {|
  fr_ReadFrame f :=
    match sf_frames f with
    | [] => mret (inr (ErrNew EOF), f)
    | x :: rest => mret (inl x, mkScriptFramer rest (sf_written f))
    end;
  fr_WriteSettings f _ := sf_write f;
  fr_WriteSettingsAck f := sf_write f;
  fr_WriteHeaders f _ _ _ := sf_write f;
  fr_WriteData f _ _ _ := sf_write f;
  fr_WritePing f _ _ := sf_write f
|}.

#[global] Program Instance ScriptFramer_stream : FrameStream ScriptFramer := {| fs_rest := sf_frames |}.
Next Obligation. intros [[|x rest] n] w Hw; cbn; by eexists _, _, _. Qed.

Definition demo_frames : list h2_frame :=
  [HeadersFrame 1 [136] false; DataFrame 1 [0; 0; 0; 0; 1] false; RSTStreamFrame 3 8; DataFrame 1 [7] true; WindowUpdateFrame].

Definition demo_wire : list (http2FrameHeader * bytes) :=
  [(mkFrameHeader true 1 4 1 1, [136]); (mkFrameHeader true 0 0 5 1, [0; 0; 0; 0; 1]);
   (mkFrameHeader true 3 0 4 3, [0; 0; 0; 8]); (mkFrameHeader true 0 1 1 1, [7]); (mkFrameHeader true 8 0 4 0, [0; 0; 0; 9])].

Definition demo_h2 : H2.grpcClient ScriptFramer unit unit :=
  H2.mkClient (mkURL (str "http") (str "h") []) false (mkScriptFramer demo_frames 0)
    [mkStream 1 false (-1) [] [] []; mkStream 3 false (-1) [] [] []] (<[1 := 0%nat]> {[3 := 1%nat]}) 4 false tt tt true.

