(* ===== verification/GrpcDial.v ===== *)
(** * Setting up a gRPC connection

    [dialConn] and the whole of [NewGRPCClient] of grpc/tcpclient/client.go and of
    grpc/http2client/http2_client.go, over the dials of net and crypto/tls: what is
    sent before the first call, and what is left of the connection when the set-up
    fails.  The functions that the two packages both have are stated for each, and
    shown to be the same. *)
From S2P Require Import Prelude Errors Bytespool IO Wire Http2Frames Http2Spec TcpClient Http2Client.

Module GrpcDial.

Record tlsConfig := mkTlsConfig { InsecureSkipVerify : bool; NextProtos : list bytes }.

(** What the [select] on [settingsAcked] and the timer takes. *)
Inductive outcome := Acked | After5s.

Definition errAckTimeout : error := Errorf "timeout waiting for settings ack" None.

Section Dial.
Context {T D E : Type} `{IOWriter T}.
(** The dials of crypto/tls and of net, the close of a connection. *)
Context (tls_Dial : bytes → tlsConfig → T + error) (net_Dial : bytes → T + error) (close_conn : T → T).

(** ** grpc/tcpclient *)

(** The connection as it is left, and the error. *)
Definition dialConn (serverURL : URL) : M (option T * option error) :=
  let addr := getHostAddress serverURL in
  let dialed := if bool_decide (u_Scheme serverURL = str "https")
                then tls_Dial addr (mkTlsConfig true [str "h2"]) else net_Dial addr in
  match dialed with
  | inr err => mret (None, Some err)
  | inl conn => '(er, conn') ← send_preface close_conn conn; mret (Some conn', er)
  end.

(** The client or the error, and the connection. *)
Definition newGRPCClient (serverURL : URL) (e : E) (d : D) (o : outcome) : M ((grpcClient T D E + error) * option T) :=
  '(conn, err) ← dialConn serverURL;
  match err, conn with
  | Some err, _ => mret (inr err, conn)
  | None, None => panic nil_deref
  | None, Some x =>
      '(er, client) ← NewGRPCClient serverURL x e d close_conn;
      match er with
      | Some err => mret (inr err, Some (TcpClient.conn client))
      | None =>
          match o with
          | Acked => mret (inl client, Some (TcpClient.conn client))
          | After5s => mret (inr errAckTimeout, Some (TcpClient.conn client))
          end
      end
  end.

(** The names of the frame types, for the log. *)
Definition frameTypes (t : Z) : bytes :=
  match t with
  | 0 => str "DATA" | 1 => str "HEADERS" | 2 => str "PRIORITY" | 3 => str "RST_STREAM" | 4 => str "SETTINGS"
  | 5 => str "PUSH_PROMISE" | 6 => str "PING" | 7 => str "GOAWAY" | 8 => str "WINDOW_UPDATE" | 9 => str "CONTINUATION"
  | _ => []
  end.
End Dial.

(** ** grpc/http2client *)
Module H2Dial.
Section Dial.
Context {T D E : Type} `{IOWriter T}.
Context (tls_Dial : bytes → tlsConfig → T + error) (net_Dial : bytes → T + error) (close_conn : T → T).

Definition clientPreface : bytes := str "PRI * HTTP/2.0" ++ [13; 10; 13; 10] ++ str "SM" ++ [13; 10; 13; 10].

Definition grpcHeaders (serverURL : URL) (fullMethod : bytes) : list HeaderField :=
  let fullMethod := if HasPrefix fullMethod (str "/") then fullMethod else str "/" ++ fullMethod in
  [mkHeaderField (str ":method") (str "POST"); mkHeaderField (str ":scheme") (u_Scheme serverURL);
   mkHeaderField (str ":authority") (u_Host serverURL); mkHeaderField (str ":path") fullMethod;
   mkHeaderField (str "content-type") (str "application/grpc"); mkHeaderField (str "te") (str "trailers");
   mkHeaderField (str "grpc-encoding") (str "identity"); mkHeaderField (str "grpc-accept-encoding") (str "identity")].

Definition getHostAddress (parsedURL : URL) : bytes :=
  let host := u_Host parsedURL in
  match u_Port parsedURL with
  | [] => if bool_decide (u_Scheme parsedURL = str "https") then host ++ str ":443"
          else if bool_decide (u_Scheme parsedURL = str "http") then host ++ str ":80" else host
  | _ => host
  end.

Definition dialConn (serverURL : URL) : M (option T * option error) :=
  let addr := getHostAddress serverURL in
  let dialed := if bool_decide (u_Scheme serverURL = str "https")
                then tls_Dial addr (mkTlsConfig true [str "h2"]) else net_Dial addr in
  match dialed with
  | inr err => mret (None, Some err)
  | inl conn =>
      '(_, er, conn') ← io_write conn clientPreface;
      match er with
      | Some err => mret (Some (close_conn conn'), Some err)
      | None => mret (Some conn', None)
      end
  end.

(** The framer that [http2.NewFramer] makes of the connection writes to it:
    [framer_conn] is the connection inside. *)
Definition newGRPCClient {F} `{Framer F} (NewFramer : T → F) (serverURL : URL) (e : E) (d : D) (o : outcome)
  : M ((H2.grpcClient F D E + error) * option (F + T)) :=
  '(conn, err) ← dialConn serverURL;
  match err, conn with
  | Some err, _ => mret (inr err, inr <$> conn)
  | None, None => panic nil_deref
  | None, Some x =>
      '(er, client) ← H2.NewGRPCClient serverURL (NewFramer x) e d;
      match er with
      | Some err => mret (inr err, Some (inl (H2.framer client)))
      | None =>
          match o with
          | Acked => mret (inl client, Some (inl (H2.framer client)))
          | After5s => mret (inr errAckTimeout, Some (inl (H2.framer client)))
          end
      end
  end.
End Dial.
End H2Dial.

(** ** The common functions are the same *)

Lemma grpcHeaders_same url m : H2Dial.grpcHeaders url m = TcpClient.grpcHeaders url m.
Proof. unfold H2Dial.grpcHeaders, TcpClient.grpcHeaders. by destruct (HasPrefix m (str "/")). Qed.

Lemma getHostAddress_same url : H2Dial.getHostAddress url = TcpClient.getHostAddress url.
Proof. unfold H2Dial.getHostAddress, TcpClient.getHostAddress. by destruct (u_Port url); repeat case_bool_decide. Qed.

Section Facts.
Context {T D E : Type} `{StreamWriter T}.
Context (tls_Dial : bytes → tlsConfig → T + error) (net_Dial : bytes → T + error) (close_conn : T → T).

Lemma dialConn_same url w :
  H2Dial.dialConn tls_Dial net_Dial close_conn url w = dialConn tls_Dial net_Dial close_conn url w.
Proof.
  unfold H2Dial.dialConn, dialConn. rewrite getHostAddress_same. destruct (if bool_decide _ then _ else _) as [x|e]; [|done].
  unfold send_preface. change H2Dial.clientPreface with ClientPreface.
  unfold mbind, M_bind. destruct (io_write x ClientPreface w) as [[[[n er] x'] w']| |]; try done. by destruct er.
Qed.

(** The dial that [dialConn] makes. *)
Definition dialed (url : URL) : T + error :=
  if bool_decide (u_Scheme url = str "https") then tls_Dial (getHostAddress url) (mkTlsConfig true [str "h2"])
  else net_Dial (getHostAddress url).

(** What the set-up puts on a connection. *)
Definition hello : bytes := ClientPreface ++ frame_header 0 4 0 0.

Lemma newGRPCClient_ok url (e : E) (d : D) o x w :
  dialed url = inl x → wr_inv x → world_ok w → (∀ t, wr_out (close_conn t) = wr_out t) →
  ∃ r x' w', newGRPCClient tls_Dial net_Dial close_conn url e d o w = Ret ((r, Some x'), w') ∧
    (∃ k, wr_out x' = wr_out x ++ ztake k hello) ∧
    match r with
    | inl client => wr_out x' = wr_out x ++ hello ∧ o = Acked ∧ TcpClient.conn client = x' ∧ TcpClient.streamIdGen client = 0
    | inr err => err = errAckTimeout ∧ o = After5s ∧ wr_inv x' ∧ wr_out x' = wr_out x ++ hello ∨ ∃ y, x' = close_conn y
    end.
Proof.
  intros Hd Hx Hw Hcl. unfold newGRPCClient, dialConn. fold (dialed url). rewrite Hd. unfold send_preface.
  destruct (wr_spec x ClientPreface w Hx Hw) as (n & er & x1 & w1 & Hio & Hw1 & Hx1 & Hn & Hout & Hn1).
  rewrite (M_bind_Ret _ _ _ (Some (match er with Some _ => close_conn x1 | None => x1 end), er) w1)
    by (rewrite (M_bind_Ret _ _ _ (er, match er with Some _ => close_conn x1 | None => x1 end) w1);
        [done|rewrite (M_bind_Ret _ _ _ _ _ Hio); by destruct er]).
  destruct er as [err|].
  { eexists _, _, _. split; [reflexivity|]. split; [|by right; exists x1].
    exists n. rewrite Hcl, Hout. f_equal. unfold hello. by rewrite ztake_app_le by lia. }
  specialize (Hn1 eq_refl) as ->. rewrite ztake_ge in Hout by lia. unfold NewGRPCClient.
  destruct (write_two_ok x1 (frame_header 0 4 0 0) [] true w1 Hx1 Hw1) as
    (er & x2 & w2 & k & Hwr & Hw2 & Hx2 & Hk & Hout2 & Hk2); [done|].
  unfold TcpWriter.WriteSettingsFrame. change (zlen (@nil Z)) with 0. change (u8 0) with 0. change (0 <=? 0) with true.
  rewrite app_nil_r in *. rewrite Hout, <- app_assoc in Hout2. unfold mbind, M_bind in *. rewrite Hwr.
  destruct er as [err|]; cbn -[wr_out ClientPreface].
  - eexists _, _, _. split; [reflexivity|]. split; [|by right; exists x2].
    exists (zlen ClientPreface + k). cbn -[wr_out ClientPreface]. rewrite Hcl, Hout2. f_equal. unfold hello.
    rewrite ztake_app_ge by lia. by replace (zlen ClientPreface + k - zlen ClientPreface) with k by lia.
  - specialize (Hk2 eq_refl) as ->. rewrite ztake_ge in Hout2 by lia.
    destruct o; (eexists _, _, _; split; [reflexivity|]; cbn -[wr_out ClientPreface hello]).
    + split; [exists (zlen hello); by rewrite ztake_ge by lia|]. by split_and!.
    + split; [exists (zlen hello); by rewrite ztake_ge by lia|]. left. by split_and!.
Qed.
End Facts.
End GrpcDial.

(** A client exists only on a connection on which exactly the HTTP/2 connection
    preface and an empty SETTINGS frame were sent, in this order, and whose
    SETTINGS were acknowledged; its first call takes stream 1.  In every other case
    the constructor returns an error, and the connection it had opened was closed --
    except when the acknowledgement does not come within five seconds: then the
    connection is left open and nobody has it. *)
Theorem grpc_setup {T D E} `{StreamWriter T} (tls_Dial : bytes → GrpcDial.tlsConfig → T + error)
    (net_Dial : bytes → T + error) (close_conn : T → T) (url : URL) (e : E) (d : D) (o : GrpcDial.outcome) (x : T) (w : World) :
  GrpcDial.dialed tls_Dial net_Dial url = inl x → wr_inv x → world_ok w → (∀ t, wr_out (close_conn t) = wr_out t) →
  ∃ r x' w', GrpcDial.newGRPCClient tls_Dial net_Dial close_conn url e d o w = Ret ((r, Some x'), w') ∧
    match r with
    | inl client => wr_out x' = wr_out x ++ ClientPreface ++ [0; 0; 0; 4; 0; 0; 0; 0; 0] ∧ o = GrpcDial.Acked ∧
                    TcpClient.conn client = x' ∧ TcpClient.streamIdGen client = 0
    | inr err => err = GrpcDial.errAckTimeout ∧ o = GrpcDial.After5s ∧ wr_inv x' ∨ ∃ y, x' = close_conn y
    end.
Proof.
  intros Hd Hx Hw Hc. destruct (GrpcDial.newGRPCClient_ok tls_Dial net_Dial close_conn url e d o x w Hd Hx Hw Hc)
    as (r & x' & w' & Heq & _ & Hr). exists r, x', w'. split; [done|]. destruct r as [client|err].
  - destruct Hr as (-> & -> & Hcn & Hg). by split_and!.
  - destruct Hr as [(-> & -> & Hi & _)|Hy]; [by left|by right].
Qed.

Lemma grpc_setup_witness :
  ∃ r x' w', GrpcDial.newGRPCClient (λ _ _, inr (ErrNew EOF)) (λ addr, inl (Sink [] 100 (ErrNew EOF))) (λ t, t)
      (mkURL (str "http") (str "localhost") []) tt tt GrpcDial.Acked empty_world = Ret ((r, Some x'), w') ∧
    match r with inl client => wr_out x' = ClientPreface ++ [0; 0; 0; 4; 0; 0; 0; 0; 0] | inr _ => False end.
Proof.
  destruct (grpc_setup (T := SinkWriter) (λ _ _, inr (ErrNew EOF)) (λ addr, inl (Sink [] 100 (ErrNew EOF))) (λ t, t)
    (mkURL (str "http") (str "localhost") []) tt tt GrpcDial.Acked (Sink [] 100 (ErrNew EOF)) empty_world)
    as (r & x' & w' & Heq & Hr); [reflexivity|cbn; lia|exact empty_world_ok|reflexivity|].
  exists r, x', w'. split; [exact Heq|]. vm_compute in Heq. injection Heq as <- <- <-. exact (proj1 Hr).
Defined.

(** The leak: the peer never acknowledges, and the connection stays open. *)
Example grpc_setup_leaks :
  GrpcDial.newGRPCClient (T := bool * SinkWriter) (H := λ c b, '(n, err, s) ← io_write c.2 b; mret (n, err, (c.1, s)))
    (λ _ _, inr (ErrNew EOF)) (λ _, inl (true, Sink [] 100 (ErrNew EOF))) (λ c, (false, c.2))
    (mkURL (str "http") (str "localhost") []) tt tt GrpcDial.After5s empty_world
  = Ret ((inr GrpcDial.errAckTimeout,
          Some (true, Sink (ClientPreface ++ [0; 0; 0; 4; 0; 0; 0; 0; 0]) 67 (ErrNew EOF))), empty_world).
Proof. vm_compute. reflexivity. Qed.
