(* ===== verification/Uuid.v ===== *)
(** * UUIDs and bit masks

    uuid/uuid.go and bitmask/byte.go.  Of the standard library: [encoding/hex]
    and [crypto/sha1] (the hash of FIPS 180-4), which [ParseString] uses for
    names.  [New] takes the random bytes as its argument. *)
From S2P Require Import Prelude Errors Wire.

(** ** encoding/hex *)
Module Hex.

Definition digit (n : Z) : Z := if n <? 10 then 48 + n else 87 + n.

(** [reverseHexTable]; [None]: not a digit. *)
Definition value (c : Z) : option Z :=
  if (48 <=? c) && (c <=? 57) then Some (c - 48)
  else if (97 <=? c) && (c <=? 102) then Some (c - 87)
  else if (65 <=? c) && (c <=? 70) then Some (c - 55)
  else None.

Definition EncodeToString (src : bytes) : bytes :=
  src ≫= λ b, [digit (Z.shiftr b 4); digit (Z.land b 15)].

Definition errLength := Sentinel "hex.ErrLength" "encoding/hex: odd length hex string".

(** [Decode(dst, src)]: the bytes stored at the front of [dst], the error. *)
Fixpoint Decode (src : bytes) : bytes * option error :=
  match src with
  | [] => ([], None)
  | [p] => ([], Some (match value p with Some _ => ErrNew errLength | None => Errorf "encoding/hex: invalid byte" None end))
  | p :: q :: src' =>
      match value p, value q with
      | Some a, Some b => let '(d, err) := Decode src' in (Z.lor (u8 (Z.shiftl a 4)) b :: d, err)
      | _, _ => ([], Some (Errorf "encoding/hex: invalid byte" None))
      end
  end.

End Hex.

(** ** crypto/sha1 *)
Module Sha1.

Definition rotl (n x : Z) : Z := u32 (Z.lor (Z.shiftl x n) (Z.shiftr x (32 - n))).

(** The message with its padding: a one bit, zeros, the length in bits. *)
Definition pad (msg : bytes) : bytes :=
  let l := zlen msg in
  msg ++ [128] ++ replicate (Z.to_nat ((55 - l) mod 64)) 0 ++
  be_PutUint32 (Z.shiftr (8 * l) 32) ++ be_PutUint32 (8 * l).

Fixpoint words (l : bytes) : list Z :=
  match l with
  | a :: b :: c :: d :: l' => be_Uint32 a b c d :: words l'
  | _ => []
  end.

(** The message schedule, newest word first. *)
Fixpoint schedule (n : nat) (ws : list Z) : list Z :=
  match n with
  | O => ws
  | S n' =>
      let w i := nth i ws 0 in
      schedule n' (rotl 1 (Z.lxor (Z.lxor (w 2%nat) (w 7%nat)) (Z.lxor (w 13%nat) (w 15%nat))) :: ws)
  end.

Definition f_k (t : Z) (b c d : Z) : Z * Z :=
  if t <? 20 then (Z.lor (Z.land b c) (Z.land (Z.lxor b (2 ^ 32 - 1)) d), 1518500249)
  else if t <? 40 then (Z.lxor b (Z.lxor c d), 1859775393)
  else if t <? 60 then (Z.lor (Z.land b c) (Z.lor (Z.land b d) (Z.land c d)), 2400959708)
  else (Z.lxor b (Z.lxor c d), 3395469782).

Definition round (s : Z * (Z * Z * Z * Z * Z)) (w : Z) : Z * (Z * Z * Z * Z * Z) :=
  let '(t, (a, b, c, d, e)) := s in
  let '(f, k) := f_k t b c d in
  (t + 1, (u32 (rotl 5 a + f + e + k + w), a, rotl 30 b, c, d)).

Definition block (h : Z * Z * Z * Z * Z) (ws : list Z) : Z * Z * Z * Z * Z :=
  let '(h0, h1, h2, h3, h4) := h in
  let '(_, (a, b, c, d, e)) := foldl round (0, h) (rev (schedule 64 (rev ws))) in
  (u32 (h0 + a), u32 (h1 + b), u32 (h2 + c), u32 (h3 + d), u32 (h4 + e)).

Fixpoint blocks (fuel : nat) (h : Z * Z * Z * Z * Z) (ws : list Z) : Z * Z * Z * Z * Z :=
  match fuel, ws with
  | S fuel', _ :: _ => blocks fuel' (block h (take 16 ws)) (drop 16 ws)
  | _, _ => h
  end.

(** [sha1.New()], [Write(msg)], [Sum(nil)] *)
Definition Sum (msg : bytes) : bytes :=
  let ws := words (pad msg) in
  let '(a, b, c, d, e) := blocks (length ws) (1732584193, 4023233417, 2562383102, 271733878, 3285377520) ws in
  be_PutUint32 a ++ be_PutUint32 b ++ be_PutUint32 c ++ be_PutUint32 d ++ be_PutUint32 e.

End Sha1.

(** ** uuid/uuid.go *)

Definition byteGroups : list Z := [8; 4; 4; 4; 12].

(** [UUID] is [[16]byte]. *)
Definition UUID : Type := bytes.
Definition uuid_ok (u : UUID) : Prop := zlen u = 16 ∧ is_bytes u.

Definition zero_uuid : UUID := replicate 16 0.

Definition UUID_Bytes (u : UUID) : bytes := u.

(** The loop over the groups after the first. *)
Fixpoint string_loop (groups : list Z) (b : bytes) (start : Z) : bytes :=
  match groups with
  | [] => []
  | g :: groups' =>
      let nBytes := g / 2 in
      str "-" ++ Hex.EncodeToString (ztake nBytes (zdrop start b)) ++ string_loop groups' b (start + nBytes)
  end.

Definition UUID_String (u : UUID) : bytes :=
  let b := UUID_Bytes u in
  match byteGroups with
  | [] => []
  | g0 :: groups => Hex.EncodeToString (ztake (g0 / 2) b) ++ string_loop groups b (g0 / 2)
  end.

(** [Equals] on two [*UUID]. *)
Definition UUID_Equals (u another : option UUID) : bool :=
  match u, another with
  | None, None => true
  | Some u, Some another => bool_decide (UUID_Bytes u = UUID_Bytes another)
  | _, _ => false
  end.

(** [u[6] = (u[6] & 0x0f) | (v << 4)] and [u[8] = u[8]&(0xff>>2) | (0x02 << 6)]. *)
Definition set_version (v : Z) (u : UUID) : UUID :=
  let u1 := <[6%nat := Z.lor (Z.land (nth 6 u 0) 15) (Z.shiftl v 4)]> u in
  <[8%nat := Z.lor (Z.land (nth 8 u1 0) (Z.shiftr 255 2)) (Z.shiftl 2 6)]> u1.

Definition uuid_New (random : bytes) : UUID := set_version 4 random.

Definition ParseBytes (b : bytes) : UUID * option error :=
  if negb (zlen b =? 16) then (zero_uuid, Some (Errorf "invalid UUID" None)) else (b, None).

(** The array after [acc] has been stored at its front. *)
Definition fill_uuid (acc : bytes) : UUID := acc ++ replicate (16 - length acc) 0.

(** The loop over the groups; [acc]: the bytes stored so far. *)
Fixpoint parse_groups (groups : list Z) (text : slice) (acc : bytes) : go (UUID * option error) :=
  match groups with
  | [] => Ret (fill_uuid acc, None)
  | byteGroup :: groups' =>
      c0 ← s_index text 0;
      text1 ← (if c0 =? 45 then s_sub text 1 (s_len text) else Ret text);
      src ← s_sub text1 0 byteGroup;
      let '(d, err) := Hex.Decode (s_bytes src) in
      match err with
      | Some e => Ret (fill_uuid (acc ++ d), Some e)
      | None =>
          text2 ← s_sub text1 byteGroup (s_len text1);
          parse_groups groups' text2 (acc ++ d)
      end
  end.

(** [spare]: the zero bytes between the length and the capacity of
    [[]byte(str)], which the runtime may round up. *)
Definition ParseString (spare : nat) (s : bytes) : go (UUID * option error) :=
  let l := zlen s in
  if (l <? 32) || (36 <? l) then
    if (l =? 0) || (30 <? l) then Ret (zero_uuid, Some (Errorf "invalid UUID" None))
    else Ret (set_version 5 (ztake 16 (Sha1.Sum (zero_uuid ++ s))), None)
  else parse_groups byteGroups (Slice (s ++ replicate spare 0) l) [].

(** ** bitmask/byte.go *)
Module Bitmask.
Definition Has (b bb : Z) : bool := negb (Z.land b bb =? 0).
Definition Set_ (b bb : Z) : Z := Z.lor b bb.
(** [^bb] on a byte. *)
Definition Clear (b bb : Z) : Z := Z.land b (Z.lxor bb 255).
Definition Toggle (b bb : Z) : Z := Z.lxor b bb.
End Bitmask.

Example sha1_abc :
  Hex.EncodeToString (Sha1.Sum (str "abc")) = str "a9993e364706816aba3e25717850c26c9cd0d89d".
Proof. vm_compute. reflexivity. Qed.

Example parse_example :
  match ParseString 0 (str "example") with
  | Ret (u, None) => UUID_String u = str "feb54431-301b-52bb-a6dd-e1e93e81bb9e"
  | _ => False
  end.
Proof. vm_compute. reflexivity. Qed.

(** ** Lemmas *)

Lemma value_digit n : 0 ≤ n < 16 → Hex.value (Hex.digit n) = Some n.
Proof. intros Hn. unfold Hex.value, Hex.digit. destruct (n <? 10) eqn:E; bool_hyps; zltb_solve; cbn [andb]; f_equal; lia. Qed.

Lemma digit_not_dash n : 0 ≤ n → Hex.digit n ≠ 45.
Proof. intros Hn. unfold Hex.digit. case_if; lia. Qed.

Lemma nibbles b : is_byte b →
  0 ≤ Z.shiftr b 4 < 16 ∧ 0 ≤ Z.land b 15 < 16 ∧ Z.lor (u8 (Z.shiftl (Z.shiftr b 4) 4)) (Z.land b 15) = b.
Proof.
  intros Hb. unfold is_byte in Hb. rewrite (shiftr_div b 4) by lia. change 15 with (Z.ones 4). rewrite Z.land_ones by lia.
  change (2 ^ 4) with 16. rewrite Z.shiftl_mul_pow2 by lia. change (2 ^ 4) with 16.
  assert (0 ≤ b / 16 < 16) by (Z.div_mod_to_equations; lia). assert (0 ≤ b mod 16 < 16) by (Z.div_mod_to_equations; lia).
  split_and!; try lia. rewrite u8_id by lia. rewrite Z.lor_comm, <- (Z.shiftl_mul_pow2 _ 4), lor_shiftl_add by lia.
  change (2 ^ 4) with 16. Z.div_mod_to_equations; lia.
Qed.

Lemma encode_cons b bs :
  Hex.EncodeToString (b :: bs) = Hex.digit (Z.shiftr b 4) :: Hex.digit (Z.land b 15) :: Hex.EncodeToString bs.
Proof. done. Qed.

Lemma Decode_Encode bs : is_bytes bs → Hex.Decode (Hex.EncodeToString bs) = (bs, None).
Proof.
  induction 1 as [|b bs Hb Hbs IH]; [done|]. rewrite encode_cons. cbn [Hex.Decode].
  destruct (nibbles b Hb) as (H1 & H2 & H3). rewrite !value_digit by done. rewrite IH. by rewrite H3.
Qed.

Lemma zlen_Encode bs : zlen (Hex.EncodeToString bs) = 2 * zlen bs.
Proof. induction bs as [|b bs IH]; [done|]. rewrite encode_cons, !zlen_cons, IH. lia. Qed.

(** Groups of hexadecimal digits, each with or without a dash before it. *)
Fixpoint render (dashes : list bool) (chunks : list bytes) : bytes :=
  match dashes, chunks with
  | d :: dashes', c :: chunks' => (if d then [45] else []) ++ Hex.EncodeToString c ++ render dashes' chunks'
  | _, _ => []
  end.

Lemma head_index (l rest : bytes) n : 0 < n → s_index (Slice (l ++ rest) n) 0 = match l ++ rest with c :: _ => Ret c | [] => Panic oob_index end.
Proof. intros Hn. unfold s_index. cbn [s_len s_arr]. zltb_solve. by destruct (l ++ rest). Qed.

Lemma parse_groups_render groups chunks dashes sp acc :
  Forall2 (λ g c, g = 2 * zlen c ∧ 0 < zlen c ∧ is_bytes c) groups chunks → length dashes = length chunks →
  parse_groups groups (Slice (render dashes chunks ++ sp) (zlen (render dashes chunks))) acc =
    Ret (fill_uuid (acc ++ mjoin chunks), None).
Proof.
  intros Hf. revert dashes acc. induction Hf as [|g c groups chunks (Hg & Hc & Hb) Hf IH]; intros dashes acc Hl.
  { destruct dashes; [|done]. cbn. by rewrite app_nil_r. }
  destruct dashes as [|d dashes]; [done|]. cbn [render parse_groups].
  pose proof (zlen_nonneg (render dashes chunks)). pose proof (zlen_nonneg sp).
  assert (Hc' : ∃ x rest, Hex.EncodeToString c = x :: rest ∧ x ≠ 45).
  { destruct c as [|b c]; [revert Hc; znil; lia|]. apply Forall_cons in Hb as [Hb _].
    rewrite encode_cons. eexists _, _. split; [done|]. apply digit_not_dash. apply (nibbles b Hb). }
  assert (Hstep : ∀ n, n = 2 * zlen c + zlen (render dashes chunks) →
    (src ← s_sub (Slice (Hex.EncodeToString c ++ render dashes chunks ++ sp) n) 0 g;
     let '(d0, err) := Hex.Decode (s_bytes src) in
     match err with
     | Some e => Ret (fill_uuid (acc ++ d0), Some e)
     | None =>
         text2 ← s_sub (Slice (Hex.EncodeToString c ++ render dashes chunks ++ sp) n) g n;
         parse_groups groups text2 (acc ++ d0)
     end) = Ret (fill_uuid (acc ++ mjoin (c :: chunks)), None)).
  { intros n ->. assert (s_cap (Slice (Hex.EncodeToString c ++ render dashes chunks ++ sp)
      (2 * zlen c + zlen (render dashes chunks))) = 2 * zlen c + zlen (render dashes chunks) + zlen sp) as Hcap
      by (unfold s_cap; cbn [s_arr]; rewrite !zlen_app, zlen_Encode; lia).
    rewrite (s_sub_Ret _ 0 g) by (rewrite ?Hcap; lia). rewrite go_bind_Ret. unfold s_bytes. cbn [s_arr s_len].
    change (zdrop 0 ?l) with l.
    rewrite Hg, Z.sub_0_r. rewrite ztake_app_le, ztake_ge by (rewrite zlen_Encode; lia).
    rewrite Decode_Encode by done. rewrite s_sub_Ret by (rewrite ?Hcap; lia). rewrite go_bind_Ret. cbn [s_arr].
    rewrite zdrop_app_ge, zlen_Encode, Z.sub_diag by (rewrite zlen_Encode; lia). change (zdrop 0 ?l) with l.
    replace (2 * zlen c + zlen (render dashes chunks) - 2 * zlen c) with (zlen (render dashes chunks)) by lia.
    rewrite IH by (cbn in Hl; lia). change (mjoin (c :: chunks)) with (c ++ mjoin chunks). by rewrite app_assoc. }
  destruct d; rewrite <- !app_assoc, !zlen_app, zlen_Encode.
  - rewrite (head_index [45]) by (rewrite zlen_cons; znil; lia). cbn [app]. rewrite go_bind_Ret.
    rewrite (proj2 (Z.eqb_eq 45 45)) by done. rewrite (s_sub_Ret _ 1).
    2, 3: unfold s_cap; cbn [s_arr s_len]; rewrite ?zlen_cons, ?zlen_app, ?zlen_Encode; znil; lia.
    rewrite go_bind_Ret. cbn [s_arr s_len]. rewrite zlen_cons. znil.
    match goal with |- context [zdrop 1 ?l] => change (zdrop 1 l) with (Hex.EncodeToString c ++ render dashes chunks ++ sp) end.
    rewrite Hstep; [done|lia].
  - change ([] ++ ?l) with l. znil. destruct Hc' as (x & rest & He & Hx).
    rewrite head_index by lia. rewrite He at 1. cbn [app]. rewrite go_bind_Ret.
    rewrite (proj2 (Z.eqb_neq x 45)) by done. rewrite go_bind_Ret. cbn [s_len]. apply Hstep. lia.
Qed.

Lemma uuid_explicit (u : UUID) : uuid_ok u →
  ∃ b0 b1 b2 b3 b4 b5 b6 b7 b8 b9 b10 b11 b12 b13 b14 b15,
    u = [b0; b1; b2; b3; b4; b5; b6; b7; b8; b9; b10; b11; b12; b13; b14; b15].
Proof.
  intros [Hl _]. do 16 (destruct u as [|? u]; [exfalso; revert Hl; rewrite ?zlen_cons; znil; lia|]).
  destruct u; [by repeat eexists|]. exfalso. revert Hl. rewrite !zlen_cons. pose proof (zlen_nonneg u). lia.
Qed.

(** The sixteen bytes in the five groups. *)
Definition chunks_of (u : UUID) : list bytes :=
  [ztake 4 u; ztake 2 (zdrop 4 u); ztake 2 (zdrop 6 u); ztake 2 (zdrop 8 u); ztake 6 (zdrop 10 u)].

Lemma parse_rendered u dashes spare :
  uuid_ok u → length dashes = 5%nat → zlen (render dashes (chunks_of u)) ≤ 36 →
  ParseString spare (render dashes (chunks_of u)) = Ret (u, None).
Proof.
  intros Hu Hd Hl. destruct (uuid_explicit u Hu) as (b0 & b1 & b2 & b3 & b4 & b5 & b6 & b7 & b8 & b9 & b10 & b11 & b12 & b13 & b14 & b15 & ->).
  destruct Hu as [_ Hb]. unfold is_bytes in Hb. rewrite !Forall_cons in Hb. destruct_and? Hb.
  unfold ParseString. assert (32 ≤ zlen (render dashes (chunks_of [b0; b1; b2; b3; b4; b5; b6; b7; b8; b9; b10; b11; b12; b13; b14; b15]))).
  { do 6 (destruct dashes as [|? dashes]; try done). cbn [render chunks_of]. rewrite !zlen_app, !zlen_Encode.
    pose proof (λ d : bool, zlen_nonneg (if d then [45] else [])) as Hn.
    repeat match goal with |- context [zlen (if ?d then [45] else [])] => generalize (Hn d); generalize (zlen (if d then [45] else [])); intros ? ? end.
    repeat match goal with |- context [zlen (ztake ?n ?l)] => change (zlen (ztake n l)) with n end. znil. lia. }
  zltb_solve. cbn [orb]. unfold byteGroups. rewrite parse_groups_render; [done| |by rewrite Hd].
  repeat (apply Forall2_cons; split; [split_and!; [done|done|by repeat apply Forall_cons_2]|]). apply Forall2_nil_2.
Qed.

(** A UUID survives its text form: the dashed form printed by [String] and
    the 32 digits without dashes both parse to the same sixteen bytes, for every
    UUID and whatever capacity the text has. *)
Theorem uuid_text_roundtrip (u : UUID) (spare : nat) :
  uuid_ok u →
  ParseString spare (UUID_String u) = Ret (u, None) ∧ ParseString spare (Hex.EncodeToString u) = Ret (u, None).
Proof.
  intros Hu. pose proof Hu as Hu'.
  destruct (uuid_explicit u Hu) as (b0 & b1 & b2 & b3 & b4 & b5 & b6 & b7 & b8 & b9 & b10 & b11 & b12 & b13 & b14 & b15 & ->).
  split.
  - apply (parse_rendered _ [false; true; true; true; true]); [done|done|]. vm_compute. congruence.
  - refine (parse_rendered _ [false; false; false; false; false] spare Hu eq_refl _). vm_compute. congruence.
Qed.

Lemma uuid_text_roundtrip_witness :
  ParseString 12 (str "2418d087-648d-4990-86e8-19dca1d006d3") =
    Ret ([36; 24; 208; 135; 100; 141; 73; 144; 134; 232; 25; 220; 161; 208; 6; 211], None).
Proof.
  refine (proj1 (uuid_text_roundtrip [36; 24; 208; 135; 100; 141; 73; 144; 134; 232; 25; 220; 161; 208; 6; 211] 12 _)).
  split; [reflexivity|]. repeat constructor; vm_compute; congruence.
Defined.

(** The bits [New] fixes: version 4 and the RFC 4122 variant; nothing else. *)
Lemma uuid_New_version r : uuid_ok r →
  uuid_ok (uuid_New r) ∧ Z.shiftr (nth 6 (uuid_New r) 0) 4 = 4 ∧ Z.shiftr (nth 8 (uuid_New r) 0) 6 = 2 ∧
  ∀ i, i ≠ 6%nat → i ≠ 8%nat → uuid_New r !! i = r !! i.
Proof.
  intros Hu. pose proof Hu as [Hl Hb].
  destruct (uuid_explicit r Hu) as (b0 & b1 & b2 & b3 & b4 & b5 & b6 & b7 & b8 & b9 & b10 & b11 & b12 & b13 & b14 & b15 & ->).
  unfold is_bytes in Hb. rewrite !Forall_cons in Hb. destruct_and? Hb.
  assert (Hv6 : Z.lor (Z.land b6 15) (Z.shiftl 4 4) = b6 mod 16 + 64).
  { change 15 with (Z.ones 4). rewrite Z.land_ones by lia. rewrite lor_shiftl_add; [done|lia|apply Z.mod_pos_bound; lia]. }
  assert (Hv8 : Z.lor (Z.land b8 63) (Z.shiftl 2 6) = b8 mod 64 + 128).
  { change 63 with (Z.ones 6). rewrite Z.land_ones by lia. rewrite lor_shiftl_add; [done|lia|apply Z.mod_pos_bound; lia]. }
  unfold uuid_New, set_version. cbn [nth insert list_insert]. change (Z.shiftr 255 2) with 63. rewrite Hv6, Hv8.
  split_and!.
  - split; [done|]. unfold is_byte in *. repeat apply Forall_cons_2; try done; try apply Forall_nil_2;
      split; Z.div_mod_to_equations; lia.
  - rewrite Z.shiftr_div_pow2 by lia. change (2 ^ 4) with 16. Z.div_mod_to_equations; lia.
  - rewrite Z.shiftr_div_pow2 by lia. change (2 ^ 6) with 64. Z.div_mod_to_equations; lia.
  - intros i Hi6 Hi8. do 16 (destruct i as [|i]; [try done; congruence|]). done.
Qed.

(** 32 characters one of which is a dash: the last group is cut short, and
    slicing it panics when the text has no spare capacity. *)
Example parse_short_group_panics : ParseString 0 (str "-2418d087648d499086e819dca1d006d") = Panic oob.
Proof. vm_compute. reflexivity. Qed.

(** ** Bit masks *)

Lemma Has_Set b bb : bb ≠ 0 → Bitmask.Has (Bitmask.Set_ b bb) bb = true.
Proof.
  intros Hb. apply negb_true_iff, Z.eqb_neq. unfold Bitmask.Set_. intros Hz. apply Hb, Z.bits_inj_0. intros n.
  assert (Z.testbit (Z.land (Z.lor b bb) bb) n = false) as Ht by (rewrite Hz; apply Z.testbit_0_l).
  rewrite Z.land_spec, Z.lor_spec in Ht. destruct (Z.testbit b n), (Z.testbit bb n); done.
Qed.

Lemma Has_Clear b bb : 0 ≤ bb < 256 → Bitmask.Has (Bitmask.Clear b bb) bb = false.
Proof.
  intros Hb. unfold Bitmask.Has, Bitmask.Clear. apply negb_false_iff, Z.eqb_eq. apply Z.bits_inj_0. intros n.
  rewrite !Z.land_spec, Z.lxor_spec. destruct (Z.testbit bb n) eqn:E; [|by rewrite andb_false_r].
  assert (0 ≤ n) by (destruct (Z.neg_nonneg_cases n); [by rewrite Z.testbit_neg_r in E|done]).
  assert (n < 8). { destruct (Z.lt_ge_cases n 8); [done|]. rewrite <- (Z.mod_small bb (2 ^ 8)), Z.mod_pow2_bits_high in E by lia. done. }
  change 255 with (Z.ones 8). rewrite Z.ones_spec_low by lia. by rewrite andb_false_r.
Qed.

Lemma Toggle_twice b bb : Bitmask.Toggle (Bitmask.Toggle b bb) bb = b.
Proof. unfold Bitmask.Toggle. by rewrite Z.lxor_assoc, Z.lxor_nilpotent, Z.lxor_0_r. Qed.
