(* ===== verification/Tasks.v ===== *)
(** * Periodic tasks, parallel tasks and activity timers

    task/periodic.go, task/task.go and timer/timer.go.

    A goroutine that runs a method of [Periodic] is at a program point [pc];
    what it does between two operations of the mutex is one step.  Time is
    abstract: a timer that [time.AfterFunc] has armed may fire at any later
    moment until it is stopped.  The steps are functions; the systems
    ([Periodic.sys_step], [RunTasks.run_step], [Activity.at_step]) take a [choice]
    that says which goroutine moves and what the code leaves open. *)
From S2P Require Import Prelude Errors Bytespool IO Buffer MultiBuffer BufIO Pipe.

(** ** task.Periodic *)
Module Periodic.

(** [armed] holds the runtime timers of the task that have neither fired nor
    been stopped; [fresh] names the next one. *)
Record Periodic := mkPeriodic {
  Interval : Z;
  timer : option nat;
  running : bool;
  armed : list nat;
  fresh : nat
}.

Definition new (interval : Z) : Periodic := mkPeriodic interval None false [] 0.

Definition set_running (t : Periodic) (b : bool) : Periodic :=
  mkPeriodic (Interval t) (timer t) b (armed t) (fresh t).

(** [t.timer = time.AfterFunc(t.Interval, ...)] *)
Definition AfterFunc (t : Periodic) : Periodic :=
  mkPeriodic (Interval t) (Some (fresh t)) (running t) (armed t ++ [fresh t]) (S (fresh t)).

(** [timer.Stop()] *)
Definition Stop (id : nat) (t : Periodic) : Periodic :=
  mkPeriodic (Interval t) (timer t) (running t) (filter (λ j, j ≠ id) (armed t)) (fresh t).

Definition clear_timer (t : Periodic) : Periodic :=
  mkPeriodic (Interval t) None (running t) (armed t) (fresh t).

(** The program points; the flag says whether [checkedExecute] was called by
    [Start] or by a timer. *)
Inductive pc :=
  | Start_lock
  | CE_check (inStart : bool)
  | CE_exec (inStart : bool)
  | CE_fail (inStart : bool) (e : error)
  | CE_arm (inStart : bool)
  | Start_fail (e : error).

Inductive flow := Goto (p : pc) | Return (e : option error).

Definition hasClosed (t : Periodic) : bool := negb (running t).

(** [checkedExecute] returns [err]: to [Start], or to the timer's function,
    which logs it. *)
Definition ce_return (inStart : bool) (err : option error) : flow :=
  if inStart then match err with Some e => Goto (Start_fail e) | None => Return None end
  else Return None.

(** The steps of [checkedExecute]; [r] is what [Execute] returns. *)
Definition checkedExecute (p : pc) (r : option error) (t : Periodic) : flow * Periodic :=
  match p with
  | CE_check b => if hasClosed t then (ce_return b None, t) else (Goto (CE_exec b), t)
  | CE_exec b =>
      match r with
      | Some e => (Goto (CE_fail b e), t)
      | None => (Goto (CE_arm b), t)
      end
  | CE_fail b e => (ce_return b (Some e), set_running t false)
  | CE_arm b => if negb (running t) then (ce_return b None, t) else (ce_return b None, AfterFunc t)
  | _ => (Return None, t)
  end.

(** The steps of [Start], which calls [checkedExecute]. *)
Definition Start (p : pc) (r : option error) (t : Periodic) : flow * Periodic :=
  match p with
  | Start_lock =>
      if running t then (Return None, t) else (Goto (CE_check true), set_running t true)
  | Start_fail e => (Return (Some e), set_running t false)
  | _ => checkedExecute p r t
  end.

Definition Close (t : Periodic) : option error * Periodic :=
  let t := set_running t false in
  match timer t with
  | Some id => (None, clear_timer (Stop id t))
  | None => (None, t)
  end.

(** A timer fires: its function runs [checkedExecute]. *)
Definition fire (id : nat) (t : Periodic) : option (pc * Periodic) :=
  if decide (id ∈ armed t)
  then Some (CE_check false,
             mkPeriodic (Interval t) (timer t) (running t) (filter (λ j, j ≠ id) (armed t)) (fresh t))
  else None.

(** *** A task and the goroutines that use it *)

(** [executed] counts the calls of [Execute]. *)
Record sys := mkSys { task : Periodic; threads : list pc; executed : nat }.

Inductive choice :=
  | CallStart
  | CallClose
  | Fire (id : nat)
  | Run (i : nat) (r : option error).

Definition is_exec (p : pc) : bool := match p with CE_exec _ => true | _ => false end.

Definition sys_step (c : choice) (s : sys) : option sys :=
  match c with
  | CallStart => Some (mkSys (task s) (threads s ++ [Start_lock]) (executed s))
  | CallClose => Some (mkSys (Close (task s)).2 (threads s) (executed s))
  | Fire id =>
      '(p, t) ← fire id (task s);
      Some (mkSys t (threads s ++ [p]) (executed s))
  | Run i r =>
      p ← threads s !! i;
      let '(f, t) := Start p r (task s) in
      let n := if is_exec p then S (executed s) else executed s in
      match f with
      | Goto p' => Some (mkSys t (<[i := p']> (threads s)) n)
      | Return _ => Some (mkSys t (delete i (threads s)) n)
      end
  end.

Definition sys_run : list choice → sys → option sys := run_steps sys_step.

Definition init (interval : Z) : sys := mkSys (new interval) [] 0.

End Periodic.

(** ** task.OnSuccess *)
Definition OnSuccess {S} (f g : S → option error * S) : S → option error * S := λ s,
  let '(err, s') := f s in
  match err with
  | Some e => (Some e, s')
  | None => g s'
  end.

(** ** task.Run *)
Module RunTasks.

(** A task's goroutine: running the task, signalling success, reporting an
    error, or finished with the task's result. *)
Inductive worker := W_run | W_signal | W_send (e : error) | W_exit (r : option error).

(** The caller: in the loop that starts the tasks, in the loop that waits, or
    returned. *)
Inductive main_pc := M_spawn | M_wait (i : nat) | M_ret (r : option error).

Record run_state := mkRun {
  n_tasks : nat;
  sem : Semaphore.Instance;
  done : option error;
  ctx_err : option error;
  workers : list worker;
  main : main_pc
}.

Definition start (n : nat) : option run_state :=
  s ← Semaphore.New n;
  Some (mkRun n s None None [] (match n with O => M_wait 0 | _ => M_spawn end)).

Inductive sel := Sel_done | Sel_ctx | Sel_sem.

Inductive choice :=
  | Cancel (e : error)
  | Worker (i : nat) (r : option error)
  | Main (k : sel).

Definition set_worker (s : run_state) (i : nat) (w : worker) : run_state :=
  mkRun (n_tasks s) (sem s) (done s) (ctx_err s) (<[i := w]> (workers s)) (main s).
Definition set_sem (s : run_state) (m : Semaphore.Instance) : run_state :=
  mkRun (n_tasks s) m (done s) (ctx_err s) (workers s) (main s).
Definition set_done (s : run_state) (d : option error) : run_state :=
  mkRun (n_tasks s) (sem s) d (ctx_err s) (workers s) (main s).
Definition set_main (s : run_state) (m : main_pc) : run_state :=
  mkRun (n_tasks s) (sem s) (done s) (ctx_err s) (workers s) m.

(** One step of the goroutine of task [i]; [r] is what the task returns. *)
Definition worker_step (i : nat) (r : option error) (s : run_state) : option run_state :=
  w ← workers s !! i;
  match w with
  | W_run =>
      match r with
      | None => Some (set_worker s i W_signal)
      | Some e => Some (set_worker s i (W_send e))
      end
  | W_signal => m ← Semaphore.Signal (sem s); Some (set_worker (set_sem s m) i (W_exit None))
  | W_send e =>
      let d := match done s with Some d => Some d | None => Some e end in
      Some (set_worker (set_done s d) i (W_exit (Some e)))
  | W_exit _ => None
  end.

(** [for i := 0; i < n; i++]: the loop ends by returning nil. *)
Definition wait_next (s : run_state) (i : nat) : run_state :=
  set_main s (if (i <? n_tasks s)%nat then M_wait i else M_ret None).

(** One step of the caller; [k] is the case a [select] takes. *)
Definition main_step (k : sel) (s : run_state) : option run_state :=
  match main s with
  | M_spawn =>
      m ← Semaphore.Wait (sem s);
      let s := mkRun (n_tasks s) m (done s) (ctx_err s) (workers s ++ [W_run]) (main s) in
      Some (if (length (workers s) <? n_tasks s)%nat then s else wait_next s 0)
  | M_wait i =>
      if (i <? n_tasks s)%nat then
        match k with
        | Sel_done => err ← done s; Some (set_main (set_done s None) (M_ret (Some err)))
        | Sel_ctx => err ← ctx_err s; Some (set_main s (M_ret (Some err)))
        | Sel_sem => m ← Semaphore.Wait (sem s); Some (wait_next (set_sem s m) (S i))
        end
      else Some (set_main s (M_ret None))
  | M_ret _ => None
  end.

Definition run_step (c : choice) (s : run_state) : option run_state :=
  match c with
  | Cancel e => Some (mkRun (n_tasks s) (sem s) (done s)
                        (match ctx_err s with Some d => Some d | None => Some e end)
                        (workers s) (main s))
  | Worker i r => worker_step i r s
  | Main k => main_step k s
  end.

Definition run : list choice → run_state → option run_state := run_steps run_step.

End RunTasks.

(** ** timer.ActivityTimer *)
Module Activity.

(** The fields of the timer, the periodic tasks it has made ([checkTask] is the
    index of one of them) and the number of times [onTimeout] was called. *)
Record ActivityTimer := mkTimer {
  updated : Notifier;
  checkTask : option nat;
  onTimeout : bool;
  fired : nat;
  tasks : list Periodic.Periodic
}.

Definition set_updated (t : ActivityTimer) (u : Notifier) : ActivityTimer :=
  mkTimer u (checkTask t) (onTimeout t) (fired t) (tasks t).
Definition set_tasks (t : ActivityTimer) (ts : list Periodic.Periodic) : ActivityTimer :=
  mkTimer (updated t) (checkTask t) (onTimeout t) (fired t) ts.
Definition set_checkTask (t : ActivityTimer) (k : option nat) : ActivityTimer :=
  mkTimer (updated t) k (onTimeout t) (fired t) (tasks t).

Definition Update (t : ActivityTimer) : ActivityTimer := set_updated t (Notifier_Signal (updated t)).

(** [t.checkTask.Close()] *)
Definition close_check (t : ActivityTimer) : ActivityTimer :=
  match checkTask t with
  | Some k => set_tasks t (alter (λ p, (Periodic.Close p).2) k (tasks t))
  | None => t
  end.

(** [finish], which holds the lock from beginning to end. *)
Definition finish (t : ActivityTimer) : ActivityTimer :=
  let t := if onTimeout t
           then mkTimer (updated t) (checkTask t) false (S (fired t)) (tasks t) else t in
  set_checkTask (close_check t) None.

(** The [select] of [check]: whether it goes on to [finish]. *)
Definition check (t : ActivityTimer) : bool * ActivityTimer :=
  match Notifier_receive (updated t) with
  | Some u => (false, set_updated t u)
  | None => (true, t)
  end.

(** A goroutine: in [SetTimeout] before and after the locked section, in a
    method of the periodic task [k], or in the [finish] that the [Execute] of
    task [k] or [SetTimeout(0)] calls. *)
Inductive thread :=
  | Set_lock (timeout : Z)
  | Set_update (k : nat)
  | In_task (k : nat) (p : Periodic.pc)
  | In_finish (k : nat) (inStart : bool)
  | Set_finish.

(** [SetTimeout] is called with [timeout]. *)
Definition SetTimeout (timeout : Z) : thread :=
  if timeout =? 0 then Set_finish else Set_lock timeout.

Definition CancelAfterInactivity : ActivityTimer := mkTimer false None true 0 [].

(** One step of a goroutine: where it goes on, [None] when it has returned. *)
Definition thread_step (th : thread) (t : ActivityTimer) : go (option thread * ActivityTimer) :=
  match th with
  | Set_lock timeout =>
      let k := length (tasks t) in
      let t := set_tasks (close_check t) (tasks (close_check t) ++ [Periodic.new timeout]) in
      Ret (Some (Set_update k), set_checkTask t (Some k))
  | Set_update k => Ret (Some (In_task k Periodic.Start_lock), Update t)
  | Set_finish => Ret (None, finish t)
  | In_finish k b => Ret (Some (In_task k (Periodic.CE_arm b)), finish t)
  | In_task k (Periodic.CE_exec b) =>
      let '(fin, t) := check t in
      Ret (Some (if fin then In_finish k b else In_task k (Periodic.CE_arm b)), t)
  | In_task k p =>
      match tasks t !! k with
      | None => Ret (None, t)
      | Some task =>
          let '(f, task) := Periodic.Start p None task in
          let t := set_tasks t (<[k := task]> (tasks t)) in
          match f with
          | Periodic.Goto p' => Ret (Some (In_task k p'), t)
          | Periodic.Return None => Ret (None, t)
          | Periodic.Return (Some e) => Panic "checkTask.Start"
          end
      end
  end.

(** *** The timer and the goroutines that use it *)
Record at_sys := mkAt { timer : ActivityTimer; threads : list thread }.

Inductive choice :=
  | CallUpdate
  | CallSetTimeout (timeout : Z)
  | Fire (k id : nat)
  | Run (i : nat).

(** [None]: the choice is not possible. *)
Definition at_step (c : choice) (s : at_sys) : option (go at_sys) :=
  match c with
  | CallUpdate => Some (Ret (mkAt (Update (timer s)) (threads s)))
  | CallSetTimeout timeout => Some (Ret (mkAt (timer s) (threads s ++ [SetTimeout timeout])))
  | Fire k id =>
      p ← tasks (timer s) !! k;
      '(pc, p) ← Periodic.fire id p;
      Some (Ret (mkAt (set_tasks (timer s) (<[k := p]> (tasks (timer s))))
                      (threads s ++ [In_task k pc])))
  | Run i =>
      th ← threads s !! i;
      Some ('(o, t) ← thread_step th (timer s);
            Ret (mkAt t (match o with
                         | Some th' => <[i := th']> (threads s)
                         | None => delete i (threads s)
                         end)))
  end.

Definition at_run : list choice → at_sys → option (go at_sys) := run_go at_step.

Definition init : at_sys := mkAt CancelAfterInactivity [].

(** A goroutine that runs without interference. *)
Fixpoint run_alone (fuel : nat) (th : thread) (t : ActivityTimer) : go ActivityTimer :=
  match fuel with
  | O => OutOfFuel
  | S f =>
      '(o, t) ← thread_step th t;
      match o with Some th' => run_alone f th' t | None => Ret t end
  end.

(** An interval of the task passes: [acts] calls of [Update], then the timer of
    the current task fires, if it is still armed. *)
Definition interval (acts : nat) (t : ActivityTimer) : go ActivityTimer :=
  let t := Nat.iter acts Update t in
  match checkTask t with
  | None => Ret t
  | Some k =>
      match tasks t !! k with
      | Some p =>
          match Periodic.timer p with
          | Some id =>
              match Periodic.fire id p with
              | Some (pc, p) => run_alone 10 (In_task k pc) (set_tasks t (<[k := p]> (tasks t)))
              | None => Ret t
              end
          | None => Ret t
          end
      | None => Ret t
      end
  end.

Fixpoint intervals (acts : list nat) (t : ActivityTimer) : go ActivityTimer :=
  match acts with
  | [] => Ret t
  | a :: acts' => t' ← interval a t; intervals acts' t'
  end.

End Activity.
