(* ===== verification/TasksSpec.v ===== *)
(** * Properties of periodic tasks, parallel tasks and activity timers

    About file [Tasks]: what [Close] guarantees, that a running task is never
    stalled, that starts do not overlap, the results of [task.Run], and when an
    activity timer fires. *)
From S2P Require Import Prelude Errors Bytespool IO Buffer MultiBuffer BufIO Pipe Tasks.

(** ** Sums over the threads of a system *)
Section Sums.
Context {A : Type} (w : A → nat).

Lemma sum_insert i x y l :
  l !! i = Some x →
  (sum_list_with w (<[i := y]> l) + w x = sum_list_with w l + w y)%nat.
Proof.
  revert i. induction l as [|z l IH]; intros [|i] Hi; simpl in *; simplify_eq; [lia|].
  specialize (IH i Hi). lia.
Qed.

Lemma sum_delete i x l :
  l !! i = Some x → (sum_list_with w (delete i l) + w x = sum_list_with w l)%nat.
Proof.
  revert i. induction l as [|z l IH]; intros [|i] Hi; simpl in *; simplify_eq; [lia|].
  specialize (IH i Hi). lia.
Qed.

Lemma sum_app l k : sum_list_with w (l ++ k) = (sum_list_with w l + sum_list_with w k)%nat.
Proof. induction l; simpl; lia. Qed.

Lemma sum_pos l : (0 < sum_list_with w l)%nat → ∃ i x, l !! i = Some x ∧ (0 < w x)%nat.
Proof.
  induction l as [|x l IH]; simpl; [lia|]. intros Hp.
  destruct (w x) eqn:Hw.
  - destruct IH as (i & y & Hi & Hy); [lia|]. exists (S i), y. eauto.
  - exists 0%nat, x. cbn. split; [done|lia].
Qed.

Lemma sum_lookup i x l : l !! i = Some x → (w x ≤ sum_list_with w l)%nat.
Proof. intros Hi. pose proof (sum_delete i x l Hi). lia. Qed.

End Sums.

Lemma length_filter_le {A} (P : A → Prop) `{∀ x, Decision (P x)} l :
  (length (filter P l) ≤ length l)%nat.
Proof. induction l as [|x l IH]; [done|]. rewrite filter_cons. case_decide; cbn; lia. Qed.

Lemma length_filter_neq `{EqDecision A} (x : A) l :
  x ∈ l → (length (filter (λ y, y ≠ x) l) < length l)%nat.
Proof.
  induction l as [|y l IH]; rewrite ?elem_of_nil, ?elem_of_cons; [done|].
  pose proof (length_filter_le (λ y, y ≠ x) l) as Hle.
  intros [<- | Hin]; rewrite filter_cons; case_decide; cbn; try done; try lia.
  all: specialize (IH Hin); lia.
Qed.

Module PeriodicFacts.
Import Periodic.

(** The system after one step of thread [i]. *)
Lemma run_step_inv i r s s' :
  sys_step (Run i r) s = Some s' →
  ∃ p f t, threads s !! i = Some p ∧ Start p r (task s) = (f, t) ∧ task s' = t ∧
    executed s' = (if is_exec p then S (executed s) else executed s) ∧
    threads s' = match f with Goto p' => <[i := p']> (threads s) | Return _ => delete i (threads s) end.
Proof.
  cbn. intros Hs. apply bind_Some in Hs as (p & Hp & Hs).
  destruct (Start p r (task s)) as [f t] eqn:Hf. exists p, f, t.
  destruct f; simplify_eq; cbn; auto.
Qed.

Lemma fire_step_inv id s s' :
  sys_step (Fire id) s = Some s' →
  id ∈ armed (task s) ∧
  s' = mkSys (mkPeriodic (Interval (task s)) (timer (task s)) (running (task s))
                (filter (λ j, j ≠ id) (armed (task s))) (fresh (task s)))
             (threads s ++ [CE_check false]) (executed s).
Proof. cbn. unfold fire. case_decide; cbn; intros ?; by simplify_eq. Qed.

(** *** After Close *)

Definition weight (p : pc) : nat :=
  match p with
  | Start_lock => 0
  | CE_exec _ => 4
  | CE_fail _ _ => 3
  | CE_arm _ | CE_check _ | Start_fail _ => 2
  end.
Definition inflight (p : pc) : nat := if is_exec p then 1 else 0.

(** What is left to do for a task that no longer runs. *)
Definition work (s : sys) : nat := sum_list_with weight (threads s) + 3 * length (armed (task s)).
Definition executing (s : sys) : nat := sum_list_with inflight (threads s).

Definition closed (s : sys) : Prop := running (task s) = false ∧ Forall (λ p, p ≠ Start_lock) (threads s).

Definition costs (c : choice) : nat := match c with CallClose => 0 | _ => 1 end.

Lemma closed_thread_step p r t f t' :
  running t = false → p ≠ Start_lock → Start p r t = (f, t') →
  running t' = false ∧ armed t' = armed t ∧
  match f with
  | Goto p' => p' ≠ Start_lock ∧ (weight p' < weight p)%nat ∧ inflight p' = 0%nat
  | Return _ => (0 < weight p)%nat
  end.
Proof.
  intros Hr Hp Hf. destruct p as [|b|b|b e|b|e]; cbn in *; unfold hasClosed in *; rewrite ?Hr in Hf;
    cbn in Hf; try done; try destruct b; try destruct r; cbn in *; simplify_eq; cbn; auto with lia.
Qed.

Lemma closed_step c s s' :
  closed s → c ≠ CallStart → sys_step c s = Some s' →
  closed s' ∧ (executed s' + executing s' ≤ executed s + executing s)%nat ∧
  (work s' + costs c ≤ work s)%nat.
Proof.
  intros [Hr Hl] Hc Hs. unfold closed, executing, work. destruct c as [| |id|i r]; [done|..].
  - cbn in Hs. unfold Close, set_running, clear_timer, Stop in Hs.
    destruct (timer (task s)); cbn in Hs; simplify_eq; cbn; repeat split; auto; try lia.
    pose proof (length_filter_le (λ j, j ≠ n) (armed (task s))). lia.
  - apply fire_step_inv in Hs as [Hin ->]. cbn.
    pose proof (length_filter_neq _ _ Hin). rewrite !sum_app. cbn.
    repeat split; auto; try lia.
    apply Forall_app_2; [done|]. by apply Forall_singleton.
  - apply run_step_inv in Hs as (p & f & t & Hp & Hf & <- & -> & ->).
    pose proof (Forall_lookup_1 _ _ _ _ Hl Hp) as Hne. cbn in Hne.
    destruct (closed_thread_step p r _ _ _ Hr Hne Hf) as (Hr' & -> & Hf').
    assert (inflight p = if is_exec p then 1 else 0)%nat as Hi by done.
    destruct f as [p'|e].
    + destruct Hf' as (Hp' & Hw & Hi').
      pose proof (sum_insert weight i p p' _ Hp). pose proof (sum_insert inflight i p p' _ Hp).
      repeat split; auto; [|destruct (is_exec p); lia|cbn; lia].
      by apply Forall_insert.
    + pose proof (sum_delete weight i p _ Hp). pose proof (sum_delete inflight i p _ Hp).
      repeat split; auto; [|destruct (is_exec p); lia|cbn; lia].
      by apply Forall_delete.
Qed.

Lemma closed_run cs s s' :
  closed s → Forall (λ c, c ≠ CallStart) cs → sys_run cs s = Some s' →
  closed s' ∧ (executed s' + executing s' ≤ executed s + executing s)%nat ∧
  (work s' + sum_list_with costs cs ≤ work s)%nat.
Proof.
  revert s. induction cs as [|c cs IH]; intros s Hcl Hc Hr.
  - cbn in Hr. simplify_eq. simpl. auto with lia.
  - apply Forall_cons in Hc as [Hc Hcs]. apply run_steps_cons in Hr as (s1 & H1 & Hr).
    destruct (closed_step c s s1 Hcl Hc H1) as (Hcl1 & He1 & Hw1).
    destruct (IH s1 Hcl1 Hcs Hr) as (? & ? & ?). simpl. auto with lia.
Qed.

Lemma Close_task t : running (Close t).2 = false ∧ (length (armed (Close t).2) ≤ length (armed t))%nat.
Proof.
  unfold Close. cbn. destruct (timer t); cbn; split; try done. apply length_filter_le.
Qed.

(** *** A running task goes on *)

Definition in_progress (p : pc) : Prop := p ≠ Start_lock.
Definition failing (p : pc) : bool :=
  match p with CE_fail _ _ | Start_fail _ => true | _ => false end.

(** The steps of the task itself: no new call from outside. *)
Definition own (c : choice) : Prop := match c with Fire _ | Run _ _ => True | _ => False end.

Definition live (s : sys) : Prop :=
  running (task s) = true → armed (task s) ≠ [] ∨ Exists in_progress (threads s).

Lemma Exists_insert_new {A} (P : A → Prop) i x y l :
  l !! i = Some x → P y → Exists P (<[i := y]> l).
Proof.
  intros Hi Hy. apply Exists_exists. exists y. split; [|done].
  apply list_elem_of_insert. by eapply lookup_lt_Some.
Qed.

Lemma Exists_delete_other {A} (P : A → Prop) i x l :
  l !! i = Some x → ~ P x → Exists P l → Exists P (delete i l).
Proof.
  intros Hi Hx. revert i Hi. induction l as [|y l IH]; intros i Hi Hex; [inversion Hex|].
  destruct i as [|i]; simpl in *; simplify_eq.
  - by apply Exists_cons in Hex as [?|?].
  - apply Exists_cons in Hex as [?|?]; [by left|right; eauto].
Qed.

Lemma live_step c s s' : live s → sys_step c s = Some s' → live s'.
Proof.
  intros Hl Hs Hr. destruct c as [| |id|i r].
  - cbn in Hs. simplify_eq. cbn in *. destruct (Hl Hr); [by left|].
    right. apply Exists_app. by left.
  - cbn in Hs. simplify_eq. cbn in Hr. destruct (Close_task (task s)) as [Hc _]. congruence.
  - apply fire_step_inv in Hs as [_ ->]. right. cbn. apply Exists_app. right. by left.
  - apply run_step_inv in Hs as (p & f & t & Hp & Hf & Ht & _ & Hth).
    rewrite Hth, Ht. rewrite Ht in Hr. clear Ht Hth.
    destruct p as [|b|b|b e|b|e]; cbn in Hf; unfold hasClosed in Hf.
    + destruct (running (task s)) eqn:Hrun; simplify_eq.
      * destruct (Hl Hrun); [left; congruence|right].
        apply (Exists_delete_other _ _ Start_lock); auto.
      * right. by eapply Exists_insert_new.
    + destruct (running (task s)) eqn:Hrun; cbn in Hf; simplify_eq.
      * right. by eapply Exists_insert_new.
      * destruct b; simplify_eq; congruence.
    + destruct r; simplify_eq; right; by eapply Exists_insert_new.
    + destruct b; cbn in Hf; simplify_eq; done.
    + destruct (running (task s)) eqn:Hrun; cbn in Hf; simplify_eq; [left|destruct b; congruence].
      cbn. by destruct (armed (task s)).
    + cbn in Hf. simplify_eq.
Qed.

(** A goroutine about to execute the task, and a running task with an armed
    timer, can do so. *)
Lemma reach_exec_thread i b s :
  running (task s) = true → threads s !! i = Some (CE_check b) →
  ∃ s', sys_run [Run i None; Run i None] s = Some s' ∧ executed s' = S (executed s).
Proof.
  intros Hr Hi. unfold sys_run. cbn. rewrite Hi. cbn. unfold hasClosed. rewrite Hr. cbn.
  rewrite list_lookup_insert_eq by (by eapply lookup_lt_Some). cbn. eauto.
Qed.

Lemma reach_exec_armed id s :
  running (task s) = true → id ∈ armed (task s) →
  ∃ cs s', Forall own cs ∧ sys_run cs s = Some s' ∧ executed s' = S (executed s).
Proof.
  intros Hr Hid. exists ([Fire id] ++ [Run (length (threads s)) None; Run (length (threads s)) None]).
  assert (sys_step (Fire id) s = Some (mkSys
    (mkPeriodic (Interval (task s)) (timer (task s)) (running (task s))
       (filter (λ j, j ≠ id) (armed (task s))) (fresh (task s)))
    (threads s ++ [CE_check false]) (executed s))) as Hf.
  { cbn. unfold fire. by rewrite decide_True. }
  unfold sys_run. setoid_rewrite run_steps_app.
  cbn [run_steps mbind option_bind]. rewrite Hf. cbn [mbind option_bind].
  edestruct (reach_exec_thread (length (threads s)) false) as (s' & Hs' & He);
    [| |exists s'; split; [by repeat constructor|split; [exact Hs'|exact He]]]; [done|].
  cbn. by apply list_lookup_middle.
Qed.

Lemma reach_exec s :
  live s → running (task s) = true →
  Exists (λ p, failing p = true) (threads s) ∨
  ∃ cs s', Forall own cs ∧ sys_run cs s = Some s' ∧ executed s' = S (executed s).
Proof.
  intros Hl Hr. destruct (Hl Hr) as [Ha|Ht].
  - destruct (armed (task s)) as [|id l] eqn:He; [done|]. right.
    apply (reach_exec_armed id); [done|]. rewrite He. by left.
  - apply Exists_exists in Ht as (p & Hp & Hne). apply list_elem_of_lookup in Hp as [i Hi].
    destruct p as [|b|b|b e|b|e]; [done|..].
    + right. destruct (reach_exec_thread i b s Hr Hi) as (s' & Hs' & He).
      exists [Run i None; Run i None], s'. by repeat constructor.
    + right. eexists [Run i None], _. split; [by repeat constructor|]. cbn. rewrite Hi. cbn. eauto.
    + left. apply Exists_exists. exists (CE_fail b e). eauto using list_elem_of_lookup_2.
    + right. assert (∃ s1, sys_step (Run i None) s = Some s1 ∧ executed s1 = executed s ∧
                       running (task s1) = true ∧ fresh (task s) ∈ armed (task s1))
        as (s1 & H1 & He1 & Hr1 & Ha1).
      { cbn. rewrite Hi. cbn. rewrite Hr. cbn. destruct b; cbn; eexists; split_and!; try done; cbn;
          apply elem_of_app; right; by left. }
      destruct (reach_exec_armed _ s1 Hr1 Ha1) as (cs & s' & Ho & Hs' & He').
      exists (Run i None :: cs), s'. split; [by constructor|]. split; [|lia].
      unfold sys_run in *. cbn [run_steps]. by rewrite H1.
    + left. apply Exists_exists. exists (Start_fail e). eauto using list_elem_of_lookup_2.
Qed.

(** *** Starts do not overlap *)

Definition undisturbed (c : choice) : Prop :=
  match c with CallClose | Run _ (Some _) => False | _ => True end.

Definition chain (p : pc) : nat := match p with Start_lock => 0 | _ => 1 end.
(** Executions of the task that are under way or due. *)
Definition chains (s : sys) : nat := sum_list_with chain (threads s) + length (armed (task s)).

Definition single (s : sys) : Prop :=
  chains s = (if running (task s) then 1 else 0)%nat ∧ Forall (λ p, failing p = false) (threads s).

Lemma single_step c s s' : undisturbed c → single s → sys_step c s = Some s' → single s'.
Proof.
  intros Hc [Hn Hf] Hs. unfold single, chains in *. destruct c as [| |id|i [e|]]; [|done| |done|].
  - cbn in Hs. simplify_eq. cbn. rewrite sum_app. simpl. split; [lia|].
    apply Forall_app_2; [done|]. by apply Forall_singleton.
  - apply fire_step_inv in Hs as [Hin ->]. cbn. rewrite sum_app. simpl.
    pose proof (length_filter_neq _ _ Hin). split.
    + destruct (armed (task s)) as [|j l]; [inversion Hin|]. cbn in *.
      destruct (running (task s)); lia.
    + apply Forall_app_2; [done|]. by apply Forall_singleton.
  - apply run_step_inv in Hs as (p & f & t & Hp & Hst & Ht & _ & Hth). rewrite Ht, Hth. clear Ht Hth.
    pose proof (Forall_lookup_1 _ _ _ _ Hf Hp) as Hpf. pose proof (sum_lookup chain _ _ _ Hp).
    pose proof (sum_delete chain _ _ _ Hp).
    pose proof (λ y, sum_insert chain _ _ y _ Hp) as Hins.
    destruct p as [|b|b|b e|b|e]; cbn in Hst; unfold hasClosed in Hst; try done;
      destruct (running (task s)) eqn:Hrun; simpl in *; try lia; try destruct b; simpl in *;
      simplify_eq; simpl; rewrite ?Hrun, ?length_app;
      repeat match goal with |- context [<[i:=?y]> _] => pose proof (Hins y); clear Hins end; simpl in *;
      (split; [lia|]); first [by apply Forall_delete | by apply Forall_insert].
Qed.

End PeriodicFacts.

(** ** Theorems on Periodic *)
Section PeriodicTheorems.
Import Periodic PeriodicFacts.

(** C20: After Close, unless a Start is under way or follows, the task comes to
    rest: [Execute] is called at most once more by each goroutine that had
    already passed the check, and the goroutines and timers that are left take
    no more than [work s] steps in all, whatever the order of the steps. *)
Theorem periodic_close_stops s cs s' :
  Forall (λ p, p ≠ Start_lock) (threads s) → Forall (λ c, c ≠ CallStart) cs →
  sys_run (CallClose :: cs) s = Some s' →
  running (task s') = false ∧ (executed s' ≤ executed s + executing s)%nat ∧
  (sum_list_with costs cs ≤ work s)%nat.
Proof.
  intros Hl Hcs Hr. apply run_steps_cons in Hr as (s1 & H1 & Hr). cbn in H1. simplify_eq.
  destruct (Close_task (task s)) as [Hc Ha].
  destruct (closed_run cs (mkSys (Close (task s)).2 (threads s) (executed s)) s' (conj Hc Hl) Hcs Hr) as ([? _] & He & Hw).
  unfold executing, work in *. cbn in *. split_and!; [done|lia|lia].
Qed.

Lemma periodic_close_stops_witness :
  ∃ s', sys_run [CallClose; Run 0 None; Run 0 None] (mkSys (mkPeriodic 1 None true [] 0) [CE_exec false] 0) = Some s'
        ∧ running (task s') = false.
Proof.
  eexists. split; [reflexivity|].
  refine (proj1 (periodic_close_stops (mkSys (mkPeriodic 1 None true [] 0) [CE_exec false] 0)
    [Run 0 None; Run 0 None] _ _ _ _)); [..|reflexivity]; repeat constructor; discriminate.
Defined.

(** A task that is running is never stalled: at every reachable state in which
    [running] is set, a goroutine or timer of the task leads to the next call
    of [Execute] without any further call from outside, or a failed [Execute]
    is about to stop the task. *)
Theorem periodic_never_stalls interval cs s :
  sys_run cs (init interval) = Some s → running (task s) = true →
  Exists (λ p, failing p = true) (threads s) ∨
  ∃ cs' s', Forall own cs' ∧ sys_run cs' s = Some s' ∧ executed s' = S (executed s).
Proof.
  intros Hr. apply reach_exec. revert Hr. apply (run_steps_inv sys_step live live_step). done.
Qed.

Lemma periodic_never_stalls_witness :
  ∃ s, sys_run [CallStart; Run 0 None; Run 0 None; Run 0 None; Run 0 None] (init 5) = Some s ∧
  (Exists (λ p, failing p = true) (threads s) ∨
   ∃ cs' s', Forall own cs' ∧ sys_run cs' s = Some s' ∧ executed s' = S (executed s)).
Proof.
  eexists. split; [reflexivity|].
  apply (periodic_never_stalls 5 [CallStart; Run 0 None; Run 0 None; Run 0 None; Run 0 None]);
    reflexivity.
Defined.

(** As long as [Close] is not called and [Execute] does not fail, any number of
    calls of [Start] gives one chain of executions: exactly one execution is
    under way or due when the task is running, and none when it is not. *)
Theorem periodic_single_chain interval cs s :
  Forall undisturbed cs → sys_run cs (init interval) = Some s →
  chains s = if running (task s) then 1%nat else 0%nat.
Proof.
  intros Hcs Hr.
  refine (proj1 (run_steps_inv_on sys_step undisturbed single single_step _ _ _ Hcs _ Hr)).
  split; [done|constructor].
Qed.

Lemma periodic_single_chain_witness :
  ∃ s, sys_run [CallStart; CallStart; Run 1 None; Run 0 None] (init 5) = Some s ∧ chains s = 1%nat.
Proof.
  eexists. split; [reflexivity|].
  refine (periodic_single_chain 5 [CallStart; CallStart; Run 1 None; Run 0 None] _ _ _);
    [repeat constructor|reflexivity].
Defined.

(** With [Close] and a new [Start] while [Execute] runs, the old execution finds
    [running] set again: the task goes on with two timers at once, of which the
    task remembers only the last. *)
Theorem periodic_restart_doubles :
  ∃ cs s, sys_run cs (init 5) = Some s ∧ running (task s) = true ∧
    armed (task s) = [0%nat; 1%nat] ∧ timer (task s) = Some 1%nat ∧ threads s = [].
Proof.
  exists [CallStart; Run 0 None; Run 0 None; CallClose; CallStart; Run 1 None;
          Run 0 None; Run 1 None; Run 0 None; Run 0 None; Run 0 None].
  eexists. by vm_compute.
Qed.

(** A failing [Start] clears [running] twice; a [Start] that succeeds in between
    returns nil, but its task is stopped. *)
Theorem periodic_failed_start_stops_other :
  ∃ cs s, sys_run cs (init 5) = Some s ∧ running (task s) = false ∧ executed s = 2%nat ∧
    armed (task s) = [0%nat] ∧ Forall (λ c, c ≠ CallClose) cs.
Proof.
  exists [CallStart; Run 0 None; Run 0 None; Run 0 (Some (ErrNew EOF)); Run 0 None;
          CallStart; Run 1 None; Run 1 None; Run 1 None; Run 1 None; Run 0 None].
  eexists. split; [vm_compute; reflexivity|]. split_and!; try reflexivity.
  repeat constructor; discriminate.
Qed.
End PeriodicTheorems.

(** ** task.Run *)
Module RunFacts.
Import RunTasks.

Definition passed (w : worker) : nat := match w with W_exit None => 1 | _ => 0 end.
Definition successes (s : run_state) : nat := sum_list_with passed (workers s).

Definition main_inv (n : nat) (s : run_state) : Prop :=
  match main s with
  | M_spawn => (length (workers s) < n ∧
                Semaphore.token (sem s) + length (workers s) = n + successes s)%nat
  | M_wait i => (length (workers s) = n ∧ i ≤ n ∧ Semaphore.token (sem s) + i = successes s)%nat
  | M_ret None => length (workers s) = n ∧ successes s = n
  | M_ret (Some e) => ctx_err s = Some e ∨ W_exit (Some e) ∈ workers s
  end.

(** [done] holds an error of a task, and is only emptied by the caller's return. *)
Definition done_inv (s : run_state) : Prop :=
  match done s with
  | Some e => W_exit (Some e) ∈ workers s
  | None => (∃ r, main s = M_ret r) ∨ ∀ e, W_exit (Some e) ∉ workers s
  end.

Record inv (n : nat) (s : run_state) : Prop := Inv {
  inv_n : n_tasks s = n;
  inv_cap : Semaphore.cap (sem s) = n;
  inv_main : main_inv n s;
  inv_done : done_inv s
}.

Lemma passed_le l : (sum_list_with passed l ≤ length l)%nat.
Proof. induction l as [|[| |e|[e|]] l IH]; simpl; lia. Qed.

Lemma passed_all l : sum_list_with passed l = length l → Forall (λ w, w = W_exit None) l.
Proof.
  induction l as [|w l IH]; [constructor|]. pose proof (passed_le l). simpl. intros Hs.
  destruct w as [| |e|[e|]]; simpl in Hs; try lia. constructor; [done|]. apply IH. lia.
Qed.

Lemma passed_running i w l :
  l !! i = Some w → passed w = 0%nat → (S (sum_list_with passed l) ≤ length l)%nat.
Proof.
  revert i. induction l as [|y l IH]; intros [|i] Hi Hw; simpl in *; simplify_eq.
  - pose proof (passed_le l). lia.
  - specialize (IH i Hi Hw). destruct y as [| |e|[e|]]; simpl; lia.
Qed.

Lemma fill_new k m c : (m + k ≤ c)%nat →
  Semaphore.fill k (Semaphore.mkInstance m c) = Some (Semaphore.mkInstance (m + k) c).
Proof.
  revert m. induction k as [|k IH]; intros m Hm; simpl; [by rewrite Nat.add_0_r|].
  rewrite (proj2 (Nat.ltb_lt m c)) by lia. rewrite IH by lia. do 2 f_equal. lia.
Qed.

Lemma start_eq n : start n =
  Some (mkRun n (Semaphore.mkInstance n n) None None [] (match n with O => M_wait 0 | _ => M_spawn end)).
Proof. unfold start, Semaphore.New. by rewrite fill_new by lia. Qed.

Lemma start_inv n s : start n = Some s → inv n s.
Proof.
  rewrite start_eq. intros ?. simplify_eq. split; [done|done|..]; unfold main_inv, done_inv; cbn.
  - destruct n; cbn; unfold successes; simpl; lia.
  - right. intros e He. inversion He.
Qed.

Lemma elem_insert_other {A} (x y z : A) (i : nat) (l : list A) :
  l !! i = Some y → x ≠ y → x ∈ l → x ∈ <[i := z]> l.
Proof.
  intros Hi Hne Hx. apply list_elem_of_lookup in Hx as [j Hj].
  apply list_elem_of_lookup. exists j. rewrite list_lookup_insert_ne; [done|congruence].
Qed.

Lemma elem_insert_inv {A} (x z : A) (i : nat) (l : list A) : x ∈ <[i := z]> l → x = z ∨ x ∈ l.
Proof.
  intros Hx. apply list_elem_of_lookup in Hx as [j Hj].
  apply list_lookup_insert_Some in Hj as [(_ & -> & _)|(_ & Hj)]; [by left|].
  right. by eapply list_elem_of_lookup_2.
Qed.

(** A worker that moves to [w'] without passing keeps what [main] knows. *)
Lemma main_inv_worker n s i w w' d m :
  main_inv n s → workers s !! i = Some w → (∀ r, w ≠ W_exit r) →
  (Semaphore.token m = Semaphore.token (sem s) + passed w')%nat →
  main_inv n (mkRun (n_tasks s) m d (ctx_err s) (<[i := w']> (workers s)) (main s)).
Proof.
  intros Hm Hi Hw Ht. assert (passed w = 0)%nat as Hw0 by (destruct w as [| |e|r]; [done..|by edestruct Hw]).
  pose proof (sum_insert passed i w w' _ Hi). pose proof (passed_running i w _ Hi Hw0).
  unfold main_inv, successes in *. cbn. rewrite length_insert.
  destruct (main s) as [|j|[e|]]; [lia|lia| |lia].
  destruct Hm as [?|?]; [by left|right]. by eapply elem_insert_other.
Qed.

Lemma worker_inv n i r s s' : inv n s → worker_step i r s = Some s' → inv n s'.
Proof.
  intros [Hn Hc Hm Hd] Hs. unfold worker_step in Hs.
  apply bind_Some in Hs as (w & Hi & Hs).
  assert (∀ e w', w ≠ W_exit (Some e) → W_exit (Some e) ∈ workers s →
            W_exit (Some e) ∈ <[i:=w']> (workers s)) as Hkeep
    by (intros e w' Hne; by eapply elem_insert_other).
  assert (∀ w' d m, (∀ r, w ≠ W_exit r) → (∀ e, w' ≠ W_exit (Some e)) → d = done s →
     done_inv (mkRun (n_tasks s) m d (ctx_err s) (<[i:=w']> (workers s)) (main s))) as Hdone.
  { intros w' d m Hw Hw' ->. unfold done_inv in *. cbn. destruct (done s) as [e|]; [by apply Hkeep|].
    destruct Hd as [?|Hd]; [by left|right]. intros e [?|?]%elem_insert_inv; [by eapply Hw'|by eapply Hd]. }
  destruct w as [| |e|?]; [destruct r as [e|]| | |done].
  - injection Hs as <-. split; [done..| |]; [|by apply Hdone].
    apply (main_inv_worker n s i W_run); [exact Hm|exact Hi|done|cbn; lia].
  - injection Hs as <-. split; [done..| |]; [|by apply Hdone].
    apply (main_inv_worker n s i W_run); [exact Hm|exact Hi|done|cbn; lia].
  - apply bind_Some in Hs as (m & Hsig & Hs). injection Hs as <-. unfold Semaphore.Signal in Hsig.
    destruct (_ <? _)%nat; [|done]. injection Hsig as <-. split; [done..| |]; [|by apply Hdone].
    apply (main_inv_worker n s i W_signal); [exact Hm|exact Hi|done|cbn; lia].
  - injection Hs as <-. split; [done..| |].
    + apply (main_inv_worker n s i (W_send e)); [exact Hm|exact Hi|done|cbn; lia].
    + unfold done_inv in *. cbn. destruct (done s) as [d|]; [by apply Hkeep|].
      apply list_elem_of_insert. by eapply lookup_lt_Some.
Qed.

Lemma wait_inv m m' : Semaphore.Wait m = Some m' →
  Semaphore.token m = S (Semaphore.token m') ∧ Semaphore.cap m' = Semaphore.cap m.
Proof. unfold Semaphore.Wait. destruct (Semaphore.token m) eqn:He; intros ?; simplify_eq. done. Qed.

Lemma wait_next_inv n s i :
  n_tasks s = n → Semaphore.cap (sem s) = n → done_inv (set_main s (M_wait i)) →
  (length (workers s) = n ∧ i ≤ n ∧ Semaphore.token (sem s) + i = successes s)%nat →
  inv n (wait_next s i).
Proof.
  intros Hn Hc Hd (Hl & Hi & Ht). unfold wait_next. destruct (i <? n_tasks s)%nat eqn:Hlt.
  - by split.
  - apply Nat.ltb_ge in Hlt. pose proof (passed_le (workers s)) as Hp.
    split; [done|done| |].
    + unfold main_inv, successes in *. cbn. lia.
    + unfold done_inv in *. cbn in *. destruct (done s); [done|]. left. eauto.
Qed.

Lemma caller_inv n k s s' : inv n s → main_step k s = Some s' → inv n s'.
Proof.
  intros [Hn Hc Hm Hd] Hs. unfold main_step in Hs. unfold main_inv in Hm.
  destruct (main s) as [|i|r] eqn:Hmain; [..|done].
  - apply bind_Some in Hs as (m & Hw & Hs). apply wait_inv in Hw as [Ht Hcap].
    assert (∀ e, W_exit (Some e) ∈ workers s ++ [W_run] → W_exit (Some e) ∈ workers s) as Hin.
    { intros e. rewrite elem_of_app. intros [?|[?|Hx]%elem_of_cons]; [done..|inversion Hx]. }
    assert (∀ mp, done_inv (mkRun (n_tasks s) m (done s) (ctx_err s) (workers s ++ [W_run]) mp)) as Hdn.
    { intros mp. unfold done_inv in *. cbn. destruct (done s); [apply elem_of_app; by left|].
      destruct Hd as [[? ?]|Hd]; [congruence|right]. intros e He. by eapply Hd, Hin. }
    assert (sum_list_with passed (workers s ++ [W_run]) = sum_list_with passed (workers s)) as Hsum
      by (rewrite sum_app; simpl; lia).
    simplify_eq. cbn [workers n_tasks]. rewrite length_app. cbn [length].
    destruct (_ <? _)%nat eqn:Hlt.
    + apply Nat.ltb_lt in Hlt. split; [done|by cbn; congruence| |apply Hdn].
      unfold main_inv, successes in *. cbn. rewrite length_app, Hsum. cbn [length]. lia.
    + apply Nat.ltb_ge in Hlt. apply wait_next_inv; [done|by cbn; congruence|apply Hdn|].
      unfold successes in *. cbn. rewrite length_app, Hsum. cbn [length]. lia.
  - destruct (i <? n_tasks s)%nat eqn:Hlt.
    + apply Nat.ltb_lt in Hlt. destruct k; apply bind_Some in Hs as (x & Hx & Hs); simplify_eq.
      * split; [done..| |].
        -- unfold main_inv, done_inv in *. rewrite Hx in Hd. cbn. by right.
        -- left. cbn. eauto.
      * split; [done..| |].
        -- by left.
        -- unfold done_inv in *. cbn. destruct (done s); [done|]. left. eauto.
      * apply wait_inv in Hx as [Ht Hcap]. apply wait_next_inv; cbn; [done|congruence| |].
        -- unfold done_inv in *. cbn. destruct (done s); [done|].
           destruct Hd as [[? ?]|?]; [congruence|by right].
        -- unfold successes in *. cbn. lia.
    + simplify_eq. apply Nat.ltb_ge in Hlt. pose proof (passed_le (workers s)).
      split; [done|done| |].
      * unfold main_inv, successes in *. cbn. lia.
      * unfold done_inv in *. cbn. destruct (done s); [done|]. left. eauto.
Qed.

Lemma step_inv n c s s' : inv n s → run_step c s = Some s' → inv n s'.
Proof.
  destruct c as [e|i r|k]; [|apply worker_inv|apply caller_inv].
  intros [Hn Hc Hm Hd] Hs. cbn in Hs. simplify_eq. split; [done..| |].
  - unfold main_inv, successes in *. cbn. destruct (main s) as [|?|[?|]]; try done.
    destruct Hm as [->|?]; [by left|by right].
  - exact Hd.
Qed.

Lemma reachable_inv n cs s0 s : start n = Some s0 → run cs s0 = Some s → inv n s.
Proof.
  intros H0. apply (run_steps_inv run_step (inv n)); [intros *; apply step_inv|by apply start_inv].
Qed.

(** *** Progress and termination *)

Definition busy (w : worker) : nat := match w with W_run => 2 | W_signal | W_send _ => 1 | W_exit _ => 0 end.
Definition main_left (s : run_state) : nat :=
  match main s with
  | M_spawn => 3 * (n_tasks s - length (workers s)) + n_tasks s + 1
  | M_wait i => n_tasks s - i + 1
  | M_ret _ => 0
  end.
Definition left (s : run_state) : nat := sum_list_with busy (workers s) + main_left s.

Definition internal (c : choice) : Prop := match c with Cancel _ => False | _ => True end.
Definition step_cost (c : choice) : nat := match c with Cancel _ => 0 | _ => 1 end.

Lemma wait_next_left s i : (main_left (wait_next s i) ≤ n_tasks s - i + 1)%nat.
Proof. unfold wait_next, main_left. destruct (_ <? _)%nat; cbn; lia. Qed.

Lemma step_left n c s s' : inv n s → run_step c s = Some s' → (left s' + step_cost c ≤ left s)%nat.
Proof.
  intros [Hn Hc Hm Hd] Hs. unfold left. destruct c as [e|i r|k]; cbn [run_step step_cost] in *.
  - injection Hs as <-. unfold main_left. cbn. lia.
  - unfold worker_step in Hs. apply bind_Some in Hs as (w & Hi & Hs).
    pose proof (λ y, sum_insert busy _ _ y _ Hi) as Hins.
    assert (∃ w' m d, (busy w' < busy w)%nat ∧
      s' = mkRun (n_tasks s) m d (ctx_err s) (<[i := w']> (workers s)) (main s)) as (w' & m & d & Hlt & ->).
    { destruct w as [| |e|?]; [destruct r as [e|]| | |done]; unfold set_worker, set_done in *;
        cbn in Hs; [..|apply bind_Some in Hs as (m & _ & Hs)|]; injection Hs as <-;
        do 3 eexists; (split; [|reflexivity]); simpl; lia. }
    pose proof (Hins w') as Hi'. unfold main_left. cbn. rewrite length_insert. simpl in *. lia.
  - unfold main_step in Hs. unfold main_inv in Hm. unfold main_left at 2.
    destruct (main s) as [|i|r] eqn:Hmain; [..|done].
    + apply bind_Some in Hs as (m & Hw & Hs). injection Hs as <-.
      cbn [workers n_tasks]. rewrite length_app. cbn [length]. destruct (_ <? _)%nat eqn:Hlt.
      * apply Nat.ltb_lt in Hlt. unfold main_left. cbn. rewrite length_app, sum_app. simpl. lia.
      * pose proof (wait_next_left (mkRun (n_tasks s) m (done s) (ctx_err s) (workers s ++ [W_run]) (main s)) 0).
        rewrite Hmain in H. cbn in *. rewrite sum_app. simpl. lia.
    + destruct (i <? n_tasks s)%nat eqn:Hlt; [apply Nat.ltb_lt in Hlt|injection Hs as <-; unfold main_left; cbn; lia].
      destruct k; apply bind_Some in Hs as (x & Hx & Hs); injection Hs as <-;
        try (unfold main_left; cbn; lia).
      pose proof (wait_next_left (set_sem s x) (S i)). cbn in *. lia.
Qed.

Lemma run_left n cs s s' : inv n s → run cs s = Some s' →
  (left s' + sum_list_with step_cost cs ≤ left s)%nat.
Proof.
  revert s. induction cs as [|c cs IH]; intros s Hi Hr.
  - cbn in Hr. simplify_eq. simpl. lia.
  - apply run_steps_cons in Hr as (s1 & H1 & Hr).
    pose proof (step_left n c s s1 Hi H1). specialize (IH s1 (step_inv n c s s1 Hi H1) Hr). simpl. lia.
Qed.

(** A worker that has not finished can move. *)
Lemma worker_moves n i w s :
  inv n s → workers s !! i = Some w → (length (workers s) ≤ n)%nat →
  (∀ r, w ≠ W_exit r) → (∀ r, main s ≠ M_ret r) → ∃ s', run_step (Worker i None) s = Some s'.
Proof.
  intros [Hn Hc Hm Hd] Hi Hlen Hw Hr. cbn. unfold worker_step. rewrite Hi. cbn.
  destruct w as [| |e|r]; [eauto| |eauto|by edestruct Hw].
  pose proof (passed_running i W_signal _ Hi eq_refl). unfold Semaphore.Signal, main_inv, successes in *.
  rewrite (proj2 (Nat.ltb_lt _ _)); [cbn; eauto|]. rewrite Hc.
  destruct (main s) as [|j|r]; [lia|lia|by edestruct Hr].
Qed.

Lemma can_wait s k i : main s = M_wait i → k = Sel_sem → (i < n_tasks s)%nat →
  (0 < Semaphore.token (sem s))%nat → ∃ s', run_step (Main k) s = Some s'.
Proof.
  intros Hm -> Hi Ht. cbn. unfold main_step. rewrite Hm, (proj2 (Nat.ltb_lt _ _) Hi).
  unfold Semaphore.Wait. destruct (Semaphore.token (sem s)); [lia|]. cbn. eauto.
Qed.

Definition exited (w : worker) : bool := match w with W_exit _ => true | _ => false end.

Lemma not_all_passed l :
  Forall (λ w, exited w = true) l → (∀ e, W_exit (Some e) ∉ l) → sum_list_with passed l = length l.
Proof.
  induction l as [|w l IH]; intros Hx Hn; [done|]. apply Forall_cons in Hx as [Hw Hx].
  simpl. rewrite IH; [|done|intros e He; by eapply (Hn e), list_elem_of_further].
  destruct w as [| |e|[e|]]; try done. destruct (Hn e). by left.
Qed.

Lemma progress n s : inv n s → (∀ r, main s ≠ M_ret r) →
  ∃ c s', internal c ∧ run_step c s = Some s'.
Proof.
  intros Hinv Hr. pose proof Hinv as [Hn Hc Hm Hd]. unfold main_inv in Hm.
  destruct (main s) as [|i|r] eqn:Hmain; [| |by edestruct Hr].
  - exists (Main Sel_sem). cbn. unfold main_step. rewrite Hmain.
    unfold Semaphore.Wait. destruct (Semaphore.token (sem s)); [lia|]. cbn. eauto.
  - destruct (decide (i < n)%nat) as [Hi|Hi].
    2:{ exists (Main Sel_sem). cbn. unfold main_step. rewrite Hmain.
        rewrite (proj2 (Nat.ltb_ge _ _)) by lia. eauto. }
    destruct (decide (Forall (λ w, exited w = true) (workers s))) as [Hall|Hex].
    + destruct (done s) as [e|] eqn:He.
      * exists (Main Sel_done). cbn. unfold main_step. rewrite Hmain, He.
        rewrite (proj2 (Nat.ltb_lt _ _)) by lia. cbn. eauto.
      * unfold done_inv in Hd. rewrite He in Hd. destruct Hd as [[? ?]|Hd]; [congruence|].
        pose proof (not_all_passed _ Hall Hd). unfold successes in Hm.
        destruct (can_wait s Sel_sem i Hmain) as [s' Hs']; [done|lia|lia|]. by exists (Main Sel_sem), s'.
    + apply not_Forall_Exists in Hex; [|apply _]. apply Exists_exists in Hex as (w & Hw & Hne).
      apply list_elem_of_lookup in Hw as [j Hj].
      destruct (worker_moves n j w s) as [s' Hs'].
      * done.
      * done.
      * lia.
      * intros r ->. by destruct Hne.
      * rewrite Hmain. done.
      * by exists (Worker j None), s'.
Qed.
(** What task [i] returned in a run: the result of its first step. *)
Definition worker_result (i : nat) (c : choice) : option (option error) :=
  match c with Worker j r => if decide (i = j) then Some r else None | _ => None end.
Definition result_of (cs : list choice) (i : nat) : option (option error) := head (omap (worker_result i) cs).

(** What the goroutine of a task remembers of it. *)
Definition ran (w : worker) : option (option error) :=
  match w with W_run => None | W_signal => Some None | W_send e => Some (Some e) | W_exit r => Some r end.

Definition traced (cs : list choice) (s : run_state) : Prop :=
  (∀ i, result_of cs i = workers s !! i ≫= ran) ∧ ∀ e, ctx_err s = Some e → Cancel e ∈ cs.

Lemma result_of_snoc cs c i :
  result_of (cs ++ [c]) i = match result_of cs i with Some r => Some r | None => worker_result i c end.
Proof.
  unfold result_of. rewrite omap_app, head_app. cbn. destruct (omap (worker_result i) cs); [|done].
  by destruct (worker_result i c).
Qed.

(** A step of a goroutine is the run of its task, or keeps its result. *)
Lemma worker_step_ran i r s s' :
  worker_step i r s = Some s' → ctx_err s' = ctx_err s ∧
  ∃ w w', workers s !! i = Some w ∧ workers s' = <[i := w']> (workers s) ∧
    ran w' = match ran w with Some x => Some x | None => Some r end.
Proof.
  unfold worker_step. intros Hs. apply bind_Some in Hs as (w & Hi & Hs).
  destruct w as [| |e|x]; [destruct r as [e|]| | |]; try done;
    [| |apply bind_Some in Hs as (m & Hm & Hs)|]; injection Hs as <-;
    (split; [done|]); by eexists _, _.
Qed.

Lemma main_step_ran k s s' i :
  main_step k s = Some s' → ctx_err s' = ctx_err s ∧ workers s' !! i ≫= ran = workers s !! i ≫= ran.
Proof.
  unfold main_step, wait_next. intros Hs. destruct (main s) as [|j|r]; [..|done].
  - apply bind_Some in Hs as (m & _ & Hs). injection Hs as <-. cbn [workers n_tasks].
    assert (Hl : (workers s ++ [W_run]) !! i ≫= ran = workers s !! i ≫= ran).
    { destruct (decide (i < length (workers s))%nat) as [Hi|Hi].
      - by rewrite lookup_app_l.
      - rewrite lookup_app_r, (lookup_ge_None_2 (workers s)) by lia.
        by destruct (i - length (workers s))%nat as [|[|]]. }
    by destruct (_ <? _)%nat.
  - destruct (j <? n_tasks s)%nat; [|by injection Hs as <-].
    by destruct k; apply bind_Some in Hs as (x & _ & Hs); injection Hs as <-.
Qed.

Lemma step_traced cs c s s' : traced cs s → run_step c s = Some s' → traced (cs ++ [c]) s'.
Proof.
  intros [Hw Hc] Hs.
  assert (Hcx : ∀ e, ctx_err s = Some e → Cancel e ∈ cs ++ [c]).
  { intros e He. apply elem_of_app. left. by apply Hc. }
  destruct c as [e|i r|k]; cbn [run_step] in Hs.
  - injection Hs as <-. split; [intros i; rewrite result_of_snoc, (Hw i); cbn; by destruct (_ ≫= ran)|].
    cbn. intros e' He'. destruct (ctx_err s) eqn:Hx; [by apply Hcx|]. injection He' as ->.
    apply elem_of_app. right. by left.
  - destruct (worker_step_ran i r s s' Hs) as (Hce & w & w' & Hi & Heq & Hran).
    split; [|by rewrite Hce].
    intros j. rewrite result_of_snoc, (Hw j), Heq. cbn. destruct (decide (j = i)) as [->|Hne].
    + rewrite list_lookup_insert_eq by (by eapply lookup_lt_Some). rewrite Hi. cbn. by rewrite Hran.
    + rewrite list_lookup_insert_ne by congruence. by destruct (_ ≫= ran).
  - split; [|by rewrite (proj1 (main_step_ran k s s' 0 Hs))].
    intros j. rewrite result_of_snoc, (Hw j), (proj2 (main_step_ran k s s' j Hs)). cbn. by destruct (_ ≫= ran).
Qed.

Lemma run_traced n cs s0 s : start n = Some s0 → run cs s0 = Some s → traced cs s.
Proof.
  intros H0. revert s. induction cs as [|c cs IH] using rev_ind; intros s Hr.
  - cbn in Hr. injection Hr as <-. rewrite start_eq in H0. injection H0 as <-. by destruct n.
  - unfold run in Hr. rewrite run_steps_app in Hr. apply bind_Some in Hr as (s1 & H1 & Hr).
    cbn in Hr. apply bind_Some in Hr as (s2 & H2 & Hr). injection Hr as <-.
    eapply step_traced; [by apply IH|done].
Qed.

Lemma run_workers_le n cs s0 s : start n = Some s0 → run cs s0 = Some s → (length (workers s) ≤ n)%nat.
Proof.
  intros H0 Hr.
  assert (Hi : n_tasks s = n ∧ (main s = M_spawn → (length (workers s) < n)%nat) ∧ (length (workers s) ≤ n)%nat);
    [|tauto].
  refine (run_steps_inv run_step (λ s, n_tasks s = n ∧ (main s = M_spawn → (length (workers s) < n)%nat) ∧
    (length (workers s) ≤ n)%nat) _ cs s0 s _ Hr).
  - clear. intros c s s' (Hn & Hm & Hl) Hs. destruct c as [e|i r|k]; cbn [run_step] in Hs.
    + by injection Hs as <-.
    + unfold worker_step in Hs. apply bind_Some in Hs as (w & _ & Hs).
      destruct w as [| |e|x]; [destruct r as [e|]| | |]; try done;
        [| |apply bind_Some in Hs as (m & _ & Hs)|]; injection Hs as <-; cbn; by rewrite length_insert.
    + unfold main_step, wait_next in Hs. destruct (main s) as [|j|r] eqn:Hmain; [..|done].
      * apply bind_Some in Hs as (m & _ & Hs). injection Hs as <-. cbn [workers n_tasks]. specialize (Hm eq_refl).
        rewrite length_app. cbn [length]. rewrite Hn. destruct (_ <? _)%nat eqn:Hlt; cbn; rewrite length_app; cbn.
        -- apply Nat.ltb_lt in Hlt. split_and!; [done|lia|lia].
        -- split_and!; [done|by destruct n|lia].
      * destruct (j <? n_tasks s)%nat eqn:Hlt; [|by injection Hs as <-].
        destruct k; apply bind_Some in Hs as (x & _ & Hs); injection Hs as <-; cbn -[Nat.ltb]; try done.
        split_and!; [done|by destruct (S j <? n_tasks s)%nat|done].
  - rewrite start_eq in H0. injection H0 as <-. destruct n; cbn; split_and!; try done; lia.
Qed.

Lemma traced_exit cs s i r : traced cs s → workers s !! i = Some (W_exit r) → result_of cs i = Some r.
Proof. intros [Hw _] Hi. by rewrite Hw, Hi. Qed.
End RunFacts.

Section RunTheorems.
Import RunTasks RunFacts.

(** C18: [Run] returns nil only when every task has been run and has returned nil,
    and any other result is the error that one of the tasks returned or the
    error of the context, whatever the order in which tasks finish and the
    context is cancelled. *)
Theorem task_run_result n cs s0 s r :
  start n = Some s0 → run cs s0 = Some s → main s = M_ret r →
  match r with
  | None => ∀ i, (i < n)%nat → result_of cs i = Some None
  | Some e => Cancel e ∈ cs ∨ ∃ i, (i < n)%nat ∧ result_of cs i = Some (Some e)
  end.
Proof.
  intros H0 Hr Hm. pose proof (run_traced n cs s0 s H0 Hr) as Ht.
  pose proof (inv_main _ _ (reachable_inv n cs s0 s H0 Hr)) as Hi.
  unfold main_inv in Hi. rewrite Hm in Hi. destruct r as [e|].
  - destruct Hi as [Hi|Hi]; [left; by apply Ht|right]. pose proof (run_workers_le n cs s0 s H0 Hr).
    apply list_elem_of_lookup in Hi as [i Hi]. exists i. split; [|by eapply traced_exit].
    apply lookup_lt_Some in Hi. lia.
  - destruct Hi as [Hl Hs]. intros i Hi. eapply traced_exit; [done|].
    destruct (lookup_lt_is_Some_2 (workers s) i) as [w Hw]; [lia|]. rewrite Hw. f_equal.
    exact (Forall_lookup_1 _ _ _ _ (passed_all (workers s) ltac:(unfold successes in Hs; lia)) Hw).
Qed.

Lemma task_run_result_witness :
  Cancel (ErrNew EOF) ∈ [Main Sel_sem; Worker 0 (Some (ErrNew EOF)); Main Sel_sem; Worker 0 None; Main Sel_done] ∨
  ∃ i, (i < 2)%nat ∧ result_of [Main Sel_sem; Worker 0 (Some (ErrNew EOF)); Main Sel_sem; Worker 0 None;
                                Main Sel_done] i = Some (Some (ErrNew EOF)).
Proof.
  refine (task_run_result 2
    [Main Sel_sem; Worker 0 (Some (ErrNew EOF)); Main Sel_sem; Worker 0 None; Main Sel_done]
    _ _ (Some (ErrNew EOF)) eq_refl eq_refl _). reflexivity.
Defined.

(** C19: [Run] returns once its tasks do: the caller and the goroutines of [n] tasks
    take at most [4 n + 1] steps in all, and until the caller has returned one
    of them can always take a step, so no interleaving deadlocks. *)
Theorem task_run_terminates n cs s0 s :
  start n = Some s0 → run cs s0 = Some s →
  (sum_list_with step_cost cs ≤ 4 * n + 1)%nat ∧
  ((∃ r, main s = M_ret r) ∨ ∃ c s', internal c ∧ run_step c s = Some s').
Proof.
  intros H0 Hr. split.
  - pose proof (run_left n cs s0 s (start_inv n s0 H0) Hr) as Hle.
    rewrite start_eq in H0. injection H0 as <-. unfold left, main_left in Hle.
    destruct n; cbn in Hle; simpl in Hle; lia.
  - destruct (main s) as [|i|r] eqn:Hm; [right|right|eauto];
      apply (progress n); [by eapply reachable_inv|congruence|by eapply reachable_inv|congruence].
Qed.

Lemma task_run_terminates_witness :
  ∃ s, run [Main Sel_sem; Worker 0 None] (mkRun 1 (Semaphore.mkInstance 1 1) None None [] M_spawn) = Some s ∧
  ((∃ r, main s = M_ret r) ∨ ∃ c s', internal c ∧ run_step c s = Some s').
Proof.
  eexists. split; [reflexivity|].
  refine (proj2 (task_run_terminates 1 [Main Sel_sem; Worker 0 None] _ _ eq_refl eq_refl)).
Defined.
End RunTheorems.

(** ** timer.ActivityTimer *)
Module ActivityFacts.
Import Activity.

(** The timer with one task, whose [j]-th timer is armed. *)
Definition awake (iv : Z) (j : nat) : ActivityTimer :=
  mkTimer false (Some 0%nat) true 0 [Periodic.mkPeriodic iv (Some j) true [j] (S j)].
(** The timer after it has fired. *)
Definition expired (iv : Z) (j : nat) (u : bool) : ActivityTimer :=
  mkTimer u None false 1 [Periodic.mkPeriodic iv None false [] j].

Lemma filter_neq_self (j : nat) : filter (λ i, i ≠ j) [j] = [].
Proof. rewrite filter_cons_False; [done|]. intros Hn. by apply Hn. Qed.

Lemma fire_single iv o r j n :
  Periodic.fire j (Periodic.mkPeriodic iv o r [j] n) =
  Some (Periodic.CE_check false, Periodic.mkPeriodic iv o r [] n).
Proof.
  unfold Periodic.fire. cbn [Periodic.armed Periodic.Interval Periodic.timer Periodic.running Periodic.fresh].
  rewrite decide_True by (by left). by rewrite filter_neq_self.
Qed.

Lemma iter_Update n t :
  Nat.iter n Update t = if decide (n = 0%nat) then t else set_updated t true.
Proof.
  destruct n as [|n]; [done|]. rewrite decide_False by lia.
  induction n as [|n IH]; [unfold Nat.iter, nat_rect, Update; by destruct (updated t)|].
  change (Nat.iter (S (S n)) Update t) with (Update (Nat.iter (S n) Update t)).
  rewrite IH. done.
Qed.

Lemma interval_awake iv j a :
  interval a (awake iv j) = Ret (if decide (a = 0%nat) then expired iv (S j) false else awake iv (S j)).
Proof.
  unfold interval. rewrite iter_Update. destruct (decide (a = 0%nat)) as [->|Ha]; cbn -[Periodic.fire];
    rewrite fire_single; reflexivity.
Qed.

Lemma interval_expired iv j u a : ∃ u', interval a (expired iv j u) = Ret (expired iv j u').
Proof. unfold interval. rewrite iter_Update. destruct (decide _); cbn; eauto. Qed.

Lemma intervals_expired iv j acts u : ∃ u', intervals acts (expired iv j u) = Ret (expired iv j u').
Proof.
  revert u. induction acts as [|a acts IH]; intros u; [cbn; eauto|].
  cbn [intervals]. destruct (interval_expired iv j u a) as [u' ->]. apply IH.
Qed.

Lemma intervals_awake iv j acts :
  if decide (Forall (λ a, a ≠ 0%nat) acts)
  then intervals acts (awake iv j) = Ret (awake iv (j + length acts))
  else ∃ j' u, intervals acts (awake iv j) = Ret (expired iv j' u).
Proof.
  revert j. induction acts as [|a acts IH]; intros j.
  - rewrite decide_True by constructor. cbn. by rewrite Nat.add_0_r.
  - cbn [intervals length]. rewrite interval_awake.
    destruct (decide (a = 0%nat)) as [->|Ha]; cbn [mbind go_bind].
    + rewrite decide_False by (intros Hf; by apply Forall_cons in Hf as [? _]).
      destruct (intervals_expired iv (S j) acts false) as [u ->]. eauto.
    + specialize (IH (S j)). destruct (decide (Forall _ acts)) as [Hf|Hf].
      * rewrite decide_True by (by constructor). rewrite IH. do 2 f_equal. lia.
      * rewrite decide_False; [done|]. intros Hf'. by apply Forall_cons in Hf' as [_ ?].
Qed.

(** *** Any interleaving *)

Definition thread_ok (th : thread) : Prop :=
  match th with In_task _ p => PeriodicFacts.failing p = false | _ => True end.

Definition once (s : at_sys) : Prop :=
  fired (timer s) = (if onTimeout (timer s) then 0 else 1)%nat ∧ Forall thread_ok (threads s).

Lemma close_check_once t : onTimeout (close_check t) = onTimeout t ∧ fired (close_check t) = fired t.
Proof. unfold close_check. by destruct (checkTask t). Qed.

Lemma finish_once t :
  fired t = (if onTimeout t then 0 else 1)%nat →
  fired (finish t) = (if onTimeout (finish t) then 0 else 1)%nat.
Proof.
  unfold finish. set (t' := if onTimeout t then _ else t). cbn.
  destruct (close_check_once t') as [-> ->]. subst t'. by destruct (onTimeout t) eqn:Ho; cbn; rewrite ?Ho; intros ->.
Qed.

Lemma start_not_failing p t f t' :
  Periodic.Start p None t = (f, t') → PeriodicFacts.failing p = false →
  match f with Periodic.Goto p' => PeriodicFacts.failing p' = false | Periodic.Return e => e = None end.
Proof.
  intros Hs Hp. destruct p as [|b|b|b e|b|e]; cbn in *; unfold Periodic.hasClosed in *; try done;
    try (destruct (Periodic.running t)); try destruct b; cbn in *; by simplify_eq.
Qed.

Lemma thread_once th t :
  thread_ok th → fired t = (if onTimeout t then 0 else 1)%nat →
  ∃ o t', thread_step th t = Ret (o, t') ∧ fired t' = (if onTimeout t' then 0 else 1)%nat ∧
    match o with Some th' => thread_ok th' | None => True end.
Proof.
  intros Hok Ht. destruct th as [d|k|k p|k b|].
  - cbn. do 2 eexists. split; [reflexivity|]. cbn. by destruct (close_check_once t) as [-> ->].
  - cbn. do 2 eexists. by split.
  - assert ((∃ b, p = Periodic.CE_exec b) ∨ thread_step (In_task k p) t =
      match tasks t !! k with
      | None => Ret (None, t)
      | Some task =>
          let '(f, task) := Periodic.Start p None task in
          let t := set_tasks t (<[k := task]> (tasks t)) in
          match f with
          | Periodic.Goto p' => Ret (Some (In_task k p'), t)
          | Periodic.Return None => Ret (None, t)
          | Periodic.Return (Some e) => Panic "checkTask.Start"
          end
      end) as [[b ->]|Hs] by (destruct p; eauto).
    + cbn. unfold check. destruct (Notifier_receive (updated t)); do 2 eexists; by split.
    + rewrite Hs. destruct (tasks t !! k) as [task|]; [|do 2 eexists; by split].
      destruct (Periodic.Start p None task) as [f task'] eqn:Hst.
      pose proof (start_not_failing p task f task' Hst Hok) as Hf.
      destruct f as [p'|e]; [|subst e]; do 2 eexists; by split.
  - cbn. do 2 eexists. split; [reflexivity|]. split; [by apply finish_once|done].
  - cbn. do 2 eexists. split; [reflexivity|]. split; [by apply finish_once|done].
Qed.

Lemma step_once c s : once s → safe_outcome once (at_step c s).
Proof.
  intros [Hf Hth]. destruct c as [|d|k id|i]; cbn.
  - eexists. split; [reflexivity|]. by split.
  - eexists. split; [reflexivity|]. split; [done|]. apply Forall_app_2; [done|].
    apply Forall_singleton. unfold SetTimeout. by destruct (_ =? _).
  - destruct (tasks (timer s) !! k) as [p|]; cbn; [|done]. unfold Periodic.fire.
    case_decide; cbn; [|done]. eexists. split; [reflexivity|]. split; [done|].
    apply Forall_app_2; [done|]. by apply Forall_singleton.
  - destruct (threads s !! i) as [th|] eqn:Hi; cbn; [|done].
    destruct (thread_once th (timer s)) as (o & t' & -> & Hf' & Ho); [|done|].
    { by eapply Forall_lookup_1 in Hi. }
    cbn. eexists. split; [reflexivity|]. split; [done|].
    destruct o; [by apply Forall_insert|by apply Forall_delete].
Qed.

(** A task that the timer no longer knows of, with its timer armed. *)
Definition leaked (s : at_sys) : Prop :=
  ∃ u iv j, s = mkAt (mkTimer u None false 1 [Periodic.mkPeriodic iv (Some j) true [j] (S j)]) [].

Lemma leaked_again s : leaked s →
  ∃ cs s', at_run cs s = Some (Ret s') ∧ leaked s' ∧
    Forall (λ c, match c with Fire _ _ | Run _ => True | _ => False end) cs.
Proof.
  intros (u & iv & j & ->). destruct u.
  - exists [Fire 0 j; Run 0; Run 0; Run 0]. eexists. cbn -[Periodic.fire]. rewrite fire_single.
    split; [reflexivity|]. split; [by repeat eexists|repeat constructor].
  - exists [Fire 0 j; Run 0; Run 0; Run 0; Run 0]. eexists. cbn -[Periodic.fire]. rewrite fire_single.
    split; [reflexivity|]. split; [by repeat eexists|repeat constructor].
Qed.
End ActivityFacts.

Section ActivityTheorems.
Import Activity ActivityFacts.

(** The timer made by CancelAfterInactivity, when the goroutines do not
    interfere, calls [onTimeout] in the first interval in which [Update] was
    not called, and not before: with [acts] the number of calls of [Update] in
    the successive intervals, [onTimeout] has been called once at the end when
    some of them is zero, its task then being closed with no timer left, and
    not at all otherwise, the next check being armed. *)
Theorem activity_timer_fires_when_idle timeout acts :
  timeout ≠ 0 →
  ∃ t, (t ← run_alone 10 (SetTimeout timeout) CancelAfterInactivity; intervals acts t) = Ret t ∧
  if decide (Forall (λ a, a ≠ 0%nat) acts)
  then fired t = 0%nat ∧ ∃ p j, tasks t = [p] ∧ Periodic.running p = true ∧ Periodic.armed p = [j]
  else fired t = 1%nat ∧ ∃ p, tasks t = [p] ∧ Periodic.running p = false ∧ Periodic.armed p = [].
Proof.
  intros Ht. unfold SetTimeout. rewrite (proj2 (Z.eqb_neq _ _) Ht).
  change (run_alone 10 (Set_lock timeout) CancelAfterInactivity) with (Ret (awake timeout 0)).
  cbn [mbind go_bind]. pose proof (intervals_awake timeout 0 acts) as Hi.
  destruct (decide _).
  - rewrite Hi. eexists. split; [reflexivity|]. cbn. split; [done|]. by do 2 eexists.
  - destruct Hi as (j & u & ->). eexists. split; [reflexivity|]. cbn. split; [done|]. by eexists.
Qed.

Lemma activity_timer_fires_when_idle_witness :
  5 ≠ 0 ∧ ∃ t, (t ← run_alone 10 (SetTimeout 5) CancelAfterInactivity; intervals [2%nat; 0%nat; 1%nat] t) = Ret t.
Proof.
  assert (5 ≠ 0) as H5 by discriminate. split; [exact H5|].
  destruct (activity_timer_fires_when_idle 5 [2%nat; 0%nat; 1%nat] H5) as (t & Ht & _). by exists t.
Defined.

(** Whatever goroutines call [Update] and [SetTimeout] (also with 0) and however
    they and the checks interleave, [SetTimeout] never panics and [onTimeout]
    is called at most once. *)
Theorem activity_timer_fires_once cs r :
  at_run cs init = Some r → ∃ s, r = Ret s ∧ (fired (timer s) ≤ 1)%nat.
Proof.
  intros Hr. pose proof (run_go_inv at_step once step_once cs init) as Ho.
  change (run_go at_step cs init) with (at_run cs init) in Ho. rewrite Hr in Ho.
  destruct Ho as (s & -> & Hf & _); [split; [done|constructor]|].
  exists s. split; [done|]. destruct (onTimeout (timer s)); lia.
Qed.

Lemma activity_timer_fires_once_witness :
  ∃ s, at_run [CallSetTimeout 3; Run 0; CallSetTimeout 0; Run 1; CallSetTimeout 0; Run 1] init = Some (Ret s) ∧
       (fired (timer s) ≤ 1)%nat.
Proof.
  destruct (activity_timer_fires_once
    [CallSetTimeout 3; Run 0; CallSetTimeout 0; Run 1; CallSetTimeout 0; Run 1] _ eq_refl) as (s & Hs & Hf).
  exists s. split; [rewrite <- Hs; reflexivity|exact Hf].
Defined.

(** A [SetTimeout] that has installed its task but not started it, overtaken by
    the end of the timer, starts a task nobody can stop: its checks go on for
    ever. *)
Theorem activity_timer_leaks_task :
  (∃ cs s, at_run cs init = Some (Ret s) ∧ leaked s) ∧
  ∀ s, leaked s → ∃ cs s', at_run cs s = Some (Ret s') ∧ leaked s' ∧
    Forall (λ c, match c with Fire _ _ | Run _ => True | _ => False end) cs.
Proof.
  split; [|exact leaked_again].
  exists [CallSetTimeout 5; Run 0; Run 0; CallSetTimeout 0; Run 1; Run 0; Run 0; Run 0; Run 0].
  eexists. split; [vm_compute; reflexivity|]. by exists false, 5, 0%nat.
Qed.
End ActivityTheorems.
