(* ===== verification/PubSub.v ===== *)
(** * The publish/subscribe service

    signal/pubsub/pubsub.go, on the periodic task of file [Tasks].

    Subscribers are shared between the service, the publishers and the clients
    that hold them, so they live in a heap and the service keeps their
    locations.  The operations of the service come first; then the system of
    goroutines that call it, in which the sections under the lock and the
    operations of a subscriber are the steps. *)
From S2P Require Import Prelude Errors Bytespool IO Buffer MultiBuffer BufIO Pipe Tasks TasksSpec.

Module PubSub.
Section Service.
Context {V : Type}.

(** ** Subscribers *)

(** [buffer] holds what is in the channel of capacity 16. *)
Record Subscriber := mkSubscriber { buffer : list V; done : Done.Instance }.

Definition new_subscriber : Subscriber := mkSubscriber [] Done.New.

Definition push (msg : V) (s : Subscriber) : Subscriber :=
  if (length (buffer s) <? 16)%nat then mkSubscriber (buffer s ++ [msg]) (done s) else s.

(** A receive from [s.Wait()]; [None] blocks. *)
Definition Wait (s : Subscriber) : option (V * Subscriber) :=
  match buffer s with
  | [] => None
  | v :: b => Some (v, mkSubscriber b (done s))
  end.

Definition Subscriber_Close (s : Subscriber) : go (option error * Subscriber) :=
  '(e, d) ← Done.Close (done s); Ret (e, mkSubscriber (buffer s) d).

Definition IsClosed (s : Subscriber) : bool := Done.Done (done s).

(** ** The service *)

Record Service := mkService { subs : gmap string (list nat); ctask : Periodic.Periodic }.

Definition NewService : Service := mkService ∅ (Periodic.new 30000000000).

(** Whether the subscriber at [l] is open. *)
Definition is_open (h : list Subscriber) (l : nat) : bool :=
  match h !! l with Some s => negb (IsClosed s) | None => false end.

Definition nothing_to_do : error := Errorf "nothing to do" None.

(** The new list of a name; [None] deletes the name. *)
Definition keep_open (h : list Subscriber) (ls : list nat) : option (list nat) :=
  match filter (λ l, is_open h l = true) ls with
  | [] => None
  | newSub => Some newSub
  end.

Definition Cleanup (h : list Subscriber) (m : gmap string (list nat)) : option error * gmap string (list nat) :=
  if decide (m = ∅) then (Some nothing_to_do, m) else (None, omap (keep_open h) m).

(** The locked section of [Subscribe]: the new subscriber and its place. *)
Definition Subscribe_add (name : string) (h : list Subscriber) (m : gmap string (list nat))
  : nat * list Subscriber * gmap string (list nat) :=
  (length h, h ++ [new_subscriber], <[name := default [] (m !! name) ++ [length h]]> m).

(** One turn of the loop of [Publish]. *)
Definition publish_one (message : V) (h : list Subscriber) (l : nat) : list Subscriber :=
  if is_open h l then alter (push message) l h else h.

Definition Publish (name : string) (message : V) (h : list Subscriber) (m : gmap string (list nat)) : list Subscriber :=
  foldl (publish_one message) h (default [] (m !! name)).

(** ** Goroutines *)

(** In [Subscribe] with the new subscriber [l]: in [ctask.Start]; in a timer's
    [checkedExecute]; in [Publish] with the subscribers still to serve. *)
Inductive thread :=
  | Subscribing (l : nat) (p : Periodic.pc)
  | Cleaning (p : Periodic.pc)
  | Publishing (message : V) (ls : list nat).

(** [handed]: the subscribers that [Subscribe] has returned. *)
Record sys := mkSys { hp : list Subscriber; svc : Service; threads : list thread; handed : list nat }.

Inductive choice :=
  | CallSubscribe (name : string)
  | CallPublish (name : string) (message : V)
  | CallClose (l : nat)
  | Receive (l : nat)
  | Fire (id : nat)
  | Run (i : nat).

(** No goroutine holds the read lock. *)
Definition unlocked (s : sys) : bool :=
  forallb (λ t, match t with Publishing _ _ => false | _ => true end) (threads s).

(** One step of [ctask] at [p]; its [Execute] is [Cleanup], which needs the
    lock. *)
Definition ctask_step (p : Periodic.pc) (s : sys) : option (Periodic.flow * Service) :=
  match p with
  | Periodic.CE_exec _ =>
      if unlocked s then
        let '(err, m) := Cleanup (hp s) (subs (svc s)) in
        let '(f, t) := Periodic.Start p err (ctask (svc s)) in
        Some (f, mkService m t)
      else None
  | _ => let '(f, t) := Periodic.Start p None (ctask (svc s)) in Some (f, mkService (subs (svc s)) t)
  end.

Definition set_thread (s : sys) (i : nat) (o : option thread) : list thread :=
  match o with Some t => <[i := t]> (threads s) | None => delete i (threads s) end.

Definition thread_step (i : nat) (t : thread) (s : sys) : option (go sys) :=
  match t with
  | Publishing message [] => Some (Ret (mkSys (hp s) (svc s) (set_thread s i None) (handed s)))
  | Publishing message (l :: ls) =>
      Some (Ret (mkSys (publish_one message (hp s) l) (svc s)
                       (set_thread s i (Some (Publishing message ls))) (handed s)))
  | Cleaning p =>
      '(f, svc') ← ctask_step p s;
      Some (Ret (mkSys (hp s) svc'
        (set_thread s i (match f with Periodic.Goto p' => Some (Cleaning p') | Periodic.Return _ => None end))
        (handed s)))
  | Subscribing l p =>
      '(f, svc') ← ctask_step p s;
      match f with
      | Periodic.Goto p' =>
          Some (Ret (mkSys (hp s) svc' (set_thread s i (Some (Subscribing l p'))) (handed s)))
      | Periodic.Return None => Some (Ret (mkSys (hp s) svc' (set_thread s i None) (handed s ++ [l])))
      | Periodic.Return (Some e) => Some (Panic "nothing to do")
      end
  end.

Definition step (c : choice) (s : sys) : option (go sys) :=
  match c with
  | CallSubscribe name =>
      if unlocked s then
        let '(l, h, m) := Subscribe_add name (hp s) (subs (svc s)) in
        Some (Ret (mkSys h (mkService m (ctask (svc s)))
                     (threads s ++ [Subscribing l Periodic.Start_lock]) (handed s)))
      else None
  | CallPublish name message =>
      Some (Ret (mkSys (hp s) (svc s)
        (threads s ++ [Publishing message (default [] (subs (svc s) !! name))]) (handed s)))
  | CallClose l =>
      if decide (l ∈ handed s) then
        sub ← hp s !! l;
        Some ('(_, sub) ← Subscriber_Close sub;
              Ret (mkSys (<[l := sub]> (hp s)) (svc s) (threads s) (handed s)))
      else None
  | Receive l =>
      if decide (l ∈ handed s) then
        sub ← hp s !! l;
        '(_, sub) ← Wait sub;
        Some (Ret (mkSys (<[l := sub]> (hp s)) (svc s) (threads s) (handed s)))
      else None
  | Fire id =>
      '(p, t) ← Periodic.fire id (ctask (svc s));
      Some (Ret (mkSys (hp s) (mkService (subs (svc s)) t) (threads s ++ [Cleaning p]) (handed s)))
  | Run i => t ← threads s !! i; thread_step i t s
  end.

Definition run : list choice → sys → option (go sys) := run_go step.

Definition init : sys := mkSys [] NewService [] [].

End Service.
Arguments Subscriber V : clear implicits.
Arguments sys V : clear implicits.
Arguments thread V : clear implicits.
Arguments choice V : clear implicits.
End PubSub.
