(* ===== verification/PubSubSpec.v ===== *)
(** * Properties of the publish/subscribe service

    About file [PubSub]: what [Publish] delivers, that [Cleanup] is invisible to
    publishers, and that [Subscribe] never panics, whatever the goroutines. *)
From S2P Require Import Prelude Errors Bytespool IO Buffer MultiBuffer BufIO Pipe Tasks TasksSpec PubSub.

Module PubSubFacts.
Import PubSub.
Section Facts.
Context {V : Type}.
Implicit Types (h : list (Subscriber V)) (m : gmap string (list nat)) (s : sys V).

(** ** Which subscribers are open *)

Lemma is_open_push msg h l l' : is_open (alter (push msg) l h) l' = is_open h l'.
Proof.
  unfold is_open. destruct (decide (l = l')) as [->|Hne].
  - rewrite list_lookup_alter_eq. destruct (h !! l') as [sub|]; [|done]. cbn.
    unfold push. by destruct (_ <? _)%nat.
  - by rewrite list_lookup_alter_ne.
Qed.

Lemma is_open_publish_one msg h l l' : is_open (publish_one msg h l) l' = is_open h l'.
Proof. unfold publish_one. destruct (is_open h l); [apply is_open_push|done]. Qed.

Lemma publish_one_closed msg h l : is_open h l = false → publish_one msg h l = h.
Proof. unfold publish_one. by intros ->. Qed.

(** ** Publish *)

Lemma publish_filter msg ls h h0 :
  (∀ l, is_open h l = is_open h0 l) →
  foldl (publish_one msg) h (filter (λ l, is_open h0 l = true) ls) = foldl (publish_one msg) h ls.
Proof.
  revert h. induction ls as [|l ls IH]; intros h Ho; [done|]. rewrite filter_cons. cbn.
  destruct (decide (is_open h0 l = true)) as [Hl|Hl].
  - cbn. apply IH. intros l'. rewrite is_open_publish_one. apply Ho.
  - rewrite publish_one_closed; [by apply IH|]. rewrite Ho. by apply not_true_is_false.
Qed.

Lemma keep_open_default h ls : default [] (keep_open h ls) = filter (λ l, is_open h l = true) ls.
Proof. unfold keep_open. by destruct (filter _ ls). Qed.

Lemma publish_one_lookup_ne msg h l l' : l ≠ l' → publish_one msg h l !! l' = h !! l'.
Proof. intros Hne. unfold publish_one. destruct (is_open h l); [by apply list_lookup_alter_ne|done]. Qed.

Lemma publish_lookup_notin msg ls h l :
  l ∉ ls → foldl (publish_one msg) h ls !! l = h !! l.
Proof.
  revert h. induction ls as [|l' ls IH]; intros h Hl; [done|]. cbn.
  rewrite elem_of_cons in Hl. rewrite IH by tauto. apply publish_one_lookup_ne. intros ->. tauto.
Qed.

Lemma publish_lookup_in msg ls h l :
  NoDup ls → l ∈ ls →
  foldl (publish_one msg) h ls !! l = (if is_open h l then push msg else id) <$> h !! l.
Proof.
  revert h. induction ls as [|l' ls IH]; intros h Hnd Hl; [inversion Hl|].
  apply NoDup_cons in Hnd as [Hni Hnd]. cbn. apply elem_of_cons in Hl as [->|Hl].
  - rewrite publish_lookup_notin by done. unfold publish_one. destruct (is_open h l').
    + apply list_lookup_alter_eq.
    + by rewrite option_fmap_id.
  - assert (l' ≠ l) as Hne by congruence.
    rewrite IH by done. by rewrite is_open_publish_one, publish_one_lookup_ne.
Qed.

(** ** The invariant of the system *)

Definition registered m (l : nat) : Prop := ∃ name ls, m !! name = Some ls ∧ l ∈ ls.

Definition subscribing (l : nat) (t : thread V) : nat :=
  match t with Subscribing l' _ => if decide (l = l') then 1 else 0 | _ => 0 end.
Definition same (l l' : nat) : nat := if decide (l = l') then 1 else 0.

(** A goroutine in [Subscribe] holds a subscriber that is open and registered,
    and its [Start] has met no error. *)
Definition thread_ok h m (t : thread V) : Prop :=
  match t with
  | Subscribing l p => PeriodicFacts.failing p = false ∧ is_open h l = true ∧ registered m l
  | _ => True
  end.

Record inv s : Prop := Inv {
  inv_owner : ∀ l, (sum_list_with (subscribing l) (threads s) + sum_list_with (same l) (handed s)
                    ≤ if (l <? length (hp s))%nat then 1 else 0)%nat;
  inv_threads : Forall (thread_ok (hp s) (subs (svc s))) (threads s);
  inv_done : Forall (λ sub, Done.c_closed (done sub) = Done.closed (done sub)) (hp s);
  inv_subs : map_Forall (λ _ ls, NoDup ls ∧ Forall (λ l, l < length (hp s))%nat ls) (subs (svc s))
}.

(** What changes of the heap keep. *)
Record heap_le h h' : Prop := HeapLe {
  le_open : ∀ l, is_open h l = true → is_open h' l = true;
  le_length : (length h ≤ length h')%nat
}.

Lemma thread_ok_heap h h' m t : heap_le h h' → thread_ok h m t → thread_ok h' m t.
Proof. intros [Ho _]. destruct t; cbn; [|done..]. intros (? & ? & ?). eauto. Qed.

Lemma thread_ok_subs h m m' t :
  (∀ l, is_open h l = true → registered m l → registered m' l) → thread_ok h m t → thread_ok h m' t.
Proof. intros Hr. destruct t; cbn; [|done..]. intros (? & ? & ?). eauto. Qed.

Lemma registered_cleanup h m l :
  is_open h l = true → registered m l → registered (Cleanup h m).2 l.
Proof.
  intros Ho (name & ls & Hm & Hl). unfold Cleanup. case_decide as He; cbn; [by exists name, ls|].
  exists name, (filter (λ l, is_open h l = true) ls). split.
  - rewrite lookup_omap, Hm. cbn. unfold keep_open. destruct (filter _ ls) eqn:Hf; [|done].
    assert (l ∈ filter (λ l, is_open h l = true) ls) as Hin by (by apply list_elem_of_filter).
    rewrite Hf in Hin. inversion Hin.
  - by apply list_elem_of_filter.
Qed.

Lemma registered_not_empty h m l : registered m l → (Cleanup h m).1 = None.
Proof.
  intros (name & ls & Hm & _). unfold Cleanup. case_decide as He; [|done].
  subst. by rewrite lookup_empty in Hm.
Qed.

Lemma subs_cleanup h m (P : list nat → Prop) :
  (∀ ls, P ls → P (filter (λ l, is_open h l = true) ls)) →
  map_Forall (λ _ ls, P ls) m → map_Forall (λ _ ls, P ls) (Cleanup h m).2.
Proof.
  intros HP Hm. unfold Cleanup. case_decide; cbn; [done|].
  intros name ls Hl. rewrite lookup_omap in Hl. apply bind_Some in Hl as (ls0 & Hl0 & Hk).
  assert (ls = filter (λ l, is_open h l = true) ls0) as ->
    by (rewrite <- keep_open_default, Hk; done).
  apply HP. by eapply Hm.
Qed.

(** ** Steps *)

(** Compute the fields of the states only. *)
Ltac fields := cbn [hp svc subs ctask threads handed].

Lemma handed_not_subscribing s l t :
  inv s → l ∈ handed s → t ∈ threads s → subscribing l t = 0%nat.
Proof.
  intros Hi Hl Ht. apply list_elem_of_lookup in Hl as [i Hl], Ht as [j Ht].
  pose proof (sum_lookup (same l) i l _ Hl) as H1. unfold same in H1 at 1.
  rewrite decide_True in H1 by done. pose proof (sum_lookup (subscribing l) j t _ Ht).
  pose proof (inv_owner s Hi l). destruct (l <? length (hp s))%nat; lia.
Qed.

(** Steps that leave the locations and the threads as they are. *)
Lemma inv_heap s h' :
  inv s → length h' = length (hp s) → Forall (thread_ok h' (subs (svc s))) (threads s) →
  Forall (λ sub, Done.c_closed (done sub) = Done.closed (done sub)) h' →
  inv (mkSys h' (svc s) (threads s) (handed s)).
Proof. intros [Ho Ht Hd Hs] Hl Ht' Hd'. split; fields; rewrite ?Hl; auto. Qed.

Lemma close_ok s l sub :
  inv s → hp s !! l = Some sub →
  ∃ e sub', Subscriber_Close sub = Ret (e, sub') ∧ Done.c_closed (done sub') = Done.closed (done sub').
Proof.
  intros Hi Hl. pose proof (Forall_lookup_1 _ _ _ _ (inv_done s Hi) Hl) as Hd. cbn in Hd.
  unfold Subscriber_Close, Done.Close, Done.close_chan.
  destruct (done sub) as [[] []]; cbn in *; try done; by do 2 eexists.
Qed.

Lemma is_open_insert_ne h l l' sub : l ≠ l' → is_open (<[l:=sub]> h) l' = is_open h l'.
Proof. intros Hne. unfold is_open. by rewrite list_lookup_insert_ne. Qed.

Lemma step_close s l : inv s → safe_outcome inv (step (CallClose l) s).
Proof.
  intros Hi. cbn. case_decide as Hl; [|done]. destruct (hp s !! l) as [sub|] eqn:Hsub; cbn; [|done].
  destruct (close_ok s l sub Hi Hsub) as (e & sub' & -> & Hd). cbn. eexists. split; [done|].
  apply inv_heap; [done|by rewrite length_insert| |].
  - apply Forall_forall. intros t Ht. pose proof (handed_not_subscribing s l t Hi Hl Ht) as Hn.
    pose proof (proj1 (Forall_forall _ _) (inv_threads s Hi) t Ht) as Hok.
    destruct t as [l' p|?|? ?]; cbn in *; [|done..]. destruct Hok as (? & ? & ?).
    destruct (decide (l = l')); [done|]. by rewrite is_open_insert_ne.
  - apply Forall_insert; [apply inv_done|]; done.
Qed.

Lemma step_receive s l : inv s → safe_outcome inv (step (Receive l) s).
Proof.
  intros Hi. cbn. case_decide as Hl; [|done]. destruct (hp s !! l) as [sub|] eqn:Hsub; cbn; [|done].
  unfold Wait. destruct (buffer sub) as [|v b]; cbn; [done|]. eexists. split; [done|].
  pose proof (Forall_lookup_1 _ _ _ _ (inv_done s Hi) Hsub) as Hd.
  apply inv_heap; [done|by rewrite length_insert| |apply Forall_insert; [by apply inv_done|done]].
  eapply Forall_impl; [by apply inv_threads|]. intros t. apply thread_ok_heap. split.
  - intros l'. unfold is_open. destruct (decide (l = l')) as [<-|Hne].
    + rewrite Hsub, list_lookup_insert_eq by (by eapply lookup_lt_Some). done.
    + by rewrite list_lookup_insert_ne.
  - by rewrite length_insert.
Qed.

Lemma publish_one_inv msg s l : inv s → inv (mkSys (publish_one msg (hp s) l) (svc s) (threads s) (handed s)).
Proof.
  intros Hi. unfold publish_one. destruct (is_open (hp s) l) eqn:Ho; [|by destruct s].
  apply inv_heap; [done|by rewrite length_alter| |].
  - eapply Forall_impl; [by apply inv_threads|]. intros t. apply thread_ok_heap. split.
    + intros l'. by rewrite is_open_push.
    + by rewrite length_alter.
  - apply Forall_alter; [by apply inv_done|]. intros sub _ Hd. unfold push. by destruct (_ <? _)%nat.
Qed.

(** A thread replaced by one that owns no other subscriber, or removed. *)
Lemma inv_set_thread s i t t' :
  inv s → threads s !! i = Some t → (∀ l, subscribing l t' ≤ subscribing l t)%nat →
  thread_ok (hp s) (subs (svc s)) t' →
  inv (mkSys (hp s) (svc s) (<[i := t']> (threads s)) (handed s)).
Proof.
  intros [Ho Ht Hd Hs] Hi Hle Hok. split; fields; auto; [|by apply Forall_insert].
  intros l. pose proof (sum_insert (subscribing l) i t t' _ Hi). specialize (Hle l). specialize (Ho l). lia.
Qed.

Lemma inv_delete_thread s i t : inv s → threads s !! i = Some t →
  inv (mkSys (hp s) (svc s) (delete i (threads s)) (handed s)).
Proof.
  intros [Ho Ht Hd Hs] Hi. split; fields; auto; [|by apply Forall_delete].
  intros l. pose proof (sum_delete (subscribing l) i t _ Hi). specialize (Ho l). lia.
Qed.

Lemma inv_hand_over s i l p : inv s → threads s !! i = Some (Subscribing l p) →
  inv (mkSys (hp s) (svc s) (delete i (threads s)) (handed s ++ [l])).
Proof.
  intros [Ho Ht Hd Hs] Hi. split; fields; auto; [|by apply Forall_delete].
  intros l'. pose proof (sum_delete (subscribing l') i _ _ Hi) as Hdel. specialize (Ho l').
  rewrite sum_app. simpl in *. unfold same at 2. lia.
Qed.

Lemma inv_svc s m t :
  inv s → m = subs (svc s) ∨ m = (Cleanup (hp s) (subs (svc s))).2 →
  inv (mkSys (hp s) (mkService m t) (threads s) (handed s)).
Proof.
  intros [Ho Ht Hd Hs] [-> | ->]; split; fields; auto.
  - eapply Forall_impl; [done|]. intros th. apply thread_ok_subs. intros l. apply registered_cleanup.
  - apply (subs_cleanup _ _ (λ ls, NoDup ls ∧ Forall (λ l, l < length (hp s))%nat ls)); [|done].
    intros ls [? ?]. split; [by apply NoDup_filter|]. apply Forall_forall. intros l [_ Hl]%list_elem_of_filter. rewrite Forall_forall in *. auto.
Qed.

Lemma ctask_step_inv p s f svc' :
  ctask_step p s = Some (f, svc') →
  (subs svc' = subs (svc s) ∨ subs svc' = (Cleanup (hp s) (subs (svc s))).2) ∧
  ∃ t err, Periodic.Start p err (ctask (svc s)) = (f, t) ∧
    (err = None ∨ err = (Cleanup (hp s) (subs (svc s))).1).
Proof.
  intros Hs. assert (∀ t, (let '(f, t) := Periodic.Start p None (ctask (svc s)) in
      Some (f, mkService (subs (svc s)) t)) = Some (f, t) → t = svc' →
    (subs svc' = subs (svc s) ∨ subs svc' = (Cleanup (hp s) (subs (svc s))).2) ∧
    ∃ t err, Periodic.Start p err (ctask (svc s)) = (f, t) ∧
      (err = None ∨ err = (Cleanup (hp s) (subs (svc s))).1)) as Hother.
  { intros t Ht ->. destruct (Periodic.Start p None (ctask (svc s))) as [f' t'] eqn:Hst.
    simplify_eq. split; [by left|]. exists t', None. auto. }
  destruct p as [|b|b|b e|b|e]; unfold ctask_step in Hs; try (by eapply Hother).
  destruct (unlocked s); [|done].
  destruct (Cleanup (hp s) (subs (svc s))) as [err m] eqn:Hc.
  destruct (Periodic.Start _ err _) as [f' t'] eqn:Hst. simplify_eq. cbn [subs fst snd]. split; [by right|]. exists t', err. auto.
Qed.

Lemma step_run s i : inv s → safe_outcome inv (step (Run i) s).
Proof.
  intros Hi. cbn. destruct (threads s !! i) as [t|] eqn:Hti; cbn; [|done].
  destruct t as [l p|p|msg [|l ls]]; unfold thread_step.
  - destruct (ctask_step p s) as [[f [m ct]]|] eqn:Hc; cbn [mbind option_bind]; [|done].
    apply ctask_step_inv in Hc as (Hm & ct' & err & Hst & Herr).
    pose proof (Forall_lookup_1 _ _ _ _ (inv_threads s Hi) Hti) as (Hp & Hop & Hreg).
    assert (err = None) as -> by (destruct Herr as [->| ->]; [done|by eapply registered_not_empty]).
    pose proof (ActivityFacts.start_not_failing _ _ _ _ Hst Hp) as Hf.
    pose proof (inv_svc s m ct Hi Hm) as Hi'.
    destruct f as [p'|e]; [|subst e]; (eexists; split; [reflexivity|]); unfold set_thread.
    + apply (inv_set_thread _ i (Subscribing l p) (Subscribing l p') Hi' Hti); [done|].
      pose proof (Forall_lookup_1 _ _ _ _ (inv_threads _ Hi') Hti) as (_ & ? & ?). done.
    + exact (inv_hand_over _ i l p Hi' Hti).
  - destruct (ctask_step p s) as [[f [m ct]]|] eqn:Hc; cbn [mbind option_bind]; [|done].
    apply ctask_step_inv in Hc as (Hm & _). pose proof (inv_svc s m ct Hi Hm) as Hi'.
    eexists. split; [reflexivity|]. unfold set_thread. destruct f as [p'|e].
    + by apply (inv_set_thread _ i (Cleaning p) (Cleaning p') Hi' Hti).
    + by apply (inv_delete_thread _ i (Cleaning p) Hi' Hti).
  - eexists. split; [reflexivity|]. by eapply inv_delete_thread.
  - eexists. split; [reflexivity|].
    by apply (inv_set_thread _ i (Publishing msg (l :: ls)) (Publishing msg ls) (publish_one_inv msg s l Hi) Hti).
Qed.

Lemma inv_new_thread s t : inv s → (∀ l, subscribing l t = 0%nat) → thread_ok (hp s) (subs (svc s)) t →
  inv (mkSys (hp s) (svc s) (threads s ++ [t]) (handed s)).
Proof.
  intros [Ho Ht Hd Hs] Hn Hok. split; fields; auto.
  - intros l. rewrite sum_app. simpl. rewrite Hn. specialize (Ho l). lia.
  - apply Forall_app_2; [done|]. by apply Forall_singleton.
Qed.

Lemma registered_insert m name ls l l' :
  registered m l → registered (<[name := default [] (m !! name) ++ ls]> m) l ∧
  (l' ∈ ls → registered (<[name := default [] (m !! name) ++ ls]> m) l').
Proof.
  intros (n & k & Hn & Hl). split.
  - destruct (decide (n = name)) as [->|Hne].
    + exists name, (k ++ ls). rewrite lookup_insert_eq, Hn. split; [done|]. apply elem_of_app. by left.
    + exists n, k. by rewrite lookup_insert_ne.
  - intros Hl'. eexists name, _. rewrite lookup_insert_eq. split; [done|]. apply elem_of_app. by right.
Qed.

Lemma step_subscribe s name : inv s → safe_outcome inv (step (CallSubscribe name) s).
Proof.
  intros Hi. cbn. destruct (unlocked s); [|done]. eexists. split; [reflexivity|].
  assert (heap_le (hp s) (hp s ++ [new_subscriber])) as Hle.
  { split; [|rewrite length_app; lia]. intros l. unfold is_open.
    destruct (hp s !! l) as [sub|] eqn:Hl; [|done].
    rewrite lookup_app_l by (by eapply lookup_lt_Some). by rewrite Hl. }
  destruct Hi as [Ho Ht Hd Hs]. split; fields.
  - intros l. rewrite sum_app, length_app. simpl. specialize (Ho l).
    destruct (decide (l = length (hp s))) as [->|Hne].
    + rewrite Nat.ltb_irrefl in Ho. rewrite (proj2 (Nat.ltb_lt _ _)) by lia. lia.
    + destruct (l <? length (hp s))%nat eqn:Hlt; [|lia].
      apply Nat.ltb_lt in Hlt. rewrite (proj2 (Nat.ltb_lt _ _)) by lia. lia.
  - apply Forall_app_2.
    + eapply Forall_impl; [done|]. intros t Hok. eapply thread_ok_heap; [done|].
      revert Hok. apply thread_ok_subs. intros l _ Hr. by apply (registered_insert _ _ _ _ 0).
    + apply Forall_singleton. cbn. split; [done|]. split.
      * unfold is_open. by rewrite list_lookup_middle.
      * eexists name, _. rewrite lookup_insert_eq. split; [done|]. apply elem_of_app. right. by left.
  - apply Forall_app_2; [done|]. by apply Forall_singleton.
  - assert (∀ ls, Forall (λ l, l < length (hp s))%nat ls →
              Forall (λ l, l < length (hp s ++ [new_subscriber]))%nat ls) as Hmono.
    { intros ls Hf. eapply Forall_impl; [done|]. cbn. intros l. rewrite length_app. lia. }
    apply map_Forall_insert_2; [|intros n ls Hn; destruct (Hs n ls Hn); auto].
    assert (NoDup (default [] (subs (svc s) !! name)) ∧
            Forall (λ l, l < length (hp s))%nat (default [] (subs (svc s) !! name))) as [Hnd Hf].
    { destruct (subs (svc s) !! name) as [ls|] eqn:Hn; [by apply (Hs name)|by repeat constructor]. }
    split.
    + apply NoDup_app. split; [done|]. split; [|apply NoDup_singleton].
      intros l Hl [->|Hx]%elem_of_cons; [|inversion Hx].
      pose proof (proj1 (Forall_forall _ _) Hf _ Hl). cbn in *. lia.
    + apply Forall_app_2; [by apply Hmono|]. apply Forall_singleton. rewrite length_app. cbn. lia.
Qed.

Lemma step_safe c s : inv s → safe_outcome inv (step c s).
Proof.
  intros Hi. destruct c as [name|name msg|l|l|id|i].
  - by apply step_subscribe.
  - eexists. split; [reflexivity|]. by apply inv_new_thread.
  - by apply step_close.
  - by apply step_receive.
  - cbn. unfold Periodic.fire. case_decide; cbn; [|done]. eexists. split; [reflexivity|].
    by apply (inv_new_thread (mkSys (hp s) _ (threads s) (handed s))); [apply inv_svc; auto|..].
  - by apply step_run.
Qed.

Lemma init_inv : inv (@init V).
Proof. split; simpl; [intros l; lia|constructor|constructor|apply map_Forall_empty]. Qed.

Lemma run_safe cs : safe_outcome inv (run cs (@init V)).
Proof. apply run_go_inv; [apply step_safe|apply init_inv]. Qed.

End Facts.
End PubSubFacts.

Section PubSubTheorems.
Import PubSub PubSubFacts.
Context {V : Type}.

(** However goroutines subscribe, publish, receive and close, and whenever the
    cleaning task runs, no call panics; in particular the first cleaning, which
    [Subscribe] runs and whose error it would panic on, always finds the new
    subscriber registered. *)
Theorem pubsub_never_panics (cs : list (choice V)) r :
  run cs init = Some r → ∃ s, r = Ret s.
Proof. intros Hr. pose proof (run_safe cs) as Hs. rewrite Hr in Hs. destruct Hs as (s & -> & _). eauto. Qed.


(** [Cleanup] forgets exactly the subscribers that are closed, and no publisher
    can tell whether it has run. *)
Theorem pubsub_cleanup_invisible (h : list (Subscriber V)) m name message :
  (∀ l, registered (Cleanup h m).2 l ↔ registered m l ∧ is_open h l = true) ∧
  Publish name message h (Cleanup h m).2 = Publish name message h m.
Proof.
  assert (∀ n, default [] ((Cleanup h m).2 !! n) =
     filter (λ l, is_open h l = true) (default [] (m !! n))) as Hdef.
  { intros n. unfold Cleanup. case_decide as He; cbn.
    - subst. by rewrite lookup_empty.
    - rewrite lookup_omap. destruct (m !! n) as [ls|]; [apply keep_open_default|done]. }
  split.
  - intros l. split; [|intros [? ?]; by apply registered_cleanup].
    intros (n & ls & Hn & Hl). specialize (Hdef n). rewrite Hn in Hdef. cbn in Hdef. subst ls.
    apply list_elem_of_filter in Hl as [Ho Hl]. split; [|done].
    destruct (m !! n) as [ls|] eqn:Hm; [by exists n, ls|inversion Hl].
  - unfold Publish. rewrite Hdef. by apply publish_filter.
Qed.
End PubSubTheorems.

Lemma pubsub_never_panics_witness :
  ∃ s, PubSub.run (V := Z) [PubSub.CallSubscribe "a"; PubSub.Run 0; PubSub.Run 0; PubSub.Run 0]
         PubSub.init = Some (Ret s).
Proof.
  destruct (pubsub_never_panics (V := Z)
    [PubSub.CallSubscribe "a"; PubSub.Run 0; PubSub.Run 0; PubSub.Run 0] _ eq_refl) as (s & Hs).
  exists s. rewrite <- Hs. reflexivity.
Defined.


(** A timer's cleaning that fails for want of subscribers clears [running] after
    a [Subscribe] has seen it set: a subscriber is registered and no cleaning
    is under way or due. *)
Theorem pubsub_cleaning_may_stop :
  ∃ cs s, PubSub.run (V := Z) cs PubSub.init = Some (Ret s) ∧
    PubSub.subs (PubSub.svc s) !! "b" = Some [1%nat] ∧ PubSub.threads s = [] ∧
    Periodic.running (PubSub.ctask (PubSub.svc s)) = false ∧
    Periodic.armed (PubSub.ctask (PubSub.svc s)) = [].
Proof.
  exists [PubSub.CallSubscribe "a"; PubSub.Run 0; PubSub.Run 0; PubSub.Run 0; PubSub.Run 0;
          PubSub.CallClose 0; PubSub.Fire 0; PubSub.Run 0; PubSub.Run 0; PubSub.Run 0;
          PubSub.Fire 1; PubSub.Run 0; PubSub.Run 0; PubSub.CallSubscribe "b"; PubSub.Run 1; PubSub.Run 0].
  eexists. split; [vm_compute; reflexivity|]. by split_and!.
Qed.
