(* ===== verification/HttpText.v ===== *)
(** * HTTP messages and the options of the HTTP client

    The data the client of http/client works on, and the functions that read or
    build it: context.go, dialoptions.go, the request functions of
    client_conn.go, and the text helpers of http2.go and fetcher.go.  Of the
    standard library: [http.Header], [http.StatusText], [url.URL.RequestURI],
    [strings.ToLower], [strings.Contains] and [strconv.FormatInt].  Texts are
    byte lists; letters outside ASCII are left as they are by [ToLower]. *)
From S2P Require Import Prelude Errors NetAddr NetText Bytespool IO Wire Http2Frames TcpClient.

(** ** Text *)

Definition is_upper (c : Z) : bool := (65 <=? c) && (c <=? 90).
Definition is_lower (c : Z) : bool := (97 <=? c) && (c <=? 122).
Definition lower (c : Z) : Z := if is_upper c then c + 32 else c.
Definition upper (c : Z) : Z := if is_lower c then c - 32 else c.

(** [strings.ToLower] *)
Definition ToLower (s : bytes) : bytes := lower <$> s.

(** [strings.Contains] *)
Fixpoint Contains (s sub : bytes) : bool :=
  HasPrefix s sub || match s with [] => false | _ :: s' => Contains s' sub end.

(** [strings.Split] at a character. *)
Fixpoint Split (sep : Z) (s : bytes) : list bytes :=
  match s with
  | [] => [[]]
  | c :: s' =>
      if c =? sep then [] :: Split sep s'
      else match Split sep s' with
           | w :: ws => (c :: w) :: ws
           | [] => [[c]]
           end
  end.

(** [strconv.FormatInt(n, 10)] and [%d] *)
Definition FormatInt (n : Z) : bytes := if n <? 0 then 45 :: Itoa (- n) else Itoa n.

(** ** http.Header *)

Abbreviation Header := (gmap (list Z) (list (list Z))).

(** The bytes of a token (RFC 7230). *)
Definition validHeaderFieldByte (c : Z) : bool :=
  is_digit c || is_upper c || is_lower c ||
  existsb (Z.eqb c) [33; 35; 36; 37; 38; 39; 42; 43; 45; 46; 94; 95; 96; 124; 126].

(** A letter is in upper case at the beginning and after a dash. *)
Fixpoint canonical_loop (up : bool) (s : bytes) : bytes :=
  match s with
  | [] => []
  | c :: s' => (if up then upper c else lower c) :: canonical_loop (c =? 45) s'
  end.

Definition CanonicalMIMEHeaderKey (s : bytes) : bytes :=
  if forallb validHeaderFieldByte s then canonical_loop true s else s.

Definition Header_Add (h : Header) (key value : bytes) : Header :=
  let k := CanonicalMIMEHeaderKey key in <[k := default [] (h !! k) ++ [value]]> h.

Definition Header_Set (h : Header) (key value : bytes) : Header :=
  <[CanonicalMIMEHeaderKey key := [value]]> h.

Definition Header_Get (h : Header) (key : bytes) : bytes :=
  match h !! CanonicalMIMEHeaderKey key with
  | Some (v :: _) => v
  | _ => []
  end.

(** ** Requests and responses *)

(** The parts of a [*url.URL] that [RequestURI] and the client read;
    [EscapedPath()] is given. *)
Record ReqURL := mkReqURL {
  Scheme : bytes; Opaque : bytes; URLHost : bytes; EscapedPath : bytes; ForceQuery : bool; RawQuery : bytes
}.

Definition RequestURI (u : ReqURL) : bytes :=
  let result :=
    match Opaque u with
    | [] => match EscapedPath u with [] => str "/" | p => p end
    | o => if HasPrefix o (str "//") then Scheme u ++ str ":" ++ o else o
    end in
  if ForceQuery u || negb (bool_decide (RawQuery u = [])) then result ++ str "?" ++ RawQuery u else result.

(** A body: nil, [http.NoBody], or a reader with what [io.ReadAll] makes of it. *)
Inductive Body := NilBody | NoBody | ReaderBody (all : bytes + error).

Record Request := mkRequest {
  Method : bytes; RURL : option ReqURL; Host : bytes; RHeader : Header; RBody : Body; RContentLength : Z
}.

Record Response := mkResponse {
  Status : bytes; StatusCode : Z; Proto : bytes; ProtoMajor : Z; ProtoMinor : Z;
  PHeader : Header; Trailer : Header; PBody : bytes; ContentLength : Z
}.

(** [http.StatusText] *)
Definition status_table : list (Z * string) :=
  [(100, "Continue"); (101, "Switching Protocols"); (102, "Processing"); (103, "Early Hints");
   (200, "OK"); (201, "Created"); (202, "Accepted"); (203, "Non-Authoritative Information");
   (204, "No Content"); (205, "Reset Content"); (206, "Partial Content"); (207, "Multi-Status");
   (208, "Already Reported"); (226, "IM Used");
   (300, "Multiple Choices"); (301, "Moved Permanently"); (302, "Found"); (303, "See Other");
   (304, "Not Modified"); (305, "Use Proxy"); (307, "Temporary Redirect"); (308, "Permanent Redirect");
   (400, "Bad Request"); (401, "Unauthorized"); (402, "Payment Required"); (403, "Forbidden");
   (404, "Not Found"); (405, "Method Not Allowed"); (406, "Not Acceptable");
   (407, "Proxy Authentication Required"); (408, "Request Timeout"); (409, "Conflict"); (410, "Gone");
   (411, "Length Required"); (412, "Precondition Failed"); (413, "Request Entity Too Large");
   (414, "Request URI Too Long"); (415, "Unsupported Media Type");
   (416, "Requested Range Not Satisfiable"); (417, "Expectation Failed"); (418, "I'm a teapot");
   (421, "Misdirected Request"); (422, "Unprocessable Entity"); (423, "Locked");
   (424, "Failed Dependency"); (425, "Too Early"); (426, "Upgrade Required");
   (428, "Precondition Required"); (429, "Too Many Requests");
   (431, "Request Header Fields Too Large"); (451, "Unavailable For Legal Reasons");
   (500, "Internal Server Error"); (501, "Not Implemented"); (502, "Bad Gateway");
   (503, "Service Unavailable"); (504, "Gateway Timeout"); (505, "HTTP Version Not Supported");
   (506, "Variant Also Negotiates"); (507, "Insufficient Storage"); (508, "Loop Detected");
   (510, "Not Extended"); (511, "Network Authentication Required")].

Definition StatusText (code : Z) : bytes :=
  match list_find (λ e, e.1 = code) status_table with
  | Some (_, (_, t)) => str t
  | None => []
  end.

Definition validateRequest (req : Request) : option error :=
  match RURL req with
  | None => Some (Errorf "request URL is nil" None)
  | Some _ => if bool_decide (Method req = []) then Some (Errorf "request method is empty" None) else None
  end.

(** The order in which the header map is visited is not specified; it is the
    one of [map_to_list] here. *)
Definition createHeaderFields (req : Request) (u : ReqURL) : list HeaderField :=
  let scheme := match Scheme u with [] => str "https" | s => s end in
  let authority := match Host req with [] => URLHost u | h => h end in
  [mkHeaderField (str ":method") (Method req);
   mkHeaderField (str ":scheme") scheme;
   mkHeaderField (str ":authority") authority;
   mkHeaderField (str ":path") (RequestURI u)] ++
  concat (map (λ e, map (λ value, mkHeaderField (ToLower e.1) (ToLower value)) e.2)
              (map_to_list (RHeader req))).

(** ** context.go *)

Inductive HttpProtocol := Unknown | HTTP2 | HTTP1 | HTTP10 | HTTP11 | WebSocket.

#[global] Instance HttpProtocol_eq_dec : EqDecision HttpProtocol.
Proof. solve_decision. Defined.

Definition HttpProtocol_String (hp : HttpProtocol) : string :=
  match hp with
  | HTTP2 => "HTTP2"
  | HTTP1 => "HTTP1"
  | HTTP10 => "HTTP10"
  | HTTP11 => "HTTP11"
  | WebSocket => "WebSocket"
  | Unknown => "Unknown"
  end.

Inductive contextKey := protocolCtxKey | verboseCtxKey | upgradeCtxKey | gorillaCtxKey | insecureCtxKey.

#[global] Instance contextKey_eq_dec : EqDecision contextKey.
Proof. solve_decision. Defined.

Inductive ctxValue := CtxProtocol (p : HttpProtocol) | CtxBool (b : bool).

(** A context is the chain of the values set on it, the newest first. *)
Definition context : Type := list (contextKey * ctxValue).
Definition WithValue (ctx : context) (k : contextKey) (v : ctxValue) : context := (k, v) :: ctx.
Definition Value (ctx : context) (k : contextKey) : option ctxValue :=
  (λ e, e.2.2) <$> list_find (λ e, e.1 = k) ctx.

Definition WithProtocol (ctx : context) (p : HttpProtocol) := WithValue ctx protocolCtxKey (CtxProtocol p).
Definition WithVerbose (ctx : context) := WithValue ctx verboseCtxKey (CtxBool true).
Definition WithUpgrade (ctx : context) := WithValue ctx upgradeCtxKey (CtxBool true).
Definition WithGorilla (ctx : context) := WithValue ctx gorillaCtxKey (CtxBool true).
Definition WithInsecure (ctx : context) := WithValue ctx insecureCtxKey (CtxBool true).

Definition ProtocolFromContext (ctx : context) : HttpProtocol :=
  match Value ctx protocolCtxKey with Some (CtxProtocol p) => p | _ => Unknown end.
Definition bool_value (ctx : context) (k : contextKey) : bool :=
  match Value ctx k with Some (CtxBool _) => true | _ => false end.
Definition VerboseFromContext (ctx : context) : bool := bool_value ctx verboseCtxKey.
Definition UpgradeFromContext (ctx : context) : bool := bool_value ctx upgradeCtxKey.
Definition GorillaFromContext (ctx : context) : bool := bool_value ctx gorillaCtxKey.
Definition InsecureFromContext (ctx : context) : bool := bool_value ctx insecureCtxKey.

(** ** dialoptions.go *)

(** [net.Conn] is any type of connections. *)
Record dialOptions (C : Type) := mkDialOptions {
  useTLS : bool; sendPreface : bool; h2cUpgrade : bool; timeout : Z; verbose : bool; conn : option C
}.
Arguments mkDialOptions {C}.
Arguments useTLS {C}.
Arguments sendPreface {C}.
Arguments h2cUpgrade {C}.
Arguments timeout {C}.
Arguments verbose {C}.
Arguments conn {C}.

Section DialOptions.
Context {C : Type}.

Definition DialOption : Type := dialOptions C → dialOptions C.

Definition defaultDialOptions : dialOptions C := mkDialOptions false true false (30 * 1000000000) false None.

Definition WithTLS : DialOption := λ o,
  mkDialOptions true (sendPreface o) (h2cUpgrade o) (timeout o) (verbose o) (conn o).
Definition DisableSendPreface : DialOption := λ o,
  mkDialOptions (useTLS o) false (h2cUpgrade o) (timeout o) (verbose o) (conn o).
Definition WithH2CUpgrade : DialOption := λ o,
  mkDialOptions (useTLS o) (sendPreface o) true (timeout o) (verbose o) (conn o).
Definition WithTimeout (t : Z) : DialOption := λ o,
  mkDialOptions (useTLS o) (sendPreface o) (h2cUpgrade o) t (verbose o) (conn o).
Definition WithConn (c : C) : DialOption := λ o,
  mkDialOptions (useTLS o) (sendPreface o) (h2cUpgrade o) (timeout o) (verbose o) (Some c).
Definition withVerbose : DialOption := λ o,
  mkDialOptions (useTLS o) (sendPreface o) (h2cUpgrade o) (timeout o) true (conn o).

Definition evaluateOptions (opts : list DialOption) : dialOptions C :=
  foldl (λ o opt, opt o) defaultDialOptions opts.
End DialOptions.

(** ** Helpers of http2.go and fetcher.go *)

Definition outgoingLength (r : Request) : Z :=
  match RBody r with
  | NilBody | NoBody => 0
  | ReaderBody _ => if negb (RContentLength r =? 0) then RContentLength r else -1
  end.

(** [host[:j] + host[i:]], for the last ["]"] of a bracketed host and the last
    ["%"] before it. *)
Definition removeZone (host : bytes) : bytes :=
  if negb (HasPrefix host (str "[")) then host
  else
    match LastIndexByte 93 host with
    | None => host
    | Some i =>
        match LastIndexByte 37 (take i host) with
        | None => host
        | Some j => take j host ++ drop i host
        end
    end.

Definition valueOrDefault (value def : bytes) : bytes := match value with [] => def | _ => value end.

Definition hasPort (host : bytes) : bool :=
  match SplitHostPort host with (_, _, None) => true | _ => false end.

(** The address [dialConn] dials. *)
Definition dial_address (addr : bytes) (tls : bool) : bytes :=
  if tls then (if negb (hasPort addr) then addr ++ str ":443" else addr)
  else (if negb (hasPort addr) then addr ++ str ":80" else addr).
