(* ===== verification/HttpConn.v ===== *)
(** * The HTTP/2 connection of the HTTP client

    http/client/client_conn.go.

    A connection is shared by the goroutines that run [do] and [isValid], by the
    read loop, by the goroutine of the callback serializer, through which all
    frames but the first SETTINGS are written, and by the goroutine in
    [dialContext].  The handlers of received frames come first, as functions on
    the connection; then the goroutines, each at a program point, and the
    system of their interleavings.

    The [*http2.Framer] is of golang.org/x/net: a choice of the system says what
    a read returns and whether a write fails; [written] lists the frames that
    were written.  HPACK (of the same module) is a parameter.  Streams and the
    channels of pings are shared, so they live in heaps. *)
From S2P Require Import Prelude Errors NetAddr NetText Bytespool IO Wire Http2Frames TcpClient Http2Client HttpText.

Module HttpConn.

(** ** Data *)

(** [s_done]: [doneCh] is closed; [doneOnce] makes closing idempotent. *)
Record clientStream := mkStream {
  s_streamId : Z;
  s_statusCode : Z;
  s_responseHeaders : Header;
  s_payload : bytes;
  s_trailers : Header;
  s_done : bool;
  s_sse : bool
}.

Definition new_stream (streamId : Z) : clientStream := mkStream streamId 0 ∅ [] ∅ false false.

Definition with_status (cs : clientStream) (code : Z) : clientStream :=
  mkStream (s_streamId cs) code (s_responseHeaders cs) (s_payload cs) (s_trailers cs) (s_done cs) (s_sse cs).
Definition with_headers (cs : clientStream) (h : Header) : clientStream :=
  mkStream (s_streamId cs) (s_statusCode cs) h (s_payload cs) (s_trailers cs) (s_done cs) (s_sse cs).
Definition with_payload (cs : clientStream) (p : bytes) : clientStream :=
  mkStream (s_streamId cs) (s_statusCode cs) (s_responseHeaders cs) p (s_trailers cs) (s_done cs) (s_sse cs).
Definition with_trailers (cs : clientStream) (h : Header) : clientStream :=
  mkStream (s_streamId cs) (s_statusCode cs) (s_responseHeaders cs) (s_payload cs) h (s_done cs) (s_sse cs).
Definition with_sse (cs : clientStream) (b : bool) : clientStream :=
  mkStream (s_streamId cs) (s_statusCode cs) (s_responseHeaders cs) (s_payload cs) (s_trailers cs) (s_done cs) b.

(** [cs.done()] *)
Definition done (cs : clientStream) : clientStream :=
  mkStream (s_streamId cs) (s_statusCode cs) (s_responseHeaders cs) (s_payload cs) (s_trailers cs) true (s_sse cs).

(** A channel of capacity one of a ping. *)
Record pingChan := mkPingChan { pc_val : option Z; pc_closed : bool }.

(** Frames the client writes. *)
Inductive wframe :=
  | WHeaders (sid : Z) (block : bytes) (endStream : bool)
  | WData (sid : Z) (endStream : bool) (data : bytes)
  | WPing (ack : bool) (data : bytes)
  | WSettings (settings : list (Z * Z))
  | WSettingsAck
  | WPreface.

Section Conn.
Context {D E : Type}.
Context (DecodeFull : D → bytes → (list HeaderField + error) * D).
Context (EncodeFields : E → list HeaderField → bytes * E).

Record clientConn := mkConn {
  closed : bool;
  ctx_done : bool;                   (** the connection's own context is cancelled *)
  conn_open : bool;
  streamIdGen : Z;
  clientStreams : gmap Z nat;
  heap : list clientStream;
  maxConcurrentStreams : Z;
  ackClosed : bool;                  (** [settingsAcked] is closed *)
  pingRequests : gmap Z nat;
  pings : list pingChan;
  nextRequest : Z;
  encoder : E;
  decoder : D;
  written : list wframe
}.

Definition with_closed c b d o := mkConn b d o (streamIdGen c) (clientStreams c) (heap c)
  (maxConcurrentStreams c) (ackClosed c) (pingRequests c) (pings c) (nextRequest c) (encoder c) (decoder c) (written c).
Definition with_streams c h m := mkConn (closed c) (ctx_done c) (conn_open c) (streamIdGen c) m h
  (maxConcurrentStreams c) (ackClosed c) (pingRequests c) (pings c) (nextRequest c) (encoder c) (decoder c) (written c).
Definition with_decoder c d := mkConn (closed c) (ctx_done c) (conn_open c) (streamIdGen c) (clientStreams c) (heap c)
  (maxConcurrentStreams c) (ackClosed c) (pingRequests c) (pings c) (nextRequest c) (encoder c) d (written c).
Definition with_settings c m a := mkConn (closed c) (ctx_done c) (conn_open c) (streamIdGen c) (clientStreams c) (heap c)
  m a (pingRequests c) (pings c) (nextRequest c) (encoder c) (decoder c) (written c).
Definition with_pings c m p n := mkConn (closed c) (ctx_done c) (conn_open c) (streamIdGen c) (clientStreams c) (heap c)
  (maxConcurrentStreams c) (ackClosed c) m p n (encoder c) (decoder c) (written c).
Definition with_written c w := mkConn (closed c) (ctx_done c) (conn_open c) (streamIdGen c) (clientStreams c) (heap c)
  (maxConcurrentStreams c) (ackClosed c) (pingRequests c) (pings c) (nextRequest c) (encoder c) (decoder c) w.
Definition with_encoder c g e := mkConn (closed c) (ctx_done c) (conn_open c) g (clientStreams c) (heap c)
  (maxConcurrentStreams c) (ackClosed c) (pingRequests c) (pings c) (nextRequest c) e (decoder c) (written c).

(** [c.cancel()] *)
Definition cancel (c : clientConn) : clientConn := with_closed c (closed c) true (conn_open c).

Definition Close (c : clientConn) : clientConn :=
  if closed c then c else with_closed c true true false.

(** [c.clientStreams.Load(id)] *)
Definition load_stream (c : clientConn) (id : Z) : option (nat * clientStream) :=
  l ← clientStreams c !! id; cs ← heap c !! l; Some (l, cs).
Definition store_at (c : clientConn) (l : nat) (cs : clientStream) : clientConn :=
  with_streams c (<[l := cs]> (heap c)) (clientStreams c).
Definition delete_stream (c : clientConn) (id : Z) : clientConn :=
  with_streams c (heap c) (delete id (clientStreams c)).

(** ** Frames received *)

Definition processDataFrame (sid : Z) (data : bytes) (ended : bool) (c : clientConn) : clientConn :=
  match load_stream c sid with
  | None => c
  | Some (l, cs) =>
      let cs := if s_sse cs then cs else with_payload cs (s_payload cs ++ data) in
      store_at c l (if ended then done cs else cs)
  end.

Definition set_status (cs : clientStream) (hf : HeaderField) : clientStream :=
  if bool_decide (hf_Name hf = str ":status") then
    match Atoi (hf_Value hf) with Some code => with_status cs code | None => cs end
  else cs.

Definition apply_trailer (cs : clientStream) (hf : HeaderField) : clientStream :=
  set_status (with_trailers cs (Header_Add (s_trailers cs) (hf_Name hf) (hf_Value hf))) hf.

Definition apply_header (cs : clientStream) (hf : HeaderField) : clientStream :=
  let cs := set_status (with_headers cs (Header_Add (s_responseHeaders cs) (hf_Name hf) (hf_Value hf))) hf in
  if bool_decide (hf_Name hf = str "content-type") && bool_decide (hf_Value hf = str "text/event-stream")
  then (if s_sse cs then cs else with_sse cs true) else cs.

Definition processHeaderFrame (sid : Z) (fragment : bytes) (ended : bool) (c : clientConn)
  : option error * clientConn :=
  match load_stream c sid with
  | None => (None, c)
  | Some (l, cs) =>
      match DecodeFull (decoder c) fragment with
      | (inr err, d) => (Some (Errorf "Failed to decode headers" (Some err)), with_decoder c d)
      | (inl headers, d) =>
          let cs := if ended then done (foldl apply_trailer cs headers) else foldl apply_header cs headers in
          (None, store_at (with_decoder c d) l cs)
      end
  end.

(** Two [Add]s to the trailers. *)
Definition add_grpc_status (cs : clientStream) (code : Z) (message : bytes) : clientStream :=
  with_trailers cs (Header_Add (Header_Add (s_trailers cs) (str "grpc-status") (FormatInt code))
                               (str "grpc-message") message).

Definition processRSTStreamFrame (sid code : Z) (c : clientConn) : clientConn :=
  match load_stream c sid with
  | None => c
  | Some (l, cs) => store_at c l (done (add_grpc_status cs code (str "stream reset by server")))
  end.

(** The callback of [Range], over the entries it visits. *)
Fixpoint goaway_range (entries : list (Z * nat)) (code : Z) (debug : bytes) (c : clientConn) : clientConn :=
  match entries with
  | [] => c
  | (_, l) :: entries' =>
      match heap c !! l with
      | None => goaway_range entries' code debug c
      | Some cs =>
          let c := delete_stream c (s_streamId cs) in
          goaway_range entries' code debug (store_at c l (done (add_grpc_status cs code debug)))
      end
  end.

Definition processGoAwayFrame (code : Z) (debug : bytes) (c : clientConn) : clientConn :=
  Close (goaway_range (map_to_list (clientStreams c)) code debug c).

(** ** Pings *)

(** [binary.BigEndian.PutUint64] and [Uint64] *)
Definition be_PutUint64 (v : Z) : bytes :=
  (λ k, u8 (Z.shiftr v k)) <$> [56; 48; 40; 32; 24; 16; 8; 0].
Definition be_Uint64 (data : bytes) : Z := le_value (reverse data).

Definition nextRequestKeyLocked (c : clientConn) : Z * clientConn :=
  (nextRequest c, with_pings c (pingRequests c) (pings c) (u64 (nextRequest c + 1))).

(** [req <- ackKey; close(req)].  A send on a full channel would never
    complete; the model has a panic there too. *)
Definition answer_ping (ackKey : Z) (ch : pingChan) : go pingChan :=
  if pc_closed ch then Panic "send on closed channel"
  else match pc_val ch with
       | Some _ => Panic "blocked on a full channel"
       | None => Ret (mkPingChan (Some ackKey) true)
       end.

(** The loop over [pingRequests]. *)
Fixpoint ack_loop (entries : list (Z * nat)) (ackKey : Z) (c : clientConn) : go clientConn :=
  match entries with
  | [] => Ret c
  | (reqKey, l) :: entries' =>
      if ackKey <=? reqKey then
        match pings c !! l with
        | None => Panic nil_deref
        | Some ch =>
            ch' ← answer_ping ackKey ch;
            ack_loop entries' ackKey
              (with_pings c (delete reqKey (pingRequests c)) (<[l := ch']> (pings c)) (nextRequest c))
        end
      else ack_loop entries' ackKey c
  end.

Definition putPingAckLocked (ackKey : Z) (c : clientConn) : go (bool * clientConn) :=
  if closed c then Ret (false, c)
  else
    match map_to_list (pingRequests c) with
    | [] => Ret (false, c)
    | entries => c' ← ack_loop entries ackKey c; Ret (true, c')
    end.

Definition putPingAck (data : bytes) (c : clientConn) : go clientConn :=
  '(_, c') ← putPingAckLocked (be_Uint64 data) c; Ret c'.

(** ** Streams *)

Definition encodeHpackHeaders (c : clientConn) (headers : list HeaderField) : bytes * clientConn :=
  let '(b, e) := EncodeFields (encoder c) headers in (b, with_encoder c (streamIdGen c) e).

(** The first part of [startNewClientStream], to [framer.WriteHeaders], whose
    error is [werr]: the identifier of the new stream. *)
Definition start_write (headerFields : list HeaderField) (endStream : bool) (werr : option error)
  (c : clientConn) : (Z + error) * clientConn :=
  let '(block, c) := encodeHpackHeaders c headerFields in
  let gen := u32 (streamIdGen c + 2) in
  let streamId := u32 (gen - 1) in
  let c := with_encoder c gen (encoder c) in
  match werr with
  | Some e => (inr e, c)
  | None => (inl streamId, with_written c (written c ++ [WHeaders streamId block endStream]))
  end.

(** The second part: the new stream is registered; its location. *)
Definition start_store (streamId : Z) (c : clientConn) : nat * clientConn :=
  let l := length (heap c) in
  (l, with_streams c (heap c ++ [new_stream streamId]) (<[streamId := l]> (clientStreams c))).

(** A write of one frame through the framer. *)
Definition write_frame (f : wframe) (werr : option error) (c : clientConn) : option error * clientConn :=
  match werr with
  | Some e => (Some e, c)
  | None => (None, with_written c (written c ++ [f]))
  end.
(** ** dialContext, up to [go cc.readLoop(gCtx)]

    [perr] and [werr]: the errors of writing the preface and the settings. *)
Definition initSettings : list (Z * Z) := [(1, 4096); (4, 65535); (3, 100)].

Definition dial_begin {C} (dopts : dialOptions C) (perr werr : option error) (e : E) (d : D)
  : clientConn * option error :=
  let c := mkConn false false true 0 ∅ [] 1000 false ∅ [] 0 e d [] in
  match (if sendPreface dopts then perr else None) with
  | Some err => (with_closed c false false false, Some err)
  | None =>
      let c := if sendPreface dopts then with_written c [WPreface] else c in
      if h2cUpgrade dopts then
        let gen := u32 (streamIdGen c + 2) in
        ((start_store (u32 (gen - 1)) (with_encoder c gen (encoder c))).2, None)
      else
        match write_frame (WSettings initSettings) werr c with
        | (Some er, c) => (Close c, Some er)
        | (None, c) => (c, None)
        end
  end.
End Conn.
Arguments clientConn : clear implicits.
End HttpConn.
