(* ===== verification/HttpSys.v ===== *)
(** * The goroutines of an HTTP/2 connection

    http/client/client_conn.go: [do] with [writeHeaders] and [writeBody],
    [isValid] with [sendRecvPingWithRetries] and [sendPing], [readLoop] with
    [readFrame] and [processSettingsFrame], the wait of [dialContext], and the
    serializer's goroutine, interleaved at their locks, channel operations and
    callbacks.

    The callback serializer is the one of file [Serializer]: callbacks run one
    after another in the order in which they were scheduled, those scheduled
    after it has shut down are dropped.  A callback answers its caller on an
    unbuffered channel, so the serializer stays at [Ser_answer] until the
    caller receives. *)
From S2P Require Import Prelude Errors NetAddr NetText Bytespool IO Wire Http2Frames TcpClient Http2Client HttpText HttpConn.

Module HttpSys.
Import HttpConn.

(** ** Program points *)

(** Who waits for the answer of a callback. *)
Inductive waiter := ByThread (i : nat) | ByReader.

#[global] Instance waiter_eq_dec : EqDecision waiter.
Proof. solve_decision. Defined.

Inductive callback :=
  | CB_headers (i : nat) (fields : list HeaderField) (endStream : bool)
  | CB_data (i : nat) (sid : Z) (body : bytes)
  | CB_ping (w : waiter) (ack : bool) (data : bytes)
  | CB_settings_ack.

Inductive answer := A_stream (l : nat) (sid : Z) | A_err (e : option error).

Inductive ser_pc :=
  | Ser_idle
  | Ser_store (i : nat) (sid : Z)
  | Ser_answer (w : waiter) (a : answer)
  | Ser_exit.

Inductive do_pc :=
  | D_start
  | D_acquire
  | D_go
  | D_headers_wait
  | D_body (l : nat) (sid : Z)
  | D_body_wait (l : nat) (sid : Z)
  | D_wait (l : nat) (sid : Z)
  | D_ret (r : Response + error).

Inductive valid_pc :=
  | V_start
  | V_ping (key : Z) (ch : nat) (i : nat)
  | V_ping_wait (key : Z) (ch : nat) (i : nat)
  | V_ack (key : Z) (ch : nat) (i : nat)
  | V_follow (key : Z) (ch : nat)
  | V_fail (key : Z)
  | V_ret (b : bool).

(** [ctxErr]: the error of the caller's context, once it is done. *)
Inductive thread :=
  | Do (req : Request) (ctx : context) (ctxErr : option error) (p : do_pc)
  | Valid (ctxErr : option error) (p : valid_pc).

Inductive reader_pc :=
  | R_top
  | R_read
  | R_settings (rest : list (Z * Z))
  | R_send (rest : list (Z * Z))
  | R_sched_ack
  | R_sched_ping (data : bytes)
  | R_await
  | R_exit.

Inductive dial_pc := Dial_wait | Dial_ok | Dial_fail (e : error).

Section Sys.
Context {D E : Type}.
Context (DecodeFull : D → bytes → (list HeaderField + error) * D).
Context (EncodeFields : E → list HeaderField → bytes * E).

(** [sem_used], [sem_cap]: what is in [maxConcurrentSemaphore] and its capacity. *)
Record sys := mkSys {
  cc : clientConn D E;
  queue : list callback;
  ser_closed : bool;
  ser : ser_pc;
  reader : reader_pc;
  dial : dial_pc;
  sem_used : nat;
  sem_cap : Z;
  threads : list thread
}.

Definition set_cc s c := mkSys c (queue s) (ser_closed s) (ser s) (reader s) (dial s) (sem_used s) (sem_cap s) (threads s).
Definition set_queue s q := mkSys (cc s) q (ser_closed s) (ser s) (reader s) (dial s) (sem_used s) (sem_cap s) (threads s).
Definition set_ser s p := mkSys (cc s) (queue s) (ser_closed s) p (reader s) (dial s) (sem_used s) (sem_cap s) (threads s).
Definition set_reader s p := mkSys (cc s) (queue s) (ser_closed s) (ser s) p (dial s) (sem_used s) (sem_cap s) (threads s).
Definition set_dial s p cap := mkSys (cc s) (queue s) (ser_closed s) (ser s) (reader s) p (sem_used s) cap (threads s).
Definition set_used s n := mkSys (cc s) (queue s) (ser_closed s) (ser s) (reader s) (dial s) n (sem_cap s) (threads s).
Definition set_thread s i t := mkSys (cc s) (queue s) (ser_closed s) (ser s) (reader s) (dial s) (sem_used s) (sem_cap s)
  (<[i := t]> (threads s)).
Definition add_thread s t := mkSys (cc s) (queue s) (ser_closed s) (ser s) (reader s) (dial s) (sem_used s) (sem_cap s)
  (threads s ++ [t]).

(** [c.serializer.TrySchedule(cb)] *)
Definition TrySchedule (cb : callback) (s : sys) : sys :=
  if ser_closed s then s else set_queue s (queue s ++ [cb]).

(** ** do *)

Definition isSSE (req : Request) : bool :=
  let acceptHeader := Header_Get (RHeader req) (str "Accept") in
  (0 <? zlen acceptHeader) && Contains acceptHeader (str "text/event-stream").

Definition response_of (cs : clientStream) : Response :=
  mkResponse (FormatInt (s_statusCode cs) ++ str " " ++ StatusText (s_statusCode cs)) (s_statusCode cs)
    (str "HTTP/2.0") 2 0 (s_responseHeaders cs) (s_trailers cs) (s_payload cs) (zlen (s_payload cs)).

(** The case of a [select] that is taken. *)
Inductive sel := SelMain | SelCtx | SelTimer.

(** The deferred calls: release the semaphore, and delete the stream. *)
Definition release (s : sys) : sys := set_used s (sem_used s - 1).
Definition unregister (sid : Z) (s : sys) : sys := set_cc s (delete_stream (cc s) sid).

(** [cs.sse = isSSE] *)
Definition set_stream_sse (l : nat) (b : bool) (s : sys) : sys :=
  match heap (cc s) !! l with
  | Some cs => set_cc s (store_at (cc s) l (with_sse cs b))
  | None => s
  end.

(** One step of [do] in thread [i]. *)
Definition do_step (i : nat) (k : sel) (req : Request) (ctx : context) (ctxErr : option error) (p : do_pc) (s : sys)
  : option sys :=
  let goto p' s := set_thread s i (Do req ctx ctxErr p') in
  match p, k with
  | D_start, SelMain =>
      if closed (cc s) then Some (goto (D_ret (inr (Errorf "clientConn closed" None))) s)
      else match validateRequest req with
           | Some er => Some (goto (D_ret (inr er)) s)
           | None => Some (goto D_acquire s)
           end
  | D_acquire, SelMain =>
      if Z.of_nat (sem_used s) <? sem_cap s then Some (goto D_go (set_used s (S (sem_used s)))) else None
  | D_acquire, SelCtx => e ← ctxErr; Some (goto (D_ret (inr e)) s)
  | D_go, SelMain =>
      if UpgradeFromContext ctx then
        match load_stream (cc s) 1 with
        | None => Some (goto (D_ret (inr (Errorf "h2c upgrade client stream not found for streamId=1" None))) (release s))
        | Some (l, cs) => Some (goto (D_wait l (s_streamId cs)) (set_stream_sse l (isSSE req) s))
        end
      else
        u ← RURL req;
        let endStream := match RBody req with NilBody => true | _ => false end in
        Some (goto D_headers_wait (TrySchedule (CB_headers i (createHeaderFields req u) endStream) s))
  | D_headers_wait, SelCtx => e ← ctxErr; Some (goto (D_ret (inr e)) (release s))
  | D_body l sid, SelMain =>
      match RBody req with
      | NilBody => Some (goto (D_wait l sid) (set_stream_sse l (isSSE req) s))
      | NoBody => Some (goto (D_body_wait l sid) (TrySchedule (CB_data i sid []) s))
      | ReaderBody (inl b) => Some (goto (D_body_wait l sid) (TrySchedule (CB_data i sid b) s))
      | ReaderBody (inr e) => Some (goto (D_ret (inr e)) (release (unregister sid s)))
      end
  | D_wait l sid, SelMain =>
      cs ← heap (cc s) !! l;
      if s_done cs then Some (goto (D_ret (inl (response_of cs))) (release (unregister sid s))) else None
  | D_wait l sid, SelCtx => e ← ctxErr; Some (goto (D_ret (inr e)) (release (unregister sid s)))
  | _, _ => None
  end.

(** ** isValid *)

Definition maxPingRetryTimes : nat := 3.

(** [sendPing] up to its wait for the serializer's answer. *)
Definition sendPing (w : waiter) (ack : bool) (data : bytes) (s : sys) : sys :=
  TrySchedule (CB_ping w ack data) s.

(** The channel of a waiting ping holds the acknowledgement or is closed. *)
Definition acked (s : sys) (ch : nat) : bool :=
  match pings (cc s) !! ch with
  | Some c => match pc_val c with Some _ => true | None => pc_closed c end
  | None => false
  end.

Definition sendRecvPingWithRetries (i : nat) (k : sel) (ctxErr : option error) (p : valid_pc) (s : sys) : option sys :=
  let goto p' s := set_thread s i (Valid ctxErr p') in
  match p, k with
  | V_ping key ch n, SelMain =>
      if (n <? maxPingRetryTimes)%nat
      then Some (goto (V_ping_wait key ch n) (sendPing (ByThread i) false (be_PutUint64 key) s))
      else Some (goto (V_fail key) s)
  | V_ack key ch n, SelMain => if acked s ch then Some (goto (V_ret true) s) else None
  | V_ack key ch n, SelTimer => Some (goto (V_ping key ch (S n)) s)
  | V_ack key ch n, SelCtx => _ ← ctxErr; Some (goto (V_fail key) s)
  | _, _ => None
  end.

(** [isValid]: the first waiter sends the pings, the others wait for its
    acknowledgement. *)
Definition valid_step (i : nat) (k : sel) (ctxErr : option error) (p : valid_pc) (s : sys) : option sys :=
  let goto p' s := set_thread s i (Valid ctxErr p') in
  let drop key s :=
    set_cc s (with_pings (cc s) (delete key (pingRequests (cc s))) (pings (cc s)) (nextRequest (cc s))) in
  match p, k with
  | V_start, SelMain =>
      if closed (cc s) then Some (goto (V_ret false) s)
      else
        let '(reqKey, c) := nextRequestKeyLocked (cc s) in
        let ch := length (pings c) in
        let leader := bool_decide (pingRequests c = ∅) in
        let c := with_pings c (<[reqKey := ch]> (pingRequests c)) (pings c ++ [mkPingChan None false]) (nextRequest c) in
        Some (goto (if leader then V_ping reqKey ch 0 else V_follow reqKey ch) (set_cc s c))
  | V_follow key ch, SelMain => if acked s ch then Some (goto (V_ret true) s) else None
  | V_follow key ch, SelCtx => _ ← ctxErr; Some (goto (V_ret false) (drop key s))
  | V_fail key, SelMain => Some (goto (V_ret false) (drop key s))
  | _, _ => sendRecvPingWithRetries i k ctxErr p s
  end.

(** ** The serializer *)

(** The next callback; [werr] is the error of the framer. *)
Definition run_callback (cb : callback) (werr : option error) (s : sys) : sys :=
  if ctx_done (cc s) then set_ser s Ser_idle
  else
    match cb with
    | CB_headers i fields endStream =>
        let '(r, c) := start_write EncodeFields fields endStream werr (cc s) in
        match r with
        | inl sid => set_ser (set_cc s c) (Ser_store i sid)
        | inr e => set_ser (set_cc s c) (Ser_answer (ByThread i) (A_err (Some e)))
        end
    | CB_data i sid body =>
        match threads s !! i with
        | Some (Do _ _ (Some e) _) => set_ser s (Ser_answer (ByThread i) (A_err (Some e)))
        | _ =>
            let '(e, c) := write_frame (WData sid true body) werr (cc s) in
            set_ser (set_cc s c) (Ser_answer (ByThread i) (A_err e))
        end
    | CB_ping w ack data =>
        let '(e, c) := write_frame (WPing ack data) werr (cc s) in
        set_ser (set_cc s c) (Ser_answer w (A_err e))
    | CB_settings_ack =>
        let '(e, c) := write_frame WSettingsAck werr (cc s) in
        set_ser (set_cc s c) (Ser_answer ByReader (A_err e))
    end.

Definition ser_step (werr : option error) (s : sys) : option sys :=
  match ser s with
  | Ser_idle =>
      match queue s with
      | cb :: q => Some (run_callback cb werr (set_queue s q))
      | [] => if ser_closed s then Some (set_ser s Ser_exit) else None
      end
  | Ser_store i sid =>
      let '(l, c) := start_store sid (cc s) in
      Some (set_ser (set_cc s c) (Ser_answer (ByThread i) (A_stream l sid)))
  | _ => None
  end.

(** The serializer sees that its context is done and closes its buffer. *)
Definition ser_close (s : sys) : option sys :=
  if ctx_done (cc s) && negb (ser_closed s)
  then Some (mkSys (cc s) (queue s) true (ser s) (reader s) (dial s) (sem_used s) (sem_cap s) (threads s))
  else None.

(** ** The read loop *)

(** [readFrame] has returned [err] to [readLoop]. *)
Definition after_frame (err : option error) (s : sys) : sys :=
  match err with
  | Some e => if Is EOF e then set_reader (set_cc s (cancel (cc s))) R_exit else set_reader s R_top
  | None => set_reader s R_top
  end.

(** [processSettingsFrame] and [processPingFrame] up to their first wait; the
    settings are then gone through by [reader_step]. *)
Definition processSettingsFrame (ack : bool) (settings : list (Z * Z)) (s : sys) : go sys :=
  if ack then
    if ackClosed (cc s) then Panic "close of closed channel"
    else Ret (after_frame None (set_cc s (with_settings (cc s) (maxConcurrentStreams (cc s)) true)))
  else Ret (set_reader s (R_settings settings)).

Definition processPingFrame (ack : bool) (data : bytes) (s : sys) : go sys :=
  if ack then c ← putPingAck data (cc s); Ret (after_frame None (set_cc s c))
  else Ret (set_reader s (R_sched_ping data)).

(** The type switch of [readFrame]. *)
Definition process_frame (f : h2_frame) (s : sys) : go sys :=
  match f with
  | DataFrame sid data ended => Ret (after_frame None (set_cc s (processDataFrame sid data ended (cc s))))
  | HeadersFrame sid fragment ended =>
      let '(err, c) := processHeaderFrame DecodeFull sid fragment ended (cc s) in
      Ret (after_frame err (set_cc s c))
  | RSTStreamFrame sid code => Ret (after_frame None (set_cc s (processRSTStreamFrame sid code (cc s))))
  | SettingsFrame ack settings => processSettingsFrame ack settings s
  | PingFrame ack data => processPingFrame ack data s
  | GoAwayFrame _ code debug => Ret (after_frame None (set_cc s (processGoAwayFrame code debug (cc s))))
  | _ => Ret (after_frame None s)
  end.

(** [rd]: what [framer.ReadFrame] returns, if it is called. *)
Definition reader_step (rd : h2_frame + error) (s : sys) : option (go sys) :=
  match reader s with
  | R_top => Some (Ret (set_reader s (if closed (cc s) || ctx_done (cc s) then R_exit else R_read)))
  | R_read =>
      if ctx_done (cc s) then Some (Ret (after_frame (Some (ErrNew ErrCanceled)) s))
      else match rd with
           | inr err => Some (Ret (after_frame (Some err) s))
           | inl f => Some (process_frame f s)
           end
  | R_settings [] => Some (Ret (set_reader s R_sched_ack))
  | R_settings ((id, val) :: rest) =>
      if id =? SettingMaxConcurrentStreams
      then Some (Ret (set_reader (set_cc s (with_settings (cc s) val (ackClosed (cc s)))) (R_send rest)))
      else Some (Ret (set_reader s (R_settings rest)))
  | R_send rest => if ackClosed (cc s) then Some (Panic "send on closed channel") else None
  | R_sched_ack => Some (Ret (set_reader (TrySchedule CB_settings_ack s) R_await))
  | R_sched_ping data => Some (Ret (set_reader (sendPing ByReader true data s) R_await))
  | R_await => None
  | R_exit => None
  end.

(** ** Rendezvous *)

(** The serializer hands the answer to the goroutine that waits for it. *)
Definition deliver (s : sys) : option sys :=
  match ser s with
  | Ser_answer ByReader (A_err e) =>
      match reader s with
      | R_await => Some (after_frame e (set_ser s Ser_idle))
      | _ => None
      end
  | Ser_answer (ByThread i) a =>
      match threads s !! i, a with
      | Some (Do req ctx ce D_headers_wait), A_stream l sid =>
          Some (set_thread (set_ser s Ser_idle) i (Do req ctx ce (D_body l sid)))
      | Some (Do req ctx ce D_headers_wait), A_err (Some e) =>
          Some (set_thread (release (set_ser s Ser_idle)) i (Do req ctx ce (D_ret (inr e))))
      | Some (Do req ctx ce (D_body_wait l sid)), A_err (Some e) =>
          Some (set_thread (release (unregister sid (set_ser s Ser_idle))) i (Do req ctx ce (D_ret (inr e))))
      | Some (Do req ctx ce (D_body_wait l sid)), A_err None =>
          Some (set_thread (set_stream_sse l (isSSE req) (set_ser s Ser_idle)) i (Do req ctx ce (D_wait l sid)))
      | Some (Valid ce (V_ping_wait key ch n)), A_err (Some e) =>
          Some (set_thread (set_ser s Ser_idle) i (Valid ce (V_fail key)))
      | Some (Valid ce (V_ping_wait key ch n)), A_err None =>
          Some (set_thread (set_ser s Ser_idle) i (Valid ce (V_ack key ch n)))
      | _, _ => None
      end
  | _ => None
  end.

(** The [select] of [dialContext]. *)
Inductive dial_case := OnAcked | OnTimeout | OnCtxDone (e : error) | OnGCtx.

Definition dial_step (k : dial_case) (s : sys) : option sys :=
  match dial s, k with
  | Dial_wait, OnAcked =>
      if ackClosed (cc s) then Some (set_dial s Dial_ok (maxConcurrentStreams (cc s)))
      else match reader s with
           | R_send rest => Some (set_dial (set_reader s (R_settings rest)) Dial_ok (maxConcurrentStreams (cc s)))
           | _ => None
           end
  | Dial_wait, OnTimeout =>
      Some (set_dial (set_cc s (Close (cc s))) (Dial_fail (Errorf "timeout waiting for settings ack" None)) 0)
  | Dial_wait, OnCtxDone e => Some (set_dial s (Dial_fail e) 0)
  | Dial_wait, OnGCtx => if ctx_done (cc s) then Some (set_dial s (Dial_fail (ErrNew ErrCanceled)) 0) else None
  | _, _ => None
  end.

(** ** The system *)

Inductive choice :=
  | NewDo (req : Request) (ctx : context)
  | NewValid
  | CallClose
  | CancelCtx (i : nat) (e : error)
  | Step (i : nat) (k : sel)
  | Serialize (werr : option error)
  | SerClose
  | Deliver
  | Read (rd : h2_frame + error)
  | Dial (k : dial_case).

Definition step (c : choice) (s : sys) : option (go sys) :=
  match c with
  | NewDo req ctx =>
      match dial s with Dial_ok => Some (Ret (add_thread s (Do req ctx None D_start))) | _ => None end
  | NewValid => match dial s with Dial_ok => Some (Ret (add_thread s (Valid None V_start))) | _ => None end
  | CallClose => match dial s with Dial_ok => Some (Ret (set_cc s (Close (cc s)))) | _ => None end
  | CancelCtx i e =>
      t ← threads s !! i;
      Some (Ret (set_thread s i
        (match t with
         | Do req ctx None p => Do req ctx (Some e) p
         | Valid None p => Valid (Some e) p
         | _ => t
         end)))
  | Step i k =>
      t ← threads s !! i;
      Ret <$> match t with
              | Do req ctx ce p => do_step i k req ctx ce p s
              | Valid ce p => valid_step i k ce p s
              end
  | Serialize werr => Ret <$> ser_step werr s
  | SerClose => Ret <$> ser_close s
  | Deliver => Ret <$> deliver s
  | Read rd => reader_step rd s
  | Dial k => Ret <$> dial_step k s
  end.

Definition run : list choice → sys → option (go sys) := run_go step.

(** The system when [dialContext] has started the read loop on [c]. *)
Definition start (c : clientConn D E) : sys := mkSys c [] false Ser_idle R_top Dial_wait 0 0 [].
End Sys.
Arguments sys : clear implicits.
Arguments mkSys {D E}.
End HttpSys.
