(* ===== verification/HttpSysSpec.v ===== *)
(** * Properties of the HTTP/2 connection

    About files [HttpConn] and [HttpSys]: what is written on the wire, how many
    requests run at once, how pings are answered, how a response is put
    together from the frames received, and how the connection can be brought
    to a stop. *)
From Stdlib Require Import Sorted.
From S2P Require Import Prelude Errors NetAddr NetText Bytespool IO Wire Http2Frames TcpClient Http2Client.
From S2P Require Import TasksSpec HttpText HttpConn HttpSys.

Module HttpFacts.
Import HttpConn HttpSys.
Section Facts.
Context {D E : Type}.
Context (DecodeFull : D → bytes → (list HeaderField + error) * D).
Context (EncodeFields : E → list HeaderField → bytes * E).
Implicit Types (s : sys D E) (c : clientConn D E).

(** Compute the fields of the states only. *)
Ltac fields := cbn [cc queue ser_closed ser reader dial sem_used sem_cap threads
  set_cc set_queue set_ser set_reader set_dial set_used set_thread add_thread].
Ltac fields_in := cbn [cc queue ser_closed ser reader dial sem_used sem_cap threads
  set_cc set_queue set_ser set_reader set_dial set_used set_thread add_thread] in *.

(** ** What the steps leave alone *)

(** The parts that bear on the semaphore. *)
Definition sem_view s := (threads s, sem_used s, sem_cap s, dial s).

Lemma TrySchedule_view cb s : sem_view (TrySchedule cb s) = sem_view s.
Proof. unfold TrySchedule. by destruct (ser_closed s). Qed.
Lemma set_stream_sse_view l b s : sem_view (set_stream_sse l b s) = sem_view s.
Proof. unfold set_stream_sse. by destruct (heap (cc s) !! l). Qed.
Lemma after_frame_view e s : sem_view (after_frame e s) = sem_view s.
Proof. unfold after_frame. destruct e as [e|]; [|done]. by destruct (Is EOF e). Qed.
Lemma run_callback_view cb werr s : sem_view (run_callback EncodeFields cb werr s) = sem_view s.
Proof.
  unfold run_callback. destruct (ctx_done (cc s)); [done|]. unfold write_frame, start_write.
  destruct cb as [i fs es|i sid b|w a d|]; repeat case_match; simplify_eq; done.
Qed.
Lemma process_frame_view f s s' : process_frame DecodeFull f s = Ret s' → sem_view s' = sem_view s.
Proof.
  unfold process_frame, processSettingsFrame, processPingFrame. destruct f; intros Hs; repeat case_match; simplify_eq; inv_go; subst;
    rewrite ?after_frame_view; try done.
Qed.
Lemma reader_step_view rd s s' : reader_step DecodeFull rd s = Some (Ret s') → sem_view s' = sem_view s.
Proof.
  unfold reader_step. intros Hs. repeat case_match; simplify_eq; try done;
    first [by apply TrySchedule_view | by eapply process_frame_view | by apply after_frame_view
          | by destruct (Is EOF _)].
Qed.
Lemma ser_step_view werr s s' : ser_step EncodeFields werr s = Some s' → sem_view s' = sem_view s.
Proof.
  unfold ser_step, start_store. intros Hs. repeat case_match; simplify_eq; try done.
  by rewrite run_callback_view.
Qed.

(** ** The semaphore *)

(** Threads that hold a place in [maxConcurrentSemaphore]. *)
Definition holding (t : thread) : nat :=
  match t with
  | Do _ _ _ (D_go | D_headers_wait | D_body _ _ | D_body_wait _ _ | D_wait _ _) => 1
  | _ => 0
  end.

Record sem_inv s : Prop := SemInv {
  sem_count : sum_list_with holding (threads s) = sem_used s;
  sem_bound : sem_used s = 0%nat ∨ Z.of_nat (sem_used s) ≤ sem_cap s;
  sem_dial : dial s = Dial_ok ∨ threads s = []
}.

Lemma sem_inv_view s s' : sem_view s' = sem_view s → sem_inv s → sem_inv s'.
Proof. unfold sem_view. intros Hv [H1 H2 H3]. injection Hv as Ht Hu Hc Hd. split; congruence. Qed.

(** Thread [i] goes to [t'], and the semaphore with it. *)
Lemma sem_inv_thread s i t t' used :
  sem_inv s → threads s !! i = Some t →
  (used + holding t = sem_used s + holding t')%nat →
  (used = 0%nat ∨ Z.of_nat used ≤ sem_cap s) →
  ∀ s', sem_view s' = (<[i := t']> (threads s), used, sem_cap s, dial s) → sem_inv s'.
Proof.
  intros [H1 H2 H3] Hi Hu Hb s' Hv. unfold sem_view in Hv. injection Hv as Ht Hu' Hc Hd.
  pose proof (sum_insert holding i t t' _ Hi) as Hs. split; rewrite ?Ht, ?Hu', ?Hc, ?Hd.
  - lia.
  - done.
  - destruct H3 as [?|H3]; [by left|]. rewrite H3 in Hi. done.
Qed.

Lemma sem_inv_same s i t t' s' :
  sem_inv s → threads s !! i = Some t → holding t' = holding t →
  sem_view s' = (<[i := t']> (threads s), sem_used s, sem_cap s, dial s) → sem_inv s'.
Proof.
  intros Hinv Hi Hh. apply (sem_inv_thread s i t t' (sem_used s) Hinv Hi); [lia|apply Hinv].
Qed.

Lemma sem_inv_release s i t t' s' :
  sem_inv s → threads s !! i = Some t → holding t = 1%nat → holding t' = 0%nat →
  sem_view s' = (<[i := t']> (threads s), (sem_used s - 1)%nat, sem_cap s, dial s) → sem_inv s'.
Proof.
  intros Hinv Hi Ht Ht'. pose proof (sum_lookup holding i t _ Hi) as Hle.
  pose proof (sem_count s Hinv). pose proof (sem_bound s Hinv).
  apply (sem_inv_thread s i t t' (sem_used s - 1) Hinv Hi); lia.
Qed.

Lemma view_TrySchedule_thread s cb i t :
  sem_view (set_thread (TrySchedule cb s) i t) = (<[i := t]> (threads s), sem_used s, sem_cap s, dial s).
Proof. unfold TrySchedule. by destruct (ser_closed s). Qed.
Lemma view_sse_thread s l b i t :
  sem_view (set_thread (set_stream_sse l b s) i t) = (<[i := t]> (threads s), sem_used s, sem_cap s, dial s).
Proof. unfold set_stream_sse. by destruct (heap (cc s) !! l). Qed.

Lemma do_step_sem i k req ctx ce p s s' :
  sem_inv s → threads s !! i = Some (Do req ctx ce p) → do_step i k req ctx ce p s = Some s' → sem_inv s'.
Proof.
  intros Hinv Hi Hs. unfold do_step in Hs.
  destruct p as [| | | |l sid|l sid|l sid|r], k; try done.
  - repeat case_match; simplify_eq; (eapply sem_inv_same; [done|exact Hi| |reflexivity]; done).
  - destruct (_ <? _) eqn:Hlt; [|done]. simplify_eq. bool_hyps.
    apply (sem_inv_thread s i _ (Do req ctx ce D_go) (S (sem_used s)) Hinv Hi); [cbn; lia|right; lia|reflexivity].
  - apply bind_Some in Hs as (e & _ & Hs). simplify_eq.
    by eapply sem_inv_same; [done|exact Hi| |reflexivity].
  - destruct (UpgradeFromContext ctx).
    + destruct (load_stream (cc s) 1) as [[l cs]|]; simplify_eq.
      * by eapply sem_inv_same; [done|exact Hi| |apply view_sse_thread].
      * by eapply sem_inv_release; [done|exact Hi| | |reflexivity].
    + apply bind_Some in Hs as (u & _ & Hs). simplify_eq.
      by eapply sem_inv_same; [done|exact Hi| |apply view_TrySchedule_thread].
  - apply bind_Some in Hs as (e & _ & Hs). simplify_eq.
    by eapply sem_inv_release; [done|exact Hi| | |reflexivity].
  - destruct (RBody req) as [| |[b|e]]; simplify_eq.
    + by eapply sem_inv_same; [done|exact Hi| |apply view_sse_thread].
    + by eapply sem_inv_same; [done|exact Hi| |apply view_TrySchedule_thread].
    + by eapply sem_inv_same; [done|exact Hi| |apply view_TrySchedule_thread].
    + by eapply sem_inv_release; [done|exact Hi| | |reflexivity].
  - apply bind_Some in Hs as (cs & _ & Hs). destruct (s_done cs); [|done]. simplify_eq.
    by eapply sem_inv_release; [done|exact Hi| | |reflexivity].
  - apply bind_Some in Hs as (e & _ & Hs). simplify_eq.
    by eapply sem_inv_release; [done|exact Hi| | |reflexivity].
Qed.

Lemma valid_step_sem i k ce p s s' :
  sem_inv s → threads s !! i = Some (Valid ce p) → valid_step i k ce p s = Some s' → sem_inv s'.
Proof.
  intros Hinv Hi Hs. unfold valid_step, sendRecvPingWithRetries, sendPing in Hs.
  assert (∃ p', sem_view s' = (<[i := Valid ce p']> (threads s), sem_used s, sem_cap s, dial s)) as [p' Hv].
  { destruct p, k; try done; repeat case_match; simplify_eq; try done;
      try (apply bind_Some in Hs as (? & _ & Hs); simplify_eq); eexists;
      first [apply view_TrySchedule_thread | reflexivity]. }
  by eapply sem_inv_same; [done|exact Hi| |exact Hv].
Qed.

Lemma deliver_sem s s' : sem_inv s → deliver s = Some s' → sem_inv s'.
Proof.
  intros Hinv Hs. unfold deliver in Hs.
  destruct (ser s) as [|i sid|[i|] a|] eqn:Hser; try done.
  - destruct (threads s !! i) as [t|] eqn:Hi; [|done].
    destruct t as [req ctx ce p|ce p]; [|].
    + destruct p; try done; destruct a as [l' sid'|[e|]]; try done; simplify_eq.
      * by eapply sem_inv_same; [done|exact Hi| |reflexivity].
      * by eapply sem_inv_release; [done|exact Hi| | |reflexivity].
      * by eapply sem_inv_release; [done|exact Hi| | |reflexivity].
      * by eapply sem_inv_same; [done|exact Hi| |exact (view_sse_thread (set_ser s Ser_idle) _ _ _ _)].
    + destruct p; try done; destruct a as [l' sid'|[e|]]; try done; simplify_eq;
        by eapply sem_inv_same; [done|exact Hi| |reflexivity].
  - destruct a as [|e]; [done|]. destruct (reader s); try done. simplify_eq.
    revert Hinv. apply sem_inv_view. by rewrite after_frame_view.
Qed.

Lemma step_sem ch s s' : sem_inv s → step DecodeFull EncodeFields ch s = Some (Ret s') → sem_inv s'.
Proof.
  intros Hinv Hs. destruct ch as [req ctx| | |i e|i k|werr| | |rd|k]; cbn [step] in Hs.
  - destruct (dial s) eqn:Hd; try done. simplify_eq. destruct Hinv as [H1 H2 H3]. split; fields; auto.
    rewrite sum_app. simpl. lia.
  - destruct (dial s) eqn:Hd; try done. simplify_eq. destruct Hinv as [H1 H2 H3]. split; fields; auto.
    rewrite sum_app. simpl. lia.
  - destruct (dial s) eqn:Hd; try done. simplify_eq. by destruct Hinv; split.
  - apply bind_Some in Hs as (t & Hi & Hs). simplify_eq.
    eapply sem_inv_same; [done|exact Hi| |reflexivity]. by destruct t as [? ? [?|] ?|[?|] ?].
  - apply bind_Some in Hs as (t & Hi & Hs). destruct t as [req ctx ce p|ce p].
    + destruct (do_step i k req ctx ce p s) eqn:Hd; [|done]. cbn in Hs. simplify_eq.
      by eapply do_step_sem.
    + destruct (valid_step i k ce p s) eqn:Hd; [|done]. cbn in Hs. simplify_eq.
      by eapply valid_step_sem.
  - destruct (ser_step EncodeFields werr s) eqn:Hd; [|done]. cbn in Hs. simplify_eq.
    apply ser_step_view in Hd. by eapply sem_inv_view.
  - unfold ser_close in Hs. destruct (_ && _); [|done]. cbn in Hs. simplify_eq. by destruct Hinv; split.
  - destruct (deliver s) eqn:Hd; [|done]. cbn in Hs. simplify_eq. by eapply deliver_sem.
  - apply reader_step_view in Hs. by eapply sem_inv_view.
  - unfold dial_step in Hs. destruct Hinv as [H1 H2 H3].
    destruct (dial s) eqn:Hd; cbn in Hs; try done.
    destruct H3 as [?|H3]; [done|]. rewrite H3 in H1. simpl in H1.
    destruct k; repeat case_match; cbn in Hs; simplify_eq; (split; fields; [by rewrite H3|by left|by right]).
Qed.

(** ** The wire *)

Definition has_body (req : Request) : bool := match RBody req with NilBody => false | _ => true end.
Definition req_of s (i : nat) : option Request :=
  match threads s !! i with Some (Do req _ _ _) => Some req | _ => None end.
Definition eq1 (a b : Z) : nat := if decide (a = b) then 1 else 0.

(** Rights to write one DATA frame on stream [sid]. *)
Definition th_tok (sid : Z) (t : thread) : nat :=
  match t with Do req _ _ (D_body _ sid') => if has_body req then eq1 sid sid' else 0 | _ => 0 end.
Definition q_tok (sid : Z) (cb : callback) : nat :=
  match cb with CB_data _ sid' _ => eq1 sid sid' | _ => 0 end.
Definition ser_tok (sid : Z) s : nat :=
  match ser s with
  | Ser_store i sid' | Ser_answer (ByThread i) (A_stream _ sid') =>
      match req_of s i with Some req => if has_body req then eq1 sid sid' else 0 | None => 0 end
  | _ => 0
  end.
(** DATA frames of the stream, and HEADERS frames that leave it open. *)
Definition data_of (sid : Z) (f : wframe) : nat := match f with WData sid' _ _ => eq1 sid sid' | _ => 0 end.
Definition open_of (sid : Z) (f : wframe) : nat := match f with WHeaders sid' _ false => eq1 sid sid' | _ => 0 end.

Definition wire_ok (w : list wframe) : Prop :=
  ∀ w1 w2 sid, w = w1 ++ w2 → (sum_list_with (data_of sid) w1 ≤ sum_list_with (open_of sid) w1)%nat.

Definition cb_ok s (cb : callback) : Prop :=
  match cb with
  | CB_headers i _ es => ∃ req, req_of s i = Some req ∧ es = negb (has_body req)
  | _ => True
  end.
Definition ser_ok s : Prop :=
  match ser s with
  | Ser_store i _ | Ser_answer (ByThread i) (A_stream _ _) => is_Some (req_of s i)
  | _ => True
  end.

Record wire_inv s : Prop := WireInv {
  w_tok : ∀ sid, (sum_list_with (th_tok sid) (threads s) + sum_list_with (q_tok sid) (queue s) + ser_tok sid s
                  + sum_list_with (data_of sid) (written (cc s)) ≤ sum_list_with (open_of sid) (written (cc s)))%nat;
  w_prefix : wire_ok (written (cc s));
  w_cb : Forall (cb_ok s) (queue s);
  w_ser : ser_ok s
}.

Lemma wire_ok_snoc w f :
  wire_ok w → (∀ sid, sum_list_with (data_of sid) (w ++ [f]) ≤ sum_list_with (open_of sid) (w ++ [f]))%nat →
  wire_ok (w ++ [f]).
Proof.
  intros Hw Hf w1 w2 sid Heq. destruct w2 as [|g w2 _] using rev_ind.
  - rewrite app_nil_r in Heq. subst. apply Hf.
  - rewrite app_assoc in Heq. apply app_inj_tail in Heq as [-> _]. by eapply Hw.
Qed.

(** The requests of the threads stay; then what refers to them does. *)
Definition reqs_le s s' : Prop := ∀ i req, req_of s i = Some req → req_of s' i = Some req.

Lemma reqs_le_eq s s' : threads s' = threads s → reqs_le s s'.
Proof. intros Ht i req. unfold req_of. by rewrite Ht. Qed.

Lemma reqs_le_insert s s' i t t' :
  threads s !! i = Some t → threads s' = <[i := t']> (threads s) →
  (∀ req ctx ce p, t = Do req ctx ce p → ∃ ctx' ce' p', t' = Do req ctx' ce' p') → reqs_le s s'.
Proof.
  intros Hi Ht Hreq j req. unfold req_of. rewrite Ht. destruct (decide (i = j)) as [<-|Hne].
  - rewrite Hi, list_lookup_insert_eq by (by eapply lookup_lt_Some). destruct t as [r c e p|]; [|done].
    intros [= ->]. by destruct (Hreq req c e p eq_refl) as (? & ? & ? & ->).
  - by rewrite list_lookup_insert_ne.
Qed.

Lemma reqs_le_app s s' t : threads s' = threads s ++ [t] → reqs_le s s'.
Proof.
  intros Ht i req. unfold req_of. rewrite Ht. destruct (threads s !! i) as [u|] eqn:Hi; [|done].
  rewrite lookup_app_l by (by eapply lookup_lt_Some). by rewrite Hi.
Qed.

Lemma cb_ok_le s s' cb : reqs_le s s' → cb_ok s cb → cb_ok s' cb.
Proof. intros Hle. destruct cb; try done. intros (req & Hr & ->). exists req. auto. Qed.

Lemma ser_ok_le s s' : reqs_le s s' → ser s' = ser s → ser_ok s → ser_ok s'.
Proof.
  intros Hle Hs. unfold ser_ok. rewrite Hs. destruct (ser s) as [|i sid|[i|] [l sid|e]|]; try done;
    intros [req Hr]; exists req; auto.
Qed.

Lemma ser_tok_le s s' sid : reqs_le s s' → ser s' = ser s → ser_ok s → ser_tok sid s' = ser_tok sid s.
Proof.
  intros Hle Hs Hok. unfold ser_tok, ser_ok in *. rewrite Hs.
  destruct (ser s) as [|i ?|[i|] [l ?|e]|]; try done; destruct Hok as [req Hr];
    by rewrite Hr, (Hle _ _ Hr).
Qed.

(** A step that neither writes nor moves the serializer: thread [i] may go from
    [t] to [t'] and the queue may get [qs]. *)
Lemma wire_inv_quiet s s' qs :
  wire_inv s → reqs_le s s' → ser s' = ser s → written (cc s') = written (cc s) →
  queue s' = queue s ++ qs → Forall (cb_ok s') qs →
  (∀ sid, sum_list_with (th_tok sid) (threads s') + sum_list_with (q_tok sid) qs
          ≤ sum_list_with (th_tok sid) (threads s))%nat →
  wire_inv s'.
Proof.
  intros [Ht Hp Hc Hs] Hle Hser Hw Hq Hqs Hth. split.
  - intros sid. specialize (Ht sid). specialize (Hth sid).
    rewrite (ser_tok_le s s' sid Hle Hser Hs), Hw, Hq, sum_app. lia.
  - by rewrite Hw.
  - rewrite Hq. apply Forall_app_2; [|done]. eapply Forall_impl; [done|]. intros cb. by apply cb_ok_le.
  - by eapply ser_ok_le.
Qed.

Lemma wire_inv_same s s' :
  wire_inv s → threads s' = threads s → ser s' = ser s → written (cc s') = written (cc s) →
  queue s' = queue s → wire_inv s'.
Proof.
  intros Hi Ht Hs Hw Hq. apply (wire_inv_quiet s s' []); auto.
  - by apply reqs_le_eq.
  - by rewrite app_nil_r.
  - intros sid. rewrite Ht. simpl. lia.
Qed.

Lemma wire_inv_thread s s' i t t' qs :
  wire_inv s → threads s !! i = Some t → threads s' = <[i := t']> (threads s) →
  (∀ req ctx ce p, t = Do req ctx ce p → ∃ ctx' ce' p', t' = Do req ctx' ce' p') →
  ser s' = ser s → written (cc s') = written (cc s) → queue s' = queue s ++ qs → Forall (cb_ok s') qs →
  (∀ sid, th_tok sid t' + sum_list_with (q_tok sid) qs ≤ th_tok sid t)%nat →
  wire_inv s'.
Proof.
  intros Hi Hti Ht Hreq Hs Hw Hq Hqs Hth. apply (wire_inv_quiet s s' qs); auto.
  - by eapply reqs_le_insert.
  - intros sid. rewrite Ht. pose proof (sum_insert (th_tok sid) i t t' _ Hti). specialize (Hth sid). lia.
Qed.

(** The handlers write nothing and take no stream identifier. *)
Definition wire_of c := (written c, streamIdGen c).

Lemma Close_wire c : wire_of (Close c) = wire_of c.
Proof. unfold Close. by destruct (closed c). Qed.
Lemma processDataFrame_wire sid data ended c : wire_of (processDataFrame sid data ended c) = wire_of c.
Proof. unfold processDataFrame. by destruct (load_stream c sid) as [[l cs]|]. Qed.
Lemma processHeaderFrame_wire sid fr ended c :
  wire_of (processHeaderFrame DecodeFull sid fr ended c).2 = wire_of c.
Proof. unfold processHeaderFrame. repeat case_match; done. Qed.
Lemma processRSTStreamFrame_wire sid code c : wire_of (processRSTStreamFrame sid code c) = wire_of c.
Proof. unfold processRSTStreamFrame. by destruct (load_stream c sid) as [[l cs]|]. Qed.
Lemma goaway_range_wire es code debug c : wire_of (goaway_range es code debug c) = wire_of c.
Proof.
  revert c. induction es as [|[k l] es IH]; intros c; cbn; [done|].
  destruct (heap c !! l); by rewrite IH.
Qed.
Lemma ack_loop_wire es key c c' : ack_loop es key c = Ret c' → wire_of c' = wire_of c.
Proof.
  revert c. induction es as [|[k l] es IH]; intros c Hc; cbn in Hc; [by simplify_eq|].
  destruct (key <=? k); [|by apply IH]. destruct (pings c !! l); [|done]. inv_go.
  by rewrite (IH _ Hc).
Qed.
Lemma putPingAck_wire data c c' : putPingAck data c = Ret c' → wire_of c' = wire_of c.
Proof.
  unfold putPingAck, putPingAckLocked. intros Hc. inv_go. destruct r as [b c1]. inv_go. subst.
  destruct (closed c); [by simplify_eq|]. destruct (map_to_list _) as [|e es]; inv_go; simplify_eq; [done|].
  by eapply ack_loop_wire.
Qed.

(** What the read loop leaves alone. *)
Definition quiet_view s := (threads s, ser s, queue s, wire_of (cc s)).

Lemma after_frame_quiet e s : quiet_view (after_frame e s) = quiet_view s.
Proof. unfold after_frame. destruct e as [e|]; [|done]. by destruct (Is EOF e). Qed.

Lemma quiet_wire s s' : quiet_view s' = quiet_view s → wire_of (cc s') = wire_of (cc s).
Proof. intros Hq. exact (f_equal snd Hq). Qed.

Lemma quiet_set_cc s c : wire_of c = wire_of (cc s) → quiet_view (set_cc s c) = quiet_view s.
Proof. intros Hw. unfold quiet_view. cbn. by rewrite Hw. Qed.

Lemma quiet_after s s' e c :
  wire_of c = wire_of (cc s) → Ret (after_frame e (set_cc s c)) = Ret s' → quiet_view s' = quiet_view s.
Proof.
  intros Hw Hs. assert (s' = after_frame e (set_cc s c)) as -> by congruence.
  rewrite after_frame_quiet. by apply quiet_set_cc.
Qed.

Lemma process_frame_quiet f s s' : process_frame DecodeFull f s = Ret s' → quiet_view s' = quiet_view s.
Proof.
  unfold process_frame, processSettingsFrame, processPingFrame. destruct f as [sid d e|sid fr e| |sid code|ack set| |ack d|last code debug| | |]; intros Hs;
    try (simplify_eq; done).
  - revert Hs. apply quiet_after, processDataFrame_wire.
  - pose proof (processHeaderFrame_wire sid fr e (cc s)) as Hw.
    destruct (processHeaderFrame DecodeFull sid fr e (cc s)) as [err c]. revert Hs. by apply quiet_after.
  - revert Hs. apply quiet_after, processRSTStreamFrame_wire.
  - destruct ack; [destruct (ackClosed (cc s))|]; simplify_eq; done.
  - destruct ack; [|by simplify_eq]. apply go_bind_inv in Hs as (c & Hc & Hs).
    revert Hs. apply quiet_after. by eapply putPingAck_wire.
  - revert Hs. apply quiet_after. unfold processGoAwayFrame. by rewrite Close_wire, goaway_range_wire.
Qed.

Lemma wire_inv_quiet_view s s' : wire_inv s → quiet_view s' = quiet_view s → wire_inv s'.
Proof.
  intros Hi Hv. unfold quiet_view, wire_of in Hv. simplify_eq. by apply (wire_inv_same s s').
Qed.

Lemma TrySchedule_queue cb s :
  ∃ qs, queue (TrySchedule cb s) = queue s ++ qs ∧ (qs = [] ∨ qs = [cb]) ∧
        threads (TrySchedule cb s) = threads s ∧ ser (TrySchedule cb s) = ser s ∧ cc (TrySchedule cb s) = cc s.
Proof.
  unfold TrySchedule. destruct (ser_closed s).
  - exists []. rewrite app_nil_r. auto.
  - exists [cb]. auto.
Qed.

Lemma wire_inv_sched s s' cb r :
  wire_inv s → (∀ sid, q_tok sid cb = 0%nat) → (∀ s, cb_ok s cb) → s' = set_reader (TrySchedule cb s) r → wire_inv s'.
Proof.
  intros Hi Hq Hok ->. destruct (TrySchedule_queue cb s) as (qs & Hqs & Hor & Ht & Hs & Hc).
  apply (wire_inv_quiet s _ qs); fields; rewrite ?Hc; auto.
  - by apply reqs_le_eq.
  - destruct Hor as [->| ->]; repeat constructor; auto.
  - intros sid. rewrite Ht. destruct Hor as [->| ->]; simpl; rewrite ?Hq; lia.
Qed.

Lemma reader_step_wire rd s s' : wire_inv s → reader_step DecodeFull rd s = Some (Ret s') → wire_inv s'.
Proof.
  intros Hi Hs. unfold reader_step in Hs. destruct (reader s) as [| |[|[id v] rest]|rest| |data| |]; try done.
  - simplify_eq. by apply (wire_inv_same s).
  - destruct (ctx_done (cc s)); [|destruct rd as [f|err]]; injection Hs as Hs.
    + subst s'. exact (wire_inv_quiet_view s _ Hi (after_frame_quiet (Some (ErrNew ErrCanceled)) s)).
    + exact (wire_inv_quiet_view s _ Hi (process_frame_quiet f s s' Hs)).
    + subst s'. exact (wire_inv_quiet_view s _ Hi (after_frame_quiet (Some err) s)).
  - simplify_eq. by apply (wire_inv_same s).
  - destruct (id =? _); simplify_eq; by apply (wire_inv_same s).
  - by destruct (ackClosed (cc s)).
  - injection Hs as <-.
    exact (wire_inv_sched s _ CB_settings_ack R_await Hi (λ _, eq_refl) (λ _, I) eq_refl).
  - injection Hs as <-.
    exact (wire_inv_sched s _ (CB_ping ByReader true data) R_await Hi (λ _, eq_refl) (λ _, I) eq_refl).
Qed.

Lemma set_stream_sse_fields l b s :
  threads (set_stream_sse l b s) = threads s ∧ ser (set_stream_sse l b s) = ser s ∧
  queue (set_stream_sse l b s) = queue s ∧ wire_of (cc (set_stream_sse l b s)) = wire_of (cc s).
Proof. unfold set_stream_sse. by destruct (heap (cc s) !! l). Qed.

(** A thread that moves without scheduling anything. *)
Lemma wire_inv_move s i req ctx ce p ce' p' s1 :
  wire_inv s → threads s !! i = Some (Do req ctx ce p) →
  threads s1 = threads s ∧ ser s1 = ser s ∧ queue s1 = queue s ∧ wire_of (cc s1) = wire_of (cc s) →
  (∀ l sid, p' ≠ D_body l sid) →
  wire_inv (set_thread s1 i (Do req ctx ce' p')).
Proof.
  intros Hi Hti (Ht & Hs & Hq & Hw) Hp. unfold wire_of in Hw. simplify_eq.
  apply (wire_inv_thread s _ i (Do req ctx ce p) (Do req ctx ce' p') []); fields; rewrite ?app_nil_r; auto.
  - by rewrite Ht.
  - intros ? ? ? ? [= -> -> -> ->]. eauto.
  - intros sid. simpl. destruct p'; try lia. by destruct (Hp l sid0).
Qed.

Lemma wire_inv_do_sched s i req ctx ce p p' cb :
  wire_inv s → threads s !! i = Some (Do req ctx ce p) →
  (∀ sid, th_tok sid (Do req ctx ce p') + q_tok sid cb ≤ th_tok sid (Do req ctx ce p))%nat →
  cb_ok (set_thread (TrySchedule cb s) i (Do req ctx ce p')) cb →
  wire_inv (set_thread (TrySchedule cb s) i (Do req ctx ce p')).
Proof.
  intros Hi Hti Htok Hok. destruct (TrySchedule_queue cb s) as (qs & Hqs & Hor & Ht & Hs & Hc).
  apply (wire_inv_thread s _ i (Do req ctx ce p) (Do req ctx ce p') qs); fields; rewrite ?Hc; auto.
  - by rewrite Ht.
  - intros ? ? ? ? [= -> -> -> ->]. eauto.
  - destruct Hor as [->| ->]; repeat constructor; auto.
  - intros sid. specialize (Htok sid). destruct Hor as [->| ->]; simpl in *; lia.
Qed.

Lemma do_step_wire i k req ctx ce p s s' :
  wire_inv s → threads s !! i = Some (Do req ctx ce p) → do_step i k req ctx ce p s = Some s' → wire_inv s'.
Proof.
  intros Hinv Hi Hs. unfold do_step in Hs.
  destruct p as [| | | |l sid|l sid|l sid|r], k; try done.
  - repeat case_match; simplify_eq; by eapply wire_inv_move.
  - destruct (_ <? _); [|done]. simplify_eq. by eapply wire_inv_move.
  - apply bind_Some in Hs as (e & _ & Hs). simplify_eq. by eapply wire_inv_move.
  - destruct (UpgradeFromContext ctx).
    + destruct (load_stream (cc s) 1) as [[l cs]|]; simplify_eq.
      * by eapply wire_inv_move; [..|apply set_stream_sse_fields|].
      * by eapply wire_inv_move.
    + apply bind_Some in Hs as (u & _ & Hs). simplify_eq.
      eapply wire_inv_do_sched; [done..|]. exists req. split; [|unfold has_body; by destruct (RBody req)].
      unfold req_of. fields. unfold TrySchedule. destruct (ser_closed s); cbn [threads set_queue];
        by rewrite list_lookup_insert_eq by (by eapply lookup_lt_Some).
  - apply bind_Some in Hs as (e & _ & Hs). simplify_eq. by eapply wire_inv_move.
  - destruct (RBody req) as [| |[b|e]] eqn:Hb; simplify_eq.
    + by eapply wire_inv_move; [..|apply set_stream_sse_fields|].
    + eapply wire_inv_do_sched; [done|done| |done]. intros sid'. simpl. unfold has_body. rewrite Hb. lia.
    + eapply wire_inv_do_sched; [done|done| |done]. intros sid'. simpl. unfold has_body. rewrite Hb. lia.
    + by eapply wire_inv_move.
  - apply bind_Some in Hs as (cs & _ & Hs). destruct (s_done cs); [|done]. simplify_eq. by eapply wire_inv_move.
  - apply bind_Some in Hs as (e & _ & Hs). simplify_eq. by eapply wire_inv_move.
Qed.

Lemma valid_step_wire i k ce p s s' :
  wire_inv s → threads s !! i = Some (Valid ce p) → valid_step i k ce p s = Some s' → wire_inv s'.
Proof.
  intros Hinv Hi Hs. unfold valid_step, sendRecvPingWithRetries, sendPing, nextRequestKeyLocked in Hs.
  assert (∃ p' s1 qs, s' = set_thread s1 i (Valid ce p') ∧ threads s1 = threads s ∧ ser s1 = ser s ∧
     written (cc s1) = written (cc s) ∧ queue s1 = queue s ++ qs ∧
     Forall (cb_ok s') qs ∧ ∀ sid, sum_list_with (q_tok sid) qs = 0%nat)
    as (p' & s1 & qs & -> & Ht & Hs1 & Hw & Hq & Hqs & Htok).
  { assert (∀ p' s1, threads s1 = threads s ∧ ser s1 = ser s ∧ written (cc s1) = written (cc s) ∧ queue s1 = queue s →
      ∃ p'' s2 qs, set_thread s1 i (Valid ce p') = set_thread s2 i (Valid ce p'') ∧ threads s2 = threads s ∧
        ser s2 = ser s ∧ written (cc s2) = written (cc s) ∧ queue s2 = queue s ++ qs ∧
        Forall (cb_ok (set_thread s1 i (Valid ce p'))) qs ∧ ∀ sid, sum_list_with (q_tok sid) qs = 0%nat) as Hplain.
    { intros p' s1 (? & ? & ? & ?). exists p', s1, []. rewrite app_nil_r. auto 8. }
    destruct p as [|key ch n|key ch n|key ch n|key ch|key|b], k; try done; repeat case_match; simplify_eq;
      try (apply bind_Some in Hs as (? & _ & Hs); simplify_eq); try (by apply Hplain).
    destruct (TrySchedule_queue (CB_ping (ByThread i) false (be_PutUint64 key)) s) as (qs & Hqs & Hor & Ht & Hs & Hc).
    do 2 eexists. exists qs. rewrite Hc. split_and!; try done; destruct Hor as [->| ->]; by repeat constructor. }
  apply (wire_inv_thread s _ i (Valid ce p) (Valid ce p') qs); fields; auto.
  - by rewrite Ht.
  - intros ? ? ? ? [=].
  - intros sid. simpl. rewrite Htok. lia.
Qed.

(** A callback is run: it leaves the queue, and may write. *)
Lemma wire_inv_frame s s' cb q f :
  wire_inv s → queue s = cb :: q → queue s' = q → threads s' = threads s →
  written (cc s') = written (cc s) ++ [f] → ser_ok s' → (∀ sid, ser_tok sid s = 0)%nat →
  (∀ sid, ser_tok sid s' + data_of sid f ≤ q_tok sid cb + open_of sid f)%nat →
  wire_inv s'.
Proof.
  intros [Ht Hp Hc Hs] Hq Hq' Hth Hw Hser' H0 Hle. rewrite Hq in *. apply Forall_cons in Hc as [_ Hc].
  assert (∀ sid, sum_list_with (th_tok sid) (threads s') + sum_list_with (q_tok sid) (queue s') + ser_tok sid s'
     + sum_list_with (data_of sid) (written (cc s')) ≤ sum_list_with (open_of sid) (written (cc s')))%nat as Ht'.
  { intros sid. specialize (Ht sid). specialize (Hle sid). rewrite Hw, Hq', Hth, !sum_app. simpl in *.
    rewrite H0 in Ht. lia. }
  split; [done| | |done].
  - rewrite Hw. apply wire_ok_snoc; [done|]. intros sid. rewrite <- Hw. specialize (Ht' sid). lia.
  - rewrite Hq'. eapply Forall_impl; [exact Hc|]. intros cb'. apply cb_ok_le. by apply reqs_le_eq.
Qed.

(** A callback is run and writes nothing. *)
Lemma wire_inv_drop s s' cb q :
  wire_inv s → queue s = cb :: q → queue s' = q → threads s' = threads s →
  written (cc s') = written (cc s) → ser_ok s' → (∀ sid, ser_tok sid s' = 0)%nat → wire_inv s'.
Proof.
  intros [Ht Hp Hc Hs] Hq Hq' Hth Hw Hser' H0. rewrite Hq in *. apply Forall_cons in Hc as [_ Hc]. split.
  - intros sid. specialize (Ht sid). rewrite Hw, Hq', Hth, H0. simpl in Ht. lia.
  - by rewrite Hw.
  - rewrite Hq'. eapply Forall_impl; [exact Hc|]. intros cb'. apply cb_ok_le. by apply reqs_le_eq.
  - done.
Qed.

Lemma run_callback_wire cb werr s q :
  wire_inv s → queue s = cb :: q → ser s = Ser_idle →
  wire_inv (run_callback EncodeFields cb werr (set_queue s q)).
Proof.
  intros Hi Hq Hidle. assert (∀ sid, ser_tok sid s = 0%nat) as H0 by (intros; unfold ser_tok; by rewrite Hidle).
  pose proof (w_cb s Hi) as Hcb. rewrite Hq in Hcb. apply Forall_cons in Hcb as [Hcb _].
  unfold run_callback. fields. destruct (ctx_done (cc s)).
  { by apply (wire_inv_drop s _ cb q Hi Hq). }
  unfold write_frame. destruct cb as [i fs es|i sid b|w a d|].
  - destruct Hcb as (req & Hr & ->). unfold start_write, encodeHpackHeaders.
    destruct (EncodeFields (encoder (cc s)) fs) as [block e]. destruct werr as [er|].
    + by apply (wire_inv_drop s _ _ q Hi Hq).
    + eapply (wire_inv_frame s _ _ q _ Hi Hq); [reflexivity|reflexivity|reflexivity| |exact H0|].
      * unfold ser_ok. fields. exists req. exact Hr.
      * intros sid. unfold ser_tok. fields. change (req_of _ i) with (req_of s i). rewrite Hr.
        simpl. destruct (has_body req); simpl; lia.
  - assert (wire_inv (let '(e, c) := match werr with Some e => (Some e, cc s)
         | None => (None, with_written (cc s) (written (cc s) ++ [WData sid true b])) end in
         set_ser (set_cc (set_queue s q) c) (Ser_answer (ByThread i) (A_err e)))) as Hw.
    { destruct werr as [er|].
      - by apply (wire_inv_drop s _ _ q Hi Hq).
      - eapply (wire_inv_frame s _ _ q _ Hi Hq); [reflexivity|reflexivity|reflexivity|done|exact H0|].
        intros sid'. simpl. lia. }
    destruct (threads s !! i) as [[? ? [e|] ?|]|]; try exact Hw.
    by apply (wire_inv_drop s _ _ q Hi Hq).
  - destruct werr as [er|].
    + apply (wire_inv_drop s _ _ q Hi Hq); try reflexivity; by destruct w.
    + eapply (wire_inv_frame s _ _ q _ Hi Hq); [reflexivity|reflexivity|reflexivity|by destruct w|exact H0|].
      intros sid'. simpl. destruct w; cbn; lia.
  - destruct werr as [er|].
    + by apply (wire_inv_drop s _ _ q Hi Hq).
    + eapply (wire_inv_frame s _ _ q _ Hi Hq); [reflexivity|reflexivity|reflexivity|done|exact H0|].
      intros sid'. simpl. lia.
Qed.

(** The serializer moves and nothing else. *)
Lemma wire_inv_ser s s' :
  wire_inv s → threads s' = threads s → queue s' = queue s → written (cc s') = written (cc s) →
  (∀ sid, ser_tok sid s' ≤ ser_tok sid s)%nat → ser_ok s' → wire_inv s'.
Proof.
  intros [Ht Hp Hc Hok] Hth Hq Hw Hle Hok'. split; rewrite ?Hth, ?Hq, ?Hw; auto.
  - intros sid. specialize (Ht sid). specialize (Hle sid). lia.
  - eapply Forall_impl; [exact Hc|]. intros cb. apply cb_ok_le. by apply reqs_le_eq.
Qed.

Lemma ser_step_wire werr s s' : wire_inv s → ser_step EncodeFields werr s = Some s' → wire_inv s'.
Proof.
  intros Hi Hs. unfold ser_step in Hs. destruct (ser s) as [|i sid|w a|] eqn:Hser; try done.
  - destruct (queue s) as [|cb q] eqn:Hq.
    + destruct (ser_closed s); [|done]. simplify_eq. apply (wire_inv_ser s _ Hi);
        [reflexivity|reflexivity|reflexivity|intros sid; cbn; lia|done].
    + simplify_eq. by apply run_callback_wire.
  - cbn in Hs. simplify_eq. apply (wire_inv_ser s _ Hi); [reflexivity|reflexivity|reflexivity| |].
    + intros sid'. unfold ser_tok. rewrite Hser. done.
    + pose proof (w_ser s Hi) as Hok. unfold ser_ok in *. by rewrite Hser in Hok.
Qed.

(** An answer is delivered: the serializer is idle again. *)
Lemma wire_inv_deliver s s' i t t' l :
  wire_inv s → ser s' = Ser_idle → threads s !! i = Some t → threads s' = <[i := t']> (threads s) →
  (∀ req ctx ce p, t = Do req ctx ce p → ∃ ctx' ce' p', t' = Do req ctx' ce' p') →
  written (cc s') = written (cc s) → queue s' = queue s →
  (∀ sid, th_tok sid t' ≤ th_tok sid t + l sid ∧ l sid ≤ ser_tok sid s)%nat → wire_inv s'.
Proof.
  intros [Ht Hp Hc Hok] Hser Hti Hth Hreq Hw Hq Htok. split.
  - intros sid. specialize (Ht sid). destruct (Htok sid).
    pose proof (sum_insert (th_tok sid) i t t' _ Hti). rewrite Hw, Hq, Hth. unfold ser_tok at 1. rewrite Hser. lia.
  - by rewrite Hw.
  - rewrite Hq. eapply Forall_impl; [exact Hc|]. intros cb. apply cb_ok_le. by eapply reqs_le_insert.
  - unfold ser_ok. by rewrite Hser.
Qed.

Lemma deliver_wire s s' : wire_inv s → deliver s = Some s' → wire_inv s'.
Proof.
  intros Hi Hs. unfold deliver in Hs. destruct (ser s) as [|i sid|[i|] a|] eqn:Hser; try done.
  - destruct (threads s !! i) as [t|] eqn:Hti; [|done].
    assert (∀ sid, 0 ≤ ser_tok sid s)%nat as H0 by (intros; lia).
    destruct t as [req ctx ce p|ce p].
    + assert (∀ p' s1, ser s1 = Ser_idle → threads s1 = threads s → written (cc s1) = written (cc s) →
               queue s1 = queue s → (∀ l sid, p' ≠ D_body l sid) →
               wire_inv (set_thread s1 i (Do req ctx ce p'))) as Hret.
      { intros p' s1 H1 H2 H3 H4 Hp.
        apply (wire_inv_deliver s _ i (Do req ctx ce p) (Do req ctx ce p') (λ _, 0%nat) Hi); fields; auto.
        - by rewrite H2.
        - intros ? ? ? ? [= -> -> -> ->]. eauto.
        - intros sid. split; [|lia]. simpl. destruct p'; try lia. by destruct (Hp l sid0). }
      destruct p as [| | | |l sid|l sid|l sid|r]; try done; destruct a as [l' sid'|[e|]]; try done; simplify_eq.
      * apply (wire_inv_deliver s (set_thread (set_ser s Ser_idle) i (Do req ctx ce (D_body l' sid')))
                 i _ (Do req ctx ce (D_body l' sid')) (λ sid, ser_tok sid s) Hi eq_refl Hti eq_refl);
          [|reflexivity|reflexivity|].
        -- intros ? ? ? ? [= -> -> ->]. eauto.
        -- intros sid. split; [|lia]. unfold ser_tok. rewrite Hser. unfold req_of. rewrite Hti. simpl. lia.
      * by apply Hret.
      * by apply Hret.
      * destruct (set_stream_sse_fields l (isSSE req) (set_ser s Ser_idle)) as (? & ? & ? & Hw).
        unfold wire_of in Hw. injection Hw as Hw _. by apply Hret.
    + assert (∀ p' s1, ser s1 = Ser_idle → threads s1 = threads s → written (cc s1) = written (cc s) →
               queue s1 = queue s → wire_inv (set_thread s1 i (Valid ce p'))) as Hret.
      { intros p' s1 H1 H2 H3 H4.
        apply (wire_inv_deliver s _ i (Valid ce p) (Valid ce p') (λ _, 0%nat) Hi); fields; auto.
        - by rewrite H2.
        - intros ? ? ? ? [=]. }
      destruct p; try done; destruct a as [l' sid'|[e|]]; try done; simplify_eq; by apply Hret.
  - destruct a as [|e]; [done|]. destruct (reader s); try done. injection Hs as <-.
    eapply wire_inv_quiet_view; [|apply after_frame_quiet].
    apply (wire_inv_ser s _ Hi);
      [reflexivity|reflexivity|reflexivity|intros sid; cbn; lia|done].
Qed.

Lemma step_wire ch s s' : wire_inv s → step DecodeFull EncodeFields ch s = Some (Ret s') → wire_inv s'.
Proof.
  intros Hinv Hs. destruct ch as [req ctx| | |i e|i k|werr| | |rd|k]; cbn [step] in Hs.
  - destruct (dial s); try done. simplify_eq. apply (wire_inv_quiet s _ []); fields; rewrite ?app_nil_r; auto.
    + by eapply reqs_le_app.
    + intros sid. rewrite sum_app. simpl. lia.
  - destruct (dial s); try done. simplify_eq. apply (wire_inv_quiet s _ []); fields; rewrite ?app_nil_r; auto.
    + by eapply reqs_le_app.
    + intros sid. rewrite sum_app. simpl. lia.
  - destruct (dial s); try done. simplify_eq. eapply wire_inv_quiet_view; [done|].
    apply quiet_set_cc, Close_wire.
  - apply bind_Some in Hs as (t & Hi & Hs). simplify_eq.
    eapply (wire_inv_thread s _ i t _ []); fields; rewrite ?app_nil_r; auto.
    + intros req ctx ce p ->. destruct ce; eauto.
    + intros sid. destruct t as [? ? [?|] ?|[?|] ?]; simpl; lia.
  - apply bind_Some in Hs as (t & Hi & Hs). destruct t as [req ctx ce p|ce p].
    + destruct (do_step i k req ctx ce p s) eqn:Hd; [|done]. cbn in Hs. simplify_eq. by eapply do_step_wire.
    + destruct (valid_step i k ce p s) eqn:Hd; [|done]. cbn in Hs. simplify_eq. by eapply valid_step_wire.
  - destruct (ser_step EncodeFields werr s) eqn:Hd; [|done]. cbn in Hs. simplify_eq. by eapply ser_step_wire.
  - unfold ser_close in Hs. destruct (_ && _); [|done]. cbn in Hs. simplify_eq. by apply (wire_inv_same s).
  - destruct (deliver s) eqn:Hd; [|done]. cbn in Hs. simplify_eq. by eapply deliver_wire.
  - by eapply reader_step_wire.
  - unfold dial_step in Hs. destruct (dial s); cbn in Hs; try done.
    destruct k; repeat case_match; cbn in Hs; simplify_eq; try (by apply (wire_inv_same s)).
    eapply wire_inv_quiet_view; [done|]. pose proof (Close_wire (cc s)) as Hw. unfold quiet_view. cbn. by rewrite Hw.
Qed.

(** ** Stream identifiers *)

Definition hdr_id (f : wframe) : option Z := match f with WHeaders sid _ _ => Some sid | _ => None end.
Definition hdr_ids (w : list wframe) : list Z := omap hdr_id w.

(** How one step may change what is written. *)
Definition wire_step c c' : Prop :=
  wire_of c' = wire_of c ∨
  (∃ f, hdr_id f = None ∧ wire_of c' = (written c ++ [f], streamIdGen c)) ∨
  (∃ w, wire_of c' = (written c ++ w, u32 (streamIdGen c + 2)) ∧
        (w = [] ∨ ∃ b es, w = [WHeaders (u32 (u32 (streamIdGen c + 2) - 1)) b es])).

Lemma do_step_wire_of i k req ctx ce p s s' :
  do_step i k req ctx ce p s = Some s' → wire_of (cc s') = wire_of (cc s).
Proof.
  assert (∀ l b i t, wire_of (cc (set_thread (set_stream_sse l b s) i t)) = wire_of (cc s)) as Hsse.
  { intros l b j t. by destruct (set_stream_sse_fields l b s) as (_ & _ & _ & <-). }
  assert (∀ cb i t, wire_of (cc (set_thread (TrySchedule cb s) i t)) = wire_of (cc s)) as Htry.
  { intros cb j t. unfold TrySchedule. by destruct (ser_closed s). }
  unfold do_step. intros Hs. destruct p as [| | | |l sid|l sid|l sid|r], k; try done;
    try (apply bind_Some in Hs as (? & _ & Hs)); repeat case_match; simplify_eq;
    first [apply Hsse | apply Htry | reflexivity | idtac].
  all: apply bind_Some in Hs as (? & _ & Hs); simplify_eq; apply Htry.
Qed.

Lemma valid_step_wire_of i k ce p s s' :
  valid_step i k ce p s = Some s' → wire_of (cc s') = wire_of (cc s).
Proof.
  assert (∀ cb i t, wire_of (cc (set_thread (TrySchedule cb s) i t)) = wire_of (cc s)) as Htry.
  { intros cb j t. unfold TrySchedule. by destruct (ser_closed s). }
  unfold valid_step, sendRecvPingWithRetries, sendPing, nextRequestKeyLocked. intros Hs.
  destruct p as [|key ch n|key ch n|key ch n|key ch|key|b], k; try done;
    try (apply bind_Some in Hs as (? & _ & Hs)); repeat case_match; simplify_eq;
    first [apply Htry | reflexivity].
Qed.

Lemma deliver_wire_of s s' : deliver s = Some s' → wire_of (cc s') = wire_of (cc s).
Proof.
  unfold deliver. intros Hs. destruct (ser s) as [|i sid|[i|] a|]; try done.
  - destruct (threads s !! i) as [[req ctx ce p|ce p]|]; [..|done];
      destruct p, a as [?|[?|]]; try done; simplify_eq; try done.
    exact (proj2 (proj2 (proj2 (set_stream_sse_fields _ _ (set_ser s Ser_idle))))).
  - destruct a as [|e]; [done|]. destruct (reader s); try done. injection Hs as <-.
    exact (quiet_wire (set_ser s Ser_idle) _ (after_frame_quiet e (set_ser s Ser_idle))).
Qed.

Lemma ser_step_wire_step werr s s' : ser_step EncodeFields werr s = Some s' → wire_step (cc s) (cc s').
Proof.
  unfold ser_step. intros Hs. destruct (ser s) as [|i sid|w a|]; try done; [|cbn in Hs; simplify_eq; by left].
  destruct (queue s) as [|cb q]; [destruct (ser_closed s); [|done]; simplify_eq; by left|].
  injection Hs as <-. unfold run_callback. fields. destruct (ctx_done (cc s)); [by left|].
  unfold write_frame. destruct cb as [i fs es|i sid b|w a d|].
  - unfold start_write, encodeHpackHeaders. destruct (EncodeFields (encoder (cc s)) fs) as [block e].
    destruct werr as [er|]; right; right.
    + exists []. rewrite app_nil_r. by split; [|left].
    + eexists. split; [reflexivity|]. right. eauto.
  - destruct (threads s !! i) as [[? ? [e|] ?|]|]; try (by left);
      (destruct werr; [by left|right; left; by eexists (WData sid true b)]).
  - destruct werr; [by left|right; left; by eexists (WPing a d)].
  - destruct werr; [by left|right; left; by exists WSettingsAck].
Qed.

Lemma reader_step_wire_of rd s s' :
  reader_step DecodeFull rd s = Some (Ret s') → wire_of (cc s') = wire_of (cc s).
Proof.
  unfold reader_step. intros Hs. destruct (reader s) as [| |[|[id v] rest]|rest| |data| |]; try done.
  - by simplify_eq.
  - destruct (ctx_done (cc s)); [by simplify_eq|]. destruct rd as [f|err]; injection Hs as Hs.
    + exact (quiet_wire _ _ (process_frame_quiet f s s' Hs)).
    + subst s'. exact (quiet_wire s _ (after_frame_quiet (Some err) s)).
  - by simplify_eq.
  - by destruct (id =? _); simplify_eq.
  - by destruct (ackClosed (cc s)).
  - injection Hs as <-. unfold TrySchedule. by destruct (ser_closed s).
  - injection Hs as <-. unfold sendPing, TrySchedule. by destruct (ser_closed s).
Qed.

Lemma step_wire_step ch s s' : step DecodeFull EncodeFields ch s = Some (Ret s') → wire_step (cc s) (cc s').
Proof.
  intros Hs. destruct ch as [req ctx| | |i e|i k|werr| | |rd|k]; cbn [step] in Hs.
  - destruct (dial s); try done. simplify_eq. by left.
  - destruct (dial s); try done. simplify_eq. by left.
  - destruct (dial s); try done. simplify_eq. left. apply Close_wire.
  - apply bind_Some in Hs as (t & Hi & Hs). simplify_eq. by left.
  - apply bind_Some in Hs as (t & Hi & Hs). left. destruct t as [req ctx ce p|ce p].
    + destruct (do_step i k req ctx ce p s) eqn:Hd; [|done]. cbn in Hs. simplify_eq. by eapply do_step_wire_of.
    + destruct (valid_step i k ce p s) eqn:Hd; [|done]. cbn in Hs. simplify_eq. by eapply valid_step_wire_of.
  - destruct (ser_step EncodeFields werr s) eqn:Hd; [|done]. cbn in Hs. simplify_eq. by eapply ser_step_wire_step.
  - unfold ser_close in Hs. destruct (_ && _); [|done]. cbn in Hs. simplify_eq. by left.
  - destruct (deliver s) eqn:Hd; [|done]. cbn in Hs. simplify_eq. left. by apply deliver_wire_of.
  - left. by eapply reader_step_wire_of.
  - left. unfold dial_step in Hs. destruct (dial s); cbn in Hs; try done.
    destruct k; repeat case_match; cbn in Hs; simplify_eq; try done. apply Close_wire.
Qed.

Record ids_inv (n : Z) c : Prop := IdsInv {
  ids_gen : ∃ k, streamIdGen c = 2 * k ∧ 0 ≤ k ≤ n;
  ids_sorted : StronglySorted Z.lt (hdr_ids (written c));
  ids_range : Forall (λ id, Z.odd id = true ∧ 0 < id < streamIdGen c) (hdr_ids (written c))
}.

Lemma hdr_ids_app w1 w2 : hdr_ids (w1 ++ w2) = hdr_ids w1 ++ hdr_ids w2.
Proof. apply omap_app. Qed.

Lemma StronglySorted_snoc l x : StronglySorted Z.lt l → Forall (λ y, y < x) l → StronglySorted Z.lt (l ++ [x]).
Proof.
  induction l as [|y l IH]; intros Hs Hf; [by repeat constructor|].
  apply StronglySorted_inv in Hs as [Hs Hy]. apply Forall_cons in Hf as [Hyx Hf]. cbn. constructor.
  - by apply IH.
  - apply Forall_app_2; [done|]. by apply Forall_singleton.
Qed.

Lemma ids_step n c c' : ids_inv n c → 0 ≤ n → 2 * (n + 1) < 2 ^ 32 → wire_step c c' → ids_inv (n + 1) c'.
Proof.
  intros [(k & Hk & Hkn) Hs Hr] Hn Hmax [Hw|[(f & Hf & Hw)|(w & Hw & Hor)]]; unfold wire_of in Hw; injection Hw as H1 H0.
  - split; rewrite ?H0, ?H1; [exists k; lia|done|done].
  - split; rewrite ?H0, ?H1, ?hdr_ids_app; cbn; rewrite ?Hf, ?app_nil_r; [exists k; lia|done|done].
  - assert (u32 (streamIdGen c + 2) = 2 * (k + 1)) as Hu by (rewrite Hk, u32_id; lia).
    split; rewrite ?H0, ?H1, ?Hu.
    + exists (k + 1). lia.
    + destruct Hor as [->|(b & es & ->)]; [by rewrite app_nil_r|]. rewrite hdr_ids_app, Hu. cbn.
      rewrite u32_id by lia. apply StronglySorted_snoc; [done|]. eapply Forall_impl; [exact Hr|]. cbn. lia.
    + assert (Forall (λ id, Z.odd id = true ∧ 0 < id < 2 * (k + 1)) (hdr_ids (written c))) as Hr'.
      { eapply Forall_impl; [exact Hr|]. cbn. rewrite Hk. intros id [? ?]. split; [done|lia]. }
      destruct Hor as [->|(b & es & ->)]; [by rewrite app_nil_r|]. rewrite hdr_ids_app, Hu. cbn.
      apply Forall_app_2; [done|]. apply Forall_singleton. rewrite u32_id by lia. split; [|lia].
      replace (2 * (k + 1) - 1) with (1 + 2 * k) by lia. by rewrite Z.odd_add_mul_2.
Qed.

(** ** Reachable states *)

(** The connections [dialContext] starts from. *)
Definition dialled {C} (dopts : dialOptions C) c : Prop :=
  ∃ e d, dial_begin dopts None None e d = (c, None).

Lemma dialled_ok {C} (dopts : dialOptions C) c : dialled dopts c →
  ids_inv 1 c ∧ wire_inv (start c) ∧ sem_inv (start c) ∧ hdr_ids (written c) = [].
Proof.
  intros (e & d & Hd). unfold dial_begin in Hd.
  destruct (sendPreface dopts), (h2cUpgrade dopts); cbn in Hd; simplify_eq; (split_and!; [split|split|split|done]); cbn;
    try (by left); try (by right); try (by constructor); try (by exists 0; lia);
    try (intros sid; cbn; lia); try (by exists 1; rewrite u32_id; lia).
  all: try (intros w1 w2 sid Hw; destruct w1 as [|f1 [|f2 w1]]; cbn in Hw; simplify_eq; simpl; try lia;
            destruct w1; simplify_eq; simpl; lia).
Qed.

Lemma run_go_Ret_ind (P : nat → sys D E → Prop) s0 :
  P 0%nat s0 →
  (∀ n ch s s', P n s → step DecodeFull EncodeFields ch s = Some (Ret s') → P (S n) s') →
  ∀ cs s, run DecodeFull EncodeFields cs s0 = Some (Ret s) → P (length cs) s.
Proof.
  intros H0 Hstep cs. unfold run.
  assert (∀ n s1 s, P n s1 → run_go (step DecodeFull EncodeFields) cs s1 = Some (Ret s) → P (n + length cs)%nat s) as Hgen.
  { induction cs as [|ch cs IH]; intros n s1 s Hn Hr; cbn in Hr.
    - simplify_eq. by rewrite Nat.add_0_r.
    - apply bind_Some in Hr as (r & Hs & Hr). destruct r as [s2| |]; [|done..].
      cbn [length]. rewrite <- Nat.add_succ_comm. eauto. }
  intros s. by apply (Hgen 0%nat).
Qed.
End Facts.
End HttpFacts.
