(* ===== verification/HttpConnSpec.v ===== *)
(** * Pings, responses and failures of the HTTP/2 connection

    About files [HttpConn] and [HttpSys], with the lemmas of [HttpSysSpec]:
    which pings an acknowledgement answers, the response put together from the
    frames of a stream, and the theorems on the whole system. *)
From Stdlib Require Import Sorted.
From S2P Require Import Prelude Errors NetAddr NetText Bytespool IO Wire Http2Frames Protobuf TcpClient Http2Client.
From S2P Require Import TasksSpec HttpText HttpConn HttpSys HttpSysSpec.

(** [Uint64] inverts [PutUint64]. *)
Lemma be_Uint64_PutUint64 v : 0 ≤ v < 2 ^ 64 → HttpConn.be_Uint64 (HttpConn.be_PutUint64 v) = v.
Proof.
  intros Hv. unfold HttpConn.be_Uint64, HttpConn.be_PutUint64.
  assert (reverse ((λ k, u8 (Z.shiftr v k)) <$> [56; 48; 40; 32; 24; 16; 8; 0]) = le_bytes 8 v) as ->.
  { cbn [reverse rev_append fmap list_fmap le_bytes]. rewrite !u8_eq, !shiftr_div by lia.
    rewrite Z.pow_0_r, Z.div_1_r, !Z.div_div by lia. reflexivity. }
  apply le_value_bytes. exact Hv.
Qed.

Module PingFacts.
Import HttpConn HttpSys.
Section Facts.
Context {D E : Type}.
Context (DecodeFull : D → bytes → (list HeaderField + error) * D).
Context (EncodeFields : E → list HeaderField → bytes * E).
Implicit Types (s : sys D E) (c : clientConn D E).

Definition fresh_chan : pingChan := mkPingChan None false.

(** Every ping that waits has a channel of its own, empty and open. *)
Record pings_ok c : Prop := PingsOk {
  p_fresh : map_Forall (λ _ ch, pings c !! ch = Some fresh_chan) (pingRequests c);
  p_inj : ∀ k k' ch, pingRequests c !! k = Some ch → pingRequests c !! k' = Some ch → k = k'
}.

(** *** The acknowledgement loop *)

Lemma ack_loop_spec es key c :
  pings_ok c → NoDup es.*1 → (∀ k ch, (k, ch) ∈ es → pingRequests c !! k = Some ch) →
  ∃ c', ack_loop es key c = Ret c' ∧ pings_ok c' ∧
    (∀ k ch, (k, ch) ∈ es → key ≤ k →
       pingRequests c' !! k = None ∧ pings c' !! ch = Some (mkPingChan (Some key) true)) ∧
    (∀ k, k < key ∨ k ∉ es.*1 → pingRequests c' !! k = pingRequests c !! k) ∧
    (∀ ch, (∀ k, (k, ch) ∈ es → k < key) → pings c' !! ch = pings c !! ch).
Proof.
  revert c. induction es as [|[k ch] es IH]; intros c Hok Hnd Hin.
  - exists c. split; [done|]. split; [done|]. split; [|done]. intros k ch Hx. inversion Hx.
  - rewrite fmap_cons in Hnd. apply NoDup_cons in Hnd as [Hk Hnd]. cbn [ack_loop fst] in *.
    assert (pingRequests c !! k = Some ch) as Hkc by (apply Hin; by left).
    assert (∀ k' ch', (k', ch') ∈ es → k' ≠ k) as Hne.
    { intros k' ch' Hx ->. apply Hk. apply list_elem_of_fmap. by exists (k, ch'). }
    destruct (key <=? k) eqn:Hle; bool_hyps.
    + rewrite (p_fresh c Hok k ch Hkc). cbn [answer_ping fresh_chan pc_closed pc_val mbind go_bind].
      set (c1 := with_pings c (delete k (pingRequests c)) (<[ch:=mkPingChan (Some key) true]> (pings c)) (nextRequest c)).
      assert (∀ k' ch', pingRequests c1 !! k' = Some ch' → ch' ≠ ch ∧ pingRequests c !! k' = Some ch') as Hc1.
      { intros k' ch' Hl. cbn in Hl. apply lookup_delete_Some in Hl as [Hkk Hl]. split; [|done].
        intros ->. by apply Hkk, (p_inj c Hok _ _ ch). }
      assert (pings_ok c1) as Hok1.
      { split.
        - intros k' ch' Hl. destruct (Hc1 _ _ Hl) as [Hch Hl']. cbn.
          rewrite list_lookup_insert_ne by congruence. by apply (p_fresh c Hok k').
        - intros k1 k2 ch' H1 H2. by apply (p_inj c Hok k1 k2 ch'); eapply Hc1. }
      destruct (IH c1) as (c' & Hc' & Hok' & Hans & Hkeep & Hpk); [done|done| |].
      { intros k' ch' Hx. cbn. rewrite lookup_delete_ne by (symmetry; by eapply Hne).
        apply Hin. by right. }
      exists c'. split; [done|]. split; [done|]. split_and!.
      * intros k' ch' [[= -> ->]|Hx]%elem_of_cons Hkey; [|by apply Hans].
        split.
        -- rewrite Hkeep by auto. cbn. apply lookup_delete_eq.
        -- rewrite Hpk; [cbn; apply list_lookup_insert_eq|].
           ++ eapply lookup_lt_Some. by apply (p_fresh c Hok k ch).
           ++ intros k' Hx. assert (pingRequests c !! k' = Some ch) as Hk' by (apply Hin; by right).
              destruct (Hne _ _ Hx). by apply (p_inj c Hok _ _ ch).
      * intros k' Hor. rewrite Hkeep.
        -- cbn. apply lookup_delete_ne. intros ->. destruct Hor as [?|Hn]; [lia|]. apply Hn. by left.
        -- destruct Hor as [?|Hn]; [by left|right]. intros Hx. apply Hn. by right.
      * intros ch' Hlt. rewrite Hpk.
        -- cbn. apply list_lookup_insert_ne. intros <-. assert (k < key) by (apply (Hlt k); by left). lia.
        -- intros k' Hx. apply (Hlt k'). by right.
    + destruct (IH c) as (c' & Hc' & Hok' & Hans & Hkeep & Hpk); [done|done| |].
      { intros k' ch' Hx. apply Hin. by right. }
      exists c'. split; [done|]. split; [done|]. split_and!.
      * intros k' ch' [[= -> ->]|Hx]%elem_of_cons Hkey; [lia|by apply Hans].
      * intros k' Hor. apply Hkeep. destruct Hor as [?|Hn]; [by left|right]. intros Hx. apply Hn. by right.
      * intros ch' Hlt. apply Hpk. intros k' Hx. apply (Hlt k'). by right.
Qed.

(** What an acknowledgement with key [key] makes of the waiting pings. *)
Definition acked_pings (key : Z) c c' : Prop :=
  ∀ k ch, pingRequests c !! k = Some ch →
    if key <=? k
    then pingRequests c' !! k = None ∧ pings c' !! ch = Some (mkPingChan (Some key) true)
    else pingRequests c' !! k = Some ch ∧ pings c' !! ch = Some fresh_chan.

Lemma putPingAck_spec data c :
  pings_ok c → closed c = false →
  ∃ c', putPingAck data c = Ret c' ∧ pings_ok c' ∧ acked_pings (be_Uint64 data) c c'.
Proof.
  intros Hok Hcl. unfold putPingAck, putPingAckLocked. rewrite Hcl.
  assert (∃ c', ack_loop (map_to_list (pingRequests c)) (be_Uint64 data) c = Ret c' ∧ pings_ok c' ∧
            acked_pings (be_Uint64 data) c c') as (c' & Hc' & Hok' & Hack).
  { destruct (ack_loop_spec (map_to_list (pingRequests c)) (be_Uint64 data) c Hok) as (c' & Hc' & Hok' & Ha & Hk & Hp).
    - apply NoDup_fst_map_to_list.
    - intros k ch. apply elem_of_map_to_list.
    - exists c'. split; [done|]. split; [done|]. intros k ch Hl. destruct (_ <=? k) eqn:Hle; bool_hyps.
      + apply Ha; [|done]. by apply elem_of_map_to_list.
      + rewrite Hk by auto. split; [done|]. rewrite Hp; [by apply (p_fresh c Hok k)|].
        intros k' Hx. apply elem_of_map_to_list in Hx. by rewrite (p_inj c Hok k' k ch). }
  destruct (map_to_list (pingRequests c)) as [|e es].
  - cbn in *. simplify_eq. eauto.
  - rewrite Hc'. cbn. eauto.
Qed.

(** *** The invariant *)

Definition ping_of c := (pingRequests c, pings c).

Lemma pings_ok_eq c c' : ping_of c' = ping_of c → pings_ok c → pings_ok c'.
Proof. unfold ping_of. intros Heq [Hf Hi]. injection Heq as H1 H2. split; rewrite H1, ?H2; done. Qed.

Lemma pings_ok_delete c k n : pings_ok c → pings_ok (with_pings c (delete k (pingRequests c)) (pings c) n).
Proof.
  intros [Hf Hi]. split; cbn.
  - intros k' ch Hl. apply lookup_delete_Some in Hl as [_ Hl]. by apply (Hf k').
  - intros k1 k2 ch H1 H2. apply lookup_delete_Some in H1 as [_ H1], H2 as [_ H2]. by apply (Hi k1 k2 ch).
Qed.

Lemma pings_ok_register c k n :
  pings_ok c → pings_ok (with_pings c (<[k := length (pings c)]> (pingRequests c)) (pings c ++ [fresh_chan]) n).
Proof.
  intros [Hf Hi].
  assert (∀ k' ch, pingRequests c !! k' = Some ch → (ch < length (pings c))%nat) as Hlt
    by (intros k' ch Hl; eapply lookup_lt_Some; by apply (Hf k')).
  split; cbn.
  - intros k' ch Hl. apply lookup_insert_Some in Hl as [[_ <-]|[_ Hl]]; [by rewrite list_lookup_middle|].
    rewrite lookup_app_l by (by eapply Hlt). by apply (Hf k').
  - intros k1 k2 ch H1 H2. apply lookup_insert_Some in H1 as [[<- <-]|[Hn1 H1]], H2 as [[<- Hx]|[Hn2 H2]]; try done.
    + apply Hlt in H2. lia.
    + subst ch. apply Hlt in H1. lia.
    + by apply (Hi k1 k2 ch).
Qed.

Lemma Close_ping c : ping_of (Close c) = ping_of c.
Proof. unfold Close. by destruct (closed c). Qed.
Lemma goaway_range_ping es code debug c : ping_of (goaway_range es code debug c) = ping_of c.
Proof. revert c. induction es as [|[k l] es IH]; intros c; cbn; [done|]. destruct (heap c !! l); by rewrite IH. Qed.
Lemma set_stream_sse_ping l b s : ping_of (cc (set_stream_sse l b s)) = ping_of (cc s).
Proof. unfold set_stream_sse. by destruct (heap (cc s) !! l). Qed.
Lemma TrySchedule_ping cb s : ping_of (cc (TrySchedule cb s)) = ping_of (cc s).
Proof. unfold TrySchedule. by destruct (ser_closed s). Qed.
Lemma after_frame_ping e s : ping_of (cc (after_frame e s)) = ping_of (cc s).
Proof. unfold after_frame. destruct e as [e|]; [|done]. by destruct (Is EOF e). Qed.

Definition pings_inv s : Prop := pings_ok (cc s).

Lemma do_step_ping i k req ctx ce p s s' :
  do_step i k req ctx ce p s = Some s' → ping_of (cc s') = ping_of (cc s).
Proof.
  assert (∀ l b i t, ping_of (cc (set_thread (set_stream_sse l b s) i t)) = ping_of (cc s)) as Hsse
    by (intros; apply set_stream_sse_ping).
  assert (∀ cb i t, ping_of (cc (set_thread (TrySchedule cb s) i t)) = ping_of (cc s)) as Htry
    by (intros; apply TrySchedule_ping).
  unfold do_step. intros Hs. destruct p as [| | | |l sid|l sid|l sid|r], k; try done;
    try (apply bind_Some in Hs as (? & _ & Hs)); repeat case_match; simplify_eq;
    first [apply Hsse | apply Htry | reflexivity | idtac].
  all: apply bind_Some in Hs as (? & _ & Hs); simplify_eq; apply Htry.
Qed.

Lemma valid_step_ping i k ce p s s' : pings_inv s → valid_step i k ce p s = Some s' → pings_inv s'.
Proof.
  intros Hok. unfold valid_step, sendRecvPingWithRetries, sendPing, nextRequestKeyLocked, pings_inv in *. intros Hs.
  destruct p as [|key ch n|key ch n|key ch n|key ch|key|b], k; try done.
  - destruct (closed (cc s)); simplify_eq; [done|]. cbn.
    exact (pings_ok_register (cc s) (nextRequest (cc s)) (u64 (nextRequest (cc s) + 1)) Hok).
  - destruct (_ <? _)%nat; simplify_eq; [|done]. revert Hok. apply pings_ok_eq, TrySchedule_ping.
  - repeat case_match; by simplify_eq.
  - apply bind_Some in Hs as (? & _ & Hs). by simplify_eq.
  - by simplify_eq.
  - repeat case_match; by simplify_eq.
  - apply bind_Some in Hs as (? & _ & Hs). simplify_eq. by apply pings_ok_delete.
  - simplify_eq. by apply pings_ok_delete.
Qed.

Lemma ser_step_ping werr s s' : ser_step EncodeFields werr s = Some s' → ping_of (cc s') = ping_of (cc s).
Proof.
  unfold ser_step. intros Hs. destruct (ser s) as [|i sid|w a|]; try done; [|by cbn in Hs; simplify_eq].
  destruct (queue s) as [|cb q]; [by destruct (ser_closed s); simplify_eq|].
  injection Hs as <-. unfold run_callback, write_frame, start_write, encodeHpackHeaders.
  repeat case_match; simplify_eq; done.
Qed.

Lemma deliver_ping s s' : deliver s = Some s' → ping_of (cc s') = ping_of (cc s).
Proof.
  unfold deliver. intros Hs. destruct (ser s) as [|i sid|[i|] a|]; try done.
  - destruct (threads s !! i) as [[req ctx ce p|ce p]|]; [..|done];
      destruct p, a as [?|[?|]]; try done; simplify_eq; try done.
    exact (set_stream_sse_ping _ _ (set_ser s Ser_idle)).
  - destruct a as [|e]; [done|]. destruct (reader s); try done. injection Hs as <-.
    exact (after_frame_ping e (set_ser s Ser_idle)).
Qed.

Lemma process_frame_ping f s s' :
  pings_inv s → process_frame DecodeFull f s = Ret s' → pings_inv s'.
Proof.
  unfold pings_inv. intros Hok Hs. unfold process_frame, processSettingsFrame, processPingFrame in Hs.
  assert (∀ e c, pings_ok c → Ret (after_frame e (set_cc s c)) = Ret s' → pings_ok (cc s')) as Haf.
  { intros e c Hc Heq. assert (s' = after_frame e (set_cc s c)) as -> by congruence.
    eapply pings_ok_eq; [apply after_frame_ping|done]. }
  destruct f as [sid d e|sid fr e| |sid code|ack set| |ack d|last code debug| | |]; try (by simplify_eq).
  - eapply Haf, Hs. revert Hok. apply pings_ok_eq. unfold processDataFrame. by destruct (load_stream (cc s) sid) as [[? ?]|].
  - destruct (processHeaderFrame DecodeFull sid fr e (cc s)) as [err c] eqn:Hp. eapply Haf, Hs.
    revert Hok. apply pings_ok_eq. unfold processHeaderFrame in Hp. repeat case_match; by simplify_eq.
  - eapply Haf, Hs. revert Hok. apply pings_ok_eq. unfold processRSTStreamFrame.
    by destruct (load_stream (cc s) sid) as [[? ?]|].
  - destruct ack; [destruct (ackClosed (cc s)); [done|]|injection Hs as <-; exact Hok].
    eapply Haf, Hs. revert Hok. by apply pings_ok_eq.
  - destruct ack; [|injection Hs as <-; exact Hok]. apply go_bind_inv in Hs as (c & Hc & Hs). eapply Haf, Hs.
    destruct (closed (cc s)) eqn:Hcl.
    + unfold putPingAck, putPingAckLocked in Hc. rewrite Hcl in Hc. cbn in Hc. by simplify_eq.
    + destruct (putPingAck_spec d (cc s) Hok Hcl) as (c' & Hc' & Hok' & _). congruence.
  - eapply Haf, Hs. revert Hok. apply pings_ok_eq. unfold processGoAwayFrame.
    by rewrite Close_ping, goaway_range_ping.
Qed.

Lemma step_pings ch s s' : pings_inv s → step DecodeFull EncodeFields ch s = Some (Ret s') → pings_inv s'.
Proof.
  intros Hok Hs. destruct ch as [req ctx| | |i e|i k|werr| | |rd|k]; cbn [step] in Hs.
  - destruct (dial s); try done. by simplify_eq.
  - destruct (dial s); try done. by simplify_eq.
  - destruct (dial s); try done. simplify_eq. revert Hok. apply pings_ok_eq, Close_ping.
  - apply bind_Some in Hs as (t & Hi & Hs). by simplify_eq.
  - apply bind_Some in Hs as (t & Hi & Hs). destruct t as [req ctx ce p|ce p].
    + destruct (do_step i k req ctx ce p s) eqn:Hd; [|done]. cbn in Hs. simplify_eq.
      revert Hok. apply pings_ok_eq. by eapply do_step_ping.
    + destruct (valid_step i k ce p s) eqn:Hd; [|done]. cbn in Hs. simplify_eq. by eapply valid_step_ping.
  - destruct (ser_step EncodeFields werr s) eqn:Hd; [|done]. cbn in Hs. simplify_eq.
    revert Hok. apply pings_ok_eq. by eapply ser_step_ping.
  - unfold ser_close in Hs. destruct (_ && _); [|done]. cbn in Hs. by simplify_eq.
  - destruct (deliver s) eqn:Hd; [|done]. cbn in Hs. simplify_eq. revert Hok. apply pings_ok_eq. by apply deliver_ping.
  - unfold reader_step in Hs. destruct (reader s) as [| |[|[id v] rest]|rest| |data| |]; try done.
    + by simplify_eq.
    + destruct (ctx_done (cc s)); [by simplify_eq|]. destruct rd as [f|err]; injection Hs as Hs.
      * apply (process_frame_ping f s s'); auto.
      * subst s'. revert Hok. exact (pings_ok_eq _ _ (after_frame_ping (Some err) s)).
    + by simplify_eq.
    + destruct (id =? _); injection Hs as <-; [revert Hok; by apply pings_ok_eq|exact Hok].
    + by destruct (ackClosed (cc s)).
    + injection Hs as <-. revert Hok. exact (pings_ok_eq _ _ (TrySchedule_ping CB_settings_ack s)).
    + injection Hs as <-. revert Hok. exact (pings_ok_eq _ _ (TrySchedule_ping (CB_ping ByReader true data) s)).
  - unfold dial_step in Hs. destruct (dial s); cbn in Hs; try done.
    destruct k; repeat case_match; cbn in Hs; simplify_eq; try done. revert Hok. apply pings_ok_eq, Close_ping.
Qed.

Lemma start_pings {C} (dopts : dialOptions C) c : HttpFacts.dialled dopts c → pings_inv (start c).
Proof.
  intros (e & d & Hd). unfold dial_begin in Hd. unfold pings_inv, start. cbn.
  destruct (sendPreface dopts), (h2cUpgrade dopts); cbn in Hd; simplify_eq; split; cbn; try apply map_Forall_empty;
    intros k k' ch Hk; by rewrite lookup_empty in Hk.
Qed.
End Facts.
End PingFacts.

(** ** Responses *)
Module ResponseFacts.
Import HttpConn HttpSys.
Section Facts.
Context {D E : Type}.
Context (DecodeFull : D → bytes → (list HeaderField + error) * D).
Implicit Types (s : sys D E) (c : clientConn D E).

(** What the read loop does with the frames of streams. *)
Definition receive c (f : h2_frame) : clientConn D E :=
  match f with
  | DataFrame sid data ended => processDataFrame sid data ended c
  | HeadersFrame sid fragment ended => (processHeaderFrame DecodeFull sid fragment ended c).2
  | RSTStreamFrame sid code => processRSTStreamFrame sid code c
  | _ => c
  end.

(** What a frame means for stream [sid], header blocks decoded. *)
Inductive event :=
  | EvHeaders (hs : list HeaderField) (ended : bool)
  | EvData (data : bytes) (ended : bool)
  | EvReset (code : Z).

Definition event_of (sid : Z) c (f : h2_frame) : list event :=
  match f with
  | DataFrame id data ended => if decide (id = sid) then [EvData data ended] else []
  | HeadersFrame id fragment ended =>
      if decide (id = sid) then
        match DecodeFull (decoder c) fragment with (inl hs, _) => [EvHeaders hs ended] | _ => [] end
      else []
  | RSTStreamFrame id code => if decide (id = sid) then [EvReset code] else []
  | _ => []
  end.

Fixpoint events (sid : Z) c (fs : list h2_frame) : list event :=
  match fs with
  | [] => []
  | f :: fs' => event_of sid c f ++ events sid (receive c f) fs'
  end.

Definition apply_event (cs : clientStream) (ev : event) : clientStream :=
  match ev with
  | EvHeaders hs true => done (foldl apply_trailer cs hs)
  | EvHeaders hs false => foldl apply_header cs hs
  | EvData data ended =>
      let cs := if s_sse cs then cs else with_payload cs (s_payload cs ++ data) in
      if ended then done cs else cs
  | EvReset code => done (add_grpc_status cs code (str "stream reset by server"))
  end.

(** The registry and the heap, for the stream at [l]. *)
Definition registered_at (sid : Z) (l : nat) (cs : clientStream) c : Prop :=
  clientStreams c !! sid = Some l ∧ heap c !! l = Some cs ∧
  ∀ id, clientStreams c !! id = Some l → id = sid.

Lemma load_registered sid l cs c : registered_at sid l cs c → load_stream c sid = Some (l, cs).
Proof. intros (H1 & H2 & _). unfold load_stream. rewrite H1. cbn. by rewrite H2. Qed.

Lemma store_registered sid l cs c l' cs' d :
  registered_at sid l cs c →
  registered_at sid l (if decide (l' = l) then cs' else cs) (store_at (with_decoder c d) l' cs').
Proof.
  intros (H1 & H2 & H3). split; [done|]. split; [|done]. cbn.
  destruct (decide (l' = l)) as [->|Hne].
  - apply list_lookup_insert_eq. by eapply lookup_lt_Some.
  - by rewrite list_lookup_insert_ne.
Qed.

Lemma store_own sid l cs c cs' d :
  registered_at sid l cs c → registered_at sid l cs' (store_at (with_decoder c d) l cs').
Proof. intros Hr. pose proof (store_registered sid l cs c l cs' d Hr) as Hs. by rewrite decide_True in Hs. Qed.

Lemma response_load_other sid l cs c id l' cs' :
  registered_at sid l cs c → id ≠ sid → load_stream c id = Some (l', cs') → l' ≠ l.
Proof.
  intros (H1 & H2 & H3) Hne Hl ->. unfold load_stream in Hl.
  apply bind_Some in Hl as (l1 & Hl1 & Hl). apply bind_Some in Hl as (cs1 & _ & Hl). simplify_eq.
  by apply Hne, H3.
Qed.

Lemma store_other sid l cs c id l' cs0 cs' d :
  registered_at sid l cs c → id ≠ sid → load_stream c id = Some (l', cs0) →
  registered_at sid l cs (store_at (with_decoder c d) l' cs').
Proof.
  intros Hr Hne Hl. pose proof (store_registered sid l cs c l' cs' d Hr) as Hs.
  rewrite decide_False in Hs; [done|]. exact (response_load_other sid l cs c id l' cs0 Hr Hne Hl).
Qed.

Lemma store_decoder c l cs : store_at c l cs = store_at (with_decoder c (decoder c)) l cs.
Proof. by destruct c. Qed.

(** A frame changes a stream only if it is one of its own. *)
Lemma receive_stream sid l cs c f :
  registered_at sid l cs c →
  registered_at sid l (foldl apply_event cs (event_of sid c f)) (receive c f).
Proof.
  intros Hr. pose proof (load_registered sid l cs c Hr) as Hl.
  destruct f as [id data ended|id fr ended| |id code| | | | | | |]; try done;
    cbn [receive event_of]; unfold processDataFrame, processHeaderFrame, processRSTStreamFrame;
    destruct (decide (id = sid)) as [->|Hne].
  - rewrite Hl. rewrite store_decoder. cbn [foldl apply_event]. by eapply store_own.
  - destruct (load_stream c id) as [[l' cs0]|] eqn:Hl'; [|done]. rewrite store_decoder. by eapply store_other.
  - rewrite Hl. destruct (DecodeFull (decoder c) fr) as [[hs|err] d]; cbn [snd foldl apply_event].
    + destruct ended; cbn [foldl apply_event]; by eapply store_own.
    + exact Hr.
  - destruct (load_stream c id) as [[l' cs0]|] eqn:Hl'; [|done].
    destruct (DecodeFull (decoder c) fr) as [[hs|err] d]; cbn [snd].
    + by eapply store_other.
    + exact Hr.
  - rewrite Hl. rewrite store_decoder. cbn [foldl apply_event]. by eapply store_own.
  - destruct (load_stream c id) as [[l' cs0]|] eqn:Hl'; [|done]. rewrite store_decoder. by eapply store_other.
Qed.

Lemma receive_events sid l fs cs c :
  registered_at sid l cs c →
  registered_at sid l (foldl apply_event cs (events sid c fs)) (foldl receive c fs).
Proof.
  revert cs c. induction fs as [|f fs IH]; intros cs c Hr; [done|]. cbn [foldl events].
  rewrite foldl_app. apply IH. by apply receive_stream.
Qed.

(** *** A complete response *)

Definition add_all (h : Header) (hs : list HeaderField) : Header :=
  foldl (λ h hf, Header_Add h (hf_Name hf) (hf_Value hf)) h hs.
Definition status_of (code : Z) (hs : list HeaderField) : Z :=
  foldl (λ code hf, if bool_decide (hf_Name hf = str ":status")
                    then default code (Atoi (hf_Value hf)) else code) code hs.
(** No field announces server-sent events. *)
Definition plain (hs : list HeaderField) : Prop :=
  Forall (λ hf, bool_decide (hf_Name hf = str "content-type") &&
                bool_decide (hf_Value hf = str "text/event-stream") = false) hs.

Lemma set_status_fields cs hf :
  set_status cs hf = with_status cs (if bool_decide (hf_Name hf = str ":status")
                                     then default (s_statusCode cs) (Atoi (hf_Value hf)) else s_statusCode cs).
Proof. unfold set_status. case_bool_decide; [destruct (Atoi (hf_Value hf))|]; by destruct cs. Qed.

Lemma apply_headers_eq cs hs :
  plain hs →
  foldl apply_header cs hs =
  mkStream (s_streamId cs) (status_of (s_statusCode cs) hs) (add_all (s_responseHeaders cs) hs)
    (s_payload cs) (s_trailers cs) (s_done cs) (s_sse cs).
Proof.
  unfold status_of, add_all. revert cs. induction hs as [|hf hs IH]; intros cs Hp; [by destruct cs|].
  apply Forall_cons in Hp as [Hf Hp]. cbn [foldl]. rewrite IH by done.
  unfold apply_header. rewrite Hf, set_status_fields. done.
Qed.

Lemma apply_trailers_eq cs hs :
  foldl apply_trailer cs hs =
  mkStream (s_streamId cs) (status_of (s_statusCode cs) hs) (s_responseHeaders cs)
    (s_payload cs) (add_all (s_trailers cs) hs) (s_done cs) (s_sse cs).
Proof.
  unfold status_of, add_all. revert cs. induction hs as [|hf hs IH]; intros cs; [by destruct cs|].
  cbn [foldl]. rewrite IH. unfold apply_trailer. rewrite set_status_fields. done.
Qed.

Lemma apply_data_eq cs ps :
  s_sse cs = false →
  foldl apply_event cs ((λ p, EvData p false) <$> ps) = with_payload cs (s_payload cs ++ concat ps).
Proof.
  revert cs. induction ps as [|p ps IH]; intros cs Hsse.
  - cbn. rewrite app_nil_r. by destruct cs.
  - rewrite fmap_cons. cbn [foldl apply_event]. rewrite Hsse. rewrite IH by done.
    cbn. by rewrite <- app_assoc.
Qed.

(** The end of a stream: trailers, or an empty DATA frame. *)
Definition ending (ts : option (list HeaderField)) : event :=
  match ts with Some ts => EvHeaders ts true | None => EvData [] true end.
Definition trailers_of (ts : option (list HeaderField)) : list HeaderField := default [] ts.

Lemma complete_response sid hs ps ts :
  plain hs →
  foldl apply_event (new_stream sid) (EvHeaders hs false :: ((λ p, EvData p false) <$> ps) ++ [ending ts]) =
  mkStream sid (status_of 0 (hs ++ trailers_of ts)) (add_all ∅ hs) (concat ps) (add_all ∅ (trailers_of ts)) true false.
Proof.
  intros Hp. cbn [foldl apply_event]. rewrite foldl_app, apply_headers_eq by done. rewrite apply_data_eq by done.
  cbn. unfold status_of. destruct ts as [ts|]; cbn.
  - rewrite apply_trailers_eq. cbn. unfold status_of. by rewrite foldl_app.
  - by rewrite !app_nil_r.
Qed.
End Facts.
End ResponseFacts.

(** ** A connection that has come to a stop *)
Module WedgeFacts.
Import HttpConn HttpSys HttpFacts.
Section Facts.
Context {D E : Type}.
Context (DecodeFull : D → bytes → (list HeaderField + error) * D).
Context (EncodeFields : E → list HeaderField → bytes * E).
Implicit Types (s : sys D E) (c : clientConn D E).

(** The serializer waits to answer a goroutine that has returned. *)
Definition wedged s : Prop :=
  ∃ i a req ctx ce r, ser s = Ser_answer (ByThread i) a ∧ threads s !! i = Some (Do req ctx ce (D_ret r)).

(** The step of a thread leaves the serializer and the other threads alone. *)
Lemma do_step_frame i k req ctx ce p s s' :
  do_step i k req ctx ce p s = Some s' →
  ser s' = ser s ∧ ∃ p', threads s' = <[i := Do req ctx ce p']> (threads s).
Proof.
  assert (∀ cb p', ser (set_thread (TrySchedule cb s) i (Do req ctx ce p')) = ser s ∧
            ∃ p'', threads (set_thread (TrySchedule cb s) i (Do req ctx ce p')) = <[i := Do req ctx ce p'']> (threads s)) as Htry.
  { intros cb p'. unfold TrySchedule. destruct (ser_closed s); eauto. }
  assert (∀ l b p', ser (set_thread (set_stream_sse l b s) i (Do req ctx ce p')) = ser s ∧
            ∃ p'', threads (set_thread (set_stream_sse l b s) i (Do req ctx ce p')) = <[i := Do req ctx ce p'']> (threads s)) as Hsse.
  { intros l b p'. unfold set_stream_sse. destruct (heap (cc s) !! l); eauto. }
  unfold do_step. intros Hs. destruct p as [| | | |l sid|l sid|l sid|r], k; try done;
    try (apply bind_Some in Hs as (? & _ & Hs)); repeat case_match; simplify_eq;
    first [apply Hsse | apply Htry | split; [reflexivity|eexists; reflexivity] | idtac].
  all: apply bind_Some in Hs as (? & _ & Hs); simplify_eq; apply Htry.
Qed.

Lemma valid_step_frame i k ce p s s' :
  valid_step i k ce p s = Some s' → ser s' = ser s ∧ ∃ p', threads s' = <[i := Valid ce p']> (threads s).
Proof.
  assert (∀ cb p', ser (set_thread (TrySchedule cb s) i (Valid ce p')) = ser s ∧
            ∃ p'', threads (set_thread (TrySchedule cb s) i (Valid ce p')) = <[i := Valid ce p'']> (threads s)) as Htry.
  { intros cb p'. unfold TrySchedule. destruct (ser_closed s); eauto. }
  unfold valid_step, sendRecvPingWithRetries, sendPing, nextRequestKeyLocked. intros Hs.
  destruct p as [|key ch n|key ch n|key ch n|key ch|key|b], k; try done;
    try (apply bind_Some in Hs as (? & _ & Hs)); repeat case_match; simplify_eq;
    first [apply Htry | split; [reflexivity|eexists; reflexivity]].
Qed.

Lemma wedged_other s s' i t :
  wedged s → ser s' = ser s → threads s' = <[i := t]> (threads s) →
  (∀ req ctx ce r, threads s !! i = Some (Do req ctx ce (D_ret r)) → ∃ ce', t = Do req ctx ce' (D_ret r)) →
  wedged s'.
Proof.
  intros (j & a & req & ctx & ce & r & Hser & Hj) Hs Ht Hi. destruct (decide (i = j)) as [->|Hne].
  - destruct (Hi _ _ _ _ Hj) as [ce' ->]. exists j, a, req, ctx, ce', r. split; [congruence|].
    rewrite Ht. apply list_lookup_insert_eq. by eapply lookup_lt_Some.
  - exists j, a, req, ctx, ce, r. split; [congruence|]. rewrite Ht. by rewrite list_lookup_insert_ne.
Qed.

Lemma wedged_same s s' : wedged s → ser s' = ser s → threads s' = threads s → wedged s'.
Proof. intros (j & a & req & ctx & ce & r & ? & ?) Hs Ht. exists j, a, req, ctx, ce, r. by rewrite Hs, Ht. Qed.

Lemma wedged_new s s' t : wedged s → ser s' = ser s → threads s' = threads s ++ [t] → wedged s'.
Proof.
  intros (j & a & req & ctx & ce & r & Hser & Hj) Hs Ht. exists j, a, req, ctx, ce, r. rewrite Hs, Ht.
  split; [done|]. rewrite lookup_app_l; [done|by eapply lookup_lt_Some].
Qed.

Lemma reader_step_frame rd s s' :
  reader_step DecodeFull rd s = Some (Ret s') → ser s' = ser s ∧ threads s' = threads s.
Proof.
  intros Hs. assert (∀ s1, quiet_view s1 = quiet_view s → ser s1 = ser s ∧ threads s1 = threads s) as Hq.
  { intros s1 Hv. unfold quiet_view in Hv. by simplify_eq. }
  unfold reader_step in Hs. destruct (reader s) as [| |[|[id v] rest]|rest| |data| |]; try done.
  - by simplify_eq.
  - destruct (ctx_done (cc s)); [by simplify_eq|]. destruct rd as [f|err]; injection Hs as Hs.
    + apply Hq. by eapply process_frame_quiet.
    + subst s'. exact (Hq _ (after_frame_quiet (Some err) s)).
  - by simplify_eq.
  - by destruct (id =? _); simplify_eq.
  - by destruct (ackClosed (cc s)).
  - injection Hs as <-. unfold TrySchedule. by destruct (ser_closed s).
  - injection Hs as <-. unfold sendPing, TrySchedule. by destruct (ser_closed s).
Qed.

Lemma wedged_step ch s s' :
  wedged s → step DecodeFull EncodeFields ch s = Some (Ret s') →
  wedged s' ∧ written (cc s') = written (cc s).
Proof.
  intros Hw Hs. pose proof Hw as (j & a & req0 & ctx0 & ce0 & r0 & Hser & Hj).
  assert (∀ w, wire_of (cc s') = wire_of (cc s) → w → w ∧ written (cc s') = written (cc s)) as Hwr.
  { intros w Heq ?. unfold wire_of in Heq. by simplify_eq. }
  destruct ch as [req ctx| | |i e|i k|werr| | |rd|k]; cbn [step] in Hs.
  - destruct (dial s); try done. simplify_eq. split; [|done]. by eapply wedged_new.
  - destruct (dial s); try done. simplify_eq. split; [|done]. by eapply wedged_new.
  - destruct (dial s); try done. simplify_eq. apply Hwr; [apply Close_wire|]. by eapply wedged_same.
  - apply bind_Some in Hs as (t & Hi & Hs). simplify_eq. split; [|done].
    eapply wedged_other; [done|done|reflexivity|]. intros req ctx ce r Hi'. simplify_eq. destruct ce; eauto.
  - apply bind_Some in Hs as (t & Hi & Hs). destruct t as [req ctx ce p|ce p].
    + destruct (do_step i k req ctx ce p s) eqn:Hd; [|done]. cbn in Hs. simplify_eq.
      apply Hwr; [by eapply do_step_wire_of|]. pose proof (do_step_frame _ _ _ _ _ _ _ _ Hd) as [Hs1 [p' Ht]].
      eapply wedged_other; [done|done|exact Ht|]. intros req1 ctx1 ce1 r1 Hi'. by simplify_eq.
    + destruct (valid_step i k ce p s) eqn:Hd; [|done]. cbn in Hs. simplify_eq.
      apply Hwr; [by eapply valid_step_wire_of|]. pose proof (valid_step_frame _ _ _ _ _ _ Hd) as [Hs1 [p' Ht]].
      eapply wedged_other; [done|done|exact Ht|]. intros req1 ctx1 ce1 r1 Hi'. by simplify_eq.
  - unfold ser_step in Hs. by rewrite Hser in Hs.
  - unfold ser_close in Hs. destruct (_ && _); [|done]. cbn in Hs. simplify_eq. split; [|done]. by eapply wedged_same.
  - unfold deliver in Hs. rewrite Hser, Hj in Hs. done.
  - pose proof (reader_step_frame rd s s' Hs) as [H1 H2]. apply Hwr; [|by eapply wedged_same].
    by eapply reader_step_wire_of.
  - unfold dial_step in Hs. destruct (dial s); cbn in Hs; try done.
    destruct k; repeat case_match; cbn in Hs; simplify_eq;
      (apply Hwr; [first [reflexivity | apply Close_wire]|]); by eapply wedged_same.
Qed.
End Facts.
End WedgeFacts.

Lemma open_of_absent sid w :
  sid ∉ HttpFacts.hdr_ids w → sum_list_with (HttpFacts.open_of sid) w = 0%nat.
Proof.
  induction w as [|f w IH]; intros Hn; [done|]. simpl.
  destruct f as [id b es| | | | |]; cbn in *; try (by apply IH).
  rewrite elem_of_cons in Hn. rewrite IH by tauto. destruct es; [done|].
  unfold HttpFacts.eq1. rewrite decide_False by tauto. done.
Qed.

Lemma open_of_once sid w :
  StronglySorted Z.lt (HttpFacts.hdr_ids w) → (sum_list_with (HttpFacts.open_of sid) w ≤ 1)%nat.
Proof.
  induction w as [|f w IH]; intros Hs; [simpl; lia|]. simpl.
  destruct f as [id b es| | | | |]; cbn in *; try (by apply IH).
  apply StronglySorted_inv in Hs as [Hs Hlt]. destruct (decide (sid = id)) as [->|Hne].
  - rewrite open_of_absent; [|intros Hx; pose proof (proj1 (Forall_forall _ _) Hlt id Hx); lia].
    destruct es; [lia|]. unfold HttpFacts.eq1. case_decide; lia.
  - specialize (IH Hs). destruct es; [done|]. unfold HttpFacts.eq1. rewrite decide_False by done. lia.
Qed.

Section HttpTheorems.
Import HttpConn HttpSys HttpFacts.
Context {D E C : Type}.
Context (DecodeFull : D → bytes → (list HeaderField + error) * D).
Context (EncodeFields : E → list HeaderField → bytes * E).
Implicit Types (s : sys D E) (c : clientConn D E).

(** C5: What goes out on the connection is well-ordered HTTP/2, whatever requests,
    pings, cancellations, write errors and received frames interleave (within
    2^30 steps, before the 32-bit counter of stream identifiers wraps): the
    identifiers of the HEADERS frames are odd and strictly increasing, and at
    every moment a stream has had at most one DATA frame, and only after a
    HEADERS frame that left it open. *)
Theorem http_wire_order (dopts : dialOptions C) c cs s :
  dialled dopts c → Z.of_nat (length cs) < 2 ^ 30 → run DecodeFull EncodeFields cs (start c) = Some (Ret s) →
  StronglySorted Z.lt (hdr_ids (written (cc s))) ∧
  Forall (λ id, Z.odd id = true ∧ 0 < id) (hdr_ids (written (cc s))) ∧
  ∀ w1 w2 sid, written (cc s) = w1 ++ w2 →
    (sum_list_with (data_of sid) w1 ≤ sum_list_with (open_of sid) w1 ≤ 1)%nat.
Proof.
  intros Hd Hlen Hr. destruct (dialled_ok dopts c Hd) as (Hids & Hwire & _ & _).
  assert (Z.of_nat (length cs) < 2 ^ 30 → ids_inv (Z.of_nat (length cs) + 1) (cc s)) as Hi.
  { refine (run_go_Ret_ind DecodeFull EncodeFields
      (λ n s, Z.of_nat n < 2 ^ 30 → ids_inv (Z.of_nat n + 1) (cc s)) (start c) _ _ cs s Hr).
    - intros _. exact Hids.
    - intros n ch s1 s2 HP Hs Hn. replace (Z.of_nat (S n) + 1) with (Z.of_nat n + 1 + 1) by lia.
      apply (ids_step _ (cc s1)); [apply HP; lia|lia|lia|by eapply step_wire_step]. }
  assert (wire_inv s) as Hw.
  { exact (run_go_Ret_ind DecodeFull EncodeFields (λ _ s, wire_inv s) (start c) Hwire
      (λ _ ch s1 s2 H1 H2, step_wire DecodeFull EncodeFields ch s1 s2 H1 H2) cs s Hr). }
  destruct (Hi Hlen) as [_ Hs Hrange]. split; [done|]. split.
  - eapply Forall_impl; [exact Hrange|]. intros id [? ?]. split; [done|lia].
  - intros w1 w2 sid Heq. split; [by eapply (w_prefix s Hw)|].
    pose proof (open_of_once sid _ Hs) as Ho. rewrite Heq, sum_app in Ho. lia.
Qed.


(** In every reachable state of an open connection a PING acknowledgement is
    processed without blocking or panicking, and answers exactly the waiting
    pings with a key not below the acknowledged one: their channels get the
    key and are closed, and the others keep waiting. *)
Theorem http_ping_ack (dopts : dialOptions C) c cs s data :
  dialled dopts c → run DecodeFull EncodeFields cs (start c) = Some (Ret s) → closed (cc s) = false →
  ∃ c', putPingAck data (cc s) = Ret c' ∧ PingFacts.acked_pings (be_Uint64 data) (cc s) c'.
Proof.
  intros Hd Hr Hcl.
  assert (PingFacts.pings_inv s) as Hp.
  { exact (run_go_Ret_ind DecodeFull EncodeFields (λ _ s, PingFacts.pings_inv s) (start c)
      (PingFacts.start_pings dopts c Hd)
      (λ _ ch s1 s2 Ha Hb, PingFacts.step_pings DecodeFull EncodeFields ch s1 s2 Ha Hb) cs s Hr). }
  destruct (PingFacts.putPingAck_spec data (cc s) Hp Hcl) as (c' & Hc' & _ & Ha). eauto.
Qed.


(** A request whose context ends while its HEADERS callback is still scheduled
    leaves the serializer waiting for ever to hand over the stream: such a
    state is kept by every further step, and nothing is written any more. *)
Theorem http_wedged_for_ever cs s s' :
  WedgeFacts.wedged s → run DecodeFull EncodeFields cs s = Some (Ret s') →
  WedgeFacts.wedged s' ∧ written (cc s') = written (cc s).
Proof.
  intros Hw Hr.
  refine (run_go_Ret_ind DecodeFull EncodeFields
    (λ _ s', WedgeFacts.wedged s' ∧ written (cc s') = written (cc s)) s (conj Hw eq_refl) _ cs s' Hr).
  intros _ ch s1 s2 [H1 H2] Hs. destruct (WedgeFacts.wedged_step DecodeFull EncodeFields ch s1 s2 H1 Hs).
  split; [done|congruence].
Qed.
End HttpTheorems.

(** ** Examples *)
Module HttpExamples.
Import HttpConn HttpSys.

(** A decoder that finds one field in every block, and an encoder. *)
Definition decode0 (d : unit) (b : bytes) : (list HeaderField + error) * unit :=
  (inl [mkHeaderField (str ":status") (str "200")], d).
Definition encode0 (e : unit) (hs : list HeaderField) : bytes * unit := ([], e).

Definition url0 : ReqURL := mkReqURL (str "https") [] (str "example.com") (str "/") false [].
Definition get0 : Request := mkRequest (str "GET") (Some url0) [] ∅ NilBody 0.
Definition post0 : Request := mkRequest (str "POST") (Some url0) [] ∅ (ReaderBody (inl [1; 2])) 2.

Definition conn0 : clientConn unit unit := (dial_begin (@evaluateOptions unit []) None None tt tt).1.

(** The connection is made. *)
Definition connect : list choice := [Read (inr (ErrNew EOF)); Read (inl (SettingsFrame true [])); Dial OnAcked].

Lemma dialled0 : HttpFacts.dialled (@evaluateOptions unit []) conn0.
Proof. exists tt, tt. reflexivity. Qed.

Definition post_steps : list choice :=
  connect ++ [NewDo post0 []; Step 0 SelMain; Step 0 SelMain; Step 0 SelMain; Serialize None; Serialize None;
              Deliver; Step 0 SelMain; Serialize None; Deliver].

Definition final (cs : list choice) : sys unit unit :=
  match run decode0 encode0 cs (start conn0) with Some (Ret s) => s | _ => start conn0 end.
Definition ping_steps : list choice := connect ++ [NewValid; Step 0 SelMain].
Definition cancel_steps : list choice :=
  connect ++ [NewDo get0 []; Step 0 SelMain; Step 0 SelMain; Step 0 SelMain; CancelCtx 0 (ErrNew ErrCanceled);
              Step 0 SelCtx; Serialize None; Serialize None].
Definition later_steps : list choice := [NewValid; Step 1 SelMain; Step 1 SelMain].

Lemma run_post : run decode0 encode0 post_steps (start conn0) = Some (Ret (final post_steps)).
Proof. vm_compute. reflexivity. Qed.
Lemma run_ping : run decode0 encode0 ping_steps (start conn0) = Some (Ret (final ping_steps)).
Proof. vm_compute. reflexivity. Qed.
Lemma run_cancel : run decode0 encode0 cancel_steps (start conn0) = Some (Ret (final cancel_steps)).
Proof. vm_compute. reflexivity. Qed.
Lemma run_later :
  run decode0 encode0 later_steps (final cancel_steps) = Some (Ret (final (cancel_steps ++ later_steps))).
Proof. vm_compute. reflexivity. Qed.
End HttpExamples.

Section HttpWitnesses.
Import HttpConn HttpSys HttpFacts HttpExamples.

Lemma http_wire_order_witness :
  hdr_ids (written (cc (final post_steps))) = [1] ∧
  StronglySorted Z.lt (hdr_ids (written (cc (final post_steps)))).
Proof.
  split; [vm_compute; reflexivity|].
  refine (proj1 (http_wire_order decode0 encode0 (@evaluateOptions unit []) conn0 post_steps (final post_steps)
    dialled0 _ run_post)). vm_compute. reflexivity.
Defined.


Lemma http_ping_ack_witness : ∃ c', putPingAck (be_PutUint64 0) (cc (final ping_steps)) = Ret c'.
Proof.
  assert (closed (cc (final ping_steps)) = false) as Hcl by (vm_compute; reflexivity).
  destruct (http_ping_ack decode0 encode0 (@evaluateOptions unit []) conn0 ping_steps (final ping_steps)
    (be_PutUint64 0) dialled0 run_ping Hcl) as (c' & Hc' & _).
  exists c'. exact Hc'.
Defined.


(** The state is reached by cancelling one request; a ping scheduled afterwards
    is never sent. *)
Lemma http_wedged_for_ever_witness :
  queue (final (cancel_steps ++ later_steps)) = [CB_ping (ByThread 1) false (be_PutUint64 0)] ∧
  WedgeFacts.wedged (final (cancel_steps ++ later_steps)).
Proof.
  split; [vm_compute; reflexivity|].
  refine (proj1 (http_wedged_for_ever decode0 encode0 later_steps (final cancel_steps)
    (final (cancel_steps ++ later_steps)) _ run_later)).
  exists 0%nat. do 5 eexists. split; vm_compute; reflexivity.
Defined.

(** A second SETTINGS acknowledgement, or a SETTINGS frame with the number of
    concurrent streams after one, crashes the client. *)
Theorem http_settings_crash :
  run decode0 encode0 (connect ++ [Read (inr (ErrNew EOF)); Read (inl (SettingsFrame true []))]) (start conn0)
    = Some (Panic "close of closed channel") ∧
  run decode0 encode0 (connect ++ [Read (inr (ErrNew EOF)); Read (inl (SettingsFrame false [(3, 50)]));
                                   Read (inr (ErrNew EOF)); Read (inr (ErrNew EOF))]) (start conn0)
    = Some (Panic "send on closed channel").
Proof. by split; vm_compute. Qed.

(** A response that arrives between the HEADERS frame and the registration of
    its stream is lost: the request then waits on a stream with no data. *)
Theorem http_early_response_lost :
  ∃ cs s l, run decode0 encode0 cs (start conn0) = Some (Ret s) ∧ Read (inl (HeadersFrame 1 [] true)) ∈ cs ∧
    threads s = [Do get0 [] None (D_wait l 1)] ∧ heap (cc s) !! l = Some (new_stream 1).
Proof.
  exists (connect ++ [NewDo get0 []; Step 0 SelMain; Step 0 SelMain; Step 0 SelMain; Serialize None;
    Read (inr (ErrNew EOF)); Read (inl (HeadersFrame 1 [] true)); Serialize None; Deliver; Step 0 SelMain]).
  do 2 eexists. split; [vm_compute; reflexivity|]. split; [|split; reflexivity].
  do 9 right. by left.
Qed.
End HttpWitnesses.
