(* ===== verification/Http1.v ===== *)
(** * HTTP/1.1 messages of the HTTP client

    http/client/http1.go ([readHTTPResponse] and [chunkedReader]) and the
    HTTP/1.1 side of http/client/http2.go ([sendUpgradeRequestHTTP1] and
    [readUpgradeResponse]).  Of the standard library: [bufio.Reader], as a
    stream of bytes with the error that ends it, [io.ReadFull], [http.Header.Write],
    [base64.StdEncoding] and functions of [strings] and [strconv]. *)
From stdpp Require Import sorting.
From S2P Require Import Prelude Errors NetAddr NetText Bytespool IO Wire Http2Frames TcpClient HttpText.

(** ** bufio.Reader *)

Record Reader := mkReader { rest : bytes; rerr : error }.

(** [reader.ReadString(delim)] *)
Definition ReadString (delim : Z) (r : Reader) : bytes * option error * Reader :=
  match IndexByte delim (rest r) with
  | Some i => (take (S i) (rest r), None, mkReader (drop (S i) (rest r)) (rerr r))
  | None => (rest r, Some (rerr r), mkReader [] (rerr r))
  end.

(** [io.ReadFull(r, buf)] for a buffer of [n] bytes. *)
Definition ReadFull (n : Z) (r : Reader) : bytes * option error * Reader :=
  if n <=? zlen (rest r) then (ztake n (rest r), None, mkReader (zdrop n (rest r)) (rerr r))
  else
    let err := match rest r with
               | [] => rerr r
               | _ => if is_sentinel EOF (rerr r) then ErrNew ErrUnexpectedEOF else rerr r
               end in
    (rest r, Some err, mkReader [] (rerr r)).

(** ** Text *)

Fixpoint drop_while (p : Z → bool) (s : bytes) : bytes :=
  match s with
  | [] => []
  | c :: s' => if p c then drop_while p s' else s
  end.

(** [strings.TrimRight(s, "\r\n")] *)
Definition TrimRight_crlf (s : bytes) : bytes :=
  reverse (drop_while (λ c, (c =? 13) || (c =? 10)) (reverse s)).

(** [strings.SplitN(s, " ", n)] *)
Fixpoint SplitN (n : nat) (s : bytes) : list bytes :=
  match n with
  | O => []
  | S O => [s]
  | S n' =>
      match IndexByte 32 s with
      | Some i => take i s :: SplitN n' (drop (S i) s)
      | None => [s]
      end
  end.

(** The value of hexadecimal digits. *)
Fixpoint hex_digits_value (s : bytes) (acc : Z) : option Z :=
  match s with
  | [] => Some acc
  | c :: s' => v ← hex_value c; hex_digits_value s' (16 * acc + v)
  end.

(** [strconv.ParseInt(s, 16, 64)]; [None]: an error. *)
Definition ParseInt16 (s : bytes) : option Z :=
  let '(neg, ds) := match s with
                    | 45 :: ds => (true, ds)
                    | 43 :: ds => (false, ds)
                    | _ => (false, s)
                    end in
  match ds with
  | [] => None
  | _ => v ← hex_digits_value ds 0;
         let v := if neg then - v else v in
         if (- 2 ^ 63 <=? v) && (v <? 2 ^ 63) then Some v else None
  end.

(** [strings.EqualFold(s, t)] for a [t] of ASCII letters in lower case; [s] is
    compared byte by byte. *)
Definition EqualFold (s t : bytes) : bool := bool_decide (ToLower s = t).

(** ** readHTTPResponse *)

(** The body: none, chunked, limited to a length, or all that follows. *)
Inductive body_kind := BodyNone | BodyChunked | BodyLimited (n : Z) | BodyRest.

Record http1Response := mkHttp1 {
  h1_Status : bytes; h1_StatusCode : Z; h1_Proto : bytes; h1_Header : Header; h1_Body : body_kind
}.

(** The loop over the header lines. *)
Fixpoint read_headers (fuel : nat) (h : Header) (r : Reader) : go ((Header + error) * Reader) :=
  match fuel with
  | O => OutOfFuel
  | S fuel' =>
      match ReadString 10 r with
      | (_, Some err, r) => Ret (inr err, r)
      | (line, None, r) =>
          let line := TrimRight_crlf line in
          match line with
          | [] => Ret (inl h, r)
          | _ =>
              match IndexByte 58 line with
              | None => Ret (inr (Errorf "malformed header line" None), r)
              | Some colonIndex =>
                  let key := TrimSpace (take colonIndex line) in
                  let value := TrimSpace (drop (S colonIndex) line) in
                  read_headers fuel' (Header_Add h key value) r
              end
          end
      end
  end.

Definition response_body (method : bytes) (h : Header) : body_kind + error :=
  if bool_decide (method = str "HEAD") then inl BodyNone
  else if EqualFold (Header_Get h (str "Transfer-Encoding")) (str "chunked") then inl BodyChunked
  else
    match Header_Get h (str "Content-Length") with
    | [] => inl BodyRest
    | cl => match Atoi cl with
            | Some contentLength => inl (BodyLimited contentLength)
            | None => inr (Errorf "invalid Content-Length" None)
            end
    end.

Definition readHTTPResponse (fuel : nat) (method : bytes) (r : Reader) : go ((http1Response + error) * Reader) :=
  match ReadString 10 r with
  | (_, Some er, r) => Ret (inr er, r)
  | (statusLine, None, r) =>
      let statusLine := TrimRight_crlf statusLine in
      match statusLine with
      | [] => Ret (inr (Errorf "malformed HTTP response: empty status line" None), r)
      | _ =>
          match SplitN 3 statusLine with
          | proto :: statusCodeStr :: more =>
              let statusText := match more with t :: _ => t | [] => [] end in
              match Atoi statusCodeStr with
              | None => Ret (inr (Errorf "invalid status code" None), r)
              | Some statusCode =>
                  '(h, r) ← read_headers fuel ∅ r;
                  match h with
                  | inr err => Ret (inr err, r)
                  | inl respHeader =>
                      match response_body method respHeader with
                      | inr err => Ret (inr err, r)
                      | inl body =>
                          Ret (inl (mkHttp1 (FormatInt statusCode ++ str " " ++ statusText) statusCode proto
                                      respHeader body), r)
                      end
                  end
              end
          | _ => Ret (inr (Errorf "malformed HTTP response status line" None), r)
          end
      end
  end.

(** ** chunkedReader *)

Record chunkedReader := mkChunked { cr_reader : Reader; cr_eof : bool }.

(** [Read(p)]: the bytes stored from the start of [p] on, [n] and the error.
    [p[:int(size)]] may reach past [len(p)], up to the capacity. *)
Definition chunked_Read (p : slice) (cr : chunkedReader) : go (bytes * Z * option error * chunkedReader) :=
  if cr_eof cr then Ret ([], 0, Some (ErrNew EOF), cr)
  else
    match ReadString 10 (cr_reader cr) with
    | (_, Some err, r) => Ret ([], 0, Some err, mkChunked r false)
    | (line, None, r) =>
        match ParseInt16 (TrimSpace line) with
        | None => Ret ([], 0, Some (Errorf "invalid chunk size" None), mkChunked r false)
        | Some size =>
            if size =? 0 then
              let '(_, _, r) := ReadString 10 r in
              Ret ([], 0, Some (ErrNew EOF), mkChunked r true)
            else
              q ← s_sub p 0 size;
              match ReadFull (s_len q) r with
              | (data, Some err, r) => Ret (data, zlen data, Some err, mkChunked r false)
              | (data, None, r) =>
                  let '(_, _, r) := ReadString 10 r in
                  Ret (data, zlen data, None, mkChunked r false)
              end
        end
    end.

(** A client that reads with a new buffer of [cap] bytes until the first error. *)
Fixpoint chunked_drain (fuel : nat) (cap : Z) (cr : chunkedReader) : go (bytes * error * chunkedReader) :=
  match fuel with
  | O => OutOfFuel
  | S fuel' =>
      '(data, n, err, cr) ← chunked_Read (make_slice cap) cr;
      match err with
      | Some e => Ret (ztake n data, e, cr)
      | None => '(more, e, cr) ← chunked_drain fuel' cap cr; Ret (ztake n data ++ more, e, cr)
      end
  end.

(** ** The upgrade to h2c *)

Definition base64_char (n : Z) : Z :=
  if n <? 26 then 65 + n else if n <? 52 then 71 + n else if n <? 62 then n - 4 else if n =? 62 then 43 else 47.

(** [base64.StdEncoding.EncodeToString] *)
Fixpoint base64 (s : bytes) : bytes :=
  match s with
  | a :: b :: c :: s' =>
      let v := Z.lor (Z.shiftl a 16) (Z.lor (Z.shiftl b 8) c) in
      base64_char (Z.land (Z.shiftr v 18) 63) :: base64_char (Z.land (Z.shiftr v 12) 63)
        :: base64_char (Z.land (Z.shiftr v 6) 63) :: base64_char (Z.land v 63) :: base64 s'
  | [a; b] =>
      let v := Z.lor (Z.shiftl a 16) (Z.shiftl b 8) in
      [base64_char (Z.land (Z.shiftr v 18) 63); base64_char (Z.land (Z.shiftr v 12) 63);
       base64_char (Z.land (Z.shiftr v 6) 63); 61]
  | [a] =>
      let v := Z.shiftl a 16 in
      [base64_char (Z.land (Z.shiftr v 18) 63); base64_char (Z.land (Z.shiftr v 12) 63); 61; 61]
  | [] => []
  end.

(** The order of the keys. *)
Fixpoint bytes_leb (a b : bytes) : bool :=
  match a, b with
  | [], _ => true
  | _, [] => false
  | x :: a', y :: b' => if x <? y then true else if x =? y then bytes_leb a' b' else false
  end.
Definition key_le (a b : bytes * list bytes) : Prop := bytes_leb a.1 b.1 = true.
#[global] Instance key_le_dec a b : Decision (key_le a b).
Proof. unfold key_le. apply _. Defined.

(** The value as it is written: line ends become blanks, and the blanks around
    it go. *)
Definition header_value (v : bytes) : bytes :=
  let v := (λ c, if (c =? 10) || (c =? 13) then 32 else c) <$> v in
  let is_blank c := (c =? 32) || (c =? 9) || (c =? 10) || (c =? 13) in
  reverse (drop_while is_blank (reverse (drop_while is_blank v))).

Definition crlf : bytes := [13; 10].

(** [Header.Write] *)
Definition Header_Write (h : Header) : bytes :=
  concat (map (λ e, if negb (bool_decide (e.1 = [])) && forallb validHeaderFieldByte e.1
                    then concat (map (λ v, e.1 ++ str ": " ++ header_value v ++ crlf) e.2) else [])
              (merge_sort key_le (map_to_list h))).

Definition settingPayload : bytes := [0; 1; 0; 0; 4; 0; 0; 2; 0; 0; 0; 0; 0; 3; 0; 0; 0; 100].

(** The header fields that [sendUpgradeRequestHTTP1] sets on the request. *)
Definition upgrade_headers (r : Request) (u : ReqURL) : Header :=
  let host := match Host r with [] => URLHost u | h => h end in
  let h := Header_Set (RHeader r) (str "Host") (removeZone host) in
  let h := Header_Set h (str "Connection") (str "Upgrade, HTTP2-Settings") in
  let h := Header_Set h (str "Upgrade") (str "h2c") in
  let h := Header_Set h (str "HTTP2-Settings") (base64 settingPayload) in
  match RBody r with
  | NilBody => h
  | _ => Header_Set h (str "Content-Length") (FormatInt (outgoingLength r))
  end.

(** [sendUpgradeRequestHTTP1]: what is written, or the error of reading the
    body, and the request as it is left, its header changed and its body
    read. *)
Definition sendUpgradeRequestHTTP1 (r : Request) (u : ReqURL) : (bytes + error) * Request :=
  let head := valueOrDefault (Method r) (str "GET") ++ str " " ++ RequestURI u ++ str " HTTP/1.1" ++ crlf in
  let h := upgrade_headers r u in
  let body := match RBody r with NilBody | NoBody => inl [] | ReaderBody b => b end in
  let left := match RBody r with ReaderBody _ => ReaderBody (inl []) | b => b end in
  let r' := mkRequest (Method r) (RURL r) (Host r) h left (RContentLength r) in
  match body with
  | inl b => (inl (head ++ Header_Write h ++ crlf ++ b), r')
  | inr e => (inr e, r')
  end.

(** The loop of [readUpgradeResponse] to the blank line. *)
Fixpoint skip_headers (fuel : nat) (r : Reader) : go (option error * Reader) :=
  match fuel with
  | O => OutOfFuel
  | S fuel' =>
      match ReadString 10 r with
      | (_, Some er, r) => Ret (Some er, r)
      | (line, None, r) =>
          match TrimSpace line with
          | [] => Ret (None, r)
          | _ => skip_headers fuel' r
          end
      end
  end.

Definition readUpgradeResponse (fuel : nat) (r : Reader) : go (bool * option error * Reader) :=
  match ReadString 10 r with
  | (_, Some err, r) => Ret (false, Some err, r)
  | (statusLine, None, r) =>
      if negb (Contains statusLine (str "101 Switching Protocols")) then Ret (false, None, r)
      else
        '(er, r) ← skip_headers fuel r;
        match er with
        | Some e => Ret (false, Some e, r)
        | None => Ret (true, None, r)
        end
  end.
