(* ===== verification/Http1Spec.v ===== *)
(** * Properties of the HTTP/1.1 messages

    About file [Http1]: reading inverts printing, for responses and for chunked
    bodies, and what the upgrade request leaves behind. *)
From stdpp Require Import sorting.
From S2P Require Import Prelude Errors NetAddr NetText NetTextSpec Bytespool IO Wire Http2Frames TcpClient HttpText Http1.

(** ** Lines *)

Definition clean (s : bytes) : Prop := (10 ∉ s) ∧ (13 ∉ s).

Lemma ReadString_line l k e :
  10 ∉ l → ReadString 10 (mkReader (l ++ crlf ++ k) e) = (l ++ crlf, None, mkReader k e).
Proof.
  intros Hl. unfold ReadString. cbn [rest rerr].
  replace (l ++ crlf ++ k) with ((l ++ [13]) ++ 10 :: k) by (rewrite <- app_assoc; done).
  rewrite IndexByte_app by (rewrite elem_of_app, elem_of_cons, elem_of_nil; intuition lia).
  assert (S (length (l ++ [13])) = length (l ++ crlf)) as -> by (rewrite !length_app; cbn; lia).
  replace ((l ++ [13]) ++ 10 :: k) with ((l ++ crlf) ++ k) by (rewrite <- !app_assoc; done).
  by rewrite take_app_length, drop_app_length.
Qed.

Lemma drop_while_head p c s : p c = false → drop_while p (c :: s) = c :: s.
Proof. intros Hc. cbn. by rewrite Hc. Qed.

Lemma TrimRight_line l : clean l → TrimRight_crlf (l ++ crlf) = l.
Proof.
  intros [H10 H13]. unfold TrimRight_crlf, crlf. rewrite reverse_app.
  change (reverse [13; 10]) with [10; 13]. cbn [app drop_while Z.eqb Pos.eqb orb].
  destruct l as [|d l' _] using rev_ind; [done|]. rewrite reverse_app.
  change (reverse [d] ++ reverse l') with (d :: reverse l'). rewrite drop_while_head.
  - by rewrite reverse_cons, reverse_involutive.
  - rewrite !elem_of_app, !elem_of_cons in *. apply orb_false_intro; apply Z.eqb_neq; intros ->; tauto.
Qed.

(** ** Numbers *)

Lemma atoi_parse s acc : atoi_digits s acc = parse_digits s acc.
Proof. revert acc. induction s as [|c s IH]; intros acc; [done|]. cbn. unfold is_digit. by destruct (_ && _). Qed.

Lemma digit_range c : is_digit c = true → 48 ≤ c ≤ 57.
Proof. unfold is_digit. intros Hd. bool_hyps. lia. Qed.

Lemma Atoi_Itoa n : 0 ≤ n < 2 ^ 63 → Atoi (Itoa n) = Some n.
Proof.
  intros Hn. unfold Itoa. pose proof (digits_nonempty 19 n) as Hne. pose proof (digits_ok 20 n) as Hok.
  assert (atoi_digits (digits 20 n) 0 = Some n) as Hp.
  { rewrite atoi_parse. apply parse_digits_digits. split; [lia|].
    change (10 ^ Z.of_nat 20) with 100000000000000000000. change (2 ^ 63) with 9223372036854775808 in Hn. lia. }
  unfold Atoi. destruct (digits 20 n) as [|c s]; [done|]. apply Forall_cons in Hok as [Hc _].
  apply digit_range in Hc.
  assert (∀ A (a b d : A), match c with 45 => a | 43 => b | _ => d end = d) as Hm.
  { intros A a b d. destruct c as [|p|p]; try done. do 6 (destruct p as [p|p|]; try done); exfalso; lia. }
  rewrite Hm. rewrite Hp. cbn [mbind option_bind]. by zltb_solve.
Qed.

Lemma FormatInt_clean n : 0 ≤ n → FormatInt n = Itoa n ∧ clean (Itoa n) ∧ 32 ∉ Itoa n.
Proof.
  intros Hn. unfold FormatInt. zltb_solve. split; [done|].
  assert (∀ c, c < 48 → c ∉ Itoa n) as Hd.
  { intros c Hc Hin. pose proof (proj1 (Forall_forall _ _) (digits_ok 20 n) c Hin) as Hx. apply digit_range in Hx. lia. }
  repeat split; apply Hd; lia.
Qed.

(** ** Responses *)

Definition print_headers (hs : list (bytes * bytes)) : bytes :=
  concat (map (λ h, h.1 ++ [58] ++ h.2 ++ crlf) hs).
Definition print_response (proto : bytes) (code : Z) (text : bytes) (hs : list (bytes * bytes)) (body : bytes) : bytes :=
  (proto ++ [32] ++ FormatInt code ++ [32] ++ text) ++ crlf ++ print_headers hs ++ crlf ++ body.

Definition field_ok (h : bytes * bytes) : Prop := clean h.1 ∧ clean h.2 ∧ 58 ∉ h.1.

(** The header that lines stand for. *)
Definition header_of (h : Header) (hs : list (bytes * bytes)) : Header :=
  foldl (λ h kv, Header_Add h (TrimSpace kv.1) (TrimSpace kv.2)) h hs.

Lemma read_headers_print hs h body e fuel :
  Forall field_ok hs → (length hs < fuel)%nat →
  read_headers fuel h (mkReader (print_headers hs ++ crlf ++ body) e) =
  Ret (inl (header_of h hs), mkReader body e).
Proof.
  revert h fuel. induction hs as [|[k v] hs IH]; intros h fuel Hok Hf; (destruct fuel as [|fuel]; [cbn in Hf; lia|]).
  - cbn [read_headers print_headers map concat app]. change (crlf ++ body) with ([] ++ crlf ++ body).
    rewrite ReadString_line by (rewrite elem_of_nil; tauto). done.
  - apply Forall_cons in Hok as [(Hk & Hv & Hc) Hok]. cbn [fst snd] in *. cbn [read_headers].
    assert (print_headers ((k, v) :: hs) ++ crlf ++ body =
            (k ++ 58 :: v) ++ crlf ++ print_headers hs ++ crlf ++ body) as ->.
    { unfold print_headers. cbn [map concat fst snd]. rewrite <- !app_assoc. done. }
    assert (clean (k ++ 58 :: v)) as Hcl.
    { unfold clean in *. rewrite !elem_of_app, !elem_of_cons. intuition lia. }
    rewrite ReadString_line by apply Hcl. rewrite TrimRight_line by done.
    assert (k ++ 58 :: v ≠ []) as Hne by (by destruct k). destruct (k ++ 58 :: v) as [|x l] eqn:Hl; [done|].
    rewrite <- Hl. rewrite IndexByte_app by done. rewrite take_app_length.
    replace (drop (S (length k)) (k ++ 58 :: v)) with v.
    + rewrite IH by (try done; cbn in Hf; lia). done.
    + change (58 :: v) with ([58] ++ v). rewrite app_assoc.
      replace (S (length k)) with (length (k ++ [58])) by (rewrite length_app; cbn; lia).
      by rewrite drop_app_length.
Qed.

Lemma SplitN_status proto code text :
  32 ∉ proto → 32 ∉ code → SplitN 3 (proto ++ [32] ++ code ++ [32] ++ text) = [proto; code; text].
Proof.
  intros Hp Hc. assert (∀ h k, 32 ∉ h → IndexByte 32 (h ++ [32] ++ k) = Some (length h) ∧
    take (length h) (h ++ [32] ++ k) = h ∧ drop (S (length h)) (h ++ [32] ++ k) = k) as Hs.
  { intros h k Hh. split; [by apply IndexByte_app|]. split; [apply take_app_length|].
    rewrite app_assoc. replace (S (length h)) with (length (h ++ [32])) by (rewrite length_app; cbn; lia).
    apply drop_app_length. }
  cbn [SplitN]. destruct (Hs proto (code ++ [32] ++ text) Hp) as (-> & -> & ->).
  destruct (Hs code text Hc) as (-> & -> & ->). done.
Qed.

Lemma readHTTPResponse_print method proto code text hs body e fuel :
  clean proto → 32 ∉ proto → clean text → 0 ≤ code < 2 ^ 63 → Forall field_ok hs → (length hs < fuel)%nat →
  readHTTPResponse fuel method (mkReader (print_response proto code text hs body) e) =
  Ret (match response_body method (header_of ∅ hs) with
       | inl b => inl (mkHttp1 (FormatInt code ++ str " " ++ text) code proto (header_of ∅ hs) b)
       | inr err => inr err
       end, mkReader body e).
Proof.
  intros Hp Hsp Ht Hc Hok Hf. destruct (FormatInt_clean code) as (Hfi & Hfc & Hfs); [lia|].
  unfold readHTTPResponse, print_response.
  set (line := proto ++ [32] ++ FormatInt code ++ [32] ++ text).
  assert (clean line) as Hcl.
  { unfold line, clean in *. rewrite Hfi, !elem_of_app, !elem_of_cons, !elem_of_nil. intuition lia. }
  rewrite ReadString_line by apply Hcl. rewrite TrimRight_line by done.
  assert (∀ A (a b : A), match line with [] => a | _ :: _ => b end = b) as -> by (by destruct proto).
  unfold line.
  rewrite Hfi, SplitN_status by done. rewrite Atoi_Itoa by done.
  rewrite read_headers_print by done. cbn [mbind go_bind].
  rewrite Hfi. by destruct (response_body method (header_of ∅ hs)).
Qed.

(** ** Chunked bodies *)

Fixpoint hex_print (fuel : nat) (n : Z) : bytes :=
  match fuel with
  | O => []
  | S fuel' => (if n <? 16 then [] else hex_print fuel' (n / 16)) ++ [hex_digit (n mod 16)]
  end.

Definition hex_char (c : Z) : Prop := 48 ≤ c ≤ 57 ∨ 97 ≤ c ≤ 102.

Lemma hex_digit_char d : 0 ≤ d < 16 → hex_char (hex_digit d).
Proof. intros Hd. unfold hex_char, hex_digit. case_if; lia. Qed.

Lemma chunk_hex_value_digit d : 0 ≤ d < 16 → hex_value (hex_digit d) = Some d.
Proof.
  intros Hd. unfold hex_digit. destruct (d <? 10) eqn:Hlt; bool_hyps; unfold hex_value, is_digit;
    zltb_solve; cbn [andb]; f_equal; lia.
Qed.

Lemma hex_digits_value_app a b acc :
  hex_digits_value (a ++ b) acc = hex_digits_value a acc ≫= hex_digits_value b.
Proof.
  revert acc. induction a as [|c a IH]; intros acc; [done|]. cbn [app hex_digits_value].
  destruct (hex_value c); cbn [mbind option_bind]; [apply IH|done].
Qed.

Lemma hex_print_value fuel n : 0 ≤ n < 16 ^ Z.of_nat fuel → hex_digits_value (hex_print fuel n) 0 = Some n.
Proof.
  revert n. induction fuel as [|fuel IH]; intros n Hn; [cbn in *; f_equal; lia|].
  cbn [hex_print]. rewrite hex_digits_value_app.
  assert (∀ q, hex_digits_value [hex_digit (n mod 16)] q = Some (16 * q + n mod 16)) as Hlast.
  { intros q. cbn [hex_digits_value]. by rewrite chunk_hex_value_digit by (apply Z.mod_pos_bound; lia). }
  pose proof (Z.div_mod n 16 ltac:(lia)). destruct (n <? 16) eqn:Hlt; bool_hyps.
  - change (hex_digits_value [hex_digit (n mod 16)] 0 = Some n). rewrite Hlast, Z.mod_small by lia. done.
  - rewrite IH.
    + change (hex_digits_value [hex_digit (n mod 16)] (n / 16) = Some n). rewrite Hlast. f_equal. lia.
    + rewrite Nat2Z.inj_succ, Z.pow_succ_r in Hn by lia. split; [apply Z.div_pos; lia|].
      apply Z.div_lt_upper_bound; lia.
Qed.

Lemma hex_print_chars fuel n : Forall hex_char (hex_print fuel n).
Proof.
  revert n. induction fuel as [|fuel IH]; intros n; [constructor|]. cbn [hex_print]. apply Forall_app_2.
  - case_if; [constructor|apply IH].
  - apply Forall_singleton, hex_digit_char, Z.mod_pos_bound. lia.
Qed.

Lemma hex_print_nonempty fuel n : hex_print (S fuel) n ≠ [].
Proof. cbn. by destruct (if n <? 16 then [] else _). Qed.

(** One byte of white space in front is stripped. *)
Lemma strip_one fuel seqs c s :
  Forall (λ q, q ≠ []) seqs → [c] ∈ seqs → Forall (λ q, head q = Some c → q = [c]) seqs →
  strip (S fuel) seqs (c :: s) = strip fuel seqs s.
Proof.
  intros Hne Hin Hc. cbn [strip].
  assert (∃ qs, filter (λ q, q `prefix_of` c :: s) seqs = [c] :: qs) as [qs ->]; [|done].
  induction seqs as [|q seqs IH]; [inversion Hin|].
  apply Forall_cons in Hne as [Hq Hne], Hc as [Hqc Hc].
  destruct (decide (head q = Some c)) as [Hh|Hh].
  - rewrite (Hqc Hh). rewrite filter_cons_True; [eauto|]. by exists s.
  - rewrite filter_cons_False.
    + apply IH; [done| |done]. apply elem_of_cons in Hin as [<-|?]; done.
    + intros Hp. destruct q as [|x q]; [done|]. apply Hh. cbn. f_equal. by eapply prefix_cons_inv_1.
Qed.

Lemma TrimSpace_line c s d : visible c → last (c :: s) = Some d → visible d → TrimSpace ((c :: s) ++ crlf) = c :: s.
Proof.
  intros Hc Hl Hd. unfold TrimSpace, visible in *. cbn [app]. rewrite strip_id.
  2: { repeat constructor; cbn; try done; intros [= ?]; lia. }
  apply last_Some in Hl as [l' Hl'].
  change (c :: s ++ crlf) with ((c :: s) ++ crlf). rewrite Hl', !reverse_app.
  change (reverse crlf) with [10; 13]. change (reverse [d]) with [d]. cbn [app].
  assert (length ((l' ++ [d]) ++ crlf) = S (S (S (length l')))) as -> by (rewrite !length_app; cbn; lia).
  rewrite !strip_one by (apply (bool_decide_unpack _); vm_compute; exact I).
  rewrite strip_id.
  - by rewrite reverse_cons, reverse_involutive.
  - repeat constructor; cbn; try done; intros [= ?]; lia.
Qed.


Definition hex (n : Z) : bytes := hex_print 16 n.

Definition encode_chunk (c : bytes) : bytes := hex (zlen c) ++ crlf ++ c ++ crlf.
Definition encode_chunks (cs : list bytes) : bytes := concat (map encode_chunk cs) ++ [48] ++ crlf ++ crlf.

Lemma hex_visible c : hex_char c → visible c.
Proof. unfold hex_char, visible. lia. Qed.

(** The line of a chunk size is read back. *)
Lemma hex_line n : 0 ≤ n < 2 ^ 63 → (10 ∉ hex n) ∧ ParseInt16 (TrimSpace (hex n ++ crlf)) = Some n.
Proof.
  intros Hn. unfold hex. pose proof (hex_print_chars 16 n) as Hch. pose proof (hex_print_nonempty 15 n) as Hne.
  assert (hex_digits_value (hex_print 16 n) 0 = Some n) as Hv.
  { apply hex_print_value. change (16 ^ Z.of_nat 16) with 18446744073709551616.
    change (2 ^ 63) with 9223372036854775808 in Hn. lia. }
  split.
  - intros Hin. pose proof (proj1 (Forall_forall _ _) Hch 10 Hin) as Hx. unfold hex_char in Hx. lia.
  - destruct (hex_print 16 n) as [|c s] eqn:Hs; [done|].
    destruct (last (c :: s)) as [d|] eqn:Hl; [|by apply last_None in Hl].
    assert (d ∈ c :: s) as Hd by (apply last_Some in Hl as [l' ->]; apply elem_of_app; right; by left).
    pose proof (proj1 (Forall_forall _ _) Hch c ltac:(by left)) as Hcc.
    pose proof (proj1 (Forall_forall _ _) Hch d Hd) as Hdc.
    rewrite (TrimSpace_line c s d (hex_visible c Hcc) Hl (hex_visible d Hdc)).
    unfold ParseInt16. unfold hex_char in Hcc.
    assert (∀ A (a b d : A), match c with 45 => a | 43 => b | _ => d end = d) as Hm.
    { intros A a b x. destruct c as [|p|p]; try done. do 6 (destruct p as [p|p|]; try done); exfalso; lia. }
    rewrite Hm, Hv. cbn [mbind option_bind]. by zltb_solve.
Qed.

Lemma ReadString_crlf k e : ReadString 10 (mkReader (crlf ++ k) e) = (crlf, None, mkReader k e).
Proof. apply (ReadString_line []). rewrite elem_of_nil. tauto. Qed.

(** One chunk that fits in the buffer. *)
Lemma chunked_Read_chunk c k e cap :
  0 < zlen c ≤ cap → cap < 2 ^ 62 →
  chunked_Read (make_slice cap) (mkChunked (mkReader (encode_chunk c ++ k) e) false) =
  Ret (c, zlen c, None, mkChunked (mkReader k e) false).
Proof.
  intros Hc Hcap. destruct (hex_line (zlen c)) as [Hh Hp]; [lia|].
  unfold chunked_Read, encode_chunk. cbn [cr_eof cr_reader]. rewrite <- !app_assoc.
  rewrite ReadString_line by done. rewrite Hp. zltb_solve.
  assert (s_cap (make_slice cap) = cap) as Hcp.
  { unfold s_cap, make_slice. cbn [s_arr]. Transparent zlen. unfold zlen. rewrite length_replicate. lia. }
  rewrite s_sub_Ret by (rewrite ?Hcp; lia). cbn [mbind go_bind s_len]. rewrite Z.sub_0_r.
  unfold ReadFull. cbn [rest rerr]. pose proof (zlen_nonneg (crlf ++ k)).
  rewrite zlen_app. zltb_solve. rewrite ztake_app_le, ztake_ge by lia. rewrite zdrop_app_ge, Z.sub_diag, zdrop_0 by lia.
  rewrite ReadString_crlf. done.
Qed.
#[global] Opaque zlen.

Lemma chunked_Read_end k e cap :
  chunked_Read (make_slice cap) (mkChunked (mkReader ([48] ++ crlf ++ crlf ++ k) e) false) =
  Ret ([], 0, Some (ErrNew EOF), mkChunked (mkReader k e) true).
Proof.
  unfold chunked_Read. cbn [cr_eof cr_reader].
  rewrite ReadString_line by (rewrite elem_of_cons, elem_of_nil; intuition lia).
  replace (ParseInt16 (TrimSpace ([48] ++ crlf))) with (Some 0) by (vm_compute; reflexivity).
  cbn [Z.eqb]. by rewrite ReadString_crlf.
Qed.

Lemma chunked_drain_encode cs k e cap fuel :
  Forall (λ c, 0 < zlen c ≤ cap) cs → cap < 2 ^ 62 → (length cs < fuel)%nat →
  chunked_drain fuel cap (mkChunked (mkReader (encode_chunks cs ++ k) e) false) =
  Ret (concat cs, ErrNew EOF, mkChunked (mkReader k e) true).
Proof.
  intros Hcs Hcap. revert fuel. induction cs as [|c cs IH]; intros fuel Hf;
    (destruct fuel as [|fuel]; [cbn in Hf; lia|]); cbn [chunked_drain].
  - unfold encode_chunks. cbn [map concat]. rewrite <- !app_assoc. rewrite app_nil_l, chunked_Read_end. done.
  - apply Forall_cons in Hcs as [Hc Hcs].
    replace (encode_chunks (c :: cs) ++ k) with (encode_chunk c ++ (encode_chunks cs ++ k))
      by (unfold encode_chunks; cbn [map concat]; rewrite <- !app_assoc; done).
    rewrite chunked_Read_chunk by done. cbn [mbind go_bind]. rewrite IH by (try done; cbn in Hf; lia).
    cbn [mbind go_bind concat]. by rewrite ztake_ge by lia.
Qed.

(** ** Theorems *)

(** [readHTTPResponse] inverts the printed form of a response: for a status
    line, header lines and a blank line followed by any bytes, it returns the
    status, the protocol and the header with every field added in order, its
    name and value trimmed; the body is the one the method and the header call
    for, and the reader is left at its first byte. *)
Theorem http1_response_roundtrip method proto code text hs body e :
  clean proto → 32 ∉ proto → clean text → 0 ≤ code < 2 ^ 63 → Forall field_ok hs →
  readHTTPResponse (S (length hs)) method (mkReader (print_response proto code text hs body) e) =
  Ret (match response_body method (header_of ∅ hs) with
       | inl b => inl (mkHttp1 (FormatInt code ++ str " " ++ text) code proto (header_of ∅ hs) b)
       | inr err => inr err
       end, mkReader body e).
Proof. intros. by apply readHTTPResponse_print; auto with lia. Qed.

Lemma http1_response_roundtrip_witness :
  readHTTPResponse 2 (str "GET") (mkReader (print_response (str "HTTP/1.1") 200 (str "OK")
    [(str "Content-Length", str " 3")] [1; 2; 3]) (ErrNew EOF)) =
  Ret (inl (mkHttp1 (str "200 OK") 200 (str "HTTP/1.1")
              (header_of ∅ [(str "Content-Length", str " 3")]) (BodyLimited 3)), mkReader [1; 2; 3] (ErrNew EOF)).
Proof.
  refine (http1_response_roundtrip (str "GET") (str "HTTP/1.1") 200 (str "OK")
    [(str "Content-Length", str " 3")] [1; 2; 3] (ErrNew EOF) _ _ _ _ _).
  - split; apply (bool_decide_unpack _); vm_compute; exact I.
  - apply (bool_decide_unpack _); vm_compute; exact I.
  - split; apply (bool_decide_unpack _); vm_compute; exact I.
  - lia.
  - apply Forall_singleton. split; [|split]; [split|split|]; apply (bool_decide_unpack _); vm_compute; exact I.
Defined.

(** C36: A chunked body is read back: chunks that are not empty and fit in the
    buffer of the caller come out one after another, then io.EOF, with the
    reader behind the body. *)
Theorem chunked_body_roundtrip cs k e cap :
  Forall (λ c, 0 < zlen c ≤ cap) cs → cap < 2 ^ 62 →
  chunked_drain (S (length cs)) cap (mkChunked (mkReader (encode_chunks cs ++ k) e) false) =
  Ret (concat cs, ErrNew EOF, mkChunked (mkReader k e) true).
Proof. intros. apply chunked_drain_encode; auto with lia. Qed.

Lemma chunked_body_roundtrip_witness :
  chunked_drain 3 512 (mkChunked (mkReader (encode_chunks [[1; 2]; [3]] ++ [9]) (ErrNew EOF)) false) =
  Ret ([1; 2; 3], ErrNew EOF, mkChunked (mkReader [9] (ErrNew EOF)) true).
Proof.
  refine (chunked_body_roundtrip [[1; 2]; [3]] [9] (ErrNew EOF) 512 _ _); [|lia].
  repeat constructor; rewrite ?zlen_cons, ?zlen_nil; lia.
Defined.

(** A chunk that is larger than the caller's buffer panics: [Read] slices the
    buffer to the size of the chunk. *)
Theorem chunked_large_chunk_panics c k e cap :
  0 ≤ cap < zlen c → zlen c < 2 ^ 62 →
  chunked_Read (make_slice cap) (mkChunked (mkReader (encode_chunk c ++ k) e) false) = Panic oob.
Proof.
  intros Hc Hmax. destruct (hex_line (zlen c)) as [Hh Hp]; [lia|].
  unfold chunked_Read, encode_chunk. cbn [cr_eof cr_reader]. rewrite <- !app_assoc.
  rewrite ReadString_line by done. rewrite Hp. zltb_solve.
  assert (s_cap (make_slice cap) = cap) as Hcp.
  { unfold s_cap, make_slice. cbn [s_arr]. Transparent zlen. unfold zlen. rewrite length_replicate. lia. }
  unfold s_sub. rewrite Hcp. by zltb_solve.
Qed.
#[global] Opaque zlen.

(** After a failed upgrade the request that the HTTP/1.1 fallback sends still
    carries the Upgrade field, and its body has been read. *)
Theorem upgrade_request_left_behind r u all :
  RBody r = ReaderBody (inl all) →
  let r' := (sendUpgradeRequestHTTP1 r u).2 in
  Header_Get (RHeader r') (str "Upgrade") = str "h2c" ∧ RBody r' = ReaderBody (inl []).
Proof.
  intros Hb. unfold sendUpgradeRequestHTTP1, upgrade_headers. rewrite Hb. cbn [snd RHeader RBody]. split; [|done].
  unfold Header_Get, Header_Set.
  rewrite lookup_insert_ne by (vm_compute; discriminate).
  rewrite lookup_insert_ne by (vm_compute; discriminate).
  by rewrite lookup_insert_eq.
Qed.
