(* ===== verification/HttpFetch.v ===== *)
(** * The fetcher and its connection pool

    http/client/fetcher.go ([Do], [doHTTP], [doTLS], [doHTTP2WithTLS],
    [CallGRPC]), http/client/http2.go ([doHTTP2], [tryHTTP2Direct],
    [tryHTTP2Upgrade]), http/client/http1.go ([doHTTP1], [doHTTP1WithConn]) and
    http/client/conn_pool.go.

    The network is an interface, the type class [Transport]: dialling and
    sockets, TLS, the HTTP/1.1 exchange of net/http, and the operations of an
    HTTP/2 connection, whose implementation is the subject of [HttpSys].  The
    state of the transport is passed along; a goroutine that fetches is
    followed from its call to its return. *)
From S2P Require Import Prelude Errors NetAddr NetText Bytespool IO Wire Http2Frames TcpClient HttpText Http1.

(** [Cn]: connections ([net.Conn]); [CC]: HTTP/2 connections ([*clientConn]). *)
Class Transport (W Cn CC : Type) := {
  t_dial : bytes → bool → W → (Cn + error) * W;
  t_is_tls : Cn → bool;
  t_negotiated : Cn → W → bytes;
  t_write : Cn → bytes → W → option error * W;
  t_read : Cn → W → Reader * W;
  t_close : Cn → W → W;
  t_http1 : Cn → Request → W → (Response + error) * W;
  t_dialContext : bytes → dialOptions Cn → W → (CC + error) * W;
  t_isValid : CC → W → bool * W;
  t_do : CC → context → Request → W → (Response + error) * W;
  t_closeCC : CC → W → option error * W;
  t_asOpError : error → option error        (** [errors.As] for [*net.OpError] *)
}.

Definition ErrHTTP2Unsupported := Sentinel "client.ErrHTTP2Unsupported" "unsupported protocol http2".

Definition err_Is (s : sentinel) (e : option error) : bool := match e with Some e => Is s e | None => false end.

Section Fetcher.
Context {W Cn CC : Type} `{!Transport W Cn CC}.

(** ** connPool *)

(** [conns]: [None] is the nil map that [Close] leaves. *)
Record connPool := mkPool { conns : option (gmap bytes CC); pool_verbose : bool }.

Definition newConnPool : connPool := mkPool (Some ∅) false.

(** The pool and the transport. *)
Record state := mkState { pool : connPool; world : W }.
Definition set_world (st : state) (w : W) : state := mkState (pool st) w.

(** The loop of [Close]: the error is the one of the last connection. *)
Fixpoint close_all (ccs : list CC) (err : option error) (w : W) : option error * W :=
  match ccs with
  | [] => (err, w)
  | cc :: ccs' => let '(e, w) := t_closeCC cc w in close_all ccs' e w
  end.

Definition pool_Close (st : state) : option error * state :=
  let ccs := match conns (pool st) with Some m => (map_to_list m).*2 | None => [] end in
  let '(err, w) := close_all ccs None (world st) in
  (err, mkState (mkPool None (pool_verbose (pool st))) w).

(** [fetcher.Close] *)
Definition fetcher_Close (st : state) : option error * state := pool_Close st.

(** The part of [getConn] after the cache: dial and store. *)
Definition getConn_dial (ctx : context) (target : bytes) (opts : list DialOption) (st : state)
  : go ((CC + error) * state) :=
  let opts := if VerboseFromContext ctx then opts ++ [withVerbose] else opts in
  let '(r, w) := t_dialContext target (evaluateOptions opts) (world st) in
  let st := set_world st w in
  match r with
  | inr err => Ret (inr err, st)
  | inl cc =>
      match conns (pool st) with
      | None => Panic "assignment to entry in nil map"
      | Some m => Ret (inl cc, mkState (mkPool (Some (<[target := cc]> m)) (pool_verbose (pool st))) (world st))
      end
  end.

Definition getConn (ctx : context) (target : bytes) (opts : list DialOption) (st : state)
  : go ((CC + error) * state) :=
  let cached := m ← conns (pool st); m !! target in
  let st := mkState (mkPool (conns (pool st)) (VerboseFromContext ctx)) (world st) in
  match cached with
  | None => getConn_dial ctx target opts st
  | Some cc =>
      let '(ok, w) := t_isValid cc (world st) in
      let st := set_world st w in
      if ok then Ret (inl cc, st)
      else
        let '(_, w) := t_closeCC cc (world st) in
        getConn_dial ctx target opts (set_world st w)
  end.

(** ** HTTP/1.1 *)

Definition doHTTP1WithConn (req : Request) (conn : Cn) (st : state) : (Response + error) * state :=
  let '(r, w) := t_http1 conn req (world st) in (r, set_world st w).

Definition dialConn (addr : bytes) (tls : bool) (st : state) : (Cn + error) * state :=
  let '(r, w) := t_dial (dial_address addr tls) tls (world st) in (r, set_world st w).

Definition doHTTP1 (req : Request) (u : ReqURL) (st : state) : (Response + error) * state :=
  let '(r, st) := dialConn (Host req) false st in
  match r with
  | inr err => (inr err, st)
  | inl conn =>
      let host := match Host req with [] => URLHost u | h => h end in
      let req := mkRequest (Method req) (RURL req) host
                   (Header_Set (RHeader req) (str "Connection") (str "close")) (RBody req) (RContentLength req) in
      doHTTP1WithConn req conn st
  end.

(** ** HTTP/2 *)

Definition tryHTTP2Direct (ctx : context) (req : Request) (u : ReqURL) (st : state)
  : go ((CC + error) * state) :=
  let '(r, st) := dialConn (Host req) false st in
  match r with
  | inr err => Ret (inr err, st)
  | inl conn =>
      let '(er, w) := t_write conn ClientPreface (world st) in
      match er with
      | Some _ =>
          Ret (inr (Errorf "Failed to connect using HTTP/2 Prior Knowledge" None), set_world st (t_close conn w))
      | None => getConn ctx (URLHost u) [WithConn conn; DisableSendPreface] (set_world st w)
      end
  end.

(** [fuel] bounds the header lines of the answer to the upgrade.  The request
    is left changed. *)
Definition tryHTTP2Upgrade (fuel : nat) (ctx : context) (req : Request) (u : ReqURL) (st : state)
  : go ((CC + error) * Request * state) :=
  let '(r, st) := dialConn (Host req) false st in
  match r with
  | inr err => Ret (inr err, req, st)
  | inl conn =>
      let '(msg, req) := sendUpgradeRequestHTTP1 req u in
      let '(err, w) := match msg with
                       | inl b => t_write conn b (world st)
                       | inr e => (Some e, world st)
                       end in
      match err with
      | Some e => Ret (inr e, req, set_world st (t_close conn w))
      | None =>
          let '(reader, w) := t_read conn w in
          '(upgraded, err, _) ← readUpgradeResponse fuel reader;
          match err with
          | Some e => Ret (inr e, req, set_world st (t_close conn w))
          | None =>
              if (upgraded : bool) then
                '(r, st) ← getConn ctx (URLHost u) [WithConn conn; WithH2CUpgrade] (set_world st w);
                Ret (r, req, st)
              else Ret (inr (Errorf "server does not support HTTP/2 Upgrade" None), req, set_world st (t_close conn w))
          end
      end
  end.

Definition cc_do (cc : CC) (ctx : context) (req : Request) (st : state) : (Response + error) * state :=
  let '(r, w) := t_do cc ctx req (world st) in (r, set_world st w).

(** The second half of [doHTTP2]: the upgrade. *)
Definition doHTTP2_upgrade (fuel : nat) (ctx : context) (req : Request) (u : ReqURL) (st : state)
  : go ((Response + error) * Request * state) :=
  '(r, req, st) ← tryHTTP2Upgrade fuel ctx req u st;
  match r with
  | inl cc => let '(resp, st) := cc_do cc (WithUpgrade ctx) req st in Ret (resp, req, st)
  | inr err =>
      match t_asOpError err with
      | Some opErr => Ret (inr opErr, req, st)
      | None => Ret (inr (ErrNew ErrHTTP2Unsupported), req, st)
      end
  end.

Definition doHTTP2 (fuel : nat) (ctx : context) (req : Request) (u : ReqURL) (st : state)
  : go ((Response + error) * Request * state) :=
  if UpgradeFromContext ctx then doHTTP2_upgrade fuel ctx req u st
  else
    '(r, st) ← tryHTTP2Direct ctx req u st;
    match r with
    | inl cc => let '(resp, st) := cc_do cc ctx req st in Ret (resp, req, st)
    | inr err =>
        match t_asOpError err with
        | Some opErr => Ret (inr opErr, req, st)
        | None => doHTTP2_upgrade fuel ctx req u st
        end
    end.

Definition doHTTP2WithTLS (ctx : context) (conn : Cn) (req : Request) (u : ReqURL) (st : state)
  : go ((Response + error) * state) :=
  if bool_decide (t_negotiated conn (world st) = str "h2") then
    let '(err, w) := t_write conn ClientPreface (world st) in
    let st := set_world st w in
    match err with
    | Some e => Ret (inr e, st)
    | None =>
        '(r, st) ← getConn ctx (URLHost u) [WithConn conn; DisableSendPreface] st;
        match r with
        | inl cc => Ret (cc_do cc ctx req st)
        | inr _ => Ret (inr (ErrNew ErrHTTP2Unsupported), st)
        end
    end
  else Ret (inr (ErrNew ErrHTTP2Unsupported), st).

(** ** Choice of the protocol *)

Definition is_http1 (p : HttpProtocol) : bool :=
  match p with HTTP1 | HTTP10 | HTTP11 => true | _ => false end.

Definition resp_err (r : Response + error) : option error := match r with inr e => Some e | inl _ => None end.

Definition doHTTP (fuel : nat) (ctx : context) (req : Request) (u : ReqURL) (st : state)
  : go ((Response + error) * state) :=
  let protocol := ProtocolFromContext ctx in
  if bool_decide (protocol = HTTP2) then '(r, _, st) ← doHTTP2 fuel ctx req u st; Ret (r, st)
  else if is_http1 protocol then Ret (doHTTP1 req u st)
  else
    '(res, req, st) ← doHTTP2 fuel ctx req u st;
    if negb (err_Is ErrHTTP2Unsupported (resp_err res)) then Ret (res, st)
    else Ret (doHTTP1 req u st).

Definition doTLS (ctx : context) (req : Request) (u : ReqURL) (st : state) : go ((Response + error) * state) :=
  let '(r, st) := dialConn (Host req) true st in
  match r with
  | inr err => Ret (inr err, st)
  | inl conn =>
      if negb (t_is_tls conn) then Ret (inr (Errorf "expected *tls.Conn" None), st)
      else
        let protocol := ProtocolFromContext ctx in
        if bool_decide (protocol = HTTP2) then doHTTP2WithTLS ctx conn req u st
        else if is_http1 protocol then Ret (doHTTP1WithConn req conn st)
        else
          '(res, st) ← doHTTP2WithTLS ctx conn req u st;
          if negb (err_Is ErrHTTP2Unsupported (resp_err res)) then Ret (res, st)
          else Ret (doHTTP1WithConn req conn st)
  end.

Definition Do (fuel : nat) (ctx : context) (req : Request) (st : state) : go ((Response + error) * state) :=
  match RURL req with
  | None => Panic nil_deref
  | Some u => if bool_decide (Scheme u = str "https") then doTLS ctx req u st else doHTTP fuel ctx req u st
  end.

(** ** CallGRPC *)
Section CallGRPC.
Context {Msg : Type} (Marshal : Msg → bytes + error) (Unmarshal : bytes → Msg → option error * Msg).
(** What the array that [io.ReadAll] returns holds behind the body. *)
Context (spare : bytes).

(** The number [strconv.Atoi] returns, also with an error: 0 for bad syntax, the
    nearest [int] for a number out of range. *)
Definition Atoi_value (s : bytes) : Z :=
  match Atoi s with
  | Some v => v
  | None =>
      let '(neg, ds) := match s with 45 :: ds => (true, ds) | 43 :: ds => (false, ds) | _ => (false, s) end in
      match ds, atoi_digits ds 0 with
      | _ :: _, Some _ => if (neg : bool) then - 2 ^ 63 else 2 ^ 63 - 1
      | _, _ => 0
      end
  end.

(** [status.New(code, msg).Err()] *)
Definition status_err (code : Z) (message : bytes) : option error :=
  if u32 code =? 0 then None else Some (Errorf "rpc error" None).

Definition grpc_request (u : ReqURL) (body : bytes) : Request :=
  let h := Header_Set ∅ (str "content-type") (str "application/grpc") in
  let h := Header_Set h (str "te") (str "trailers") in
  let h := Header_Set h (str "grpc-encoding") (str "identity") in
  let h := Header_Set h (str "grpc-accept-encoding") (str "identity") in
  mkRequest (str "POST") (Some u) (URLHost u) h (ReaderBody (inl body)) (zlen body).

(** What [CallGRPC] makes of a response. *)
Definition grpc_result (resp : Response) (res : Msg) : go (option error * Msg) :=
  let grpcStatus := match Header_Get (Trailer resp) (str "grpc-status") with
                    | [] => 0
                    | v => Atoi_value v
                    end in
  let grpcMessage := Header_Get (Trailer resp) (str "grpc-message") in
  match status_err grpcStatus grpcMessage with
  | Some e => Ret (Some e, res)
  | None =>
      '(resBytes, err) ← Grpc.DecodeGrpcPayload (Slice (PBody resp ++ spare) (zlen (PBody resp)));
      match err with
      | Some e => Ret (Some e, res)
      | None => Ret (Unmarshal (default [] resBytes) res)
      end
  end.

Definition CallGRPC (fuel : nat) (ctx : context) (u : ReqURL) (req res : Msg) (st : state)
  : go (option error * Msg * state) :=
  let ctx := WithProtocol ctx HTTP2 in
  match Marshal req with
  | inr err => Ret (Some err, res, st)
  | inl reqBytes =>
      '(r, st) ← Do fuel ctx (grpc_request u (Grpc.EncodeGrpcPayload reqBytes)) st;
      match r with
      | inr err => Ret (Some err, res, st)
      | inl resp => '(err, res) ← grpc_result resp res; Ret (err, res, st)
      end
  end.
End CallGRPC.
End Fetcher.
Arguments connPool : clear implicits.
Arguments state : clear implicits.
