(* ===== verification/HttpFetchSpec.v ===== *)
(** * Properties of the fetcher and its connection pool

    About file [HttpFetch]: what the pool returns and remembers, when a fetch
    falls back to HTTP/1.1, and the result of a gRPC call. *)
From S2P Require Import Prelude Errors NetAddr NetText Bytespool IO Wire Http2Frames Http2Spec TcpClient HttpText Http1.
From S2P Require Import HttpFetch.

Section FetchFacts.
Context {W Cn CC : Type} `{!Transport W Cn CC}.
Implicit Types (st : state W CC).

Lemma getConn_dial_spec ctx target opts st cc st' :
  getConn_dial ctx target opts st = Ret (inl cc, st') →
  ∃ m, conns (pool st) = Some m ∧ conns (pool st') = Some (<[target := cc]> m).
Proof.
  unfold getConn_dial. destruct (t_dialContext target _ (world st)) as [r w]. destruct r as [c|e]; [|done].
  cbn. destruct (conns (pool st)) as [m|]; [|done]. intros Hs. simplify_eq. cbn. eauto.
Qed.

(** The connection in use for a target is the one the pool remembers for it:
    when [getConn] returns a connection, the pool has it under the target, and
    the connections of other targets are unchanged. *)
Theorem getConn_remembers ctx target opts st cc st' :
  getConn ctx target opts st = Ret (inl cc, st') →
  ∃ m m', conns (pool st) = Some m ∧ conns (pool st') = Some m' ∧ m' !! target = Some cc ∧
    delete target m' = delete target m.
Proof.
  assert (∀ st1, conns (pool st1) = conns (pool st) → getConn_dial ctx target opts st1 = Ret (inl cc, st') →
    ∃ m m', conns (pool st) = Some m ∧ conns (pool st') = Some m' ∧ m' !! target = Some cc ∧
      delete target m' = delete target m) as Hdial.
  { intros st1 Heq Hd. apply getConn_dial_spec in Hd as (m & Hm & Hm'). exists m, (<[target := cc]> m).
    split; [congruence|]. split; [done|]. split; [apply lookup_insert_eq|apply delete_insert_eq]. }
  unfold getConn. destruct (conns (pool st)) as [m|] eqn:Hm; cbn [mbind option_bind]; [|by apply Hdial].
  destruct (m !! target) as [c|] eqn:Hc; [|by apply Hdial].
  destruct (t_isValid c _) as [ok w]. destruct ok.
  - intros Hs. simplify_eq. cbn. eauto 8.
  - destruct (t_closeCC c _) as [e w']. by apply Hdial.
Qed.

(** A connection that is still valid is used again, whatever options the
    caller gave. *)
Lemma getConn_cached ctx target opts st m cc w :
  conns (pool st) = Some m → m !! target = Some cc → t_isValid cc (world st) = (true, w) →
  getConn ctx target opts st = Ret (inl cc, mkState (mkPool (Some m) (VerboseFromContext ctx)) w).
Proof. intros Hm Hc Hv. unfold getConn. rewrite Hm. cbn. rewrite Hc. cbn. by rewrite Hv. Qed.

(** After [Close] the pool is a nil map: the next successful dial panics. *)
Theorem pool_closed_panics ctx target opts st cc w :
  t_dialContext target (evaluateOptions (if VerboseFromContext ctx then opts ++ [withVerbose] else opts))
    (world (pool_Close st).2) = (inl cc, w) →
  getConn ctx target opts (pool_Close st).2 = Panic "assignment to entry in nil map".
Proof.
  intros Hd. unfold getConn, getConn_dial, pool_Close in *. destruct (close_all _ None (world st)) as [e w'].
  cbn in *. by rewrite Hd.
Qed.

(** ** Choice of the protocol *)

Lemma doHTTP2_both_fail fuel ctx req u st e1 st1 e2 req2 st2 :
  UpgradeFromContext ctx = false →
  tryHTTP2Direct ctx req u st = Ret (inr e1, st1) → t_asOpError e1 = None →
  tryHTTP2Upgrade fuel ctx req u st1 = Ret (inr e2, req2, st2) → t_asOpError e2 = None →
  doHTTP2 fuel ctx req u st = Ret (inr (ErrNew ErrHTTP2Unsupported), req2, st2).
Proof.
  intros Hup H1 Ho1 H2 Ho2. unfold doHTTP2, doHTTP2_upgrade. rewrite Hup, H1. cbn. rewrite Ho1, H2. cbn.
  by rewrite Ho2.
Qed.

(** With no protocol asked for, a plain fetch falls back to HTTP/1.1 when HTTP/2
    is refused on both ways, direct and by upgrade, with errors that are not
    errors of the network: the HTTP/1.1 exchange is then made with the request
    as the upgrade left it.  An error of the network on the direct way is
    returned as it is, and nothing else is tried. *)
Theorem fetch_falls_back fuel ctx req u st e1 st1 :
  ProtocolFromContext ctx = Unknown → UpgradeFromContext ctx = false →
  tryHTTP2Direct ctx req u st = Ret (inr e1, st1) →
  (∀ opErr, t_asOpError e1 = Some opErr → Is ErrHTTP2Unsupported opErr = false →
     doHTTP fuel ctx req u st = Ret (inr opErr, st1)) ∧
  (∀ e2 req2 st2, t_asOpError e1 = None →
     tryHTTP2Upgrade fuel ctx req u st1 = Ret (inr e2, req2, st2) → t_asOpError e2 = None →
     doHTTP fuel ctx req u st = Ret (doHTTP1 req2 u st2)).
Proof.
  intros Hp Hup H1. split.
  - intros opErr Ho Hn. unfold doHTTP, doHTTP2. rewrite Hp, Hup, H1. cbn. rewrite Ho. cbn. by rewrite Hn.
  - intros e2 req2 st2 Ho1 H2 Ho2. unfold doHTTP. rewrite Hp. cbn [is_http1 bool_decide decide].
    rewrite (doHTTP2_both_fail fuel ctx req u st e1 st1 e2 req2 st2) by done. done.
Qed.

(** ** gRPC *)
Section Grpc.
Context {Msg : Type} (Marshal : Msg → bytes + error) (Unmarshal : bytes → Msg → option error * Msg).
Context (spare : bytes).

Lemma decode_spare m :
  zlen m < 2 ^ 32 - 5 →
  Grpc.DecodeGrpcPayload (Slice (Grpc.EncodeGrpcPayload m ++ spare) (zlen (Grpc.EncodeGrpcPayload m))) =
  Ret (Some m, None).
Proof.
  intros Hm. pose proof (zlen_nonneg m). pose proof (zlen_nonneg spare).
  unfold Grpc.EncodeGrpcPayload. rewrite u32_id by lia. unfold be_PutUint32. cbn [app].
  rewrite DecodeGrpcPayload_cases; try apply u8_range.
  - rewrite be_Uint32_PutUint32 by lia. cbn [Z.eqb negb]. rewrite zlen_app. zltb_solve.
    by rewrite ztake_app_le, ztake_ge by lia.
  - rewrite !zlen_cons, !zlen_app. lia.
Qed.

(** A gRPC call returns what the server answered: when the exchange gives a
    response whose trailers report no error and whose body is one encoded
    message, [CallGRPC] unmarshals exactly that message; when the trailers
    report a status that is not zero, the call fails and the result is left
    alone. *)
Theorem callgrpc_returns_message fuel ctx u req res st reqBytes resp st' :
  Marshal req = inl reqBytes →
  Do fuel (WithProtocol ctx HTTP2) (grpc_request u (Grpc.EncodeGrpcPayload reqBytes)) st = Ret (inl resp, st') →
  (∀ m res', Header_Get (Trailer resp) (str "grpc-status") ∈ [[]; str "0"] →
     PBody resp = Grpc.EncodeGrpcPayload m → zlen m < 2 ^ 32 - 5 → Unmarshal m res = (None, res') →
     CallGRPC Marshal Unmarshal spare fuel ctx u req res st = Ret (None, res', st')) ∧
  (∀ code, Header_Get (Trailer resp) (str "grpc-status") ≠ [] →
     Atoi (Header_Get (Trailer resp) (str "grpc-status")) = Some code → 0 < code < 2 ^ 32 →
     ∃ e, CallGRPC Marshal Unmarshal spare fuel ctx u req res st = Ret (Some e, res, st')).
Proof.
  intros Hma Hdo. unfold CallGRPC, grpc_result. rewrite Hma, Hdo. cbn [mbind go_bind]. split.
  - intros m res' Hst Hb Hm Hu.
    assert (match Header_Get (Trailer resp) (str "grpc-status") with [] => 0 | v => Atoi_value v end = 0) as ->.
    { rewrite !elem_of_cons, elem_of_nil in Hst. by destruct Hst as [->|[->|[]]]. }
    unfold status_err. rewrite u32_id by lia. cbn [Z.eqb]. rewrite Hb, decode_spare by done.
    cbn [mbind go_bind]. change (default [] (Some m)) with m. by rewrite Hu.
  - intros code Hne Hc Hr.
    assert (match Header_Get (Trailer resp) (str "grpc-status") with [] => 0 | v => Atoi_value v end = code) as ->.
    { destruct (Header_Get (Trailer resp) (str "grpc-status")) as [|x l]; [done|]. unfold Atoi_value. by rewrite Hc. }
    unfold status_err. rewrite u32_id by lia. zltb_solve. cbn. eauto.
Qed.
End Grpc.
End FetchFacts.

(** ** A transport that records what is done *)
Module FetchExamples.

Inductive event := EvDial (n : nat) | EvClose (n : nat).

(** Connections are numbered; every dial and exchange succeeds. *)
Definition resp0 : Response := mkResponse (str "200 OK") 200 (str "HTTP/2.0") 2 0 ∅ ∅ [0; 0; 0; 0; 1; 9] 6.

#[global] Instance log_transport : Transport (list event) nat nat := {
  t_dial := λ _ _ w, (inl (length w), w ++ [EvDial (length w)]);
  t_is_tls := λ _, true;
  t_negotiated := λ _ _, str "h2";
  t_write := λ _ _ w, (None, w);
  t_read := λ _ w, (mkReader [] (ErrNew EOF), w);
  t_close := λ n w, w ++ [EvClose n];
  t_http1 := λ _ _ w, (inl resp0, w);
  t_dialContext := λ _ o w, (match conn o with Some n => inl n | None => inr (ErrNew EOF) end, w);
  t_isValid := λ _ w, (true, w);
  t_do := λ _ _ _ w, (inl resp0, w);
  t_closeCC := λ n w, (None, w ++ [EvClose n]);
  t_asOpError := λ _, None
}.

Definition url0 : ReqURL := mkReqURL (str "http") [] (str "example.com") (str "/") false [].
Definition get0 : Request := mkRequest (str "GET") (Some url0) (str "example.com") ∅ NilBody 0.
Definition st0 : state (list event) nat := mkState newConnPool [].
Definition fetch (st : state (list event) nat) : state (list event) nat :=
  match Do 10 [] get0 st with Ret (_, st) => st | _ => st end.

(** The same, but HTTP/2 is refused. *)
Definition refusing : Transport (list event) nat nat := {|
  t_dial := t_dial; t_is_tls := λ _, true; t_negotiated := t_negotiated;
  t_write := t_write; t_read := t_read; t_close := t_close; t_http1 := t_http1;
  t_dialContext := λ _ _ w, (inr (ErrNew EOF), w);
  t_isValid := t_isValid; t_do := t_do; t_closeCC := t_closeCC; t_asOpError := λ _, None
|}.
End FetchExamples.

Section FetchWitnesses.
Import FetchExamples.

Lemma getConn_remembers_witness :
  let st' := mkState (mkPool (Some {[str "h" := 5%nat]}) false) [] in
  getConn [] (str "h") [WithConn 5%nat] st0 = Ret (inl 5%nat, st') ∧
  ∃ m', conns (pool st') = Some m' ∧ m' !! str "h" = Some 5%nat.
Proof.
  intros st'. assert (getConn [] (str "h") [WithConn 5%nat] st0 = Ret (inl 5%nat, st')) as Hg
    by (vm_compute; reflexivity).
  split; [exact Hg|].
  destruct (getConn_remembers [] (str "h") [WithConn 5%nat] st0 5%nat st' Hg) as (m & m' & _ & Hm' & Hl & _).
  exists m'. split; [exact Hm'|exact Hl].
Defined.

Lemma fetch_falls_back_witness :
  @doHTTP _ _ _ refusing 10 [] get0 url0 st0 =
  Ret (inl resp0, mkState newConnPool [EvDial 0; EvDial 1; EvClose 1; EvDial 3]).
Proof.
  refine (proj2 (@fetch_falls_back _ _ _ refusing 10 [] get0 url0 st0 (ErrNew EOF)
    (mkState newConnPool [EvDial 0]) eq_refl eq_refl eq_refl)
    (ErrNew EOF) (sendUpgradeRequestHTTP1 get0 url0).2 (mkState newConnPool [EvDial 0; EvDial 1; EvClose 1])
    eq_refl _ eq_refl).
  vm_compute. reflexivity.
Defined.

Lemma callgrpc_returns_message_witness :
  ∃ st', CallGRPC (λ m : bytes, inl m) (λ b _, (None, b)) [] 10 [] url0 [8] [] st0 = Ret (None, [9], st').
Proof.
  eexists.
  refine (proj1 (callgrpc_returns_message (λ m : bytes, inl m) (λ b _, (None, b)) [] 10 [] url0 [8] [] st0 [8] resp0 _
    eq_refl _) [9] [9] _ _ _ _); [vm_compute; reflexivity|by left|reflexivity|vm_compute; reflexivity|reflexivity].
Defined.

(** Every fetch dials a connection of its own before the pool is asked; the
    second one is neither used nor closed. *)
Theorem fetch_leaks_connection :
  world (fetch (fetch st0)) = [EvDial 0; EvDial 1] ∧
  (λ m : gmap bytes nat, m !! str "example.com") <$> conns (pool (fetch (fetch st0))) = Some (Some 0%nat).
Proof. by split; vm_compute. Qed.
End FetchWitnesses.
