(* ===== verification/Config.v ===== *)
(** * Configuration: environment, policies, typed messages, transports

    platform/platform.go, features/policy/policy.go, features/stats/stats.go,
    serial/*.go, transport/internet/config.go and memory_settings.go.

    The environment of the process is a map; package-level tables are a
    [registry] that the operations read and update.  The registry of protobuf
    message types and the functions of package proto are parameters. *)
From S2P Require Import Prelude Errors NetAddr NetText Bytespool IO Wire TcpClient HttpText Pipe.

(** ** platform *)
Module Platform.

Definition Env : Type := gmap bytes bytes.

Record EnvFlag := mkEnvFlag { Name : bytes; AltName : bytes }.

(** [strings.ToUpper] of an ASCII text. *)
Definition ToUpper (s : bytes) : bytes := upper <$> s.

Definition NormalizeEnvName (name : bytes) : bytes :=
  (λ c, if c =? 46 then 95 else c) <$> ToUpper (TrimSpace name).

Definition NewEnvFlag (name : bytes) : EnvFlag := mkEnvFlag name (NormalizeEnvName name).

Definition GetValue (env : Env) (f : EnvFlag) (defaultValue : bytes) : bytes :=
  match env !! Name f with
  | Some v => v
  | None =>
      match AltName f with
      | [] => defaultValue
      | _ => default defaultValue (env !! AltName f)
      end
  end.

(** [strconv.ParseInt(s, 10, 32)] *)
Definition ParseInt32 (s : bytes) : option Z :=
  v ← Atoi s; if (- 2 ^ 31 <=? v) && (v <? 2 ^ 31) then Some v else None.

(** Whether [GetValue] calls the function that gives the default. *)
Definition is_set (env : Env) (f : EnvFlag) : bool :=
  match env !! Name f with
  | Some _ => true
  | None => match AltName f with [] => false | _ => match env !! AltName f with Some _ => true | None => false end end
  end.

Definition GetValueAsInt (env : Env) (f : EnvFlag) (defaultValue : Z) : Z :=
  if negb (is_set env f) then defaultValue
  else match ParseInt32 (GetValue env f []) with
       | None => defaultValue
       | Some v => v
       end.

Definition BufferSize : bytes := str "wheels.ray.buffer.size".
Definition ConfdirLocation : bytes := str "wheels.location.confdir".
Definition PluginLocation : bytes := str "wheels.location.plugin".
Definition ConfigLocation : bytes := str "wheels.location.config".

Definition GetConfDirPath (env : Env) : bytes := GetValue env (NewEnvFlag ConfdirLocation) [].

(** Functions of path/filepath; [exec] is what [os.Executable] returns. *)
Section Paths.
Context (Dir : bytes → bytes) (Join : list bytes → bytes) (exec : bytes + error).

Definition getExecutableDir : bytes :=
  match exec with inr _ => [] | inl path => Dir path end.

Definition getExecutableSubDir (dir : bytes) : bytes := Join [getExecutableDir; dir].

Definition GetPluginDirectory (env : Env) : bytes :=
  GetValue env (NewEnvFlag PluginLocation) (getExecutableSubDir (str "plugins")).

Definition GetConfigurationPath (env : Env) : bytes :=
  Join [GetValue env (NewEnvFlag ConfigLocation) getExecutableDir; str "config.json"].
End Paths.

End Platform.

(** ** features/policy *)
Module Policy.
Import Platform.

Record Timeout := mkTimeout { Handshake : Z; ConnectionIdle : Z; UplinkOnly : Z; DownlinkOnly : Z }.
Record Stats := mkStats { UserUplink : bool; UserDownlink : bool }.
Record Buffer := mkBuffer { PerConnection : Z }.
Record Session := mkSession { Timeouts : Timeout; SStats : Stats; SBuffer : Buffer }.

(** [init], for the environment and [runtime.GOARCH]: [defaultBufferSize]. *)
Definition defaultValue : Z := -17.
Definition init (env : Env) (GOARCH : string) : Z :=
  let size := GetValueAsInt env (NewEnvFlag BufferSize) defaultValue in
  if size =? 0 then -1
  else if size =? defaultValue then
    if bool_decide (GOARCH ∈ ["arm"; "mips"; "mipsle"]) then 0
    else if bool_decide (GOARCH ∈ ["arm64"; "mips64"; "mips64le"]) then 4 * 1024
    else 512 * 1024
  else i32 (i32 (i32 size * 1024) * 1024).

Section Defaults.
Context (defaultBufferSize : Z).

Definition defaultBufferPolicy : Buffer := mkBuffer defaultBufferSize.

Definition second : Z := 1000000000.

Definition SessionDefault : Session :=
  mkSession (mkTimeout (second * 60) (second * 300) (second * 1) (second * 1)) (mkStats false false)
    defaultBufferPolicy.

(** The values of the context under [bufferPolicyKey], the last one first. *)
Definition ContextWithBufferPolicy (ctx : list Buffer) (p : Buffer) : list Buffer := p :: ctx.

Definition BufferPolicyFromContext (ctx : list Buffer) : Buffer :=
  match ctx with
  | [] => defaultBufferPolicy
  | pPolicy :: _ => pPolicy
  end.
End Defaults.

(** The pipe that [pipe.New(pipe.OptionsFromContext(ctx)...)] makes. *)
Definition context_pipe (env : Env) (GOARCH : string) (ctx : list Buffer) : pipe :=
  Pipe.New (OptionsFromContext (PerConnection (BufferPolicyFromContext (init env GOARCH) ctx))).

End Policy.

(** ** serial *)
Module Serial.

Definition be_Uint16 (b0 b1 : Z) : Z := Z.lor b1 (Z.shiftl b0 8).
Definition be_PutUint16 (v : Z) : bytes := [u8 (Z.shiftr v 8); u8 v].
Definition be_PutUint64 (v : Z) : bytes := (λ k : nat, u8 (Z.shiftr v (8 * (7 - Z.of_nat k)))) <$> seq 0 8.

Section Numbers.
Context {R T : Type} `{!IOReader R, !IOWriter T}.

(** [fuel]: the reads that [io.ReadFull] may need. *)
Definition ReadUint16 (fuel : nat) (r : R) : M (Z * option error * R) :=
  '(b, err, r) ← ReadFull fuel r 2;
  match err, b with
  | None, [b0; b1] => mret (be_Uint16 b0 b1, None, r)
  | _, _ => mret (0, err, r)
  end.

Definition WriteUint16 (t : T) (value : Z) : M (Z * option error * T) := io_write t (be_PutUint16 value).
Definition WriteUint64 (t : T) (value : Z) : M (Z * option error * T) := io_write t (be_PutUint64 value).
End Numbers.

(** The dynamic types [ToString] tells apart; of a [fmt.Stringer] or an [error]
    the text it gives, of other values what [fmt.Sprintf] prints. *)
Inductive any :=
  | Nil
  | String_ (s : bytes)
  | StringPtr (p : option bytes)
  | Stringer (s : bytes)
  | ErrorText (s : bytes)
  | Other (printed : bytes).

Definition ToString (v : any) : go bytes :=
  match v with
  | Nil => Ret []
  | String_ s => Ret s
  | StringPtr (Some s) => Ret s
  | StringPtr None => Panic nil_deref
  | Stringer s => Ret s
  | ErrorText s => Ret s
  | Other s => Ret s
  end.

Fixpoint Concat (vs : list any) : go bytes :=
  match vs with
  | [] => Ret []
  | v :: vs' => s ← ToString v; t ← Concat vs'; Ret (s ++ t)
  end.

Record TypedMessage := mkTypedMessage { Type_ : bytes; Value : bytes }.

(** What a caller of package proto sees: message values, their registry. *)
Class Proto (Msg : Type) := {
  proto_Marshal : Msg → bytes + error;
  proto_Unmarshal : bytes → Msg → option error * Msg;
  proto_FullName : Msg → bytes;
  proto_New : bytes → Msg + error          (** [FindMessageByName], then [New] *)
}.

Section Typed.
Context {Msg : Type} `{!Proto Msg}.

Definition GetMessageType (message : Msg) : bytes := proto_FullName message.

Definition Encode (message : option Msg) : option TypedMessage :=
  message ← message;
  let value := match proto_Marshal message with inl v => v | inr _ => [] end in
  Some (mkTypedMessage (GetMessageType message) value).

Definition GetInstance (messageType : bytes) : Msg + error := proto_New messageType.

Definition Decode (v : option TypedMessage) : Msg + error :=
  match v with
  | None => inr (Errorf "nil" None)
  | Some v =>
      match GetInstance (Type_ v) with
      | inr err => inr err
      | inl protoMessage =>
          match proto_Unmarshal (Value v) protoMessage with
          | (Some err, _) => inr err
          | (None, protoMessage) => inl protoMessage
          end
      end
  end.
End Typed.
End Serial.

(** ** features/stats *)
Module Stats.

Definition not_implemented : error := Errorf "not implemented" None.

(** The operations of a [Channel] that the helpers use. *)
Class Channel (C Sub : Type) := {
  ch_Start : C → option error * C;
  ch_Close : C → option error * C;
  ch_Subscribers : C → list Sub;
  ch_Subscribe : C → (Sub + error) * C;
  ch_Unsubscribe : Sub → C → option error * C
}.

Section Channels.
Context {C Sub : Type} `{!Channel C Sub}.

Definition SubscribeRunnableChannel (c : C) : (Sub + error) * C :=
  match ch_Subscribers c with
  | [] => match ch_Start c with
          | (Some err, c) => (inr err, c)
          | (None, c) => ch_Subscribe c
          end
  | _ => ch_Subscribe c
  end.

Definition UnsubscribeClosableChannel (c : C) (sub : Sub) : option error * C :=
  match ch_Unsubscribe sub c with
  | (Some err, c) => (Some err, c)
  | (None, c) => match ch_Subscribers c with [] => ch_Close c | _ => (None, c) end
  end.
End Channels.

(** A [Manager], with the counters (or channels) [K] it hands out. *)
Class Manager (Mg K : Type) := {
  mg_Register : bytes → Mg → (K + error) * Mg;
  mg_Unregister : bytes → Mg → option error * Mg;
  mg_Get : bytes → Mg → option K
}.

(** [GetOrRegisterCounter] and [GetOrRegisterChannel] *)
Definition GetOrRegister {Mg K} `{!Manager Mg K} (m : Mg) (name : bytes) : (K + error) * Mg :=
  match mg_Get name m with
  | Some k => (inl k, m)
  | None => mg_Register name m
  end.

(** [NoopManager] *)
#[global] Instance NoopManager {K} : Manager unit K := {|
  mg_Register _ m := (inr not_implemented, m);
  mg_Unregister _ m := (None, m);
  mg_Get _ _ := None
|}.
End Stats.
