(* ===== verification/Internet.v ===== *)
(** * Transport settings and listeners

    transport/internet/config.go, memory_settings.go and tcp_hub.go.  The
    package-level tables are a [registry]; a typed message is decoded with the
    functions of [Config.Serial], whose proto package is a parameter.  A nil
    pointer is [None]. *)
From S2P Require Import Prelude Errors NetAddr NetText Config.
Import Serial.

Module Internet.

(** *** DomainStrategy *)

(** strategy, prefer, fallback *)
Definition strategy : list (Z * Z * Z) :=
  [(0, 0, 0); (1, 0, 0); (1, 4, 0); (1, 6, 0); (1, 4, 6); (1, 6, 4);
   (2, 0, 0); (2, 4, 0); (2, 6, 0); (2, 4, 6); (2, 6, 4)].

(** [strategy[s]] for a [DomainStrategy], an [int32]. *)
Definition strategy_row (s : Z) : go (Z * Z * Z) :=
  if s <? 0 then Panic oob
  else match strategy !! Z.to_nat s with Some r => Ret r | None => Panic oob end.

Definition hasStrategy (s : Z) : go bool := r ← strategy_row s; Ret (negb (r.1.1 =? 0)).
Definition forceIP (s : Z) : go bool := r ← strategy_row s; Ret (r.1.1 =? 2).
Definition preferIP4 (s : Z) : go bool := r ← strategy_row s; Ret ((r.1.2 =? 4) || (r.1.2 =? 0)).
Definition preferIP6 (s : Z) : go bool := r ← strategy_row s; Ret ((r.1.2 =? 6) || (r.1.2 =? 0)).
Definition hasFallback (s : Z) : go bool := r ← strategy_row s; Ret (negb (r.2 =? 0)).
Definition fallbackIP4 (s : Z) : go bool := r ← strategy_row s; Ret (r.2 =? 4).
Definition fallbackIP6 (s : Z) : go bool := r ← strategy_row s; Ret (r.2 =? 6).

(** *** Protocol names *)

Definition unknownProtocol : bytes := str "unknown".

Definition transportProtocolToString (protocol : Z) : bytes :=
  if protocol =? 0 then str "tcp"
  else if protocol =? 1 then str "udp"
  else if protocol =? 4 then str "http"
  else if protocol =? 2 then str "mkcp"
  else if protocol =? 3 then str "websocket"
  else if protocol =? 5 then str "domainsocket"
  else if protocol =? 6 then str "httpupgrade"
  else unknownProtocol.

(** *** Configuration records *)

Record TransportConfig := mkTransportConfig {
  tc_Protocol : Z; tc_ProtocolName : bytes; tc_Settings : option TypedMessage
}.

(** The fields of [SocketConfig] that the package reads. *)
Record SocketConfig := mkSocketConfig {
  Tfo : Z; Interface : bytes; TcpKeepAliveInterval : Z; TcpKeepAliveIdle : Z;
  TcpNoDelay : bool; TcpMptcp : bool; AcceptProxyProtocol : bool
}.

Record StreamConfig := mkStreamConfig {
  sc_Protocol : Z;
  sc_ProtocolName : bytes;
  TransportSettings : list (option TransportConfig);
  SecurityType : bytes;
  SecuritySettings : list (option TypedMessage);
  SocketSettings : option SocketConfig
}.

Definition HasTag (c : option bytes) : bool := match c with Some tag => negb (bool_decide (tag = [])) | None => false end.
Definition TProxyMode_IsEnabled (m : Z) : bool := negb (m =? 0).

Section Settings.
Context {Msg : Type} `{!Proto Msg}.

(** [creators]: what the registered [ConfigCreator]s return. *)
Record registry := mkRegistry {
  creators : gmap bytes Msg;
  globalTransportSettings : list (option TransportConfig)
}.

Definition RegisterProtocolConfigCreator (name : bytes) (creator : Msg) (g : registry) : option error * registry :=
  match creators g !! name with
  | Some _ => (Some (Errorf "protocol is already registered" None), g)
  | None => (None, mkRegistry (<[name := creator]> (creators g)) (globalTransportSettings g))
  end.

Definition CreateTransportConfig (g : registry) (name : bytes) : Msg + error :=
  match creators g !! name with
  | Some m => inl m
  | None => inr (Errorf "unknown transport protocol" None)
  end.

Definition ApplyGlobalTransportSettings (settings : list (option TransportConfig)) (g : registry)
  : option error * registry := (None, mkRegistry (creators g) settings).

Definition GetTypedSettings (c : TransportConfig) : Msg + error := Decode (tc_Settings c).

Definition GetUnifiedProtocolName (c : TransportConfig) : bytes :=
  match tc_ProtocolName c with
  | [] => transportProtocolToString (tc_Protocol c)
  | name => name
  end.

Definition GetEffectiveProtocol (c : option StreamConfig) : bytes :=
  match c with
  | None => str "tcp"
  | Some c => match sc_ProtocolName c with
              | [] => transportProtocolToString (sc_Protocol c)
              | name => name
              end
  end.

(** One of the two loops of [GetTransportSettingsFor]. *)
Fixpoint find_settings (protocol : bytes) (l : list (option TransportConfig)) : go (option (Msg + error)) :=
  match l with
  | [] => Ret None
  | None :: _ => Panic nil_deref
  | Some settings :: l' =>
      if bool_decide (GetUnifiedProtocolName settings = protocol) then Ret (Some (GetTypedSettings settings))
      else find_settings protocol l'
  end.

Definition GetTransportSettingsFor (g : registry) (c : option StreamConfig) (protocol : bytes) : go (Msg + error) :=
  own ← match c with Some c => find_settings protocol (TransportSettings c) | None => Ret None end;
  match own with
  | Some r => Ret r
  | None =>
      glob ← find_settings protocol (globalTransportSettings g);
      match glob with
      | Some r => Ret r
      | None => Ret (CreateTransportConfig g protocol)
      end
  end.

Definition GetEffectiveTransportSettings (g : registry) (c : option StreamConfig) : go (Msg + error) :=
  GetTransportSettingsFor g c (GetEffectiveProtocol c).

Fixpoint find_security (type : bytes) (l : list (option TypedMessage)) : go (Msg + error) :=
  match l with
  | [] => Ret (GetInstance type)
  | None :: _ => Panic nil_deref
  | Some settings :: l' =>
      if bool_decide (Type_ settings = type) then Ret (Decode (Some settings)) else find_security type l'
  end.

Definition GetEffectiveSecuritySettings (c : StreamConfig) : go (Msg + error) :=
  find_security (SecurityType c) (SecuritySettings c).

Definition HasSecuritySettings (c : StreamConfig) : bool := negb (bool_decide (SecurityType c = [])).

(** *** MemoryStreamConfig *)

Record MemoryStreamConfig := mkMemory {
  ProtocolName : bytes;
  ProtocolSettings : Msg;
  ms_SecurityType : bytes;
  ms_SecuritySettings : option Msg;
  ms_SocketSettings : option SocketConfig
}.

Definition ToMemoryStreamConfig (g : registry) (s : option StreamConfig) : go (MemoryStreamConfig + error) :=
  r ← GetEffectiveTransportSettings g s;
  match r with
  | inr err => Ret (inr err)
  | inl ets =>
      let mss := mkMemory (GetEffectiveProtocol s) ets [] None (s ≫= SocketSettings) in
      match s with
      | Some s =>
          if HasSecuritySettings s then
            r ← GetEffectiveSecuritySettings s;
            match r with
            | inr err => Ret (inr err)
            | inl ess => Ret (inl (mkMemory (ProtocolName mss) ets (SecurityType s) (Some ess) (ms_SocketSettings mss)))
            end
          else Ret (inl mss)
      | None => Ret (inl mss)
      end
  end.

(** *** Listeners

    A [ListenFunc] acts on the state [W] of the network and gives a listener
    [L]. *)
Context {W L : Type}.

Definition ListenFunc : Type := option Address → Z → MemoryStreamConfig → W → (L + error) * W.

Definition RegisterTransportListener (protocol : bytes) (listener : ListenFunc) (cache : gmap bytes ListenFunc)
  : option error * gmap bytes ListenFunc :=
  match cache !! protocol with
  | Some _ => (Some (Errorf "listener already registered" None), cache)
  | None => (None, <[protocol := listener]> cache)
  end.

(** [settings], or the default ones for nil. *)
Definition settings_or_default (g : registry) (settings : option MemoryStreamConfig) : go (MemoryStreamConfig + error) :=
  match settings with
  | Some s => Ret (inl s)
  | None =>
      r ← ToMemoryStreamConfig g None;
      match r with
      | inr err => Ret (inr (Errorf "failed to create default stream settings" None))
      | inl s => Ret (inl s)
      end
  end.

(** The last part of both functions: the registered function is called. *)
Definition call_listener (cache : gmap bytes ListenFunc) (address : option Address) (port : Z)
  (settings : MemoryStreamConfig) (w : W) : (L + error) * W :=
  match cache !! ProtocolName settings with
  | None => (inr (Errorf "listener not registered." None), w)
  | Some listenFunc =>
      match listenFunc address port settings w with
      | (inr _, w) => (inr (Errorf "failed to listen on address" None), w)
      | (inl listener, w) => (inl listener, w)
      end
  end.

Definition ListenUnix (g : registry) (cache : gmap bytes ListenFunc) (address : option Address)
  (settings : option MemoryStreamConfig) (w : W) : go ((L + error) * W) :=
  s ← settings_or_default g settings;
  match s with
  | inr err => Ret (inr err, w)
  | inl s => Ret (call_listener cache address (Port 0) s w)
  end.

Definition ListenTCP (g : registry) (cache : gmap bytes ListenFunc) (address : option Address) (port : Z)
  (settings : option MemoryStreamConfig) (w : W) : go ((L + error) * W) :=
  s ← settings_or_default g settings;
  match s with
  | inr err => Ret (inr err, w)
  | inl s =>
      f ← family_of address;
      local ← (if IsDomain f then d ← domain_of address; Ret (bool_decide (d = str "localhost")) else Ret false);
      let address := if local : bool then LocalHostIP else address in
      f ← family_of address;
      if IsDomain f then
        _ ← domain_of address;
        Ret (inr (Errorf "domain address is not allowed for listening" None), w)
      else Ret (call_listener cache address port s w)
  end.
End Settings.
Arguments registry : clear implicits.
Arguments MemoryStreamConfig : clear implicits.
Arguments ListenFunc : clear implicits.

End Internet.
