(* ===== verification/Sockets.v ===== *)
(** * Socket options, system listeners and the lock of Unix sockets

    transport/internet/sockopt.go, sockopt_darwin.go, system_listener.go and
    filelocker_other.go.  The operating system is an interface: [SockOS] for
    options of a socket, [ListenOS] for files and listeners; its state is
    passed along.  Logging is left out. *)
From S2P Require Import Prelude Errors NetAddr NetText TcpClient HttpText Internet.
Import Internet.

Module Sockets.

(** ** sockopt.go *)

Definition isTCPSocket (network : bytes) : bool :=
  bool_decide (network ∈ [str "tcp"; str "tcp4"; str "tcp6"]).
Definition isUDPSocket (network : bytes) : bool :=
  bool_decide (network ∈ [str "udp"; str "udp4"; str "udp6"]).

Definition ParseTFOValue (v : SocketConfig) : Z :=
  if Tfo v =? 0 then -1 else if Tfo v <? 0 then 0 else Tfo v.

(** ** sockopt_darwin.go *)

(** The levels and options the file names. *)
Inductive sol := IPPROTO_TCP | IPPROTO_IP | SOL_SOCKET.
Inductive optname :=
  TCP_FASTOPEN | IP_BOUND_IF | TCP_KEEPALIVE | TCP_KEEPINTVL | SO_KEEPALIVE | TCP_NODELAY
  | SO_REUSEADDR | SO_REUSEPORT.
Record sockoption := mkOpt { o_level : sol; o_name : optname; o_value : Z }.

(** One entry of [net.Interfaces]: the IPs of its [*net.IPNet] addresses. *)
Record iface := mkIface { if_up : bool; if_loopback : bool; if_ips : list bytes; if_name : bytes; if_index : Z }.

(** [net.IP]: [To4], [To16], [IsLoopback] and [IsUnspecified] *)
Definition To4 (ip : bytes) : option bytes :=
  if zlen ip =? 4 then Some ip
  else if (zlen ip =? 16) && is_v4_mapped ip then Some (drop 12 ip) else None.
Definition To16 (ip : bytes) : option bytes :=
  if zlen ip =? 4 then Some (repeat 0 10 ++ [255; 255] ++ ip) else if zlen ip =? 16 then Some ip else None.
Definition IPv6loopback : bytes := repeat 0 15 ++ [1].
Definition IsLoopback (ip : bytes) : bool :=
  match To4 ip with
  | Some ip4 => match ip4 with b :: _ => b =? 127 | [] => false end
  | None => bool_decide (ip = IPv6loopback)
  end.
(** [IP.Equal] identifies the two forms of an IPv4 address. *)
Definition IP_Equal (a b : bytes) : bool :=
  bool_decide (To16 a = To16 b ∧ To16 a ≠ None ∨ a = b).
Definition IsUnspecified (ip : bytes) : bool := IP_Equal ip [0; 0; 0; 0] || IP_Equal ip (repeat 0 16).

Definition usable_ip (ip : bytes) : bool := negb (IsLoopback ip) && bool_decide (To4 ip ≠ None).

(** The loops of [getInterfaceIndexByName]. *)
Fixpoint addr_loop (i : iface) (name : bytes) (ips : list bytes) : option Z :=
  match ips with
  | [] => None
  | ip :: ips' =>
      if usable_ip ip && bool_decide (if_name i = name) then Some (if_index i) else addr_loop i name ips'
  end.

Fixpoint iface_loop (name : bytes) (ifaces : list iface) : Z :=
  match ifaces with
  | [] => 0
  | i :: rest =>
      match (if if_up i && negb (if_loopback i) then addr_loop i name (if_ips i) else None) with
      | Some index => index
      | None => iface_loop name rest
      end
  end.

Definition getInterfaceIndexByName (ifaces : list iface + error) (name : bytes) : Z :=
  match ifaces with inl l => iface_loop name l | inr _ => 0 end.

Class SockOS (W : Type) := {
  os_setsockopt : Z → sockoption → W → option error * W;
  os_bind : Z → bytes → Z → W → option error * W;
  os_interfaces : W → list iface + error
}.

Section Options.
Context {W : Type} `{!SockOS W}.

(** A call that may fail; [a ;;; b] returns the error of [a] at once. *)
Definition call : Type := W → option error * W.
Definition ok : call := λ w, (None, w).
Definition and_then (a b : call) : call := λ w,
  match a w with (Some err, w) => (Some err, w) | (None, w) => b w end.
Notation "a ';;;' b" := (and_then a b) (at level 100, right associativity).

Definition SetsockoptInt (fd : Z) (level : sol) (name : optname) (value : Z) : call :=
  os_setsockopt fd (mkOpt level name value).

(** The error of a call under a message. *)
Definition explain (msg : string) (c : call) : call := λ w,
  match c w with (Some err, w) => (Some (Errorf msg None), w) | r => r end.

Definition TCP_FASTOPEN_SERVER : Z := 1.
Definition TCP_FASTOPEN_CLIENT : Z := 2.

(** The option TCP_FASTOPEN, with the value [enabled] for a positive one. *)
Definition apply_tfo (fd : Z) (enabled : Z) (config : SocketConfig) : call :=
  let tfo := ParseTFOValue config in
  let tfo := if 0 <? tfo then enabled else tfo in
  if 0 <=? tfo then SetsockoptInt fd IPPROTO_TCP TCP_FASTOPEN tfo else ok.

Definition apply_interface (fd : Z) (config : SocketConfig) : call := λ w,
  match Interface config with
  | [] => (None, w)
  | name =>
      let InterfaceIndex := getInterfaceIndexByName (os_interfaces w) name in
      if InterfaceIndex =? 0 then (None, w)
      else explain "failed to set Interface" (SetsockoptInt fd IPPROTO_IP IP_BOUND_IF InterfaceIndex) w
  end.

Definition apply_keepalive (fd : Z) (config : SocketConfig) : call :=
  if (0 <? TcpKeepAliveIdle config) || (0 <? TcpKeepAliveInterval config) then
    (if 0 <? TcpKeepAliveIdle config
     then explain "failed to set TCP_KEEPINTVL"
            (SetsockoptInt fd IPPROTO_TCP TCP_KEEPALIVE (TcpKeepAliveInterval config))
     else ok) ;;;
    (if 0 <? TcpKeepAliveInterval config
     then explain "failed to set TCP_KEEPIDLE"
            (SetsockoptInt fd IPPROTO_TCP TCP_KEEPINTVL (TcpKeepAliveIdle config))
     else ok) ;;;
    explain "failed to set SO_KEEPALIVE" (SetsockoptInt fd SOL_SOCKET SO_KEEPALIVE 1)
  else if (TcpKeepAliveInterval config <? 0) || (TcpKeepAliveIdle config <? 0)
  then explain "failed to unset SO_KEEPALIVE" (SetsockoptInt fd SOL_SOCKET SO_KEEPALIVE 0)
  else ok.

Definition applyOutboundSocketOptions (network : bytes) (fd : Z) (config : SocketConfig) : call :=
  if isTCPSocket network then
    apply_tfo fd TCP_FASTOPEN_CLIENT config ;;;
    apply_interface fd config ;;;
    apply_keepalive fd config ;;;
    (if TcpNoDelay config
     then explain "failed to set TCP_NODELAY" (SetsockoptInt fd IPPROTO_TCP TCP_NODELAY 1) else ok)
  else ok.

Definition applyInboundSocketOptions (network : bytes) (fd : Z) (config : SocketConfig) : call :=
  if isTCPSocket network then
    apply_tfo fd TCP_FASTOPEN_SERVER config ;;;
    apply_interface fd config ;;;
    apply_keepalive fd config
  else ok.

Definition setReuseAddr (fd : Z) : call :=
  explain "failed to set SO_REUSEADDR" (SetsockoptInt fd SOL_SOCKET SO_REUSEADDR 1).
Definition setReusePort (fd : Z) : call :=
  explain "failed to set SO_REUSEPORT" (SetsockoptInt fd SOL_SOCKET SO_REUSEPORT 1).

(** The errors of the two options are ignored. *)
Definition bindAddr (fd : Z) (address : bytes) (port : Z) : call := λ w,
  let '(_, w) := setReuseAddr fd w in
  let '(_, w) := setReusePort fd w in
  if (zlen address =? 4) || (zlen address =? 16) then os_bind fd address port w
  else (Some (Errorf "unexpected length of ip" None), w).
End Options.
Notation "a ';;;' b" := (and_then a b) (at level 100, right associativity).

(** ** OriginalDst *)

(** [struct pfioc_natlook] *)
Record natlook := mkNatlook {
  saddr : bytes; daddr : bytes; rsaddr : bytes; rdaddr : bytes;
  sxport : bytes; dxport : bytes; rsxport : bytes; rdxport : bytes;
  af : Z; proto : Z; direction : Z
}.

Definition AF_INET : Z := 2.
Definition AF_INET6 : Z := 30.
Definition PfOut : Z := 2.

(** [copy] to the front of an array. *)
Definition copy_front (dst src : bytes) : bytes := take (length dst) src ++ drop (length src) dst.

(** The IPs and ports of the two addresses; a type assertion may panic. *)
Definition dst_parts (la ra : net_Addr) : go (bytes * Z * bytes * Z) :=
  match la, ra with
  | TCPAddr laIP laPort, TCPAddr raIP raPort => Ret (laIP, laPort, raIP, raPort)
  | TCPAddr _ _, _ => Panic "interface conversion"
  | UDPAddr laIP laPort, UDPAddr raIP raPort => Ret (laIP, laPort, raIP, raPort)
  | UDPAddr _ _, _ => Panic "interface conversion"
  | _, _ => Ret ([], 0, [], 0)
  end.

Definition set_addrs (nl : natlook) (s d : bytes) : natlook :=
  mkNatlook s d (rsaddr nl) (rdaddr nl) (sxport nl) (dxport nl) (rsxport nl) (rdxport nl) (af nl) (proto nl)
    (direction nl).

(** The query that is filled in before the call of [ioctl]. *)
Definition natlook_query (laIP : bytes) (laPort : Z) (raIP : bytes) (raPort : Z) : natlook :=
  let z := repeat 0 16 in
  let port n := [u8 (Z.shiftr n 8); u8 n; 0; 0] in
  let nl := mkNatlook z z z z (port raPort) (port laPort) (repeat 0 4) (repeat 0 4) AF_INET 6 PfOut in
  match To4 raIP with
  | Some ra4 =>
      let laIP := if IsUnspecified laIP then [127; 0; 0; 1] else laIP in
      set_addrs nl (copy_front z ra4) (copy_front z (default [] (To4 laIP)))
  | None =>
      if bool_decide (To16 raIP ≠ None) then
        let laIP := if IsUnspecified laIP then IPv6loopback else laIP in
        set_addrs nl (copy_front z raIP) (copy_front z laIP)
      else nl
  end.

(** [opened]: the error of opening /dev/pf; [ioctl]: the reply, with whether
    [errno] is zero.  [os.NewSyscallError] is given the nil [err] of the open,
    and returns nil for it. *)
Definition OriginalDst (opened : option error) (ioctl : natlook → bool * natlook) (la ra : net_Addr)
  : go (bytes * Z * option error) :=
  match opened with
  | Some err => Ret ([], -1, Some (Errorf "failed to open device /dev/pf" None))
  | None =>
      '(laIP, laPort, raIP, raPort) ← dst_parts la ra;
      let '(success, nl) := ioctl (natlook_query laIP laPort raIP raPort) in
      if negb success then Ret ([], -1, None)
      else
        let odIP := if af nl =? AF_INET then take 4 (rdaddr nl)
                    else if af nl =? AF_INET6 then rdaddr nl else [] in
        port ← PortFromBytes (take 2 (rdxport nl));
        Ret (odIP, port, None)
  end.

(** ** system_listener.go and filelocker_other.go *)

(** What a [net.ListenConfig] holds. *)
Record ListenConfig (W : Type) := mkListenConfig {
  lc_Control : option (bytes → bytes → Z → W → W);   (** network, address, descriptor *)
  lc_KeepAlive : Z;
  lc_Multipath : bool
}.
#[global] Arguments mkListenConfig {_}.
#[global] Arguments lc_Control {_}.
#[global] Arguments lc_KeepAlive {_}.
#[global] Arguments lc_Multipath {_}.

(** [F]: open files; [L]: listeners of the system. *)
Class ListenOS (W F L : Type) := {
  os_Create : bytes → W → (F + error) * W;
  os_Flock : F → bool → W → option error * W;              (** [true]: LOCK_EX, [false]: LOCK_UN *)
  os_Close : F → W → option error * W;
  os_Remove : bytes → W → option error * W;
  os_Chmod : bytes → Z → W → option error * W;
  os_Listen : ListenConfig W → bytes → bytes → W → (L + error) * W;
  os_ListenPacket : ListenConfig W → bytes → bytes → W → (L + error) * W;
  os_CloseListener : L → W → option error * W
}.

(** [strconv.ParseUint(s, 8, 32)] *)
Fixpoint octal_digits (s : bytes) (acc : Z) : option Z :=
  match s with
  | [] => Some acc
  | d :: s' => if (48 <=? d) && (d <=? 55) then octal_digits s' (8 * acc + (d - 48)) else None
  end.
Definition ParseUint8_32 (s : bytes) : option Z :=
  match s with
  | [] => None
  | _ => v ← octal_digits s 0; if v <? 2 ^ 32 then Some v else None
  end.

(** [len(syscall.RawSockaddrUnix{}.Path)] on Linux *)
Definition sun_path_len : nat := 108.

Section Listener.
Context {W F L : Type} `{!SockOS W, !ListenOS W F L}.

Record FileLocker := mkLocker { fl_path : bytes; fl_file : option F }.

(** [Acquire]: the locker with its file. *)
Definition Acquire (fl : FileLocker) (w : W) : option error * FileLocker * W :=
  match os_Create (fl_path fl) w with
  | (inr err, w) => (Some err, fl, w)
  | (inl f, w) =>
      match os_Flock f true w with
      | (Some err, w) => let '(_, w) := os_Close f w in (Some (Errorf "failed to lock file" None), fl, w)
      | (None, w) => (None, mkLocker (fl_path fl) (Some f), w)
      end
  end.

(** [Release]; without a file it dereferences nil. *)
Definition Release (fl : FileLocker) (w : W) : go W :=
  match fl_file fl with
  | None => Panic nil_deref
  | Some f =>
      let '(_, w) := os_Flock f false w in
      let '(_, w) := os_Close f w in
      let '(_, w) := os_Remove (fl_path fl) w in
      Ret w
  end.

(** The listeners [Listen] returns; [proxyNil] wraps a nil listener. *)
Inductive listener :=
  | SystemListener (l : L)
  | combinedListener (l : L) (locker : option FileLocker)
  | proxyListener (inner : listener)
  | proxyNil.

(** [Close], the listener with its locker cleared.  The proxy protocol
    listener closes the one inside. *)
Fixpoint listener_Close (l : listener) (w : W) : go (option error * listener * W) :=
  match l with
  | SystemListener s => let '(err, w) := os_CloseListener s w in Ret (err, l, w)
  | combinedListener s locker =>
      w ← match locker with Some fl => Release fl w | None => Ret w end;
      let '(err, w) := os_CloseListener s w in
      Ret (err, combinedListener s None, w)
  | proxyListener inner =>
      r ← listener_Close inner w;
      let '(err, inner, w) := r in Ret (err, proxyListener inner, w)
  | proxyNil => Panic nil_deref
  end.

(** [&proxyproto.Listener{Listener: l}] *)
Definition wrap_proxy (l : option listener) : listener :=
  match l with Some l => proxyListener l | None => proxyNil end.

(** A registered controller. *)
Definition controller : Type := bytes → bytes → Z → W → option error * W.

Definition getControlFunc (sockopt : option SocketConfig) (controllers : list controller)
  : bytes → bytes → Z → W → W := λ network address fd w,
  let w := foldl (λ w c, (c network address fd w).2) w controllers in
  let w := match sockopt with
           | Some so => (applyInboundSocketOptions network fd so w).2
           | None => w
           end in
  (setReusePort fd w).2.

Definition RegisterListenerController (c : option controller) (controllers : list controller)
  : option error * list controller :=
  match c with
  | None => (Some (Errorf "nil listener controller" None), controllers)
  | Some c => (None, controllers ++ [c])
  end.

(** The address of a Unix socket: abstract on Linux, else a path that is split
    from its permission, or the error of the permission. *)
Inductive unix_address :=
  | Abstract (address : bytes)
  | PathAddress (address : bytes) (filePerm : option Z).

Definition is_linux (GOOS : string) : bool := bool_decide (GOOS ∈ ["linux"; "android"]).

Definition parse_unix (GOOS : string) (name : bytes) : go (unix_address + error) :=
  abstract ← (if is_linux GOOS
              then match name with [] => Panic oob | c :: _ => Ret (c =? 64) end else Ret false);
  if abstract : bool then
    match name with
    | _ :: 64 :: rest => Ret (inl (Abstract (copy_front (repeat 0 sun_path_len) (64 :: rest))))
    | _ => Ret (inl (Abstract name))
    end
  else
    match Split 44 name with
    | [address; perm] =>
        match ParseUint8_32 perm with
        | None => Ret (inr (Errorf "failed to parse permission" None))
        | Some p => Ret (inl (PathAddress address (Some p)))
        end
    | _ => Ret (inl (PathAddress name None))
    end.

(** The callback for a path. *)
Definition path_callback (address : bytes) (locker : FileLocker) (filePerm : option Z) (r : L + error) (w : W)
  : go (option listener * option error * W) :=
  match r with
  | inr err => w ← Release locker w; Ret (None, Some err, w)
  | inl l =>
      let cl := combinedListener l (Some locker) in
      match filePerm with
      | None => Ret (Some cl, None, w)
      | Some mode =>
          match os_Chmod address mode w with
          | (None, w) => Ret (Some cl, None, w)
          | (Some err, w) =>
              r ← listener_Close cl w;
              Ret (None, Some (Errorf "failed to set permission" None), r.2)
          end
      end
  end.

Definition plain_result (r : (L + error) * W) : option listener * option error * W :=
  match r with
  | (inl l, w) => (Some (SystemListener l), None, w)
  | (inr err, w) => (None, Some err, w)
  end.

(** The switch on the type of the address, with [lc.Listen] and the callback;
    [inr]: an early [return nil, err].  [IPString] gives [addr.String()]. *)
Definition listen_on (GOOS : string) (IPString : net_Addr → bytes) (controllers : list controller)
  (addr : net_Addr) (sockopt : option SocketConfig) (w : W)
  : go ((option listener * option error + error) * W) :=
  let finish r := let '(l, err, w) := r in (inl (l, err), w) in
  match addr with
  | TCPAddr _ _ =>
      let keep := match sockopt with
                  | Some so => if negb (TcpKeepAliveInterval so =? 0) || negb (TcpKeepAliveIdle so =? 0) then -1 else 0
                  | None => 0
                  end in
      let lc := mkListenConfig (Some (getControlFunc sockopt controllers)) keep
                  (match sockopt with Some so => TcpMptcp so | None => false end) in
      Ret (finish (plain_result (os_Listen lc (str "tcp") (IPString addr) w)))
  | UnixAddr name netw =>
      p ← parse_unix GOOS name;
      match p with
      | inr err => Ret (inr err, w)
      | inl (Abstract address) => Ret (finish (plain_result (os_Listen (mkListenConfig None 0 false) netw address w)))
      | inl (PathAddress address filePerm) =>
          match Acquire (mkLocker (address ++ str ".lock") None) w with
          | (Some err, _, w) => Ret (inr err, w)
          | (None, locker, w) =>
              let '(r, w) := os_Listen (mkListenConfig None 0 false) netw address w in
              c ← path_callback address locker filePerm r w; Ret (finish c)
          end
      end
  | _ => Ret (finish (plain_result (os_Listen (mkListenConfig None 0 false) [] [] w)))
  end.

Definition Listen (GOOS : string) (IPString : net_Addr → bytes) (controllers : list controller)
  (addr : net_Addr) (sockopt : option SocketConfig) (w : W) : go (option listener * option error * W) :=
  r ← listen_on GOOS IPString controllers addr sockopt w;
  match r with
  | (inr err, w) => Ret (None, Some err, w)
  | (inl (l, err), w) =>
      match sockopt with
      | Some so => Ret (if AcceptProxyProtocol so then Some (wrap_proxy l) else l, err, w)
      | None => Ret (l, err, w)
      end
  end.

Definition ListenPacket (controllers : list controller) (network address : bytes) (sockopt : option SocketConfig)
  (w : W) : (L + error) * W :=
  os_ListenPacket (mkListenConfig (Some (getControlFunc sockopt controllers)) 0 false) network address w.
End Listener.

(** ** The lock file shared by processes

    [Acquire] and [Release] as the steps of several processes on one path:
    [os.Create] opens the file the path names, making one if there is none;
    LOCK_EX waits until no one else holds the lock of that file; [os.Remove]
    takes the name away, and the file lives on while it is open. *)
Module FileLock.

Inductive pc :=
  | P_create                 (** about to call [os.Create] *)
  | P_flock (inode : nat)    (** in [unix.Flock(LOCK_EX)] *)
  | P_held (inode : nat)     (** [Acquire] has returned nil *)
  | P_remove                 (** unlocked and closed, about to call [os.Remove] *)
  | P_idle.

(** [name]: the file the path names; [fresh]: the next new file. *)
Record sys := mkSys { name : option nat; fresh : nat; procs : list pc }.

Definition holds (i : nat) (p : pc) : bool := match p with P_held j => Nat.eqb i j | _ => false end.
Definition is_held (p : pc) : bool := match p with P_held _ => true | _ => false end.

(** The next step of a process; [None]: it is blocked, or [P_held] is left as
    it is unless [release]. *)
Definition step (c : nat * bool) (s : sys) : option sys :=
  let '(k, release) := c in
  p ← procs s !! k;
  let set p' n f := Some (mkSys n f (<[k := p']> (procs s))) in
  match p with
  | P_idle => set P_create (name s) (fresh s)
  | P_create =>
      match name s with
      | Some i => set (P_flock i) (name s) (fresh s)
      | None => set (P_flock (fresh s)) (Some (fresh s)) (S (fresh s))
      end
  | P_flock i => if existsb (holds i) (procs s) then None else set (P_held i) (name s) (fresh s)
  | P_held _ => if release then set P_remove (name s) (fresh s) else None
  | P_remove => set P_idle None (fresh s)
  end.

Definition run : list (nat * bool) → sys → option sys := run_steps step.
Definition init (n : nat) : sys := mkSys None 0 (replicate n P_idle).

End FileLock.
End Sockets.
