(* ===== verification/ConfigSpec.v ===== *)
(** * Configuration: theorems

    The size of a pipe's buffer from the environment, the table of domain
    strategies, transport settings and the listeners that use them. *)
From S2P Require Import Prelude Errors NetAddr NetText NetTextSpec Bytespool IO Wire TcpClient HttpText Http1Spec Pipe.
From S2P Require Import Config Internet.

(** ** Buffer size *)
Section BufferSize.
Import Platform Policy.

Lemma ParseInt32_Itoa n : 0 ≤ n < 2 ^ 31 → ParseInt32 (Itoa n) = Some n.
Proof.
  intros Hn. unfold ParseInt32. rewrite Atoi_Itoa by lia. cbn.
  rewrite (proj2 (Z.leb_le _ _)), (proj2 (Z.ltb_lt _ _)) by lia. done.
Qed.

(** The variable, under its name or the name in capitals. *)
Definition buffer_var (env : Env) (value : bytes) : Prop :=
  env !! BufferSize = Some value ∨
  env !! BufferSize = None ∧ env !! str "WHEELS_RAY_BUFFER_SIZE" = Some value.

Lemma buffer_var_value env value :
  buffer_var env value →
  is_set env (NewEnvFlag BufferSize) = true ∧ GetValue env (NewEnvFlag BufferSize) [] = value.
Proof.
  assert (Halt : AltName (NewEnvFlag BufferSize) = str "WHEELS_RAY_BUFFER_SIZE") by reflexivity.
  unfold is_set, GetValue. rewrite Halt. change (Name (NewEnvFlag BufferSize)) with BufferSize.
  intros [Hv|[Hn Hv]].
  - rewrite Hv. done.
  - rewrite Hn. cbn [str]. rewrite Hv. done.
Qed.

Lemma init_value env arch n :
  0 ≤ n < 2 ^ 31 → buffer_var env (Itoa n) →
  init env arch = if n =? 0 then -1 else i32 (i32 (n * 1024) * 1024).
Proof.
  intros Hn Hv. apply buffer_var_value in Hv as [Hs Hv]. unfold init, GetValueAsInt. rewrite Hs, Hv. cbn [negb].
  rewrite ParseInt32_Itoa by lia. destruct (n =? 0) eqn:H0; [done|].
  rewrite (proj2 (Z.eqb_neq n defaultValue)) by (unfold defaultValue; lia).
  by rewrite (i32_id n) by lia.
Qed.

(** Two multiplications that wrap around are one. *)
Lemma i32_mul_i32 n k : i32 (i32 n * k) = i32 (n * k).
Proof.
  with_strategy transparent [i32] unfold i32. f_equal.
  replace (n * k + 2 ^ 31) with (((n + 2 ^ 31) - 2 ^ 31) * k + 2 ^ 31) by ring.
  rewrite Zplus_mod, Zmult_mod, Zminus_mod, Zmod_mod, <-Zminus_mod, <-Zmult_mod, <-Zplus_mod. done.
Qed.

Lemma i32_megabytes n :
  i32 (n * 1024 * 1024) = (if n mod 4096 <? 2048 then n mod 4096 else n mod 4096 - 4096) * 2 ^ 20.
Proof.
  with_strategy transparent [i32] unfold i32.
  pose proof (Z.div_mod n 4096 ltac:(lia)) as Hd. pose proof (Z.mod_pos_bound n 4096 ltac:(lia)) as Hb.
  set (r := n mod 4096) in *. set (q := n / 4096) in *. rewrite Hd. destruct (r <? 2048) eqn:Hr;
    [apply Z.ltb_lt in Hr|apply Z.ltb_ge in Hr].
  - replace ((4096 * q + r) * 1024 * 1024 + 2 ^ 31) with (r * 2 ^ 20 + 2 ^ 31 + q * 2 ^ 32) by lia.
    rewrite Z.mod_add by lia. rewrite Z.mod_small by lia. lia.
  - replace ((4096 * q + r) * 1024 * 1024 + 2 ^ 31) with ((r - 4096) * 2 ^ 20 + 2 ^ 31 + (q + 1) * 2 ^ 32) by lia.
    rewrite Z.mod_add by lia. rewrite Z.mod_small by lia. lia.
Qed.

(** C38: The environment variable with the number [n] of megabytes limits the pipes
    that take their options from the context: 0 is no limit, 1 to 2047 are
    themselves, and from 2048 on the multiplication of 32-bit integers wraps
    around, so that only the rest of [n] by 4096 counts and the upper half of
    the rests gives no limit at all. *)
Theorem policy_pipe_limit env arch n :
  0 ≤ n < 2 ^ 31 → buffer_var env (Itoa n) →
  limit (p_option (context_pipe env arch [])) =
  if (n =? 0) || (2048 <=? n mod 4096) then -1 else n mod 4096 * 2 ^ 20.
Proof.
  intros Hn Hv. unfold context_pipe, BufferPolicyFromContext, defaultBufferPolicy. cbn [PerConnection].
  rewrite (init_value env arch n Hn Hv). unfold OptionsFromContext.
  pose proof (Z.mod_pos_bound n 4096 ltac:(lia)) as Hb.
  destruct (n =? 0) eqn:H0; [done|]. cbn [orb]. rewrite i32_mul_i32, i32_megabytes.
  destruct (n mod 4096 <? 2048) eqn:Hr; [apply Z.ltb_lt in Hr|apply Z.ltb_ge in Hr].
  - rewrite (proj2 (Z.leb_gt 2048 _)), (proj2 (Z.leb_le 0 _)) by lia. done.
  - rewrite (proj2 (Z.leb_le 2048 _)), (proj2 (Z.leb_gt 0 _)) by lia. done.
Qed.

Lemma policy_pipe_limit_witness :
  limit (p_option (context_pipe {[ str "WHEELS_RAY_BUFFER_SIZE" := str "2" ]} "amd64" [])) = 2097152.
Proof.
  refine (policy_pipe_limit {[ str "WHEELS_RAY_BUFFER_SIZE" := str "2" ]} "amd64" 2 ltac:(lia) _).
  right. split; vm_compute; reflexivity.
Defined.
End BufferSize.

(** ** Domain strategies *)
Section Strategies.
Import Internet.

(** What a strategy means: use or force IP addresses, the families tried first
    and the family tried after that. *)
Inductive meaning := AsIs | UseIP (force : bool) (four six : bool) (fallback : option bool).

(** The names of the values of [DomainStrategy], in their order. *)
Definition meanings : list meaning :=
  [AsIs; UseIP false true true None; UseIP false true false None; UseIP false false true None;
   UseIP false true false (Some false); UseIP false false true (Some true);
   UseIP true true true None; UseIP true true false None; UseIP true false true None;
   UseIP true true false (Some false); UseIP true false true (Some true)].

Definition answers (s : Z) (m : meaning) : Prop :=
  match m with
  | AsIs => hasStrategy s = Ret false ∧ forceIP s = Ret false ∧ hasFallback s = Ret false
  | UseIP force four six fallback =>
      hasStrategy s = Ret true ∧ forceIP s = Ret force ∧ preferIP4 s = Ret four ∧ preferIP6 s = Ret six ∧
      hasFallback s = Ret (bool_decide (fallback ≠ None)) ∧
      fallbackIP4 s = Ret (bool_decide (fallback = Some true)) ∧
      fallbackIP6 s = Ret (bool_decide (fallback = Some false))
  end.

End Strategies.

(** ** Typed messages and numbers *)
Section SerialFacts.
Import Serial.

Lemma be_Uint16_value b0 b1 : 0 ≤ b1 < 256 → 0 ≤ b0 → be_Uint16 b0 b1 = b0 * 256 + b1.
Proof.
  intros H1 H0. unfold be_Uint16. rewrite (lor_shiftl_add b1 b0 8) by (change (2 ^ 8) with 256; lia).
  change (2 ^ 8) with 256. lia.
Qed.

Lemma PutUint16_value v : 0 ≤ v < 65536 → ∃ b0 b1, be_PutUint16 v = [b0; b1] ∧ be_Uint16 b0 b1 = v.
Proof.
  intros Hv. exists (u8 (Z.shiftr v 8)), (u8 v). split; [done|].
  pose proof (u8_range v). pose proof (u8_range (Z.shiftr v 8)). rewrite be_Uint16_value by lia.
  rewrite !u8_eq, shiftr_div by lia. change (2 ^ 8) with 256.
  rewrite (Z.mod_small (v / 256)) by (split; [apply Z.div_pos; lia|apply Z.div_lt_upper_bound; lia]).
  pose proof (Z.div_mod v 256). lia.
Qed.

(** A 16-bit number written by [WriteUint16] is read back by [ReadUint16] from
    any reader that delivers those bytes, in whatever pieces, and the reader is
    left behind them; with fewer than two bytes left there is an error. *)
Theorem uint16_roundtrip {R T} `{StreamReader R, StreamWriter T} fuel (r : R) (t : T) v w :
  0 ≤ v < 65536 → rd_inv r → wr_inv t → world_ok w → (rd_meas r < fuel)%nat →
  (∃ n e t' w', WriteUint16 t v w = Ret ((n, e, t'), w') ∧
     (e = None → wr_out t' = wr_out t ++ be_PutUint16 v)) ∧
  (∀ rest, rd_rest r = be_PutUint16 v ++ rest →
     ∃ r' w', ReadUint16 fuel r w = Ret ((v, None, r'), w') ∧ rd_rest r' = rest) ∧
  (zlen (rd_rest r) < 2 → ∃ e r' w', ReadUint16 fuel r w = Ret ((0, Some e, r'), w')).
Proof.
  intros Hv Hr Ht Hw Hf. split.
  { destruct (wr_spec t (be_PutUint16 v) w Ht Hw) as (n & e & t' & w' & Heq & _ & _ & Hn & Ho & He).
    exists n, e, t', w'. split; [exact Heq|]. intros Hnone. rewrite Ho, (He Hnone). by rewrite ztake_ge. }
  unfold ReadUint16. destruct (ReadFull_spec fuel r 2 w Hr Hw) as
    (d & e & r' & w' & Heq & _ & _ & Hrest & _ & _ & Hlen & Hnone & _); [lia|done|].
  rewrite (M_bind_Ret _ _ _ _ _ Heq). split.
  - intros rest Hrd. destruct (PutUint16_value v Hv) as (b0 & b1 & Hb & Hval). rewrite Hb in Hrd.
    rewrite Hrd, zlen_app in Hlen. pose proof (zlen_nonneg rest). rewrite !zlen_cons, zlen_nil in Hlen.
    assert (Hd2 : zlen d = 2) by lia. rewrite (proj2 Hnone Hd2). rewrite Hrest in Hrd.
    destruct d as [|x [|y [|z d]]]; rewrite ?zlen_cons, ?zlen_nil in Hd2; try lia;
      [|pose proof (zlen_nonneg d); lia].
    cbn [app] in Hrd. injection Hrd as -> -> Hrd. exists r', w'. by rewrite Hval.
  - intros Hshort. destruct e as [e|]; [by eexists _, _, _|]. pose proof (proj1 Hnone eq_refl). lia.
Qed.

Lemma uint16_roundtrip_witness : ∃ r' w',
  ReadUint16 9 (Script [[1]; [2; 3]] (ErrNew EOF)) empty_world = Ret ((258, None, r'), w') ∧ rd_rest r' = [3].
Proof.
  refine (proj1 (proj2 (uint16_roundtrip 9 (Script [[1]; [2; 3]] (ErrNew EOF)) (Sink [] 9 (ErrNew EOF)) 258 empty_world
    ltac:(lia) I _ empty_world_ok _)) [3] eq_refl); cbn; lia.
Defined.

(** A message that is registered under its name, and that package proto
    unmarshals from what it marshals, survives [Encode] and [Decode]. *)
Lemma typed_message_roundtrip {Msg} `{!Proto Msg} (m zero : Msg) value :
  proto_Marshal m = inl value → proto_New (proto_FullName m) = inl zero →
  proto_Unmarshal value zero = (None, m) → Decode (Encode (Some m)) = inl m.
Proof. intros Hm Hn Hu. unfold Decode, Encode, GetInstance, GetMessageType. cbn. by rewrite Hn, Hm, Hu. Qed.
End SerialFacts.

(** ** Transport settings *)
Section SettingsFacts.
Import Internet Serial.
Context {Msg : Type} `{!Proto Msg}.

Lemma find_settings_list protocol (ts : list TransportConfig) :
  find_settings protocol (Some <$> ts) =
  Ret ((λ p, GetTypedSettings p.2) <$> list_find (λ t, GetUnifiedProtocolName t = protocol) ts).
Proof.
  induction ts as [|t ts IH]; [done|]. cbn [fmap list_fmap find_settings list_find].
  case_bool_decide as Ht.
  - by rewrite decide_True.
  - rewrite decide_False by done. rewrite IH. by destruct (list_find _ ts) as [[]|].
Qed.

(** The settings for a protocol are those of the first entry with its name,
    the entries of the stream before the global ones, and the registered
    default when there is none. *)
Theorem transport_settings_precedence (g : registry Msg) c own globals protocol :
  TransportSettings <$> c = Some (Some <$> own) ∨ c = None ∧ own = [] →
  globalTransportSettings g = Some <$> globals →
  GetTransportSettingsFor g c protocol =
  Ret (match list_find (λ t, GetUnifiedProtocolName t = protocol) (own ++ globals) with
       | Some (_, t) => Decode (tc_Settings t)
       | None => CreateTransportConfig g protocol
       end).
Proof.
  intros Hc Hg. unfold GetTransportSettingsFor.
  assert (Hown : match c with Some c => find_settings protocol (TransportSettings c) | None => Ret None end =
    Ret ((λ p, GetTypedSettings p.2) <$> list_find (λ t, GetUnifiedProtocolName t = protocol) own)).
  { destruct Hc as [Hc|[-> ->]]; [|done]. destruct c as [c|]; [|done]. injection Hc as ->. apply find_settings_list. }
  rewrite Hown. cbn -[list_find]. destruct (list_find _ own) as [[i t]|] eqn:Ho.
  - cbn. by erewrite list_find_app_l.
  - cbn -[list_find]. rewrite Hg, find_settings_list. cbn -[list_find]. rewrite list_find_app_r by done.
    by destruct (list_find _ globals) as [[]|].
Qed.

(** The address given to the registered listener of [ListenTCP]: an IP as it
    is, localhost as 127.0.0.1; any other domain is refused and nothing is
    called. *)
Theorem listen_tcp_address {W L} g cache a port (s : MemoryStreamConfig Msg) (w : W) :
  ListenTCP (L := L) g cache (Some a) port (Some s) w =
  match a with
  | domainAddress d =>
      if bool_decide (d = str "localhost") then Ret (call_listener cache (Some (ipv4Address [127; 0; 0; 1])) port s w)
      else Ret (inr (Errorf "domain address is not allowed for listening" None), w)
  | _ => Ret (call_listener cache (Some a) port s w)
  end.
Proof.
  destruct a as [ip|ip|d]; try done. unfold ListenTCP. cbn. case_bool_decide; done.
Qed.
End SettingsFacts.
