(* ===== verification/SocketsSpec.v ===== *)
(** * Socket options, listeners and locks: theorems

    The options that are set on a socket, the lock and the listener that
    [Listen] leaves behind on every path, the exclusion that the lock file
    gives, and the query of [OriginalDst]. *)
From S2P Require Import Prelude Errors NetAddr NetText Wire TcpClient HttpText Internet Sockets.
Import Internet Sockets.

(** ** Options

    The reference: the list of options a configuration asks for, set one after
    the other until one fails. *)
Module OptionFacts.
Section Options.
Context {W : Type} `{!SockOS W}.

Fixpoint set_all (fd : Z) (opts : list sockoption) (w : W) : option error * W :=
  match opts with
  | [] => (None, w)
  | o :: opts' => match os_setsockopt fd o w with
                  | (Some err, w) => (Some err, w)
                  | (None, w) => set_all fd opts' w
                  end
  end.

Definition tfo_options (enabled : Z) (c : SocketConfig) : list sockoption :=
  if Tfo c =? 0 then [] else [mkOpt IPPROTO_TCP TCP_FASTOPEN (if 0 <? Tfo c then enabled else 0)].
Definition interface_options (ifaces : list iface + error) (c : SocketConfig) : list sockoption :=
  let index := getInterfaceIndexByName ifaces (Interface c) in
  if bool_decide (Interface c = []) || (index =? 0) then [] else [mkOpt IPPROTO_IP IP_BOUND_IF index].
Definition keepalive_options (c : SocketConfig) : list sockoption :=
  let idle := TcpKeepAliveIdle c in
  let interval := TcpKeepAliveInterval c in
  if (0 <? idle) || (0 <? interval) then
    (if 0 <? idle then [mkOpt IPPROTO_TCP TCP_KEEPALIVE interval] else []) ++
    (if 0 <? interval then [mkOpt IPPROTO_TCP TCP_KEEPINTVL idle] else []) ++
    [mkOpt SOL_SOCKET SO_KEEPALIVE 1]
  else if (interval <? 0) || (idle <? 0) then [mkOpt SOL_SOCKET SO_KEEPALIVE 0] else [].

(** [outbound]: of a connection that is dialled. *)
Definition options (outbound : bool) (ifaces : list iface + error) (c : SocketConfig) : list sockoption :=
  tfo_options (if outbound then TCP_FASTOPEN_CLIENT else TCP_FASTOPEN_SERVER) c ++
  interface_options ifaces c ++ keepalive_options c ++
  (if outbound && TcpNoDelay c then [mkOpt IPPROTO_TCP TCP_NODELAY 1] else []).

(** Setting options does not change the interfaces. *)
Hypothesis interfaces_stable : ∀ fd o w, os_interfaces (os_setsockopt fd o w).2 = os_interfaces w.

(** The call sets the options, and fails when one of them does. *)
Definition sets (fd : Z) (ifaces : list iface + error) (c : call) (opts : list sockoption) : Prop := ∀ w,
  os_interfaces w = ifaces → (c w).2 = (set_all fd opts w).2 ∧ ((c w).1 = None ↔ (set_all fd opts w).1 = None).

Lemma set_all_app fd o1 o2 w :
  set_all fd (o1 ++ o2) w = and_then (set_all fd o1) (set_all fd o2) w.
Proof.
  unfold and_then. revert w. induction o1 as [|o o1 IH]; intros w; [done|]. cbn.
  destruct (os_setsockopt fd o w) as [[e|] w1]; [done|]. apply IH.
Qed.

Lemma set_all_interfaces fd opts w : os_interfaces (set_all fd opts w).2 = os_interfaces w.
Proof.
  revert w. induction opts as [|o opts IH]; intros w; [done|]. cbn.
  pose proof (interfaces_stable fd o w). destruct (os_setsockopt fd o w) as [[e|] w1]; cbn in *; [done|].
  by rewrite IH.
Qed.

Lemma sets_ok fd ifs : sets fd ifs ok [].
Proof. by intros w. Qed.

Lemma sets_one fd ifs l n v : sets fd ifs (SetsockoptInt fd l n v) [mkOpt l n v].
Proof. intros w _. unfold SetsockoptInt. cbn. by destruct (os_setsockopt fd _ w) as [[e|] w1]. Qed.

Lemma sets_explain fd ifs msg c opts : sets fd ifs c opts → sets fd ifs (explain msg c) opts.
Proof.
  intros Hc w Hw. destruct (Hc w Hw) as [H1 H2]. unfold explain.
  destruct (c w) as [[e|] w1]; cbn in *; [|done].
  split; [done|]. split; intros Hx; [done|by apply H2 in Hx].
Qed.

Lemma sets_then fd ifs a b o1 o2 :
  sets fd ifs a o1 → sets fd ifs b o2 → sets fd ifs (and_then a b) (o1 ++ o2).
Proof.
  intros Ha Hb w Hw. rewrite set_all_app. destruct (Ha w Hw) as [H1 H2].
  pose proof (set_all_interfaces fd o1 w) as Hst. unfold and_then.
  destruct (a w) as [[e|] w1], (set_all fd o1 w) as [[e'|] w2]; cbn in *; subst.
  - split; [done|]. split; congruence.
  - by pose proof (proj2 H2 eq_refl).
  - by pose proof (proj1 H2 eq_refl).
  - apply Hb. congruence.
Qed.

Lemma sets_if fd ifs (b : bool) a o : sets fd ifs a o → sets fd ifs (if b then a else ok) (if b then o else []).
Proof. destruct b; [done|]. intros _. apply sets_ok. Qed.

Hint Resolve sets_ok sets_one sets_explain sets_then sets_if : core.

Lemma sets_tfo fd ifs enabled c : 0 < enabled → sets fd ifs (apply_tfo fd enabled c) (tfo_options enabled c).
Proof.
  intros He. unfold apply_tfo, tfo_options, ParseTFOValue. destruct (Tfo c =? 0) eqn:H0; [apply sets_ok|].
  apply Z.eqb_neq in H0. destruct (Tfo c <? 0) eqn:H1; cbn.
  - apply Z.ltb_lt in H1. rewrite (proj2 (Z.ltb_ge 0 (Tfo c))) by lia. apply sets_one.
  - apply Z.ltb_ge in H1. rewrite (proj2 (Z.ltb_lt 0 (Tfo c))), (proj2 (Z.leb_le 0 enabled)) by lia. apply sets_one.
Qed.

Lemma sets_interface fd ifs c : sets fd ifs (apply_interface fd c) (interface_options ifs c).
Proof.
  intros w Hw. unfold apply_interface, interface_options. destruct (Interface c) as [|x name]; [done|].
  rewrite bool_decide_false by done. rewrite Hw. cbn [orb]. destruct (_ =? 0); [done|].
  by apply (sets_explain fd ifs _ _ _ (sets_one fd ifs IPPROTO_IP IP_BOUND_IF _)).
Qed.

Lemma sets_keepalive fd ifs c : sets fd ifs (apply_keepalive fd c) (keepalive_options c).
Proof. unfold apply_keepalive, keepalive_options. destruct (_ || _); [auto|]. destruct (_ || _); auto. Qed.

Lemma sets_options (outbound : bool) fd ifs network c :
  isTCPSocket network = true →
  sets fd ifs (if outbound then applyOutboundSocketOptions network fd c else applyInboundSocketOptions network fd c)
    (options outbound ifs c).
Proof.
  intros Ht. unfold applyOutboundSocketOptions, applyInboundSocketOptions, options. rewrite Ht. destruct outbound; cbn [andb].
  - apply sets_then; [by apply sets_tfo|]. apply sets_then; [apply sets_interface|].
    apply sets_then; [apply sets_keepalive|auto].
  - apply sets_then; [by apply sets_tfo|]. apply sets_then; [apply sets_interface|].
    rewrite app_nil_r. apply sets_keepalive.
Qed.
End Options.
End OptionFacts.

Section OptionTheorems.
Import OptionFacts.

(** The options applied to a TCP socket are those its configuration asks for,
    in order; at the first one that the system refuses the call stops and
    reports an error, and the later ones are not set.  Other sockets are left
    alone. *)
Theorem socket_options_applied {W} `{!SockOS W} (outbound : bool) fd network c (w : W) :
  (∀ fd o w, os_interfaces (os_setsockopt fd o w).2 = os_interfaces w) →
  let '(err, w') := (if outbound then applyOutboundSocketOptions network fd c
                     else applyInboundSocketOptions network fd c) w in
  if isTCPSocket network
  then w' = (set_all fd (options outbound (os_interfaces w) c) w).2 ∧
       (err = None ↔ (set_all fd (options outbound (os_interfaces w) c) w).1 = None)
  else err = None ∧ w' = w.
Proof.
  intros Hst. destruct (isTCPSocket network) eqn:Ht.
  - pose proof (sets_options Hst outbound fd (os_interfaces w) network c Ht w eq_refl) as Hs.
    destruct outbound; [destruct (applyOutboundSocketOptions network fd c w)
                       |destruct (applyInboundSocketOptions network fd c w)]; exact Hs.
  - unfold applyOutboundSocketOptions, applyInboundSocketOptions. rewrite Ht. by destruct outbound.
Qed.
End OptionTheorems.

(** A system that records the options that are set, for a socket that refuses
    TCP_NODELAY. *)
Module RecordingOS.
#[global] Instance recording : SockOS (list sockoption) := {|
  os_setsockopt _ o w := match o_name o with
                         | TCP_NODELAY => (Some (Errorf "not supported" None), w)
                         | _ => (None, w ++ [o])
                         end;
  os_bind _ _ _ w := (None, w);
  os_interfaces _ := inl [mkIface true false [[10; 0; 0; 1]] (str "en0") 4]
|}.
End RecordingOS.

Section OptionWitness.
Import OptionFacts RecordingOS.

Lemma socket_options_applied_witness :
  ∃ err, applyOutboundSocketOptions (str "tcp") 3 (mkSocketConfig 1 (str "en0") 0 0 true false false) [] =
    (err, [mkOpt IPPROTO_TCP TCP_FASTOPEN 2; mkOpt IPPROTO_IP IP_BOUND_IF 4]) ∧ err ≠ None.
Proof.
  pose proof (socket_options_applied (W := list sockoption) true 3 (str "tcp")
    (mkSocketConfig 1 (str "en0") 0 0 true false false) [] (λ _ _ _, eq_refl)) as Hw.
  eexists. split; [vm_compute; reflexivity|]. vm_compute in Hw. intros He. discriminate He.
Defined.

(** With only the idle time configured, the idle time of the socket is set to
    the interval, 0; with both, they change places. *)
Example keepalive_options_swapped :
  keepalive_options (mkSocketConfig 0 [] 0 60 false false false) =
    [mkOpt IPPROTO_TCP TCP_KEEPALIVE 0; mkOpt SOL_SOCKET SO_KEEPALIVE 1] ∧
  keepalive_options (mkSocketConfig 0 [] 15 60 false false false) =
    [mkOpt IPPROTO_TCP TCP_KEEPALIVE 15; mkOpt IPPROTO_TCP TCP_KEEPINTVL 60; mkOpt SOL_SOCKET SO_KEEPALIVE 1].
Proof. split; reflexivity. Qed.
End OptionWitness.

(** ** Listening

    The contract of the operating system: [held] are the files whose lock is
    held, [live] the listeners that are open.  Closing a file gives up its
    lock. *)
Class ListenLaws (W F L : Type) `{!ListenOS W F L, Countable F, Countable L} := {
  held : W → gset F;
  live : W → gset L;
  law_Create : ∀ p w, held (os_Create p w).2 = held w ∧ live (os_Create p w).2 = live w ∧
    ∀ f, (os_Create p w).1 = inl f → f ∉ held w;
  law_Flock : ∀ f b w, live (os_Flock f b w).2 = live w ∧
    held (os_Flock f b w).2 = match (os_Flock f b w).1 with
                              | None => if b then {[ f ]} ∪ held w else held w ∖ {[ f ]}
                              | Some _ => held w
                              end;
  law_Close : ∀ f w, held (os_Close f w).2 = held w ∖ {[ f ]} ∧ live (os_Close f w).2 = live w;
  law_Remove : ∀ p w, held (os_Remove p w).2 = held w ∧ live (os_Remove p w).2 = live w;
  law_Chmod : ∀ p m w, held (os_Chmod p m w).2 = held w ∧ live (os_Chmod p m w).2 = live w;
  law_Listen : ∀ n a w, held (os_Listen (mkListenConfig None 0 false) n a w).2 = held w ∧
    match (os_Listen (mkListenConfig None 0 false) n a w) with
    | (inl l, w') => (l ∉ live w) ∧ live w' = {[ l ]} ∪ live w
    | (inr _, w') => live w' = live w
    end;
  law_CloseListener : ∀ l w, live (os_CloseListener l w).2 = live w ∖ {[ l ]} ∧
    held (os_CloseListener l w).2 = held w
}.

Module ListenFacts.
Section Facts.
Context {W F L : Type} `{!SockOS W, !ListenOS W F L, Countable F, Countable L, !ListenLaws W F L}.

(** Taking away what was not there, or was added. *)
Lemma not_in {A} `{Countable A} (x : A) (X : gset A) : x ∉ X → X ∖ {[ x ]} = X.
Proof.
  intros Hx. apply set_eq. intros y. rewrite elem_of_difference, elem_of_singleton. split; [by intros []|].
  intros Hy. split; [done|]. intros ->. done.
Qed.

Lemma take_back {A} `{Countable A} (x : A) (X : gset A) : x ∉ X → ({[ x ]} ∪ X) ∖ {[ x ]} = X.
Proof.
  intros Hx. apply set_eq. intros y. rewrite elem_of_difference, elem_of_union, elem_of_singleton. split.
  - intros [[?|?] ?]; done.
  - intros Hy. split; [by right|]. intros ->. done.
Qed.

Definition same (w w' : W) : Prop := held w' = held w ∧ live w' = live w.

(** [fl] holds the lock of a file that was free in [w]. *)
Definition holds_new (fl : FileLocker (F := F)) (w w' : W) : Prop :=
  ∃ f, fl_file fl = Some f ∧ (f ∉ held w) ∧ held w' = {[ f ]} ∪ held w.

Lemma Acquire_spec p w e fl w' :
  Acquire (mkLocker p None) w = (e, fl, w') →
  live w' = live w ∧ match e with Some _ => held w' = held w | None => holds_new fl w w' end.
Proof.
  unfold Acquire. cbn [fl_path]. destruct (law_Create p w) as (Hh & Hl & Hn).
  destruct (os_Create p w) as [[f|err] w1]; cbn in *; [|intros [= <- <- <-]; by split].
  specialize (Hn f eq_refl). destruct (law_Flock f true w1) as [Hl2 Hh2].
  destruct (os_Flock f true w1) as [[err|] w2]; cbn in *.
  - destruct (law_Close f w2) as [Hh3 Hl3]. destruct (os_Close f w2) as [o w3]; cbn in *.
    intros [= <- <- <-]. split; [congruence|]. by rewrite Hh3, Hh2, Hh, not_in.
  - intros [= <- <- <-]. split; [congruence|]. exists f. split_and!; [done|done|congruence].
Qed.

Lemma Release_spec fl w0 w :
  holds_new fl w0 w → ∃ w', Release fl w = Ret w' ∧ held w' = held w0 ∧ live w' = live w.
Proof.
  intros (f & Hf & Hn & Hh). unfold Release. rewrite Hf.
  destruct (law_Flock f false w) as [Hl1 Hh1]. destruct (os_Flock f false w) as [o1 w1].
  destruct (law_Close f w1) as [Hh2 Hl2]. destruct (os_Close f w1) as [o2 w2].
  destruct (law_Remove (fl_path fl) w2) as [Hh3 Hl3]. destruct (os_Remove (fl_path fl) w2) as [o3 w3].
  cbn in *. exists w3. split_and!; [done| |congruence].
  rewrite Hh3, Hh2, Hh1. destruct o1; rewrite Hh, take_back by done; [done|by apply not_in].
Qed.

(** What [Listen] has made: a listener that is open and, on a path, a lock;
    closing it gives back both. *)
Definition owned (l : listener (F := F) (L := L)) (w w' : W) : Prop :=
  (∃ s, (s ∉ live w) ∧ live w' = {[ s ]} ∪ live w) ∧
  ∃ e l' w'', listener_Close l w' = Ret (e, l', w'') ∧ same w w''.

Lemma close_system s w w' :
  held w' = held w → s ∉ live w → live w' = {[ s ]} ∪ live w → owned (SystemListener s) w w'.
Proof.
  intros Hh Hs Hl. split; [eauto|]. cbn. destruct (law_CloseListener s w') as [Hl2 Hh2].
  destruct (os_CloseListener s w') as [e w2]; cbn in *. exists e, (SystemListener s), w2.
  split; [done|]. split; [congruence|]. by rewrite Hl2, Hl, take_back.
Qed.

Lemma close_combined s fl w w1 w' :
  held w1 = held w → live w1 = live w → holds_new fl w1 w' → s ∉ live w → live w' = {[ s ]} ∪ live w →
  owned (combinedListener s (Some fl)) w w'.
Proof.
  intros Hh1 Hl1 Hfl Hs Hl. split; [eauto|]. cbn. destruct (Release_spec fl w1 w' Hfl) as (w2 & -> & Hh2 & Hl2).
  cbn. destruct (law_CloseListener s w2) as [Hl3 Hh3]. destruct (os_CloseListener s w2) as [e w3]; cbn in *.
  exists e, (combinedListener s None), w3. split; [done|]. split; [congruence|]. by rewrite Hl3, Hl2, Hl, take_back.
Qed.

(** The result of a call: an error and nothing left behind, or a listener. *)
Definition clean (w : W) (r : option (listener (F := F) (L := L)) * option error * W) : Prop :=
  match r with
  | (_, Some _, w') => same w w'
  | (Some l, None, w') => owned l w w'
  | (None, None, _) => False
  end.

Lemma path_callback_clean a fl perm r w w1 w2 :
  same w w1 → holds_new fl w1 w2 → live w2 = live w →
  ∀ w3, held w3 = held w2 →
  match r with inl l => (l ∉ live w) ∧ live w3 = {[ l ]} ∪ live w | inr _ => live w3 = live w end →
  ∃ c, path_callback a fl perm r w3 = Ret c ∧ clean w c.
Proof.
  intros [Hh1 Hl1] (f & Hf & Hn & Hh) Hl2 w3 Hh3 Hr.
  assert (Hnew : ∀ w4, held w4 = held w3 → holds_new fl w1 w4).
  { intros w4 Hw4. exists f. split_and!; [done|done|congruence]. }
  unfold path_callback. destruct r as [l|err].
  - destruct Hr as [Hfresh Hl3]. destruct perm as [mode|].
    + destruct (law_Chmod a mode w3) as [Hh4 Hl4]. destruct (os_Chmod a mode w3) as [[err|] w4]; cbn in Hh4, Hl4.
      * destruct (close_combined l fl w w1 w4 Hh1 Hl1 (Hnew w4 Hh4) Hfresh ltac:(congruence))
          as (_ & e & l' & w5 & -> & Hs). cbn. eauto.
      * eexists. split; [done|]. eapply close_combined; eauto. congruence.
    + eexists. split; [done|]. eapply close_combined; eauto.
  - destruct (Release_spec fl w1 w3 (Hnew w3 eq_refl)) as (w4 & -> & Hh4 & Hl4). cbn.
    eexists. split; [done|]. split; congruence.
Qed.

Lemma plain_clean n a w :
  clean w (plain_result (os_Listen (mkListenConfig None 0 false) n a w)).
Proof.
  destruct (law_Listen n a w) as [Hh Hl]. destruct (os_Listen _ n a w) as [[l|err] w1]; cbn in *.
  - destruct Hl. by apply close_system.
  - by split.
Qed.

Lemma wrap_clean (w w' : W) l err (b : bool) :
  clean w (l, err, w') → clean w (if b then Some (wrap_proxy l) else l, err, w').
Proof.
  destruct b; [|done]. destruct err as [e|]; [by destruct l|]. destruct l as [l|]; [|intros []].
  intros (Hs & e & l' & w2 & Hc & Hsame). split; [done|]. cbn. rewrite Hc. cbn. eauto.
Qed.
End Facts.
End ListenFacts.

Section ListenTheorem.
Import ListenFacts.

(** C29: [Listen] on a Unix socket leaves nothing behind when it fails: whichever of
    the permission, the lock, the listening or the change of mode fails, no
    lock is held and no listener is open that was not before.  When it
    succeeds it has opened one listener, and closing what it returned closes
    that listener and gives up the lock. *)
Theorem listen_unix_clean {W F L} `{!SockOS W, !ListenOS W F L, Countable F, Countable L, !ListenLaws W F L}
  GOOS IPString controllers name netw sockopt (w : W) :
  name ≠ [] →
  ∃ r, Listen GOOS IPString controllers (UnixAddr name netw) sockopt w = Ret r ∧ clean w r.
Proof.
  intros Hne.
  assert (Hon : ∃ r, listen_on GOOS IPString controllers (UnixAddr name netw) sockopt w = Ret r ∧
    match r with (inl (l, err), w') => clean w (l, err, w') | (inr _, w') => same w w' end).
  { cbn [listen_on]. assert (Hp : ∃ p, parse_unix GOOS name = Ret p).
    { unfold parse_unix. destruct name as [|c name]; [done|].
      destruct (is_linux GOOS); cbn -[Split]; repeat case_match; eauto. }
    destruct Hp as [p ->]. cbn. destruct p as [[a|a perm]|err].
    - eexists. split; [done|]. pose proof (plain_clean netw a w) as Hc.
      by destruct (plain_result _) as [[l err] w'].
    - destruct (Acquire _ w) as [[e fl] w2] eqn:Ha. apply Acquire_spec in Ha as [Hl Hh].
      destruct e as [e|]; [eexists; split; [done|]; by split|].
      destruct (law_Listen netw a w2) as [Hh3 Hl3]. destruct (os_Listen _ netw a w2) as [r w3]; cbn in Hh3.
      destruct (path_callback_clean a fl perm r w w w2 (conj eq_refl eq_refl) Hh Hl w3 Hh3) as ([[l e] w4] & -> & Hc).
      { destruct r; by rewrite <-Hl. }
      cbn. eexists. split; [done|]. done.
    - eexists. split; [done|]. by split. }
  destruct Hon as ([[[l err]|e] w'] & Hon & Hc); unfold Listen; rewrite Hon; cbn.
  - destruct sockopt as [so|]; eexists; (split; [done|]); [by apply wrap_clean|done].
  - eexists. split; [done|]. done.
Qed.
End ListenTheorem.

(** A small operating system: locks and listeners are numbers, the path /bad
    cannot be listened on, and chmod fails for mode 0. *)
Module ToyOS.
Record toy := mkToy { t_held : gset nat; t_live : gset nat }.

#[global] Instance toy_sock : SockOS toy := {|
  os_setsockopt _ _ w := (None, w); os_bind _ _ _ w := (None, w); os_interfaces _ := inl []
|}.

#[global] Instance toy_os : ListenOS toy nat nat := {|
  os_Create p w := (inl (fresh (t_held w)), w);
  os_Flock f b w := (None, mkToy (if b then {[ f ]} ∪ t_held w else t_held w ∖ {[ f ]}) (t_live w));
  os_Close f w := (None, mkToy (t_held w ∖ {[ f ]}) (t_live w));
  os_Remove _ w := (None, w);
  os_Chmod _ m w := (if m =? 0 then Some (Errorf "permission denied" None) else None, w);
  os_Listen _ _ a w :=
    if bool_decide (a = str "/bad") then (inr (Errorf "address already in use" None), w)
    else (inl (fresh (t_live w)), mkToy (t_held w) ({[ fresh (t_live w) ]} ∪ t_live w));
  os_ListenPacket _ _ _ w := (inr (Errorf "not supported" None), w);
  os_CloseListener l w := (None, mkToy (t_held w) (t_live w ∖ {[ l ]}))
|}.

#[global] Program Instance toy_laws : ListenLaws toy nat nat := {| held := t_held; live := t_live |}.
Next Obligation. intros p w. split_and!; [done|done|]. cbn. intros f [= <-]. apply is_fresh. Qed.
Next Obligation. intros f b w. done. Qed.
Next Obligation. intros f w. done. Qed.
Next Obligation. intros p w. done. Qed.
Next Obligation. intros p m w. done. Qed.
Next Obligation. intros n a w. cbn. case_bool_decide; [done|]. split_and!; [done|apply is_fresh|done]. Qed.
Next Obligation. intros l w. done. Qed.
End ToyOS.

Section ListenWitness.
Import ListenFacts ToyOS.

Lemma listen_unix_clean_witness : ∃ r,
  Listen "darwin" (λ _, []) [] (UnixAddr (str "/run/x,000") (str "unix")) None (mkToy {[ 7%nat ]} ∅) = Ret r ∧
  clean (mkToy {[ 7%nat ]} ∅) r.
Proof.
  refine (listen_unix_clean "darwin" (λ _, []) [] (str "/run/x,000") (str "unix") None (mkToy {[ 7%nat ]} ∅) _).
  discriminate.
Defined.

(** The change of mode fails: an error, and only the old lock is held. *)
Example listen_bad_mode : ∃ w,
  Listen "darwin" (λ _, []) [] (UnixAddr (str "/run/x,000") (str "unix")) None (mkToy {[ 7%nat ]} ∅) =
  Ret (None, Some (Errorf "failed to set permission" None), w) ∧ t_held w = {[ 7%nat ]} ∧ t_live w = ∅.
Proof. eexists. vm_compute. split; [reflexivity|]. split; reflexivity. Qed.
End ListenWitness.

(** ** The lock file *)
Module FileLockFacts.
Import FileLock.

(** Only one process holds a given file. *)
Definition one_holder (s : sys) : Prop :=
  ∀ i k1 k2, procs s !! k1 = Some (P_held i) → procs s !! k2 = Some (P_held i) → k1 = k2.

(** Without a release every process that has opened the file has opened the
    file that the path names. *)
Definition same_file (s : sys) : Prop :=
  Forall (λ p, match p with P_flock i | P_held i => name s = Some i | P_remove => False | _ => True end) (procs s).

Lemma none_holds i l : existsb (holds i) l = false → P_held i ∉ l.
Proof.
  intros He Hin. apply list_elem_of_lookup in Hin as [k Hk].
  apply not_true_iff_false in He. apply He. apply existsb_exists. exists (P_held i).
  split; [apply list_elem_of_In; by eapply list_elem_of_lookup_2|apply Nat.eqb_refl].
Qed.

Lemma step_one_holder c s s' : one_holder s → step c s = Some s' → one_holder s'.
Proof.
  destruct c as [k release]. unfold step, one_holder. intros Hinv Hs i k1 k2.
  apply bind_Some in Hs as (p & Hk & Hs).
  assert (Hother : ∀ p', (∀ j, p' = P_held j → P_held j ∉ procs s) →
    <[k := p']> (procs s) !! k1 = Some (P_held i) → <[k := p']> (procs s) !! k2 = Some (P_held i) → k1 = k2).
  { intros p' Hp' H1 H2.
    apply list_lookup_insert_Some in H1 as [(<- & -> & _)|(Hn1 & H1)];
      apply list_lookup_insert_Some in H2 as [(<- & H2 & _)|(Hn2 & H2)]; try done.
    - exfalso. apply (Hp' i eq_refl). by eapply list_elem_of_lookup_2.
    - exfalso. subst p'. apply (Hp' i eq_refl). by eapply list_elem_of_lookup_2.
    - by eapply Hinv. }
  destruct p as [|j|j| |]; cbn in Hs; repeat case_match; simplify_eq; cbn; apply Hother; intros ? [=]; subst.
  by apply none_holds.
Qed.

Lemma step_same_file c s s' : c.2 = false → same_file s → step c s = Some s' → same_file s'.
Proof.
  destruct c as [k release]. cbn [snd]. intros -> Hinv Hs. unfold step in Hs.
  apply bind_Some in Hs as (p & Hk & Hs). unfold same_file in *.
  assert (Hp := Forall_lookup_1 _ _ _ _ Hinv Hk).
  destruct p as [|j|j| |]; cbn in Hs.
  - destruct (name s) as [i|] eqn:Hn; injection Hs as <-; cbn; apply Forall_insert; try done.
    eapply Forall_impl; [exact Hinv|]. intros [|i|i| |]; cbn; congruence.
  - destruct (existsb _ _); [done|]. injection Hs as <-. cbn. by apply Forall_insert.
  - done.
  - done.
  - injection Hs as <-. cbn. by apply Forall_insert.
Qed.
End FileLockFacts.

Section FileLockTheorems.
Import FileLock FileLockFacts.

(** The lock excludes other processes as long as nobody has released it: any
    number of processes may call [Acquire], and at most one of them returns.
    With releases, still at most one process holds the lock of a given file. *)
Theorem file_lock_exclusive n cs s :
  run cs (init n) = Some s →
  one_holder s ∧
  (Forall (λ c, c.2 = false) cs → ∀ k1 k2 i j,
     procs s !! k1 = Some (P_held i) → procs s !! k2 = Some (P_held j) → k1 = k2).
Proof.
  intros Hr.
  assert (H1 : one_holder s).
  { apply (run_steps_inv step one_holder) with cs (init n); [intros c s1 s2; apply step_one_holder| |done].
    intros i k1 k2 Hk. cbn in Hk. apply lookup_replicate in Hk as [? ?]. done. }
  split; [done|]. intros Hcs k1 k2 i j Hk1 Hk2.
  assert (Hf : same_file s).
  { apply (run_steps_inv_on step (λ c, c.2 = false) same_file) with cs (init n);
      [intros c s1 s2; apply step_same_file|done| |done].
    unfold same_file. cbn. by apply Forall_replicate. }
  pose proof (Forall_lookup_1 _ _ _ _ Hf Hk1) as Hi. pose proof (Forall_lookup_1 _ _ _ _ Hf Hk2) as Hj.
  cbn in Hi, Hj. assert (i = j) by congruence. subst. by eapply H1.
Qed.

Lemma file_lock_exclusive_witness : ∀ k1 k2 i j,
  [P_held 0; P_flock 0] !! k1 = Some (P_held i) → [P_held 0; P_flock 0] !! k2 = Some (P_held j) → k1 = k2.
Proof.
  refine (proj2 (file_lock_exclusive 2
    [(0%nat, false); (1%nat, false); (0%nat, false); (1%nat, false); (0%nat, false)]
    (mkSys (Some 0%nat) 1 [P_held 0; P_flock 0]) eq_refl) _).
  repeat constructor.
Defined.

(** [Release] removes the file after it has given up the lock: a process that
    was waiting for the lock gets that of the removed file, and the next one
    makes a new file and locks it, so that both have acquired the lock. *)
Theorem file_lock_two_holders : ∃ cs s, run cs (init 3) = Some s ∧
  procs s !! 1%nat = Some (P_held 0) ∧ procs s !! 2%nat = Some (P_held 1).
Proof.
  exists ((λ k : nat, (k, true)) <$> [0; 1; 0; 1; 0; 0; 1; 0; 2; 2; 2]%nat).
  eexists. vm_compute. split_and!; reflexivity.
Qed.
End FileLockTheorems.

(** ** OriginalDst *)
Section OriginalDstFacts.

Lemma port_bytes p : 0 ≤ p < 65536 → PortFromBytes [u8 (Z.shiftr p 8); u8 p] = Ret p.
Proof.
  intros Hp. unfold PortFromBytes. f_equal. pose proof (u8_range p). pose proof (u8_range (Z.shiftr p 8)).
  rewrite Z.lor_comm, (lor_shiftl_add (u8 p) _ 8) by (change (2 ^ 8) with 256; lia).
  rewrite !u8_eq, shiftr_div by lia. change (2 ^ 8) with 256.
  rewrite (Z.mod_small (p / 256)) by (split; [apply Z.div_pos; lia|apply Z.div_lt_upper_bound; lia]).
  unfold Port. rewrite u16_id; pose proof (Z.div_mod p 256); lia.
Qed.

Lemma copy_front_4 a : zlen a = 4 → take 4 (copy_front (repeat 0 16) a) = a.
Proof.
  intros Ha. destruct a as [|a0 [|a1 [|a2 [|a3 [|a4 a]]]]]; rewrite ?zlen_cons, ?zlen_nil in Ha; try lia; [done|].
  pose proof (zlen_nonneg a). lia.
Qed.

Lemma To4_v4 a : zlen a = 4 → To4 a = Some a.
Proof. intros Ha. unfold To4. by rewrite (proj2 (Z.eqb_eq _ _) Ha). Qed.

(** For an IPv4 connection the query has the two addresses, an unspecified
    local one replaced by 127.0.0.1, and the ports in network order; the
    address and port of the answer are returned.  When the call fails, the
    result is the port -1 with a nil error. *)
Theorem original_dst_query ioctl la lp ra rp :
  zlen la = 4 → zlen ra = 4 → 0 ≤ lp < 65536 → 0 ≤ rp < 65536 →
  let q := natlook_query la lp ra rp in
  take 4 (saddr q) = ra ∧ take 4 (daddr q) = (if IsUnspecified la then [127; 0; 0; 1] else la) ∧
  PortFromBytes (take 2 (sxport q)) = Ret rp ∧ PortFromBytes (take 2 (dxport q)) = Ret lp ∧
  (∀ nl port, ioctl q = (true, nl) → PortFromBytes (take 2 (rdxport nl)) = Ret port →
     OriginalDst None ioctl (TCPAddr la lp) (TCPAddr ra rp) =
     Ret (if af nl =? AF_INET then take 4 (rdaddr nl) else if af nl =? AF_INET6 then rdaddr nl else [],
          port, None)) ∧
  (∀ nl, ioctl q = (false, nl) → OriginalDst None ioctl (TCPAddr la lp) (TCPAddr ra rp) = Ret ([], -1, None)).
Proof.
  intros Hla Hra Hlp Hrp q.
  assert (Hla' : zlen (if IsUnspecified la then [127; 0; 0; 1] else la) = 4) by (by destruct (IsUnspecified la)).
  assert (Hq : q = set_addrs q (copy_front (repeat 0 16) ra)
    (copy_front (repeat 0 16) (if IsUnspecified la then [127; 0; 0; 1] else la))).
  { unfold q, natlook_query. by rewrite (To4_v4 ra Hra), (To4_v4 _ Hla'). }
  split_and!.
  - rewrite Hq. by apply copy_front_4.
  - rewrite Hq. by apply copy_front_4.
  - unfold q, natlook_query. rewrite (To4_v4 ra Hra). by apply port_bytes.
  - unfold q, natlook_query. rewrite (To4_v4 ra Hra). by apply port_bytes.
  - intros nl port Hi Hp. cbn. fold q. rewrite Hi. cbn. by rewrite Hp.
  - intros nl Hi. cbn. fold q. by rewrite Hi.
Qed.
End OriginalDstFacts.
