(* ===== verification/Etcd.v ===== *)
(** * Service discovery through etcd

    cmd/internal/discovery/etcd: service.go, discovery.go, etcd.go,
    etcd_discovery.go, etcd_watcher.go and etcd_registry.go.  The etcd client is
    seen through its answers: the key-value pairs of a read, the events of a
    watch, and, for the registry, a server with leases.  The JSON form of an
    endpoint is a parameter. *)
From S2P Require Import Prelude Errors NetText Wire Http2Frames TcpClient HttpText.

Module Etcd.

(** ** service.go *)

Definition DefaultGroup : bytes := str "default".

Record Endpoint := mkEndpoint { Address : bytes; Group : bytes; Metadata : gmap bytes (list bytes) }.
Record Instance_ := mkInstance { Env : bytes; ServiceName : bytes; IEndpoint : Endpoint }.

#[global] Instance Endpoint_eq_dec : EqDecision Endpoint.
Proof. solve_decision. Defined.

Definition slash : bytes := [47].
Definition colon : bytes := [58].

(** [fmt.Sprintf("/%s/%s", env, name)] *)
Definition with_env (env name : bytes) : bytes := slash ++ env ++ slash ++ name.

Definition ServiceWithEnv (i : Instance_) : bytes := with_env (Env i) (ServiceName i).

Definition Key (i : Instance_) : bytes :=
  let serviceWithEnv := ServiceWithEnv i in
  let serviceKeyPrefix :=
    if bool_decide (Group (IEndpoint i) = DefaultGroup) then serviceWithEnv ++ slash
    else serviceWithEnv ++ colon ++ Group (IEndpoint i) ++ slash in
  serviceKeyPrefix ++ Address (IEndpoint i).

(** [json.Marshal] and [json.Unmarshal] of an endpoint. *)
Class EndpointJSON := {
  Encode : Endpoint → bytes;
  Decode : bytes → Endpoint + error
}.

(** ** discovery.go *)

Definition is_default (ep : Endpoint) : bool := bool_decide (Group ep = DefaultGroup ∨ Group ep = []).

Fixpoint filter_loop (endpoints : list Endpoint) (group : bytes) (groupEps defaultEps : list Endpoint)
  : list Endpoint * list Endpoint :=
  match endpoints with
  | [] => (groupEps, defaultEps)
  | ep :: eps =>
      if is_default ep then filter_loop eps group groupEps (defaultEps ++ [ep])
      else if bool_decide (Group ep = group) then filter_loop eps group (groupEps ++ [ep]) defaultEps
      else filter_loop eps group groupEps defaultEps
  end.

Definition FilterOrDefault (endpoints : list Endpoint) (group : bytes) : list Endpoint :=
  match filter_loop endpoints group [] [] with
  | ([], defaultEndpoints) => defaultEndpoints
  | (groupEndpoints, _) => groupEndpoints
  end.

Section Json.
Context `{!EndpointJSON}.

(** ** etcd.go *)

(** A key and its value. *)
Fixpoint etcdInstancesToEndpoints (kvs : list (bytes * bytes)) : list Endpoint :=
  match kvs with
  | [] => []
  | (_, value) :: kvs' =>
      match Decode value with
      | inr _ => etcdInstancesToEndpoints kvs'
      | inl ep => ep :: etcdInstancesToEndpoints kvs'
      end
  end.

(** ** etcd_discovery.go *)

(** [strings.TrimSuffix(s, "/")] *)
Definition trim_slash (s : bytes) : bytes :=
  match last s with Some 47 => take (length s - 1) s | _ => s end.

Definition parseServiceGroup (serviceKeyPrefix : bytes) : bytes * bytes :=
  match LastIndexByte 58 serviceKeyPrefix with
  | None => (serviceKeyPrefix, DefaultGroup)
  | Some colonIndex =>
      let basePath := take colonIndex serviceKeyPrefix in
      let feature := drop (S colonIndex) serviceKeyPrefix in
      (basePath ++ slash, trim_slash feature)
  end.

(** The key that DiscoverETCD asks for. *)
Definition serviceDiscoverKey (envName serviceName group : bytes) : bytes :=
  let serviceWithEnv := with_env envName serviceName in
  if bool_decide (group ≠ DefaultGroup) && bool_decide (group ≠ [])
  then serviceWithEnv ++ colon ++ group ++ slash
  else serviceWithEnv ++ slash.

(** [etcdDiscoverer]: the revision of the last read. *)
Record etcdDiscoverer := mkDiscoverer { rev : Z }.

(** What [cli.Get] returns for a prefix: the revision in the header, if there
    is one, and the pairs. *)
Definition get_answer : Type := (option Z * list (bytes * bytes)) + error.

Definition Get (cli : bytes → get_answer) (key : bytes) (d : etcdDiscoverer)
  : (list Endpoint + error) * etcdDiscoverer :=
  let '(serviceRegisterKey, group) := parseServiceGroup key in
  match cli serviceRegisterKey with
  | inr err => (inr (Errorf "get" (Some err)), d)
  | inl (header, kvs) =>
      let d := match header with Some r => mkDiscoverer r | None => d end in
      (inl (FilterOrDefault (etcdInstancesToEndpoints kvs) group), d)
  end.

(** ** etcd_watcher.go *)

(** [watching]: the prefix and the first revision of the watch that [wch]
    belongs to. *)
Record etcdWatcher := mkWatcher {
  serviceRegisterKey : bytes;
  group : bytes;
  endpoints : gmap bytes Endpoint;
  wch : bytes * option Z;
  stopped : bool
}.

Definition newWatcher (key : bytes) (eps : list Endpoint) (rev : Z) : etcdWatcher :=
  let '(registerKey, group) := parseServiceGroup key in
  let m := foldl (λ m ep, <[Address ep := ep]> m) ∅ eps in
  mkWatcher registerKey group m (registerKey, if 0 <? rev then Some (rev + 1) else None) false.

Definition Watch (cli : bytes → get_answer) (key : bytes) (d : etcdDiscoverer)
  : (list Endpoint * etcdWatcher + error) * etcdDiscoverer :=
  match Get cli key d with
  | (inr err, d) => (inr err, d)
  | (inl eps, d) => (inl (eps, newWatcher key eps (rev d)), d)
  end.

Inductive event := PUT (key value : bytes) | DELETE (key : bytes).

Definition extractAddressFromInstanceKey (key : bytes) : bytes + error :=
  let seg := Split 47 key in
  if (length seg <? 3)%nat then inr (Errorf "invalid key" None)
  else inl (default [] (last seg)).

Definition set_endpoints (w : etcdWatcher) (m : gmap bytes Endpoint) : etcdWatcher :=
  mkWatcher (serviceRegisterKey w) (group w) m (wch w) (stopped w).

(** One event: the watcher, and whether it has changed. *)
Definition apply_event (w : etcdWatcher) (ev : event) : etcdWatcher * bool :=
  match ev with
  | PUT key value =>
      match Decode value with
      | inr _ => (w, false)
      | inl endpoint =>
          if negb (HasPrefix key (serviceRegisterKey w)) then (w, false)
          else (set_endpoints w (<[Address endpoint := endpoint]> (endpoints w)), true)
      end
  | DELETE key =>
      match extractAddressFromInstanceKey key with
      | inr _ => (w, false)
      | inl address =>
          if negb (HasPrefix key (serviceRegisterKey w)) then (w, false)
          else (set_endpoints w (delete address (endpoints w)), true)
      end
  end.

Fixpoint apply_events (evs : list event) (w : etcdWatcher) (changed : bool) : etcdWatcher * bool :=
  match evs with
  | [] => (w, changed)
  | ev :: evs' => let '(w, c) := apply_event w ev in apply_events evs' w (changed || c)
  end.

Definition getEndpoints (w : etcdWatcher) : list Endpoint :=
  FilterOrDefault (map_to_list (endpoints w)).*2 (group w).

(** What the [select] of [Next] receives: a response, the close of the channel
    or the end of the context. *)
Inductive watch_item := Response (events : list event) | Closed | CtxDone (err : error).

(** [Next] on the items it receives one after the other; [None]: it still
    waits.  With the result, the watcher and the items that are left. *)
Fixpoint Next (items : list watch_item) (w : etcdWatcher)
  : option ((list Endpoint + error) * etcdWatcher * list watch_item) :=
  match items with
  | [] => None
  | Closed :: items' =>
      Some (inr (Errorf "channel is closed" None),
            mkWatcher (serviceRegisterKey w) (group w) (endpoints w) (serviceRegisterKey w, None) (stopped w), items')
  | CtxDone err :: items' => Some (inr err, w, items')
  | Response evs :: items' =>
      let '(w, changed) := apply_events evs w false in
      if changed : bool then Some (inl (getEndpoints w), w, items') else Next items' w
  end.

Definition Watcher_Close (w : etcdWatcher) : option error * etcdWatcher :=
  (None, mkWatcher (serviceRegisterKey w) (group w) (endpoints w) (wch w) true).
End Json.
End Etcd.

(** ** etcd_registry.go

    The goroutines of one [etcdRegistry] and the server it talks to, as a step
    function: a choice names the goroutine that moves and what the server or
    the channel of [KeepAlive] answers. *)
Module Registry.
Import Etcd.

(** Leases that are alive, and the keys with the lease they are attached to. *)
Record server := mkServer { leases : gset Z; kv : gmap bytes (bytes * Z); nextLease : Z }.

Definition grant (s : server) : Z * server :=
  (nextLease s, mkServer ({[ nextLease s ]} ∪ leases s) (kv s) (nextLease s + 1)).
Definition put (key value : bytes) (lease : Z) (s : server) : server :=
  mkServer (leases s) (<[key := (value, lease)]> (kv s)) (nextLease s).
(** Revoking a lease, or its expiry, removes its keys. *)
Definition drop_lease (lease : Z) (s : server) : server :=
  mkServer (leases s ∖ {[ lease ]}) (filter (λ e, e.2.2 ≠ lease) (kv s)) (nextLease s).

(** In [Register]: about to grant, to put, to start the keep-alive. *)
Inductive reg_pc := R_grant | R_put (lease : Z) | R_keepalive (lease : Z).

Inductive thread :=
  | Registering (retrying : bool) (p : reg_pc)   (** called by [retry], or from outside *)
  | Keepalive                                    (** the loop of [keepalive] *)
  | RetryWait                                    (** the [select] of [retry] *)
  | Deregister_stop
  | Deregister_revoke
  | Exited (err : option error).                 (** [Register] or [Deregister] has returned, or a loop *)

Record sys := mkSys { srv : server; done : bool; lease : Z; threads : list thread }.

Inductive choice :=
  | CallRegister
  | CallDeregister
  | Ok (i : nat)                                 (** the call succeeds; a keep-alive response; the ticker *)
  | Fail (i : nat) (e : error) (applied : bool)  (** the call fails, after or before its effect *)
  | ChannelClosed (i : nat)
  | SeesDone (i : nat)                           (** [<-r.ctx.Done()] *)
  | Expire (l : Z).

Section Steps.
(** The key and the value of the instance. *)
Context (key value : bytes).

Definition set_srv (s : sys) (v : server) : sys := mkSys v (done s) (lease s) (threads s).
Definition set_thread (s : sys) (i : nat) (t : thread) : sys :=
  mkSys (srv s) (done s) (lease s) (<[i := t]> (threads s)).

(** [Register] returns an error: [retry] goes on. *)
Definition reg_error (retrying : bool) (e : error) : thread := if retrying then RetryWait else Exited (Some e).

(** [Register], when the server answers; it refuses a lease that is gone. *)
Definition Register_ok (i : nat) (retrying : bool) (p : reg_pc) (s : sys) : option sys :=
  match p with
  | R_grant => let '(l, v) := grant (srv s) in Some (set_thread (set_srv s v) i (Registering retrying (R_put l)))
  | R_put l =>
      if bool_decide (l ∈ leases (srv s))
      then Some (set_thread (set_srv s (put key value l (srv s))) i (Registering retrying (R_keepalive l)))
      else None
  | R_keepalive l => Some (mkSys (srv s) (done s) l (<[i := Exited None]> (threads s) ++ [Keepalive]))
  end.

Definition Register_fail (i : nat) (retrying : bool) (p : reg_pc) (e : error) (applied : bool) (s : sys) : sys :=
  let v := if applied then match p with
                           | R_grant => (grant (srv s)).2
                           | R_put l => if bool_decide (l ∈ leases (srv s)) then put key value l (srv s) else srv s
                           | R_keepalive _ => srv s
                           end
           else srv s in
  set_thread (set_srv s v) i (reg_error retrying e).

Definition step (c : choice) (s : sys) : option sys :=
  match c with
  | CallRegister => Some (mkSys (srv s) (done s) (lease s) (threads s ++ [Registering false R_grant]))
  | CallDeregister => Some (mkSys (srv s) (done s) (lease s) (threads s ++ [Deregister_stop]))
  | Expire l => if bool_decide (l ∈ leases (srv s)) then Some (set_srv s (drop_lease l (srv s))) else None
  | Ok i =>
      match threads s !! i with
      | Some (Registering retrying p) => Register_ok i retrying p s
      | Some Keepalive => Some s
      | Some RetryWait => Some (set_thread s i (Registering true R_grant))
      | Some Deregister_stop => Some (mkSys (srv s) true (lease s) (<[i := Deregister_revoke]> (threads s)))
      | Some Deregister_revoke => Some (set_thread (set_srv s (drop_lease (lease s) (srv s))) i (Exited None))
      | _ => None
      end
  | Fail i e applied =>
      match threads s !! i with
      | Some (Registering retrying p) => Some (Register_fail i retrying p e applied s)
      | Some Deregister_revoke =>
          let v := if applied then drop_lease (lease s) (srv s) else srv s in
          Some (set_thread (set_srv s v) i (Exited (Some e)))
      | _ => None
      end
  | ChannelClosed i =>
      match threads s !! i with
      | Some Keepalive => Some (mkSys (srv s) (done s) (lease s) (<[i := Exited None]> (threads s) ++ [RetryWait]))
      | _ => None
      end
  | SeesDone i =>
      if done s then
        match threads s !! i with
        | Some Keepalive | Some RetryWait => Some (set_thread s i (Exited None))
        | _ => None
        end
      else None
  end.

Definition run : list choice → sys → option sys := run_steps step.

Definition NewEtcdRegistry : sys := mkSys (mkServer ∅ ∅ 1) false 0 [].
End Steps.
End Registry.
