(* ===== verification/EtcdSpec.v ===== *)
(** * Service discovery: theorems

    What is registered is found, a watcher that follows the events agrees with
    a fresh read, and what the registry leaves on the server. *)
From S2P Require Import Prelude Errors NetText NetTextSpec Wire Http2Frames TcpClient HttpText Etcd.
Import Etcd.

(** ** Text *)

Lemma Split_ne sep s : Split sep s ≠ [].
Proof. destruct s as [|c s]; cbn; [done|]. destruct (c =? sep); [done|]. by destruct (Split sep s). Qed.

Lemma Split_none sep s : sep ∉ s → Split sep s = [s].
Proof.
  induction s as [|c s IH]; [done|]. rewrite not_elem_of_cons. intros [Hc Hs]. cbn.
  rewrite (proj2 (Z.eqb_neq c sep)) by congruence. by rewrite IH.
Qed.

Lemma Split_app sep x y : Split sep (x ++ sep :: y) = Split sep x ++ Split sep y.
Proof.
  induction x as [|c x IH]; cbn; [by rewrite Z.eqb_refl|]. rewrite IH.
  destruct (c =? sep); [done|]. by destruct (Split sep x) eqn:Hx; [apply Split_ne in Hx|].
Qed.

Lemma LastIndexByte_none c s : c ∉ s → LastIndexByte c s = None.
Proof.
  intros Hs. unfold LastIndexByte. destruct (list_find (eq c) (reverse s)) as [[i x]|] eqn:Hf; [|done].
  apply list_find_Some in Hf as (Hl & <- & _). apply list_elem_of_lookup_2 in Hl.
  by rewrite elem_of_reverse in Hl.
Qed.

Lemma trim_slash_app s : trim_slash (s ++ slash) = s.
Proof.
  unfold trim_slash, slash. rewrite last_snoc, length_app. cbn.
  by rewrite Nat.add_sub, take_app_length.
Qed.

(** The names that DiscoverETCD can take apart again. *)
Definition plain_names (env svc grp : bytes) : Prop :=
  (58 ∉ env) ∧ (58 ∉ svc) ∧ (58 ∉ grp) ∧ grp ≠ [].

Lemma parse_discover_key env svc grp :
  plain_names env svc grp →
  parseServiceGroup (serviceDiscoverKey env svc grp) = (with_env env svc ++ slash, grp).
Proof.
  intros (He & Hs & Hg & Hne). unfold serviceDiscoverKey, parseServiceGroup.
  assert (Hw : 58 ∉ with_env env svc).
  { unfold with_env, slash. rewrite !elem_of_app, !list_elem_of_singleton. intros [?|[?|[?|?]]]; try done; lia. }
  case_bool_decide as Hd; [|rewrite LastIndexByte_none].
  - rewrite bool_decide_true by done. cbn [andb]. unfold colon. cbn [app].
    rewrite LastIndexByte_app by (unfold slash; rewrite elem_of_app, list_elem_of_singleton; intros [?|?]; [done|lia]).
    rewrite take_app_length. f_equal. rewrite (drop_app_ge _ _ (S _)) by lia.
    replace (S (length (with_env env svc)) - length (with_env env svc))%nat with 1%nat by lia.
    cbn [drop]. apply trim_slash_app.
  - cbn [andb]. by rewrite Hd.
  - cbn [andb]. unfold slash. rewrite elem_of_app, list_elem_of_singleton. intros [?|?]; [done|lia].
Qed.

Lemma extract_address env svc a :
  47 ∉ a → extractAddressFromInstanceKey ((with_env env svc ++ slash) ++ a) = inl a.
Proof.
  intros Ha. unfold extractAddressFromInstanceKey, with_env, slash.
  replace ((([47] ++ env ++ [47] ++ svc) ++ [47]) ++ a) with ([] ++ 47 :: env ++ 47 :: svc ++ 47 :: a)
    by (by rewrite <-!app_assoc).
  rewrite !Split_app, (Split_none 47 a Ha). cbn [Split app].
  pose proof (Split_ne 47 env). pose proof (Split_ne 47 svc).
  destruct (Split 47 env) as [|e1 es] eqn:He; [done|]. destruct (Split 47 svc) as [|s1 ss] eqn:Hs; [done|].
  rewrite (proj2 (Nat.ltb_ge _ _)) by (cbn [length app]; rewrite !length_app; cbn [length]; lia).
  f_equal. change ([] :: (e1 :: es) ++ (s1 :: ss) ++ [a]) with (([] :: (e1 :: es)) ++ (s1 :: ss) ++ [a]).
  by rewrite app_assoc, last_snoc.
Qed.

(** ** Registered instances are found *)
Section Keys.

(** The key of an instance of the default group lies under the prefix that
    DiscoverETCD reads for its service, whatever group is asked for, and a
    DELETE of it names the address. *)
Lemma key_found env svc grp ep :
  plain_names env svc grp → Group ep = DefaultGroup → 47 ∉ Address ep →
  let key := Key (mkInstance env svc ep) in
  HasPrefix key (parseServiceGroup (serviceDiscoverKey env svc grp)).1 = true ∧
  extractAddressFromInstanceKey key = inl (Address ep).
Proof.
  intros Hn Hg Ha key. rewrite (parse_discover_key env svc grp Hn).
  assert (Hk : key = (with_env env svc ++ slash) ++ Address ep).
  { unfold key, Key. cbn [IEndpoint]. by rewrite bool_decide_true. }
  rewrite Hk. split; [|by apply extract_address]. unfold HasPrefix. apply bool_decide_true. by eexists.
Qed.

(** An instance of any other group is never under the prefix that is read. *)
Theorem grouped_instance_not_found env svc grp ep :
  plain_names env svc grp → Group ep ≠ DefaultGroup →
  HasPrefix (Key (mkInstance env svc ep)) (parseServiceGroup (serviceDiscoverKey env svc grp)).1 = false.
Proof.
  intros Hn Hg. rewrite (parse_discover_key env svc grp Hn). unfold Key, HasPrefix. cbn [IEndpoint].
  rewrite (bool_decide_false (Group ep = DefaultGroup)) by done. apply bool_decide_false. intros [k Hk]. cbn [fst] in Hk.
  unfold ServiceWithEnv, slash, colon in Hk. cbn [Env ServiceName] in Hk. rewrite <-!app_assoc in Hk.
  apply app_inv_head in Hk. discriminate Hk.
Qed.

Lemma grouped_instance_not_found_witness :
  HasPrefix (Key (mkInstance (str "live") (str "svc") (mkEndpoint (str "10.0.0.1:80") (str "blue") ∅)))
    (parseServiceGroup (serviceDiscoverKey (str "live") (str "svc") (str "blue"))).1 = false.
Proof.
  refine (grouped_instance_not_found (str "live") (str "svc") (str "blue") (mkEndpoint (str "10.0.0.1:80") (str "blue") ∅)
    _ _); [|discriminate].
  split_and!; try discriminate; apply (bool_decide_unpack _); vm_compute; exact I.
Defined.
End Keys.

(** ** FilterOrDefault *)
Definition in_group (g : bytes) (ep : Endpoint) : Prop := is_default ep = false ∧ Group ep = g.

#[global] Instance in_group_dec g ep : Decision (in_group g ep).
Proof. unfold in_group. apply _. Defined.

Lemma filter_loop_spec eps g ge de :
  filter_loop eps g ge de = (ge ++ filter (in_group g) eps, de ++ filter (λ ep, is_default ep = true) eps).
Proof.
  revert ge de. induction eps as [|ep eps IH]; intros ge de; cbn [filter_loop]; [by rewrite !app_nil_r|].
  destruct (is_default ep) eqn:Hd; [|case_bool_decide as Hg]; rewrite IH.
  - rewrite (filter_cons_False (in_group g)) by (unfold in_group; intros [? _]; congruence).
    rewrite (filter_cons_True (λ ep, is_default ep = true)) by done. by rewrite <-app_assoc.
  - rewrite (filter_cons_True (in_group g)) by done.
    rewrite (filter_cons_False (λ ep, is_default ep = true)) by congruence. by rewrite <-app_assoc.
  - rewrite (filter_cons_False (in_group g)) by (unfold in_group; intros [_ ?]; congruence).
    by rewrite (filter_cons_False (λ ep, is_default ep = true)) by congruence.
Qed.

(** [FilterOrDefault] is the endpoints of the group, or those of the default
    group when there are none. *)
Lemma FilterOrDefault_spec eps g :
  FilterOrDefault eps g = match filter (in_group g) eps with
                          | [] => filter (λ ep, is_default ep = true) eps
                          | l => l
                          end.
Proof. unfold FilterOrDefault. rewrite filter_loop_spec. cbn. by destruct (filter (in_group g) eps). Qed.

#[global] Instance FilterOrDefault_perm : Proper ((≡ₚ) ==> (=) ==> (≡ₚ)) FilterOrDefault.
Proof.
  intros e1 e2 He g ? <-. rewrite !FilterOrDefault_spec.
  assert (Hg : filter (in_group g) e1 ≡ₚ filter (in_group g) e2) by (by rewrite He).
  assert (Hd : filter (λ ep, is_default ep = true) e1 ≡ₚ filter (λ ep, is_default ep = true) e2) by (by rewrite He).
  destruct (filter (in_group g) e1) as [|x l1], (filter (in_group g) e2) as [|y l2]; try done.
  - by apply Permutation_nil_l in Hg.
  - by apply Permutation_nil_r in Hg.
Qed.

(** ** The watcher follows the store *)
Section Watching.
Context `{!EndpointJSON}.

(** The keys of a service as [Register] makes them: under the prefix [b], the
    address is the rest of the key and the address of the value. *)
Definition instance_of (b k v : bytes) : Prop :=
  ∃ ep, Decode v = inl ep ∧ k = b ++ Address ep ∧ 47 ∉ Address ep.
Definition registered (b : bytes) (s : gmap bytes bytes) : Prop :=
  ∀ k v, s !! k = Some v → b `prefix_of` k → instance_of b k v.
Definition event_ok (b : bytes) (ev : event) : Prop :=
  match ev with
  | PUT k v => b `prefix_of` k → instance_of b k v
  | DELETE k => b `prefix_of` k → ∃ a, k = b ++ a ∧ 47 ∉ a
  end.

(** The effect of an event on the store. *)
Definition store_event (s : gmap bytes bytes) (ev : event) : gmap bytes bytes :=
  match ev with PUT k v => <[k := v]> s | DELETE k => delete k s end.

(** What a read of the prefix returns, in the order of [map_to_list]. *)
Definition kvs_of (b : bytes) (s : gmap bytes bytes) : list (bytes * bytes) :=
  filter (λ kv, b `prefix_of` kv.1) (map_to_list s).

Definition decoded (v : bytes) : option Endpoint := match Decode v with inl ep => Some ep | inr _ => None end.

(** The watcher knows the endpoints of the store, under their addresses. *)
Definition tracks (b grp : bytes) (w : etcdWatcher) (s : gmap bytes bytes) : Prop :=
  serviceRegisterKey w = b ∧ group w = grp ∧ registered b s ∧
  ∀ a, endpoints w !! a = if decide (47 ∈ a) then None else s !! (b ++ a) ≫= decoded.

Lemma store_event_registered b s ev : registered b s → event_ok b ev → registered b (store_event s ev).
Proof.
  intros Hs He k v. destruct ev as [k' v'|k']; cbn.
  - intros [[-> <-]|[Hne Hk]]%lookup_insert_Some Hp; [by apply He|by apply Hs].
  - intros [Hne Hk]%lookup_delete_Some Hp. by apply Hs.
Qed.

(** An event of another key leaves the endpoints of the service alone. *)
Lemma store_event_other b s ev a :
  (match ev with PUT k _ | DELETE k => k ≠ b ++ a end) → store_event s ev !! (b ++ a) = s !! (b ++ a).
Proof. destruct ev; cbn; intros Hne; [by rewrite lookup_insert_ne|by rewrite lookup_delete_ne]. Qed.

Lemma HasPrefix_false k b : HasPrefix k b = false → ¬ b `prefix_of` k.
Proof. unfold HasPrefix. intros Hf Hp. by rewrite bool_decide_true in Hf. Qed.

Lemma HasPrefix_true k b : HasPrefix k b = true → b `prefix_of` k.
Proof. apply bool_decide_eq_true. Qed.

Lemma apply_event_tracks env svc grp w s ev :
  let b := with_env env svc ++ slash in
  tracks b grp w s → event_ok b ev → tracks b grp (apply_event w ev).1 (store_event s ev).
Proof.
  intros b Ht He. pose proof Ht as (Hb & Hg & Hr & Hm). pose proof (store_event_registered b s ev Hr He) as Hr'.
  assert (Hskip : (match ev with PUT k _ | DELETE k => ¬ b `prefix_of` k end) → tracks b grp w (store_event s ev)).
  { intros Hp. split_and!; [done|done|done|]. intros a. rewrite Hm. destruct (decide (47 ∈ a)); [done|].
    rewrite store_event_other; [done|]. destruct ev; intros ->; apply Hp; by eexists. }
  destruct ev as [k v|k]; cbn [apply_event]; rewrite Hb.
  - destruct (HasPrefix k b) eqn:Hp; [|apply HasPrefix_false in Hp; destruct (Decode v); by apply Hskip].
    apply HasPrefix_true in Hp. destruct (He Hp) as (ep & Hd & -> & Hns). rewrite Hd. cbn [negb fst].
    split_and!; [done|done|done|]. intros a. cbn [endpoints set_endpoints store_event].
    destruct (decide (a = Address ep)) as [->|Hne].
    + rewrite lookup_insert_eq, decide_False by done. rewrite lookup_insert_eq. cbn. unfold decoded. by rewrite Hd.
    + rewrite lookup_insert_ne by congruence. rewrite Hm. destruct (decide (47 ∈ a)); [done|].
      rewrite lookup_insert_ne; [done|]. intros Heq. apply app_inv_head in Heq. congruence.
  - destruct (HasPrefix k b) eqn:Hp.
    2:{ apply HasPrefix_false in Hp. destruct (extractAddressFromInstanceKey k); by apply Hskip. }
    apply HasPrefix_true in Hp. destruct (He Hp) as (a0 & -> & Hns). unfold b. rewrite extract_address by done.
    cbn [negb fst]. split_and!; [done|done|done|]. intros a. cbn [endpoints set_endpoints store_event].
    destruct (decide (a = a0)) as [->|Hne].
    + rewrite lookup_delete_eq, decide_False by done. by rewrite lookup_delete_eq.
    + rewrite lookup_delete_ne by congruence. rewrite Hm. destruct (decide (47 ∈ a)); [done|].
      rewrite lookup_delete_ne; [done|]. intros Heq. apply app_inv_head in Heq. congruence.
Qed.

Lemma apply_events_tracks env svc grp evs w s ch :
  let b := with_env env svc ++ slash in
  tracks b grp w s → Forall (event_ok b) evs → tracks b grp (apply_events evs w ch).1 (foldl store_event s evs).
Proof.
  intros b. revert w s ch. induction evs as [|ev evs IH]; intros w s ch Ht He; [done|].
  apply Forall_cons in He as [He Hes]. cbn. pose proof (apply_event_tracks env svc grp w s ev Ht He) as Ht1.
  destruct (apply_event w ev) as [w1 c]. by apply IH.
Qed.

Lemma instances_omap kvs : etcdInstancesToEndpoints kvs = omap (λ kv, decoded kv.2) kvs.
Proof.
  induction kvs as [|[k v] kvs IH]; [done|]. cbn. unfold decoded. destruct (Decode v); cbn; by rewrite IH.
Qed.

Lemma NoDup_omap_on {A B} (f : A → option B) (l : list A) :
  NoDup l → (∀ x y z, x ∈ l → y ∈ l → f x = Some z → f y = Some z → x = y) → NoDup (omap f l).
Proof.
  induction l as [|x l IH]; intros Hl Hf; [constructor|]. apply NoDup_cons in Hl as [Hx Hl].
  assert (Hrec : NoDup (omap f l)). { apply IH; [done|]. intros y z u Hy Hz. apply Hf; by right. }
  cbn. destruct (f x) as [b|] eqn:Hb; [|done]. apply NoDup_cons. split; [|done].
  rewrite list_elem_of_omap. intros (y & Hy & Hyb). assert (x = y) by (eapply Hf; [left|right| |]; eauto). congruence.
Qed.

(** The endpoints the watcher knows are those a read returns. *)
Lemma tracks_endpoints b grp w s kvs :
  tracks b grp w s → kvs ≡ₚ kvs_of b s → (map_to_list (endpoints w)).*2 ≡ₚ etcdInstancesToEndpoints kvs.
Proof.
  intros (_ & _ & Hr & Hm) Hk.
  assert (Hin : ∀ k v, (k, v) ∈ kvs → s !! k = Some v ∧ b `prefix_of` k).
  { intros k v Hkv. rewrite Hk in Hkv. apply list_elem_of_filter in Hkv as [Hp Hkv].
    by apply elem_of_map_to_list in Hkv. }
  assert (Hend : ∀ a ep, endpoints w !! a = Some ep →
    (47 ∉ a) ∧ Address ep = a ∧ ∃ v, s !! (b ++ a) = Some v ∧ decoded v = Some ep).
  { intros a ep Ha. rewrite Hm in Ha. destruct (decide (47 ∈ a)) as [|Hns]; [done|].
    apply bind_Some in Ha as (v & Hv & Hd). split; [done|]. split; [|eauto].
    destruct (Hr (b ++ a) v Hv) as (ep' & Hd' & Heq & _); [by eexists|]. apply app_inv_head in Heq.
    unfold decoded in Hd. rewrite Hd' in Hd. congruence. }
  rewrite instances_omap. apply NoDup_Permutation.
  - apply NoDup_fmap_2_strong; [|apply NoDup_map_to_list].
    intros [a1 e1] [a2 e2] H1%elem_of_map_to_list H2%elem_of_map_to_list Heq. cbn in Heq. subst e2.
    apply Hend in H1 as (_ & H1 & _), H2 as (_ & H2 & _). congruence.
  - apply NoDup_omap_on; [rewrite Hk; apply NoDup_filter, NoDup_map_to_list|].
    intros [k1 v1] [k2 v2] ep H1 H2 Hd1 Hd2. cbn in Hd1, Hd2.
    apply Hin in H1 as [H1 P1], H2 as [H2 P2].
    destruct (Hr k1 v1 H1 P1) as (e1 & D1 & -> & _), (Hr k2 v2 H2 P2) as (e2 & D2 & -> & _).
    unfold decoded in Hd1, Hd2. rewrite D1 in Hd1. rewrite D2 in Hd2. assert (e1 = e2) by congruence. subst.
    congruence.
  - intros ep. rewrite list_elem_of_fmap, list_elem_of_omap. split.
    + intros ([a ep'] & Heq & Ha%elem_of_map_to_list). cbn in Heq. subst ep'.
      apply Hend in Ha as (Hns & _ & v & Hv & Hd). exists (b ++ a, v). split; [|done]. rewrite Hk.
      apply list_elem_of_filter. split; [by eexists|]. by apply elem_of_map_to_list.
    + intros ([k v] & Hkv & Hd). cbn in Hd. apply Hin in Hkv as [Hv Hp].
      destruct (Hr k v Hv Hp) as (ep' & Hd' & -> & Hns). unfold decoded in Hd. rewrite Hd' in Hd.
      injection Hd as ->. exists (Address ep, ep). split; [done|]. apply elem_of_map_to_list.
      rewrite Hm, decide_False by done. rewrite Hv. cbn. unfold decoded. by rewrite Hd'.
Qed.

Definition events_of (items : list watch_item) : list event :=
  concat ((λ it, match it with Response evs => evs | _ => [] end) <$> items).

(** [Next] takes responses up to the first that changes something. *)
Lemma Next_tracks env svc grp items w s eps w' rest :
  let b := with_env env svc ++ slash in
  tracks b grp w s → Forall (event_ok b) (events_of items) → Next items w = Some (inl eps, w', rest) →
  ∃ taken, items = taken ++ rest ∧ tracks b grp w' (foldl store_event s (events_of taken)) ∧
    eps = getEndpoints w'.
Proof.
  intros b. revert w s. induction items as [|it items IH]; intros w s Ht He Hn; [done|].
  destruct it as [evs| |err]; cbn [Next] in Hn; [|done|done].
  unfold events_of in He. cbn in He. apply Forall_app in He as [He Hes].
  pose proof (apply_events_tracks env svc grp evs w s false Ht He) as Ht1.
  destruct (apply_events evs w false) as [w1 changed]. destruct changed.
  - injection Hn as <- <- <-. exists [Response evs]. split; [done|]. split; [|done].
    unfold events_of. cbn. by rewrite app_nil_r.
  - destruct (IH w1 (foldl store_event s evs) Ht1 Hes Hn) as (taken & -> & Ht2 & ->).
    exists (Response evs :: taken). split; [done|]. split; [|done].
    unfold events_of. cbn. by rewrite foldl_app.
Qed.

Lemma newWatcher_map (eps : list Endpoint) (m : gmap bytes Endpoint) a ep :
  NoDup (Address <$> eps) → (∀ e, e ∈ eps → m !! Address e = None) →
  foldl (λ m ep, <[Address ep := ep]> m) m eps !! a = Some ep ↔ (ep ∈ eps ∧ Address ep = a) ∨ m !! a = Some ep.
Proof.
  revert m. induction eps as [|e eps IH]; intros m Hnd Hm; cbn [foldl].
  { split; [by right|]. intros [[Hx _]|Hx]; [by apply not_elem_of_nil in Hx|done]. }
  cbn in Hnd. apply NoDup_cons in Hnd as [Hx Hnd]. pose proof (Hm e ltac:(left)) as Hme.
  assert (Hother : ∀ x, x ∈ eps → Address x ≠ Address e).
  { intros x Hin Heq. apply Hx. rewrite <-Heq. by apply list_elem_of_fmap_2. }
  rewrite IH; [|done|].
  2:{ intros x Hin. rewrite lookup_insert_ne by (apply not_eq_sym; by apply Hother). apply Hm. by right. }
  rewrite lookup_insert_Some, elem_of_cons. destruct (decide (Address e = a)) as [Ha|Ha].
  - subst a. split; [intros [[Hin Heq]|[[_ <-]|[? _]]]; [left; eauto|left; eauto|done]|].
    intros [[[->|Hin] Heq]|Hn]; [right; left; eauto|left; eauto|congruence].
  - split; [intros [[Hin Heq]|[[? _]|[_ Hl]]]; eauto; done|].
    intros [[[->|Hin] Heq]|Hl]; [done|left; eauto|right; right; eauto].
Qed.

Lemma instances_addresses b s kvs :
  registered b s → kvs ≡ₚ kvs_of b s → NoDup (Address <$> etcdInstancesToEndpoints kvs).
Proof.
  intros Hr Hk. rewrite instances_omap, list_fmap_omap. apply NoDup_omap_on; [rewrite Hk; apply NoDup_filter, NoDup_map_to_list|].
  intros [k1 v1] [k2 v2] a H1 H2 Hd1 Hd2. cbn in Hd1, Hd2. rewrite Hk in H1, H2.
  apply list_elem_of_filter in H1 as [P1 H1%elem_of_map_to_list], H2 as [P2 H2%elem_of_map_to_list].
  destruct (Hr k1 v1 H1 P1) as (e1 & D1 & -> & _), (Hr k2 v2 H2 P2) as (e2 & D2 & -> & _).
  unfold decoded in Hd1, Hd2. rewrite D1 in Hd1. rewrite D2 in Hd2. cbn in Hd1, Hd2.
  assert (Ha : Address e1 = Address e2) by congruence. rewrite Ha in H1. rewrite H1 in H2. injection H2 as ->.
  by rewrite Ha.
Qed.

Lemma newWatcher_tracks env svc grp s kvs rv :
  let b := with_env env svc ++ slash in
  plain_names env svc grp → registered b s → kvs ≡ₚ kvs_of b s →
  tracks b grp (newWatcher (serviceDiscoverKey env svc grp) (etcdInstancesToEndpoints kvs) rv) s.
Proof.
  intros b Hn Hr Hk. unfold newWatcher. rewrite (parse_discover_key env svc grp Hn).
  split_and!; [done|done|done|]. intros a. cbn [endpoints]. apply option_eq. intros ep.
  rewrite newWatcher_map; [|by eapply instances_addresses|done].
  rewrite instances_omap, list_elem_of_omap. split.
  - intros [[([k v] & Hkv & Hd) Ha]|Hx]; [|done]. cbn in Hd. rewrite Hk in Hkv.
    apply list_elem_of_filter in Hkv as [Hp Hkv%elem_of_map_to_list].
    destruct (Hr k v Hkv Hp) as (e' & Hd' & -> & Hns). unfold decoded in Hd. rewrite Hd' in Hd. injection Hd as ->.
    rewrite Ha in Hns, Hkv. rewrite decide_False by done. rewrite Hkv. cbn. unfold decoded. by rewrite Hd'.
  - destruct (decide (47 ∈ a)) as [|Hns]; [done|]. intros Hb. apply bind_Some in Hb as (v & Hv & Hd). left.
    destruct (Hr (b ++ a) v Hv) as (e' & Hd' & Heq & _); [by eexists|]. apply app_inv_head in Heq.
    assert (ep = e') by (unfold decoded in Hd; rewrite Hd' in Hd; congruence). subst e'. split; [|done].
    exists (b ++ a, v). split; [|done]. rewrite Hk. apply list_elem_of_filter. split; [by eexists|].
    by apply elem_of_map_to_list.
Qed.

(** C28: A watcher agrees with a fresh read.  [Watch] on a store in which the keys of
    the service are as [Register] makes them and no endpoint is hidden by the
    choice of the group gives a watcher that tracks the store; and from then on
    whenever [Next] returns endpoints, they are, in some order, those that
    [Get] would return from the store with all events up to then applied. *)
Theorem watcher_agrees_with_get env svc grp cli hdr kvs s d :
  let b := with_env env svc ++ slash in
  plain_names env svc grp → registered b s → cli b = inl (hdr, kvs) → kvs ≡ₚ kvs_of b s →
  FilterOrDefault (etcdInstancesToEndpoints kvs) grp = etcdInstancesToEndpoints kvs →
  (∃ eps w d', Watch cli (serviceDiscoverKey env svc grp) d = (inl (eps, w), d') ∧ tracks b grp w s) ∧
  ∀ w1 s1 items eps w2 rest, tracks b grp w1 s1 → Forall (event_ok b) (events_of items) →
    Next items w1 = Some (inl eps, w2, rest) →
    ∃ taken s2, items = taken ++ rest ∧ s2 = foldl store_event s1 (events_of taken) ∧ tracks b grp w2 s2 ∧
      ∀ cli2 hdr2 kvs2 d2, cli2 b = inl (hdr2, kvs2) → kvs2 ≡ₚ kvs_of b s2 →
        ∃ eps2 d3, Get cli2 (serviceDiscoverKey env svc grp) d2 = (inl eps2, d3) ∧ eps ≡ₚ eps2.
Proof.
  intros b Hn Hr Hcli Hk Hall.
  assert (Hget : ∀ cli hdr kvs d, cli b = inl (hdr, kvs) → ∃ d',
    Get cli (serviceDiscoverKey env svc grp) d = (inl (FilterOrDefault (etcdInstancesToEndpoints kvs) grp), d')).
  { intros cli' hdr' kvs' d0 Hc. unfold Get. rewrite (parse_discover_key env svc grp Hn). fold b. rewrite Hc. eauto. }
  split.
  - destruct (Hget cli hdr kvs d Hcli) as [d' Hd]. unfold Watch. rewrite Hd, Hall.
    eexists _, _, _. split; [done|]. by apply newWatcher_tracks.
  - intros w1 s1 items eps w2 rest Ht He Hnext.
    destruct (Next_tracks env svc grp items w1 s1 eps w2 rest Ht He Hnext) as (taken & Hit & Ht2 & ->).
    exists taken, (foldl store_event s1 (events_of taken)). split_and!; [done|done|done|].
    intros cli2 hdr2 kvs2 d2 Hc2 Hk2. destruct (Hget cli2 hdr2 kvs2 d2 Hc2) as [d3 Hd3].
    eexists _, d3. split; [exact Hd3|]. unfold getEndpoints.
    rewrite (tracks_endpoints b grp w2 _ kvs2 Ht2 Hk2). by rewrite (proj1 (proj2 Ht2)).
Qed.
End Watching.

(** A JSON form that is enough for examples: the address, 124 and the group. *)
Module ToyJSON.
#[global] Instance toy_json : EndpointJSON := {|
  Encode ep := Address ep ++ 124 :: Group ep;
  Decode v := match list_find (eq 124) v with
              | Some (i, _) => inl (mkEndpoint (take i v) (drop (S i) v) ∅)
              | None => inr (Errorf "invalid character" None)
              end
|}.

Definition live : bytes := str "live".
Definition svc : bytes := str "svc".
Definition b0 : bytes := with_env live svc ++ slash.
Definition ep1 : Endpoint := mkEndpoint (str "10.0.0.1:80") DefaultGroup ∅.
Definition ep2 : Endpoint := mkEndpoint (str "10.0.0.2:80") DefaultGroup ∅.
Definition store0 : gmap bytes bytes := {[ Key (mkInstance live svc ep1) := Encode ep1 ]}.
Definition cli0 (prefix : bytes) : get_answer := inl (Some 5, map_to_list store0).
End ToyJSON.

Section WatcherWitness.
Import ToyJSON.

Lemma plain0 : plain_names live svc DefaultGroup.
Proof. split_and!; try discriminate; apply (bool_decide_unpack _); vm_compute; exact I. Qed.

Lemma registered0 : registered b0 store0.
Proof.
  intros k v Hk _. unfold store0 in Hk. apply lookup_singleton_Some in Hk as [<- <-]. exists ep1.
  split; [vm_compute; reflexivity|]. split; [vm_compute; reflexivity|].
  apply (bool_decide_unpack _). vm_compute. exact I.
Qed.

Lemma watcher_agrees_with_get_witness :
  ∃ eps w d, Watch cli0 (serviceDiscoverKey live svc DefaultGroup) (mkDiscoverer 0) = (inl (eps, w), d) ∧
    tracks b0 DefaultGroup w store0.
Proof.
  refine (proj1 (watcher_agrees_with_get live svc DefaultGroup cli0 (Some 5) (map_to_list store0) store0
    (mkDiscoverer 0) plain0 registered0 eq_refl _ _)).
  - vm_compute. reflexivity.
  - vm_compute. reflexivity.
Defined.

(** Two events, of which the second response changes nothing for this service. *)
Example watch_example :
  let w := newWatcher (serviceDiscoverKey live svc DefaultGroup) [ep1] 5 in
  (λ r, r.1.1) <$> Next [Response []; Response [PUT (Key (mkInstance live svc ep2)) (Encode ep2);
                                             DELETE (Key (mkInstance live svc ep1))]] w
  = Some (inl [ep2]) ∧ wch w = (b0, Some 6).
Proof. vm_compute. split; reflexivity. Qed.

(** The endpoints of the default group that the first read leaves out are not
    known to the watcher: when the last one of the group goes, it reports none,
    where a read falls back to the default group. *)
Example watcher_forgets_default :
  let blue := mkEndpoint (str "10.0.0.3:80") (str "blue") ∅ in
  let key := serviceDiscoverKey live svc (str "blue") in
  let kvs eps := (λ ep, (b0 ++ Address ep, Encode ep)) <$> eps in
  let r := Watch (λ _, inl (Some 5, kvs [ep1; blue])) key (mkDiscoverer 0) in
  let gone := [Response [DELETE (b0 ++ Address blue)]] in
  match r.1 with inl (_, w) => (λ x, x.1.1) <$> Next gone w | inr _ => None end = Some (inl []) ∧
  (Get (λ _, inl (Some 6, kvs [ep1])) key (mkDiscoverer 0)).1 = inl [ep1].
Proof. vm_compute. split; reflexivity. Qed.
End WatcherWitness.

(** ** The registry *)
Module RegistryFacts.
Import Registry.
Section Facts.
Context (key value : bytes).

(** The goroutine that keeps the registration alive or restores it. *)
Definition is_worker (t : thread) : bool :=
  match t with Registering _ _ | Keepalive | RetryWait => true | _ => false end.

(** The lease that the key must have, if it is there, when the worker is [t]. *)
Definition wants (t : thread) (s : sys) (l : Z) : Prop :=
  match t with Registering _ (R_keepalive l') => l = l' | Keepalive => l = lease s | _ => True end.

Record inv (s : sys) : Prop := Inv {
  one_worker : ∀ i j t u, threads s !! i = Some t → threads s !! j = Some u →
    is_worker t = true → is_worker u = true → i = j;
  key_lease : ∀ i t v l, threads s !! i = Some t → kv (srv s) !! key = Some (v, l) → wants t s l
}.

(** Replacing goroutine [i]: by another state of the worker, or by one that is
    no worker. *)
Lemma inv_replace (s : sys) i t t' v :
  inv s → threads s !! i = Some t → (is_worker t' = true → is_worker t = true) →
  (∀ x l, kv v !! key = Some (x, l) → wants t' s l ∧
     (kv (srv s) !! key = Some (x, l) ∨ is_worker t = true)) →
  inv (mkSys v (done s) (lease s) (<[i := t']> (threads s))).
Proof.
  intros [Hone Hkey] Hi Hw Hv. split; cbn.
  - intros j k tj tk Hj Hk Wj Wk.
    apply list_lookup_insert_Some in Hj as [(<- & <- & _)|(Nj & Hj)];
      apply list_lookup_insert_Some in Hk as [(<- & <- & _)|(Nk & Hk)]; try done; eauto.
  - intros j tj x l Hj Hkv. destruct (Hv x l Hkv) as [Ht' Hor].
    apply list_lookup_insert_Some in Hj as [(<- & <- & _)|(Nj & Hj)]; [by destruct t'|].
    destruct Hor as [Hold|Hwt]; [exact (Hkey j tj x l Hj Hold)|].
    destruct (is_worker tj) eqn:Htj; [by destruct Nj; eapply Hone|by destruct tj].
Qed.

(** A server with fewer keys. *)
Lemma inv_fewer (s : sys) v :
  inv s → (∀ x l, kv v !! key = Some (x, l) → kv (srv s) !! key = Some (x, l)) → inv (set_srv s v).
Proof. intros [Hone Hkey] Hv. split; [exact Hone|]. intros i t x l Hi Hk. eapply (Hkey i t x l); eauto. Qed.

Lemma drop_fewer l v x l' : kv (drop_lease l v) !! key = Some (x, l') → kv v !! key = Some (x, l').
Proof. cbn. intros Hk. by apply map_lookup_filter_Some in Hk as [? _]. Qed.

(** A goroutine that is added. *)
Lemma inv_add (s : sys) t :
  inv s → (is_worker t = true → Forall (λ u, is_worker u = false) (threads s)) →
  (∀ x l, kv (srv s) !! key = Some (x, l) → wants t s l) →
  inv (mkSys (srv s) (done s) (lease s) (threads s ++ [t])).
Proof.
  intros [Hone Hkey] Hw Hk. split; cbn.
  - intros i j a b Hi Hj Wa Wb.
    apply lookup_snoc_Some in Hi as [[Li Hi]|[-> <-]]; apply lookup_snoc_Some in Hj as [[Lj Hj]|[-> <-]]; eauto.
    + pose proof (Forall_lookup_1 _ _ _ _ (Hw Wb) Hi). congruence.
    + pose proof (Forall_lookup_1 _ _ _ _ (Hw Wa) Hj). congruence.
  - intros i a x l Hi Hx. apply lookup_snoc_Some in Hi as [[Li Hi]|[-> <-]]; [by eapply (Hkey i a x l)|].
    specialize (Hk x l Hx). by destruct t.
Qed.

(** The other goroutines of a worker are none. *)
Lemma others_idle s i t : inv s → threads s !! i = Some t → is_worker t = true →
  Forall (λ u, is_worker u = false) (<[i := Exited None]> (threads s)).
Proof.
  intros Hinv Hi Hw. apply Forall_lookup_2. intros j u Hj.
  apply list_lookup_insert_Some in Hj as [(<- & <- & _)|(Nj & Hj)]; [done|].
  destruct (is_worker u) eqn:Hu; [|done]. destruct Nj. by eapply (one_worker s Hinv).
Qed.

(** The worker ends and another begins, with the lease [le]. *)
Lemma inv_respawn s i t t' le :
  inv s → threads s !! i = Some t → is_worker t = true →
  (∀ x l, kv (srv s) !! key = Some (x, l) → wants t' (mkSys (srv s) (done s) le []) l) →
  inv (mkSys (srv s) (done s) le (<[i := Exited None]> (threads s) ++ [t'])).
Proof.
  intros Hinv Hi Hw Hk. pose proof (others_idle s i t Hinv Hi Hw) as Hidle. split; cbn.
  - intros j k a b Hj Hk' Wa Wb.
    apply lookup_snoc_Some in Hj as [[Lj Hj]|[-> <-]]; apply lookup_snoc_Some in Hk' as [[Lk Hk']|[-> <-]]; [..|done].
    + pose proof (Forall_lookup_1 _ _ _ _ Hidle Hj). cbn in *. congruence.
    + pose proof (Forall_lookup_1 _ _ _ _ Hidle Hj). cbn in *. congruence.
    + pose proof (Forall_lookup_1 _ _ _ _ Hidle Hk'). cbn in *. congruence.
  - intros j a x l Hj Hx. apply lookup_snoc_Some in Hj as [[Lj Hj]|[-> <-]].
    + pose proof (Forall_lookup_1 _ _ _ _ Hidle Hj). by destruct a.
    + specialize (Hk x l Hx). by destruct t'.
Qed.

Lemma put_key l v x l' : kv (put key value l v) !! key = Some (x, l') → l' = l.
Proof. cbn. rewrite lookup_insert_eq. congruence. Qed.

Lemma Register_ok_inv i r p s s' :
  inv s → threads s !! i = Some (Registering r p) → Register_ok key value i r p s = Some s' → inv s'.
Proof.
  intros Hinv Hi Hs. destruct p as [|l|l]; cbn in Hs.
  - injection Hs as <-. eapply (inv_replace s i); [done|exact Hi|done|]. intros x l Hx. by split; [|right].
  - case_bool_decide; [|done]. injection Hs as <-. eapply (inv_replace s i); [done|exact Hi|done|].
    intros x l' Hx. apply put_key in Hx as ->. by split; [|right].
  - injection Hs as <-. eapply inv_respawn; [done|exact Hi|done|].
    intros x l' Hx. exact (key_lease s Hinv i _ x l' Hi Hx).
Qed.

Lemma Register_fail_inv i r p e a s :
  inv s → threads s !! i = Some (Registering r p) → inv (Register_fail key value i r p e a s).
Proof.
  intros Hinv Hi. unfold Register_fail. eapply (inv_replace s i); [done|exact Hi|done|].
  intros x l Hx. split; [by destruct r|by right].
Qed.

Lemma registry_step_inv c s s' : c ≠ CallRegister → inv s → step key value c s = Some s' → inv s'.
Proof.
  intros Hc Hinv Hs. destruct c as [| |i|i e a|i|i|l]; cbn in Hs; [done|..].
  - injection Hs as <-. by apply inv_add.
  - destruct (threads s !! i) as [[r p| | | | |]|] eqn:Hi; try done.
    + by eapply Register_ok_inv.
    + by injection Hs as <-.
    + injection Hs as <-. eapply (inv_replace s i); [done|exact Hi|done|]. intros x l Hx. by split; [|right].
    + injection Hs as <-. pose proof (inv_replace s i _ Deregister_revoke (srv s) Hinv Hi ltac:(done)
        ltac:(intros x l Hx; by split; [|left])) as [H1 H2]. split; [exact H1|exact H2].
    + injection Hs as <-. eapply (inv_replace s i); [done|exact Hi|done|].
      intros x l Hx. apply drop_fewer in Hx. by split; [|left].
  - destruct (threads s !! i) as [[r p| | | | |]|] eqn:Hi; try done; injection Hs as <-.
    + by eapply Register_fail_inv.
    + eapply (inv_replace s i); [done|exact Hi|done|]. intros x l Hx. split; [done|left].
      destruct a; [by apply drop_fewer in Hx|done].
  - destruct (threads s !! i) as [[r p| | | | |]|] eqn:Hi; try done. injection Hs as <-.
    by eapply inv_respawn.
  - destruct (done s); [|done]. destruct (threads s !! i) as [[r p| | | | |]|] eqn:Hi; try done; injection Hs as <-;
      (eapply (inv_replace s i); [done|exact Hi|done|]; intros x l Hx; by split; [|left]).
  - case_bool_decide; [|done]. injection Hs as <-. apply inv_fewer; [done|]. intros x l' Hx. by apply drop_fewer in Hx.
Qed.

(** [Register] has just been called. *)
Definition called : sys := mkSys (mkServer ∅ ∅ 1) false 0 [Registering false R_grant].

Lemma called_inv : inv called.
Proof.
  split; cbn.
  - intros [|i] [|j] t u; cbn; try done.
  - intros i t v l _ Hk. done.
Qed.
End Facts.
End RegistryFacts.

Section RegistryTheorems.
Import Registry RegistryFacts.

(** One call of [Register] has at any time at most one goroutine that registers,
    keeps the lease alive or waits to retry, whatever the server answers; and
    while that goroutine keeps the lease alive, a [Deregister] that succeeds
    removes the key from the server. *)
Theorem registry_deregisters key value cs s :
  Forall (λ c, c ≠ CallRegister) cs → run key value cs called = Some s →
  (∀ i j t u, threads s !! i = Some t → threads s !! j = Some u →
     is_worker t = true → is_worker u = true → i = j) ∧
  ∀ i j s', threads s !! i = Some Keepalive → threads s !! j = Some Deregister_revoke →
    step key value (Ok j) s = Some s' → kv (srv s') !! key = None.
Proof.
  intros Hcs Hr.
  assert (Hinv : inv key s).
  { apply (run_steps_inv_on (step key value) (λ c, c ≠ CallRegister) (inv key)) with cs called;
      [intros c s1 s2; apply registry_step_inv|done|apply called_inv|done]. }
  split; [apply Hinv|]. intros i j s' Hi Hj Hs. cbn in Hs. rewrite Hj in Hs. injection Hs as <-. cbn.
  apply map_lookup_filter_None. right. intros [v l] Hk Hne. cbn in Hne. apply Hne.
  exact (key_lease key s Hinv i Keepalive v l Hi Hk).
Qed.

Lemma registry_deregisters_witness :
  kv (srv (mkSys (mkServer ∅ ∅ 2) true 1 [Exited None; Keepalive; Exited None])) !! str "/live/svc/a" = None.
Proof.
  refine (proj2 (registry_deregisters (str "/live/svc/a") (str "v")
    [Ok 0; Ok 0; Ok 0; CallDeregister; Ok 2] 
    (mkSys (mkServer {[ 1 ]} {[ str "/live/svc/a" := (str "v", 1) ]} 2) true 1 [Exited None; Keepalive; Deregister_revoke])
    _ _) 1%nat 2%nat _ _ _ _).
  - repeat constructor; discriminate.
  - vm_compute. reflexivity.
  - reflexivity.
  - reflexivity.
  - vm_compute. reflexivity.
Defined.

(** A [Deregister] while [retry] is inside [Register] revokes the old lease
    only: it returns nil, every goroutine ends, and the key stays on the server
    with a lease that nobody gives up. *)
Theorem registry_deregister_race : ∃ cs s,
  run (str "k") (str "v") cs called = Some s ∧ done s = true ∧
  Forall (λ t, t = Exited None) (threads s) ∧
  kv (srv s) !! str "k" = Some (str "v", 2) ∧ 2 ∈ leases (srv s).
Proof.
  exists [Ok 0; Ok 0; Ok 0; ChannelClosed 1; Ok 2; Ok 2; CallDeregister; Ok 3; Ok 3; Ok 2; Ok 2; SeesDone 4].
  eexists. split; [vm_compute; reflexivity|]. split; [reflexivity|]. split; [repeat constructor|].
  split; [reflexivity|]. apply (bool_decide_unpack _). vm_compute. exact I.
Qed.
End RegistryTheorems.
