(* ===== verification/EtcdWatch.v ===== *)
(** * The discovery command that watches

    The goroutine [watching] and [logUpdate] of
    cmd/internal/discovery/etcd/etcd_discovery.go, over the watcher of [Etcd]: what is
    logged while a service is watched, and that the loop ends with its context. *)
From S2P Require Import Prelude Errors NetAddr NetText TcpClient HttpText Etcd EtcdSpec.

Module EtcdWatch.
Import Etcd.

(** What is logged: an update with its endpoints, or a failed [Next]. *)
Inductive entry :=
  | EndpointsUpdated (service : bytes) (count : nat)
  | EndpointLine (service address group : bytes)
  | WatchError (service : bytes)
  | WatchingDone (service : bytes).

Definition logUpdate (service : bytes) (eps : list Endpoint) : list entry :=
  EndpointsUpdated service (length eps) :: ((λ ep, EndpointLine service (Address ep) (Group ep)) <$> eps).

Section Watching.
Context `{!EndpointJSON}.

(** Whether a call of [Next] that took [items] down to [rest] has found the watcher's
    own context done.  [DiscoverETCD] closes the watcher only after the context of the
    loop is done, so the loop finds that one done as well. *)
Definition ends_context (items rest : list watch_item) : bool :=
  existsb (λ it, match it with CtxDone _ => true | _ => false end) (take (length items - length rest) items).

(** The loop on the items that the watch delivers; the entries, and whether it has
    returned.  Its context is found done at the turn [turns] (counted from here), or
    after the watcher's own context was.  The fuel bounds its turns: each takes an
    item. *)
Fixpoint watching (fuel turns : nat) (items : list watch_item) (w : etcdWatcher) : list entry * bool :=
  match fuel with
  | O => ([], false)
  | S fuel' =>
      match turns with
      | O => ([WatchingDone (serviceRegisterKey w)], true)
      | S turns' =>
        match Next items w with
        | None => ([], false)
        | Some (inr _, w', rest) =>
            let '(l, r) := watching fuel' (if ends_context items rest then O else turns') rest w' in
            (WatchError (serviceRegisterKey w) :: l, r)
        | Some (inl eps, w', rest) =>
            let '(l, r) := watching fuel' turns' rest w' in (logUpdate (serviceRegisterKey w) eps ++ l, r)
        end
      end
  end.

(** ** Lemmas *)

Lemma apply_events_key evs w c : serviceRegisterKey (apply_events evs w c).1 = serviceRegisterKey w.
Proof.
  revert w c. induction evs as [|ev evs IH]; intros w c; [done|]. cbn. destruct (apply_event w ev) as [w1 c1] eqn:E.
  rewrite IH. unfold apply_event in E. repeat case_match; by injection E as <- <-.
Qed.

(** [Next] on responses and then the end of the context: it takes some of the
    responses and returns endpoints, or all and returns the error. *)
Lemma Next_responses resps err w :
  ∃ w', serviceRegisterKey w' = serviceRegisterKey w ∧
    (Next ((Response <$> resps) ++ [CtxDone err]) w = Some (inr err, w', []) ∨
     ∃ taken more eps, resps = taken ++ more ∧ taken ≠ [] ∧
       Next ((Response <$> resps) ++ [CtxDone err]) w = Some (inl eps, w', (Response <$> more) ++ [CtxDone err])).
Proof.
  revert w. induction resps as [|evs resps IH]; intros w; [exists w; split; [done|by left]|].
  cbn [fmap list_fmap app Next]. pose proof (apply_events_key evs w false) as Hk.
  destruct (apply_events evs w false) as [w1 []]; cbn in Hk.
  - exists w1. split; [done|]. right. by exists [evs], resps, (getEndpoints w1).
  - destruct (IH w1) as (w' & Hk' & [Hn|(taken & more & eps & -> & _ & Hn)]); exists w'; (split; [congruence|]); [by left|].
    right. by exists (evs :: taken), more, eps.
Qed.

Lemma ends_with_context resps err : ends_context ((Response <$> resps) ++ [CtxDone err]) [] = true.
Proof. unfold ends_context. rewrite Nat.sub_0_r, firstn_all, existsb_app. cbn. by rewrite orb_true_r. Qed.

Lemma events_of_responses resps : events_of (Response <$> resps) = concat resps.
Proof. unfold events_of. rewrite <- list_fmap_compose. f_equal. by rewrite list_fmap_id. Qed.

(** The endpoints that a fresh read would give for a store. *)
Definition read_of (b grp : bytes) (s : gmap bytes bytes) (eps : list Endpoint) : Prop :=
  ∀ kvs, kvs ≡ₚ kvs_of b s → eps ≡ₚ FilterOrDefault (etcdInstancesToEndpoints kvs) grp.

(** How the entries end: with the context of the loop found done, which may have shown
    first as the error of the closed watcher. *)
Definition ending (b : bytes) (l : list entry) : Prop := l = [WatchingDone b] ∨ l = [WatchError b; WatchingDone b].

Lemma watching_reports env svc grp err fuel : let b := with_env env svc ++ slash in
  ∀ turns resps w s, (length resps + 2 ≤ fuel)%nat → tracks b grp w s → Forall (event_ok b) (concat resps) →
  ∃ updates final, watching fuel turns ((Response <$> resps) ++ [CtxDone err]) w =
      (mjoin (logUpdate b <$> updates) ++ final, true) ∧ ending b final ∧
    Forall (λ eps, ∃ taken more, resps = taken ++ more ∧ read_of b grp (foldl store_event s (concat taken)) eps) updates.
Proof.
  intros b. induction fuel as [|fuel IH]; intros turns resps w s Hf Ht He; [lia|]. cbn [watching].
  pose proof (proj1 Ht) as Hkey. destruct turns as [|turns]; [exists [], [WatchingDone b]; rewrite Hkey; split_and!; [done|by left|done]|].
  destruct (Next_responses resps err w) as (w' & Hk & [Hn|(taken & more & eps & -> & Hne & Hn)]); rewrite Hn.
  - exists [], [WatchError b; WatchingDone b]. split_and!; [|by right|done]. rewrite ends_with_context.
    destruct fuel as [|fuel]; [lia|]. cbn [watching mjoin fmap list_fmap app]. by rewrite Hk, Hkey.
  - assert (Hev : Forall (event_ok b) (events_of ((Response <$> (taken ++ more)) ++ [CtxDone err]))).
    { unfold events_of. rewrite fmap_app, concat_app. cbn. rewrite app_nil_r. change (Forall (event_ok b) (events_of (Response <$> (taken ++ more)))).
      by rewrite events_of_responses. }
    destruct (Next_tracks env svc grp _ w s eps w' _ Ht Hev Hn) as (items & Hit & Ht' & ->).
    rewrite fmap_app, <- app_assoc in Hit. apply app_inv_tail in Hit. subst items. rewrite events_of_responses in Ht'.
    rewrite concat_app in He. apply Forall_app in He as [_ He].
    assert (Hlen : (length more + 2 ≤ fuel)%nat) by (rewrite length_app in Hf; destruct taken; [done|]; cbn in Hf; lia).
    destruct (IH turns more w' _ Hlen Ht' He) as (updates & final & -> & Hend & Hu).
    exists (getEndpoints w' :: updates), final. split_and!; [|done|]; [|constructor].
    + rewrite Hkey, fmap_cons. cbn [mjoin list_join]. by rewrite <- app_assoc.
    + exists taken, more. split; [done|]. intros kvs Hkvs. unfold getEndpoints.
      rewrite (tracks_endpoints b grp w' _ kvs Ht' Hkvs). by rewrite (proj1 (proj2 Ht')).
    + eapply Forall_impl; [exact Hu|]. intros x (tk & lf & -> & Hr). exists (taken ++ tk), lf. split; [by rewrite app_assoc|].
      rewrite concat_app, foldl_app. exact Hr.
Qed.
End Watching.
End EtcdWatch.

(** The watch that the discovery command runs.  From a watcher that knows the
    store, whatever changes the watch delivers in whatever portions, and whenever the
    context is done: each update that is logged lists, in some order, exactly the
    endpoints that a fresh read of the store would give with the changes up to then
    applied; and the loop logs the end of the context and returns. *)
Theorem discovery_watch_reports `{!Etcd.EndpointJSON} env svc grp err turns resps w s :
  let b := Etcd.with_env env svc ++ Etcd.slash in
  tracks b grp w s → Forall (event_ok b) (concat resps) →
  ∃ updates final, EtcdWatch.watching (length resps + 2) turns ((Etcd.Response <$> resps) ++ [Etcd.CtxDone err]) w =
      (mjoin (EtcdWatch.logUpdate b <$> updates) ++ final, true) ∧ EtcdWatch.ending b final ∧
    Forall (λ eps, ∃ taken more, resps = taken ++ more ∧ EtcdWatch.read_of b grp (foldl store_event s (concat taken)) eps) updates.
Proof. intros b Ht He. by apply (EtcdWatch.watching_reports env svc grp err). Qed.

Lemma discovery_watch_reports_witness :
  ∃ updates final, EtcdWatch.watching (H := ToyJSON.toy_json) 3 5
      [Etcd.Response [Etcd.DELETE (ToyJSON.b0 ++ str "10.0.0.1:80")]; Etcd.CtxDone (ErrNew EOF)]
      (Etcd.mkWatcher ToyJSON.b0 Etcd.DefaultGroup ∅ (ToyJSON.b0, None) false) =
    (mjoin (EtcdWatch.logUpdate ToyJSON.b0 <$> updates) ++ final, true) ∧ EtcdWatch.ending ToyJSON.b0 final.
Proof.
  destruct (discovery_watch_reports (H := ToyJSON.toy_json) ToyJSON.live ToyJSON.svc Etcd.DefaultGroup (ErrNew EOF) 5
    [[Etcd.DELETE (ToyJSON.b0 ++ str "10.0.0.1:80")]]
    (Etcd.mkWatcher ToyJSON.b0 Etcd.DefaultGroup ∅ (ToyJSON.b0, None) false) ∅) as (updates & final & Heq & Hend & _).
  - split_and!; [reflexivity|reflexivity|intros k v Hk; by rewrite lookup_empty in Hk|].
    intros a. cbn. rewrite !lookup_empty. by destruct (decide _).
  - constructor; [|constructor]. intros _. exists (str "10.0.0.1:80"). split; [reflexivity|].
    by apply (bool_decide_unpack _).
  - exists updates, final. split; [exact Heq|exact Hend].
Defined.
