(* ===== verification/Cli.v ===== *)
(** * The command line

    cmd/internal/cli (target.go, headers.go, flags.go, ctx.go, serve.go,
    output.go), cmd/internal/grpcrefl (parse.go, reflect.go, invoke.go), the
    calls of cmd/subcmds/grpc.go and the proxy of cmd/distro/http_proxy.go.
    [url.Parse], files, certificates, the reflection service and the network
    are parameters; the flags of a command are given as the values read from
    them. *)
From S2P Require Import Prelude Errors NetAddr NetText Wire Http2Frames TcpClient HttpText.

(** ** cmd/internal/cli *)
Module Cli.

(** *** target.go *)

Record Target := mkTarget { t_Scheme : bytes; t_Host : bytes; t_Port : Z; t_Path : bytes; t_Raw : bytes }.

(** [net.JoinHostPort] *)
Definition JoinHostPort (host port : bytes) : bytes :=
  if bool_decide (58 ∈ host) || bool_decide (37 ∈ host)
  then str "[" ++ host ++ str "]:" ++ port else host ++ str ":" ++ port.

Definition HostPort (t : Target) : bytes :=
  if t_Port t =? 0 then t_Host t else JoinHostPort (t_Host t) (FormatInt (t_Port t)).

Definition defaultPort (scheme : bytes) : Z :=
  let s := ToLower scheme in
  if bool_decide (s ∈ [str "http"; str "ws"]) then 80
  else if bool_decide (s ∈ [str "https"; str "wss"]) then 443
  else if bool_decide (s = str "grpc") then 50051
  else 0.

(** What ParseTarget reads of a parsed URL: [Hostname()] and [Port()] too. *)
Record parsed_url := mkParsed { u : ReqURL; u_Hostname : bytes; u_Port : bytes }.

Definition ParseTarget (url_Parse : bytes → parsed_url + error) (raw : bytes) : Target + error :=
  let raw := TrimSpace raw in
  if bool_decide (raw = []) then inr (Errorf "empty target" None)
  else if Contains raw (str "://") then
    match url_Parse raw with
    | inr err => inr (Errorf "parse url" (Some err))
    | inl p =>
        if bool_decide (URLHost (u p) = []) then inr (Errorf "url missing host" None)
        else
          let path := if bool_decide (RequestURI (u p) = str "/") then [] else RequestURI (u p) in
          match u_Port p with
          | [] => inl (mkTarget (Scheme (u p)) (u_Hostname p) (defaultPort (Scheme (u p))) path raw)
          | port =>
              match Atoi port with
              | None => inr (Errorf "invalid port" None)
              | Some n => inl (mkTarget (Scheme (u p)) (u_Hostname p) n path raw)
              end
          end
    end
  else
    match SplitHostPort raw with
    | (_, _, Some _) => inl (mkTarget [] raw 0 [] raw)
    | (host, port, None) =>
        match Atoi port with
        | None => inr (Errorf "invalid port" None)
        | Some n => inl (mkTarget [] host n [] raw)
        end
    end.

(** *** headers.go *)

(** [strings.Cut] at a colon. *)
Definition Cut (s : bytes) : option (bytes * bytes) :=
  match IndexByte 58 s with Some i => Some (take i s, drop (S i) s) | None => None end.

Definition ParseHeaders (raw : list bytes) : Header :=
  foldl (λ h item, match Cut item with
                   | Some (k, v) => Header_Add h (TrimSpace k) (TrimSpace v)
                   | None => h
                   end) ∅ raw.

(** *** flags.go and ctx.go *)

(** [changed]: the flag is on the command line; [value]: its value, or the
    error of reading it. *)
Definition Timeout (changed : bool) (value : Z + error) (def : Z) : Z :=
  if negb changed then def else match value with inr _ => def | inl d => d end.

(** The timeout under which the command runs; [None]: only signals end it. *)
Definition RunContext (changed : bool) (value : Z + error) (def : Z) : option Z :=
  let timeout := Timeout changed value def in
  if timeout <=? 0 then None else Some timeout.

Record TLSFlags := mkTLSFlags {
  Insecure : bool; CAFile : bytes; CertFile : bytes; KeyFile : bytes; TLSServerName : bytes
}.

(** A [tls.Config] with pools [P] and certificates [K]. *)
Record tls_Config (P K : Type) := mkConfig {
  InsecureSkipVerify : bool; cfg_ServerName : bytes; RootCAs : option P; Certificates : list K
}.
#[global] Arguments mkConfig {_ _}.
#[global] Arguments RootCAs {_ _}.
#[global] Arguments Certificates {_ _}.
#[global] Arguments InsecureSkipVerify {_ _}.
#[global] Arguments cfg_ServerName {_ _}.

Section Tls.
Context {P K : Type}.
Context (ReadFile : bytes → bytes + error) (AppendCertsFromPEM : bytes → option P)
        (LoadX509KeyPair : bytes → bytes → K + error).

Definition is_empty (s : bytes) : bool := bool_decide (s = []).

(** The result is nil without an error when no flag is given. *)
Definition TLSFlags_Config (t : option TLSFlags) : option (tls_Config P K) + error :=
  match t with
  | None => inl None
  | Some t =>
      if negb (Insecure t) && is_empty (CAFile t) && is_empty (CertFile t) && is_empty (KeyFile t) &&
         is_empty (TLSServerName t)
      then inl None
      else
        let ca :=
          if is_empty (CAFile t) then inl None
          else match ReadFile (CAFile t) with
               | inr err => inr (Errorf "read ca file" (Some err))
               | inl pem => match AppendCertsFromPEM pem with
                            | None => inr (Errorf "no certificates parsed" None)
                            | Some pool => inl (Some pool)
                            end
               end in
        match ca with
        | inr err => inr err
        | inl pool =>
            if xorb (is_empty (CertFile t)) (is_empty (KeyFile t))
            then inr (Errorf "--tls-cert and --tls-key must be set together" None)
            else if is_empty (CertFile t)
                 then inl (Some (mkConfig (Insecure t) (TLSServerName t) pool []))
                 else match LoadX509KeyPair (CertFile t) (KeyFile t) with
                      | inr err => inr (Errorf "load client cert" (Some err))
                      | inl cert => inl (Some (mkConfig (Insecure t) (TLSServerName t) pool [cert]))
                      end
        end
  end.
End Tls.

(** *** serve.go *)

Definition ErrCanceled := Sentinel "context.Canceled" "context canceled".
Definition ErrDeadlineExceeded := Sentinel "context.DeadlineExceeded" "context deadline exceeded".

(** [text]: whether [err.Error()] is "http: Server closed". *)
Definition normalizeServeError (text : error → bool) (err : option error) : option error :=
  match err with
  | None => None
  | Some e => if Is ErrCanceled e || Is ErrDeadlineExceeded e then None else if text e then None else Some e
  end.

(** The goroutine that runs [start], and the caller of RunServer: in its first
    [select], in [stop], in the last receive, or back with a result. *)
Inductive serve_pc := S_select | S_stop | S_wait | S_ret (err : option error).

(** [start_exited]: what [start] has returned; [errCh]: what is in the channel. *)
Record serve := mkServe {
  start_exited : option (option error); errCh : option (option error); ctx_done : bool; pc : serve_pc
}.

Inductive serve_choice :=
  | StartReturns (err : option error)
  | Cancel
  | ReceiveErr                     (** the caller receives from [errCh] *)
  | SeeDone                        (** the caller takes [<-ctx.Done()] *)
  | StopReturns (err : option error).

Definition serve_init : serve := mkServe None None false S_select.

Section Serve.
(** [has_stop]: [stop] is not nil. *)
Context (text : error → bool) (has_stop : bool).

Definition serve_step (c : serve_choice) (s : serve) : option serve :=
  match c with
  | StartReturns err =>
      match start_exited s with
      | None => Some (mkServe (Some err) (Some err) (ctx_done s) (pc s))
      | Some _ => None
      end
  | Cancel => Some (mkServe (start_exited s) (errCh s) true (pc s))
  | ReceiveErr =>
      err ← errCh s;
      match pc s with
      | S_select | S_wait => Some (mkServe (start_exited s) None (ctx_done s) (S_ret (normalizeServeError text err)))
      | _ => None
      end
  | SeeDone =>
      match pc s with
      | S_select =>
          if ctx_done s then Some (mkServe (start_exited s) (errCh s) true (if has_stop then S_stop else S_wait))
          else None
      | _ => None
      end
  | StopReturns err =>
      match pc s with
      | S_stop =>
          match err with
          | Some e => Some (mkServe (start_exited s) (errCh s) (ctx_done s) (S_ret (Some (Errorf "shutdown" (Some e)))))
          | None => Some (mkServe (start_exited s) (errCh s) (ctx_done s) S_wait)
          end
      | _ => None
      end
  end.

Definition RunServer : list serve_choice → serve → option serve := run_steps serve_step.
End Serve.

(** *** output.go *)

(** The format of [--output]; [flag]: its value. *)
Definition NewOutput (flag : bytes + error) : bytes :=
  match flag with inl ((_ :: _) as v) => ToLower v | _ => str "text" end.

(** What [Text] writes. *)
Definition Output_Text (format text : bytes) : bytes := if bool_decide (format = str "json") then [] else text.

(** What a command prints: the fields of a JSON object, or text. *)
Inductive json := JString (s : bytes) | JBool (b : bool) | JStrings (l : list bytes).
Inductive printed := PrintedJSON (fields : list (bytes * json)) | PrintedText (text : bytes).

(** The pattern of the commands: [out.JSON] in JSON format, else [out.Text]. *)
Definition emit (format : bytes) (fields : list (bytes * json)) (text : bytes) : printed :=
  if bool_decide (format = str "json") then PrintedJSON fields else PrintedText (Output_Text format text).
End Cli.

(** ** cmd/internal/grpcrefl and the calls of cmd/subcmds/grpc.go *)
Module Grpcrefl.

(** [strings.Trim(s, "/")] *)
Fixpoint trim_left (s : bytes) : bytes :=
  match s with [] => [] | c :: s' => if c =? 47 then trim_left s' else s end.
Definition Trim (s : bytes) : bytes := reverse (trim_left (reverse (trim_left s))).

Definition ParseFullMethod (s : bytes) : bytes * bytes + error :=
  match Split 47 (Trim s) with
  | [service; method] =>
      if bool_decide (service = []) || bool_decide (method = [])
      then inr (Errorf "invalid method format" None) else inl (service, method)
  | _ => inr (Errorf "invalid method format" None)
  end.

Definition ParseURLPath (path : bytes) : bytes * bytes + error :=
  let segments := Split 47 (Trim path) in
  if (length segments <? 2)%nat then inr (Errorf "path missing service or method" None)
  else inl (default [] (segments !! (length segments - 2)%nat), default [] (segments !! (length segments - 1)%nat)).

(** [strings.EqualFold] of ASCII texts. *)
Definition EqualFold (s t : bytes) : bool := bool_decide (ToLower s = ToLower t).

(** Descriptors, as far as they are read. *)
Record method_desc := mkMethod { m_Name : bytes; m_Parent : bytes; m_Input : bytes; m_Output : bytes;
                                 m_StreamClient : bool; m_StreamServer : bool }.
Record service_desc := mkServiceDesc { sv_FullName : bytes; sv_Methods : list method_desc }.
Record file_desc := mkFile { fd_Services : list service_desc }.

(** What the reflection service answers. *)
Inductive refl_response :=
  | ErrorResponse (code : Z) (message : bytes)
  | ListServicesResponse (names : list bytes)
  | FileDescriptorResponse (raw : list bytes)
  | OtherResponse.
Inductive refl_request := ReqListServices (s : bytes) | ReqFileContainingSymbol (symbol : bytes).

(** A gRPC connection: the reflection stream, and calls.  [unmarshal] and
    [new_file] build a descriptor; [status_code] is [status.FromError]. *)
Class GrpcConn (W : Type) := {
  gc_NewClient : bytes → W → option error * W;
  gc_Close : W → W;
  gc_openStream : W → option error * W;
  gc_Send : refl_request → W → option error * W;
  gc_Recv : W → (refl_response + error) * W;
  gc_Unmarshal : bytes → bytes + error;
  gc_NewFile : bytes → file_desc + error;
  gc_InvokeJSON : method_desc → bytes → W → (bytes + error) * W;
  gc_InvokeFrame : bytes → bytes → W → (bytes + error) * W;
  status_code : error → option Z
}.

Section Reflection.
Context {W : Type} `{!GrpcConn W}.

(** [openStream], [Send] and [Recv]. *)
Definition exchange (req : refl_request) (w : W) : (refl_response + error) * W :=
  match gc_openStream w with
  | (Some err, w) => (inr err, w)
  | (None, w) =>
      match gc_Send req w with
      | (Some err, w) => (inr (Errorf "send" (Some err)), w)
      | (None, w) =>
          match gc_Recv w with
          | (inr err, w) => (inr (Errorf "recv" (Some err)), w)
          | r => r
          end
      end
  end.

Definition ListServices (w : W) : (list bytes + error) * W :=
  match exchange (ReqListServices (str "*")) w with
  | (inr err, w) => (inr err, w)
  | (inl (ErrorResponse _ _), w) => (inr (Errorf "server error" None), w)
  | (inl (ListServicesResponse names), w) => (inl names, w)
  | (inl _, w) => (inl [], w)
  end.

Fixpoint build_files (raws : list bytes) : list file_desc + error :=
  match raws with
  | [] => inl []
  | raw :: raws' =>
      match gc_Unmarshal raw with
      | inr err => inr (Errorf "unmarshal file descriptor" (Some err))
      | inl fdProto =>
          match gc_NewFile fdProto with
          | inr err => inr (Errorf "build file descriptor" (Some err))
          | inl fd => match build_files raws' with inl l => inl (fd :: l) | inr err => inr err end
          end
      end
  end.

Definition FileDescriptorsForSymbol (symbol : bytes) (w : W) : (list file_desc + error) * W :=
  match exchange (ReqFileContainingSymbol symbol) w with
  | (inr err, w) => (inr err, w)
  | (inl (ErrorResponse _ _), w) => (inr (Errorf "server error" None), w)
  | (inl (FileDescriptorResponse raws), w) => (build_files raws, w)
  | (inl _, w) => (inr (Errorf "unexpected response type" None), w)
  end.

(** The loops of LoadViaReflection: the services of a file, the files. *)
Fixpoint find_method (methods : list method_desc) (method : bytes) : method_desc + error :=
  match methods with
  | [] => inr (Errorf "method not found in service" None)
  | m :: methods' => if EqualFold (m_Name m) method then inl m else find_method methods' method
  end.

Fixpoint find_service (services : list service_desc) (service method : bytes) : option (method_desc + error) :=
  match services with
  | [] => None
  | srv :: services' =>
      if negb (EqualFold (sv_FullName srv) service) then find_service services' service method
      else Some (find_method (sv_Methods srv) method)
  end.

Fixpoint find_in_files (fds : list file_desc) (service method : bytes) : method_desc + error :=
  match fds with
  | [] => inr (Errorf "service not found via reflection" None)
  | fd :: fds' => match find_service (fd_Services fd) service method with
                  | Some r => r
                  | None => find_in_files fds' service method
                  end
  end.

Definition LoadViaReflection (service method : bytes) (w : W) : (method_desc + error) * W :=
  match FileDescriptorsForSymbol service w with
  | (inr err, w) => (inr err, w)
  | (inl fds, w) => (find_in_files fds service method, w)
  end.

Definition or_empty_object (jsonData : bytes) : bytes := match jsonData with [] => str "{}" | d => d end.

Definition invokeJSONFrame (service method jsonData : bytes) (w : W) : (bytes + error) * W :=
  let rpc := str "/" ++ service ++ str "/" ++ method in
  match gc_InvokeFrame rpc (or_empty_object jsonData) w with
  | (inr err, w) => (inr (Errorf "grpc call" (Some err)), w)
  | r => r
  end.

Definition Unimplemented : Z := 12.

(** What is written to the output is the result; the connection is closed on
    every path after [NewClient]. *)
Definition invoke_on (fullMethod jsonData : bytes) (w : W) : (bytes + error) * W :=
  match ParseFullMethod fullMethod with
  | inr err => (inr err, w)
  | inl (service, method) =>
      match LoadViaReflection service method w with
      | (inl methodDesc, w) => gc_InvokeJSON methodDesc (or_empty_object jsonData) w
      | (inr err, w) =>
          match status_code err with
          | Some code => if code =? Unimplemented then invokeJSONFrame service method jsonData w else (inr err, w)
          | None => (inr err, w)
          end
      end
  end.

Definition invokeByReflection (target fullMethod jsonData : bytes) (w : W) : (bytes + error) * W :=
  match gc_NewClient target w with
  | (Some err, w) => (inr err, w)
  | (None, w) => let '(r, w) := invoke_on fullMethod jsonData w in (r, gc_Close w)
  end.

Definition listServerServices (target : bytes) (w : W) : (list bytes + error) * W :=
  match gc_NewClient target w with
  | (Some err, w) => (inr err, w)
  | (None, w) => let '(r, w) := ListServices w in (r, gc_Close w)
  end.

(** The summary of a service: its name and its methods. *)
Definition listServiceSymbols (target serviceName : bytes) (w : W) : (list service_desc + error) * W :=
  match gc_NewClient target w with
  | (Some err, w) => (inr err, w)
  | (None, w) =>
      match FileDescriptorsForSymbol serviceName w with
      | (inr err, w) => (inr err, gc_Close w)
      | (inl fds, w) => (inl (concat (fd_Services <$> fds)), gc_Close w)
      end
  end.
End Reflection.

Definition prefixMethod (contextPath method : bytes) : bytes :=
  let sep := if HasPrefix method (str "/") then [] else str "/" in
  str "/" ++ contextPath ++ sep ++ method.

(** Plaintext, or a TLS configuration. *)
Definition grpcCredentials {C} (plaintext : bool) (cfg : option C + error) : option C + error :=
  if plaintext then inl None else cfg.
End Grpcrefl.

(** ** cmd/distro/http_proxy.go *)
Module HttpProxy.

(** [Cn]: connections to targets.  [px_text] is [err.Error()]; [px_tunnel]
    copies in both directions until the target has finished. *)
Class ProxyNet (W Cn : Type) := {
  px_Dial : bytes → W → (Cn + error) * W;
  px_Reply : bytes → W → W;
  px_Forward : Cn → Request → W → option error * W;
  px_Tunnel : Cn → W → W;
  px_Close : Cn → W → W;
  px_CloseClient : W → W;
  px_text : error → bytes
}.

(** The host that is dialled: with the port of the scheme when it has none. *)
Definition target_host (req : Request) : bytes :=
  if bool_decide (58 ∈ Host req) then Host req
  else if bool_decide ((Scheme <$> RURL req) = Some (str "https")) then Host req ++ str ":443"
  else Host req ++ str ":80".

Definition service_unavailable (text : bytes) : bytes :=
  str "HTTP/1.1 503 Service Unavailable" ++ [13; 10] ++ str "Content-Type: text/plain; charset=utf-8" ++ [13; 10] ++
  str "Connection: close" ++ [13; 10; 13; 10] ++ text.

(** [strings.Join(prior, ", ")] *)
Fixpoint join_comma (l : list bytes) : bytes :=
  match l with
  | [] => []
  | [x] => x
  | x :: l' => x ++ str ", " ++ join_comma l'
  end.

Definition forwarded_for (remote : bytes) (h : Header) : bytes :=
  let clientIP := match SplitHostPort remote with (ip, _, None) => ip | _ => str "Unknown" end in
  match h !! str "X-Forwarded-For" with
  | Some prior => join_comma prior ++ str ", " ++ clientIP
  | None => clientIP
  end.

Section Proxy.
Context {W Cn : Type} `{!ProxyNet W Cn}.

Definition handleConnectMethod (req : Request) (w : W) : W :=
  match px_Dial (target_host req) w with
  | (inr err, w) => px_Reply (service_unavailable (px_text err)) w
  | (inl conn, w) =>
      let w := px_Reply (str "HTTP/1.1 200 Connection Established" ++ [13; 10; 13; 10]) w in
      px_Close conn (px_Tunnel conn w)
  end.

Definition handleHTTPRequest (remote : bytes) (req : Request) (w : W) : W :=
  match px_Dial (target_host req) w with
  | (inr err, w) => px_Reply (service_unavailable (px_text err)) w
  | (inl conn, w) =>
      let req := mkRequest (Method req) (RURL req) (Host req)
                   (Header_Set (RHeader req) (str "X-Forwarded-For") (forwarded_for remote (RHeader req)))
                   (RBody req) (RContentLength req) in
      match px_Forward conn req w with
      | (Some err, w) => px_Close conn (px_Reply (service_unavailable (px_text err)) w)
      | (None, w) => px_Close conn (px_Tunnel conn w)
      end
  end.

(** [r]: what [http.ReadRequest] returns. *)
Definition handleHTTPProxy (remote : bytes) (r : Request + error) (w : W) : W :=
  match r with
  | inr _ => px_CloseClient w
  | inl req =>
      px_CloseClient (if bool_decide (Method req = str "CONNECT") then handleConnectMethod req w
                      else handleHTTPRequest remote req w)
  end.
End Proxy.
End HttpProxy.
