(* ===== verification/CliSpec.v ===== *)
(** * The command line: theorems

    Targets and method names are read back from their printed forms, a server
    command ends with its server, and reflection finds the method asked for. *)
From S2P Require Import Prelude Errors NetAddr NetText NetTextSpec Wire Http2Frames TcpClient HttpText Http1Spec EtcdSpec Cli.

(** ** Targets *)
Section Targets.
Import Cli.

(** A host that can be printed: not empty, no space at its ends, and no slash
    or bracket; a colon is that of an IPv6 address. *)
Definition host_ok (h : bytes) : Prop :=
  (∃ c s d, h = c :: s ∧ last (c :: s) = Some d ∧ visible c ∧ visible d) ∧ (47 ∉ h) ∧ (91 ∉ h) ∧ (93 ∉ h).

Lemma Itoa_last n : ∃ d, last (Itoa n) = Some d ∧ visible d.
Proof.
  pose proof (Itoa_nonempty n) as Hne. destruct (last (Itoa n)) as [d|] eqn:Hl; [|by apply last_None in Hl].
  exists d. split; [done|]. pose proof (digits_ip_char n) as Hd. rewrite Forall_forall in Hd.
  specialize (Hd d). apply last_Some in Hl as [l' Hl]. rewrite Hl in Hd.
  specialize (Hd ltac:(apply elem_of_app; right; left)). unfold ip_char in Hd. unfold visible. lia.
Qed.

Lemma Itoa_absent n c : 0 ≤ n → c < 48 ∨ 57 < c → c ∉ Itoa n.
Proof.
  intros Hn Hc Hin. pose proof (digits_ok 20 n) as Hd. rewrite Forall_forall in Hd. specialize (Hd c Hin).
  unfold is_digit in Hd. bool_hyps. lia.
Qed.

Lemma Contains_absent s : 47 ∉ s → Contains s (str "://") = false.
Proof.
  induction s as [|c s IH]; intros Hs; [done|]. apply not_elem_of_cons in Hs as [Hc Hs]. cbn [Contains].
  rewrite (IH Hs), orb_false_r. unfold HasPrefix. apply bool_decide_false. intros [k Hk].
  change (str "://") with [58; 47; 47] in Hk.
  destruct s as [|c2 s]; [discriminate Hk|]. apply not_elem_of_cons in Hs as [Hc2 _].
  cbn [app] in Hk. injection Hk as _ Hk _. congruence.
Qed.

Lemma printed_trim c s n : visible c → TrimSpace (c :: s ++ Itoa n) = c :: s ++ Itoa n.
Proof.
  intros Hc. destruct (Itoa_last n) as (d & Hl & Hd). apply (TrimSpace_id c _ d Hc); [|done].
  change (c :: s ++ Itoa n) with ((c :: s) ++ Itoa n). rewrite last_app. by rewrite Hl.
Qed.

Lemma SplitHostPort_join h n :
  host_ok h → 0 < n → SplitHostPort (JoinHostPort h (Itoa n)) = (h, Itoa n, None).
Proof.
  intros (_ & H47 & H91 & H93) Hn.
  assert (Hp : NetTextSpec.clean (Itoa n)) by (repeat split; apply Itoa_absent; lia).
  unfold JoinHostPort. destruct (bool_decide (58 ∈ h) || bool_decide (37 ∈ h)) eqn:Hb.
  - change (str "[" ++ h ++ str "]:" ++ Itoa n) with (91 :: h ++ 93 :: 58 :: Itoa n).
    by apply SplitHostPort_bracket.
  - apply orb_false_iff in Hb as [Hb _]. apply bool_decide_eq_false in Hb.
    change (h ++ str ":" ++ Itoa n) with (h ++ 58 :: Itoa n). by apply SplitHostPort_plain.
Qed.

Lemma join_shape h n :
  host_ok h → 0 < n → ∃ c s, JoinHostPort h (Itoa n) = c :: s ++ Itoa n ∧ visible c ∧ 47 ∉ c :: s ++ Itoa n.
Proof.
  intros ((c & s & d & -> & _ & Hc & _) & H47 & _ & _) Hn. unfold JoinHostPort.
  pose proof (Itoa_absent n 47 ltac:(lia) ltac:(lia)) as Hi.
  destruct (_ || _).
  - exists 91, ((c :: s) ++ [93; 58]). split; [cbn; by rewrite <-app_assoc|]. split; [unfold visible; lia|].
    rewrite elem_of_cons, !elem_of_app. intros [?|[[?|Hx]|?]]; [lia|done| |done].
    rewrite !elem_of_cons in Hx. destruct Hx as [?|[?|Hx]]; [lia|lia|by apply not_elem_of_nil in Hx].
  - exists c, (s ++ [58]). split; [cbn; by rewrite <-app_assoc|]. split; [done|].
    apply not_elem_of_cons in H47 as [H47c H47s].
    rewrite elem_of_cons, !elem_of_app. intros [?|[[?|Hx]|?]]; [done|done| |done].
    rewrite list_elem_of_singleton in Hx. lia.
Qed.

(** A target with a port is read back from [HostPort]: names, IPv4 and bracketed
    IPv6 hosts alike. *)
Theorem target_roundtrip url_Parse t :
  host_ok (t_Host t) → 0 < t_Port t < 2 ^ 63 →
  ParseTarget url_Parse (HostPort t) = inl (mkTarget [] (t_Host t) (t_Port t) [] (HostPort t)).
Proof.
  intros Hh Hp. unfold HostPort. rewrite (proj2 (Z.eqb_neq (t_Port t) 0)) by lia.
  rewrite (proj1 (FormatInt_clean (t_Port t) ltac:(lia))).
  destruct (join_shape (t_Host t) (t_Port t) Hh ltac:(lia)) as (c & s & Hs & Hc & H47).
  unfold ParseTarget. rewrite Hs, (printed_trim c s (t_Port t) Hc), (bool_decide_false (c :: _ = [])) by done.
  rewrite (Contains_absent _ H47), <-Hs, (SplitHostPort_join (t_Host t) (t_Port t) Hh ltac:(lia)).
  by rewrite Atoi_Itoa by lia.
Qed.

Lemma target_roundtrip_witness :
  ParseTarget (λ _, inr (Errorf "no url" None)) (str "[2001:db8::1]:443") =
  inl (mkTarget [] (str "2001:db8::1") 443 [] (str "[2001:db8::1]:443")).
Proof.
  refine (target_roundtrip (λ _, inr (Errorf "no url" None)) (mkTarget [] (str "2001:db8::1") 443 [] []) _ _);
    [|cbn; lia].
  split.
  - eexists _, _, _. split; [reflexivity|]. split; [reflexivity|]. cbn. unfold visible. lia.
  - split_and!; apply (bool_decide_unpack _); vm_compute; exact I.
Defined.
End Targets.

(** ** RunServer *)
Section Serving.
Import Cli.
Context (text : error → bool) (has_stop : bool).

(** What the result of RunServer comes from. *)
Definition serve_result (cs : list serve_choice) (s : serve) (r : option error) : Prop :=
  (∃ err, start_exited s = Some err ∧ r = normalizeServeError text err) ∨
  (∃ e, StopReturns (Some e) ∈ cs ∧ has_stop = true ∧ r = Some (Errorf "shutdown" (Some e))).

Definition serve_inv (cs : list serve_choice) (s : serve) : Prop :=
  match pc s with
  | S_ret r => serve_result cs s r
  | S_stop => errCh s = start_exited s ∧ has_stop = true
  | _ => errCh s = start_exited s
  end.

Lemma serve_step_inv cs c s s' :
  serve_inv cs s → serve_step text has_stop c s = Some s' → serve_inv (cs ++ [c]) s'.
Proof.
  intros Hinv Hs.
  assert (Hmono : ∀ r, serve_result cs s r → serve_result (cs ++ [c]) s r).
  { intros r [?|(e & He & Hr)]; [by left|right]. exists e. split; [|done]. apply elem_of_app. by left. }
  unfold serve_inv in *. destruct c as [err| | | |err]; cbn in Hs.
  - destruct (start_exited s) as [x|] eqn:Hx; [done|]. injection Hs as <-. cbn.
    destruct (pc s) as [| | |r]; [done|by destruct Hinv|done|]. destruct (Hmono r Hinv) as [(err' & He & _)|Hr]; [congruence|by right].
  - injection Hs as <-. cbn. destruct (pc s) as [| | |r]; [done..|by apply Hmono].
  - apply bind_Some in Hs as (err & He & Hs).
    destruct (pc s); try done; injection Hs as <-; cbn; left; exists err; (split; [by rewrite <-Hinv|done]).
  - destruct (pc s); try done. destruct (ctx_done s); [|done]. injection Hs as <-. cbn. by destruct has_stop.
  - destruct (pc s); try done. destruct Hinv as [Hi Hst]. destruct err as [e|]; injection Hs as <-; cbn; [|done].
    right. exists e. split_and!; [|done|done]. apply elem_of_app. right. by left.
Qed.

Lemma run_server_inv cs s : RunServer text has_stop cs serve_init = Some s → serve_inv cs s.
Proof.
  revert s. induction cs as [|c cs IH] using rev_ind; intros s Hr.
  - injection Hr as <-. done.
  - unfold RunServer in Hr. rewrite run_steps_app in Hr. apply bind_Some in Hr as (s1 & H1 & Hr).
    cbn in Hr. apply bind_Some in Hr as (s2 & H2 & Hr). injection Hr as <-. eapply serve_step_inv; eauto.
Qed.

(** RunServer returns the error of [start], cleaned, and only after [start] has
    returned, or else the error of a [stop] that failed; and it does not wait
    longer than that: once [start] has returned, a caller that is not inside
    [stop] can return. *)
Theorem run_server_result cs s :
  RunServer text has_stop cs serve_init = Some s →
  (∀ r, pc s = S_ret r → serve_result cs s r) ∧
  (start_exited s ≠ None → pc s = S_select ∨ pc s = S_wait →
     ∃ s' r, serve_step text has_stop ReceiveErr s = Some s' ∧ pc s' = S_ret r).
Proof.
  intros Hr. pose proof (run_server_inv cs s Hr) as Hi. unfold serve_inv in Hi. split.
  - intros r Hp. by rewrite Hp in Hi.
  - intros Hs Hp. destruct (start_exited s) as [err|] eqn:He; [|done]. cbn.
    destruct Hp as [Hp|Hp]; rewrite Hp in *; rewrite Hi; cbn; eauto.
Qed.
End Serving.

Section ServingWitness.
Import Cli.

Lemma run_server_result_witness :
  serve_result (λ _, false) true [Cancel; SeeDone; StopReturns (Some (ErrNew EOF))]
    (mkServe None None true (S_ret (Some (Errorf "shutdown" (Some (ErrNew EOF))))))
    (Some (Errorf "shutdown" (Some (ErrNew EOF)))).
Proof.
  refine (proj1 (run_server_result (λ _, false) true [Cancel; SeeDone; StopReturns (Some (ErrNew EOF))]
    (mkServe None None true (S_ret (Some (Errorf "shutdown" (Some (ErrNew EOF)))))) _) _ _); reflexivity.
Defined.

(** A [stop] that fails makes RunServer return while [start] still runs. *)
Example run_server_leaves_start : ∃ cs s,
  RunServer (λ _, false) true cs serve_init = Some s ∧ start_exited s = None ∧ ∃ r, pc s = S_ret r.
Proof.
  exists [Cancel; SeeDone; StopReturns (Some (ErrNew EOF))]. eexists. split; [reflexivity|]. cbn. eauto.
Qed.
End ServingWitness.

(** ** Methods *)
Section Methods.
Import Grpcrefl.

Lemma trim_left_slashes n s : trim_left (replicate n 47 ++ s) = trim_left s.
Proof. induction n; [done|]. done. Qed.

Lemma trim_left_id s : head s ≠ Some 47 → trim_left s = s.
Proof.
  destruct s as [|c s]; [done|]. cbn. intros Hc. by rewrite (proj2 (Z.eqb_neq c 47)) by congruence.
Qed.

Lemma Trim_slashes n m x : head x ≠ Some 47 → last x ≠ Some 47 → x ≠ [] →
  Trim (replicate n 47 ++ x ++ replicate m 47) = x.
Proof.
  intros Hh Hl Hne. unfold Trim. rewrite trim_left_slashes, (trim_left_id (x ++ _)) by (by destruct x).
  rewrite reverse_app, reverse_replicate, trim_left_slashes, trim_left_id by (by rewrite head_reverse).
  apply reverse_involutive.
Qed.

(** A method in the form service/method, with slashes around it or not, is taken
    apart again. *)
Theorem full_method_roundtrip n m service method :
  service ≠ [] → method ≠ [] → 47 ∉ service → 47 ∉ method →
  ParseFullMethod (replicate n 47 ++ service ++ 47 :: method ++ replicate m 47) = inl (service, method) ∧
  ParseURLPath (replicate n 47 ++ service ++ 47 :: method ++ replicate m 47) = inl (service, method).
Proof.
  intros Hs Hm Hns Hnm.
  assert (Ht : Trim (replicate n 47 ++ service ++ 47 :: method ++ replicate m 47) = service ++ 47 :: method).
  { replace (service ++ 47 :: method ++ replicate m 47) with ((service ++ 47 :: method) ++ replicate m 47)
      by (by rewrite <-app_assoc).
    apply Trim_slashes.
    - destruct service as [|c service]; [done|]. cbn. intros [= ->]. apply Hns. left.
    - rewrite last_app, last_cons. destruct (last method) as [d|] eqn:Hd; [|by apply last_None in Hd].
      intros [= ->]. apply Hnm. apply last_Some in Hd as [l ->]. apply elem_of_app. right. left.
    - by destruct service. }
  unfold ParseFullMethod, ParseURLPath. rewrite Ht, Split_app, (Split_none 47 service Hns), (Split_none 47 method Hnm).
  cbn. rewrite !bool_decide_false by done. done.
Qed.

Lemma full_method_roundtrip_witness :
  ParseFullMethod (str "/grpc.health.v1.Health/Check/") = inl (str "grpc.health.v1.Health", str "Check") ∧
  ParseURLPath (str "/grpc.health.v1.Health/Check/") = inl (str "grpc.health.v1.Health", str "Check").
Proof.
  refine (full_method_roundtrip 1 1 (str "grpc.health.v1.Health") (str "Check") _ _ _ _); try discriminate;
    apply (bool_decide_unpack _); vm_compute; exact I.
Defined.

(** LoadViaReflection looks in the first service with the name, in any case, and
    takes its first method with the name. *)
Lemma find_in_files_spec fds service method :
  find_in_files fds service method =
  match list_find (λ srv, EqualFold (sv_FullName srv) service = true) (concat (fd_Services <$> fds)) with
  | None => inr (Errorf "service not found via reflection" None)
  | Some (_, srv) => find_method (sv_Methods srv) method
  end.
Proof.
  assert (Hsrv : ∀ l, find_service l service method =
    (λ p, find_method (sv_Methods p.2) method) <$> list_find (λ srv, EqualFold (sv_FullName srv) service = true) l).
  { induction l as [|srv l IH]; [done|]. cbn [find_service list_find].
    destruct (EqualFold (sv_FullName srv) service); cbn [negb]; [by rewrite decide_True|].
    rewrite decide_False by done. rewrite IH. by destruct (list_find _ l) as [[]|]. }
  induction fds as [|fd fds IH]; [done|]. cbn -[list_find]. rewrite Hsrv, IH.
  destruct (list_find _ (fd_Services fd)) as [[i srv]|] eqn:Hf.
  - by rewrite (list_find_app_l _ _ _ _ _ Hf).
  - cbn -[list_find]. rewrite list_find_app_r by done. by destruct (list_find _ (concat _)) as [[]|].
Qed.
End Methods.
