(* ===== verification/Flags.v ===== *)
(** * The command line of netool and the harness that tests it

    - cmd/internal/cli (flags.go, port.go, register.go, output.go), cmd/base and the
      [init] functions of cmd/distro and cmd/subcmds: the tree of commands and the
      flags that are registered on them;
    - cmd/internal/cmdtest/harness.go: running a command in a test, and the reset of
      flags and contexts in front of it.

    The flags and commands are objects of pflag and cobra; the model has what the
    code registers, and for the harness the fields it reads and writes. *)
From S2P Require Import Prelude Errors Bytespool IO NetAddr NetText HttpText Config Cli.

(** ** Flags and commands *)
#[local] Set Warnings "-register-all".
Module Flags.

Inductive kind := KBool | KString | KInt | KInt64 | KDuration | KStringSlice | KStringArray.

#[global] Instance kind_eq_dec : EqDecision kind.
Proof. solve_decision. Defined.

(** A registration: the method, the name, the shorthand (empty: none) and the
    default as text. *)
Record flag := mkFlag { f_kind : kind; f_name : bytes; f_short : bytes; f_def : bytes }.

(** A command: its name (the first word of [Use]), its persistent and its own
    flags, its children. *)
Inductive command := Command (name : bytes) (persistent flags : list flag) (children : list command).

Definition c_name (c : command) := let 'Command n _ _ _ := c in n.
Definition c_flags (c : command) := let 'Command _ _ f _ := c in f.
Definition c_persistent (c : command) := let 'Command _ p _ _ := c in p.
Definition c_children (c : command) := let 'Command _ _ _ ch := c in ch.

(** [cmd.Flags().XxxP(name, short, def, usage)] *)
Definition add_flag (f : flag) (c : command) : command := let 'Command n p fs ch := c in Command n p (fs ++ [f]) ch.
Definition add_persistent (f : flag) (c : command) : command := let 'Command n p fs ch := c in Command n (p ++ [f]) fs ch.

(** cli.Register: [parent.AddCommand(children...)] *)
Definition Register (parent : command) (children : list command) : command :=
  let 'Command n p fs ch := parent in Command n p fs (ch ++ children).

Definition FlagVerbose := str "verbose".
Definition FlagOutput := str "output".
Definition FlagTimeout := str "timeout".
Definition FlagLogFormat := str "log-format".
Definition FlagPort := str "port".
Definition LogFormatText := str "text".
Definition LogFormatJSON := str "json".

Definition AddPort (def : Z) (c : command) : command := add_flag (mkFlag KInt FlagPort (str "p") (Itoa def)) c.

(** [def] as the text of the duration. *)
Definition AddTimeout (def : bytes) (c : command) : command := add_flag (mkFlag KDuration FlagTimeout [] def) c.

Definition tls_flags : list flag :=
  [mkFlag KBool (str "insecure") [] (str "false"); mkFlag KString (str "tls-ca") [] []; mkFlag KString (str "tls-cert") [] [];
   mkFlag KString (str "tls-key") [] []; mkFlag KString (str "tls-server-name") [] []].
Definition AddTLS (c : command) : command := foldl (λ c f, add_flag f c) c tls_flags.

(** ** The commands *)

Definition no_flags (name : string) : command := Command (str name) [] [] [].
Definition with_flags (fs : list flag) (c : command) : command := foldl (λ c f, add_flag f c) c fs.

Definition String' (name short def : string) := mkFlag KString (str name) (str short) (str def).
Definition Bool' (name short : string) := mkFlag KBool (str name) (str short) (str "false").

(** cmd/distro *)
Definition devtoolCmd := AddPort 8080 (no_flags "devtool").
Definition discoveryCmd := with_flags
  [String' "endpoints" "" "127.0.0.1:2379"; String' "naming-type" "t" "etcd"; String' "env-name" "e" "live";
   String' "service" "s" ""; String' "group" "g" "default"; Bool' "watch" "w"] (no_flags "discovery").
Definition echoServiceCmd := AddPort 8080 (no_flags "echoservice").
Definition fileServerCmd := with_flags [String' "dir" "d" "."] (AddPort 8080 (no_flags "fileserver")).
Definition httpProxyCmd := AddPort 8080 (no_flags "httpproxy").
Definition registryCmd := with_flags
  [String' "endpoints" "" "127.0.0.1:2379"; String' "naming-type" "t" "etcd"; String' "env-name" "e" "live";
   String' "service" "s" ""; String' "address" "a" ""] (no_flags "registry").

(** cmd/subcmds *)
Definition etcdGetCmd := AddTimeout (str "0s") (with_flags
  [String' "endpoints" "" "127.0.0.1:2379"; String' "key" "" ""; mkFlag KInt64 (str "limit") [] (str "100"); Bool' "prefix" ""]
  (no_flags "etcdget")).
Definition fetchCmd := AddTLS (AddTimeout (str "1m0s") (with_flags
  [String' "user-agent" "A" ""; String' "method" "M" "GET"; mkFlag KStringSlice (str "header") (str "H") (str "[]");
   String' "data" "d" "{}"; Bool' "http1" ""; Bool' "http2" ""; Bool' "websocket" "W"; Bool' "ws" ""; Bool' "grpc" "G";
   Bool' "upgrade" "U"; String' "proto-path" "P" ""] (no_flags "fetch"))).
Definition grpcCmd := AddTLS (with_flags
  [Bool' "plaintext" ""; String' "data" "d" "{}"; String' "context-path" "c" "";
   mkFlag KStringArray (str "header") (str "H") (str "[]")] (no_flags "grpc")).
Definition x25519Cmd := with_flags [Bool' "std-encoding" "e"; String' "input" "i" ""] (no_flags "x25519").
Definition wgCmd := with_flags [String' "input" "i" ""] (no_flags "wg").
Definition keygenCmd := Register (no_flags "keygen") [x25519Cmd; wgCmd].
Definition readProtoCmd := with_flags [String' "data-file" "f" ""] (no_flags "read-proto").
Definition randStrCmd := with_flags [mkFlag KInt (str "num") (str "n") (str "32")] (no_flags "rand").
Definition signatureVerifyCmd := with_flags [String' "key" "k" ""; String' "input" "i" ""; String' "signature" "s" ""] (no_flags "verify").
Definition signatureCmd := Register (with_flags [String' "key" "k" ""; String' "input" "i" ""] (no_flags "signature")) [signatureVerifyCmd].
Definition uuidCmd := with_flags [String' "input" "i" ""] (no_flags "uuid").
Definition versionCmd := no_flags "version".

(** cmd/base/rootcmd.go *)
Definition root_init : command :=
  add_persistent (mkFlag KString FlagLogFormat [] LogFormatText)
    (add_persistent (mkFlag KString FlagOutput (str "o") (str "text"))
      (add_persistent (mkFlag KBool FlagVerbose (str "V") (str "false")) (no_flags "netool"))).
Definition AddSubCommands (rootCmd : command) (cmds : list command) : command := Register rootCmd cmds.

(** The [init] functions of the two packages, and [main]. *)
Definition rootCmd : command :=
  foldl AddSubCommands root_init
    [[devtoolCmd]; [discoveryCmd]; [echoServiceCmd]; [fileServerCmd]; [httpProxyCmd]; [registryCmd];
     [etcdGetCmd]; [fetchCmd]; [grpcCmd]; [keygenCmd]; [readProtoCmd]; [randStrCmd]; [signatureCmd]; [uuidCmd]; [versionCmd]].

(** Every command below [c], with the flags it can be given: its own, its
    persistent ones and those of its ancestors. *)
Fixpoint all_commands (inherited : list flag) (c : command) : list (bytes * list flag) :=
  let 'Command n p fs ch := c in
  (n, fs ++ p ++ inherited) :: flat_map (all_commands (p ++ inherited)) ch.

(** What a set of flags must satisfy for pflag to accept it and for a command line
    to have one meaning: no name and no shorthand twice, and those of [help] free. *)
Definition unambiguous (fs : list flag) : bool :=
  bool_decide (NoDup (f_name <$> fs)) &&
  bool_decide (NoDup (filter (λ s, s ≠ []) (f_short <$> fs))) &&
  forallb (λ f, negb (bool_decide (f_name f = str "help")) && negb (bool_decide (f_short f = str "h"))) fs.

(** The short -p is the port's and no other's. *)
Definition p_is_port (fs : list flag) : bool :=
  forallb (λ f, bool_decide (f_short f = str "p" ↔ f_name f = FlagPort)) fs.

Fixpoint siblings_distinct (c : command) : bool :=
  let 'Command _ _ _ ch := c in bool_decide (NoDup (c_name <$> ch)) && forallb siblings_distinct ch.

(** The convention of cli/port.go holds for the whole command line: on every
    command -p means --port, no two flags that a command can be given share a name
    or a letter, and no two children of a command share a name. *)
Theorem cli_unambiguous :
  Forall (λ c, unambiguous c.2 = true ∧ p_is_port c.2 = true) (all_commands [] rootCmd) ∧ siblings_distinct rootCmd = true.
Proof. split; [|vm_compute; reflexivity]. apply Forall_forall. intros c Hc.
  assert (Hall : forallb (λ c, unambiguous c.2 && p_is_port c.2) (all_commands [] rootCmd) = true) by (vm_compute; reflexivity).
  rewrite forallb_forall in Hall. specialize (Hall c). rewrite list_elem_of_In in Hc. apply Hall, andb_prop in Hc. done.
Qed.

(** ** Reading the flags *)

(** [cmd.Flags().GetBool(name)] and the like: the value or the error for a flag that
    is not registered; the code ignores the error. *)
Definition Verbose (get : bytes → bool + error) : bool := match get FlagVerbose with inl v => v | inr _ => false end.
Definition Port (get : bytes → Z + error) : Z := match get FlagPort with inl v => v | inr _ => 0 end.

Inductive level := LevelInfo | LevelDebug.
Inductive handler := TextHandler (l : level) | JSONHandler (l : level).

Definition ConfigureLogging (get_bool : bytes → bool + error) (get_string : bytes → bytes + error) : handler :=
  let level := if Verbose get_bool then LevelDebug else LevelInfo in
  let v := match get_string FlagLogFormat with inl v => v | inr _ => [] end in
  if bool_decide (ToLower v = LogFormatJSON) then JSONHandler level else TextHandler level.

(** ** base/version.go *)

Definition Version : bytes := Itoa 0 ++ str "." ++ Itoa 1 ++ str "." ++ Itoa 10.

Definition VersionStatement (runtime_Version GOOS GOARCH : bytes) : go (list bytes) :=
  s ← Serial.Concat (Serial.String_ <$> [str "Netool "; Version; str " ("; str "Netool, Swiss Army Knife by Go."; str ") "; str "Custom"; str " (";
                            runtime_Version; str " "; GOOS; str "/"; GOARCH; str ")"]);
  Ret [s; str "Net tools for everything."].

(** The loop of the version command. *)
Definition print_lines (lines : list bytes) : bytes := mjoin ((λ s, s ++ [10]) <$> lines).

Example version_text : VersionStatement (str "go1.22") (str "linux") (str "amd64") =
  Ret [str "Netool 0.1.10 (Netool, Swiss Army Knife by Go.) Custom (go1.22 linux/amd64)"; str "Net tools for everything."].
Proof. vm_compute. reflexivity. Qed.

(** ** base.Run

    [ExecuteContext] under a context that SIGINT and SIGTERM cancel; [inr]: the
    exit status. *)
Definition Run {Ctx} (SignalContext : Ctx) (execute : Ctx → option error) : option Z :=
  match execute SignalContext with None => None | Some _ => Some 1 end.
End Flags.

(** ** The test harness

    Flag objects are shared: after a parse, the flags of a command hold those of its
    ancestors too.  They live in a store and the flag sets hold their addresses. *)
Module CmdTest.

Section Harness.
(** Values of scalar flags and how [Set] parses them; contexts. *)
Context {V Ctx : Type} (parse : Flags.kind → bytes → option V).

(** [Value] of a flag: a scalar, or the elements of a [pflag.SliceValue]. *)
Inductive value := Scalar (v : V) | Elements (l : list bytes).
Record flag := mkFlag { kind : Flags.kind; DefValue : bytes; Value : value; Changed : bool }.
Abbreviation store := (gmap nat flag).

Inductive command := Command (flags persistent : list nat) (ctx : option Ctx) (children : list command).

(** The callback of [resetFlagSet]. *)
Definition reset_flag (f : flag) : flag :=
  if Changed f then
    let v := match Value f with
             | Elements _ => Elements []
             | Scalar v => match parse (kind f) (DefValue f) with Some d => Scalar d | None => Scalar v end
             end in
    mkFlag (kind f) (DefValue f) v false
  else f.

Definition resetFlagSet (fs : list nat) (st : store) : store := foldl (λ st i, alter reset_flag i st) st fs.

Fixpoint resetFlags (cmd : command) (st : store) : store :=
  let 'Command fl pf _ ch := cmd in
  fold_left (λ st c, resetFlags c st) ch (resetFlagSet pf (resetFlagSet fl st)).

Fixpoint resetContext (cmd : command) : command :=
  let 'Command fl pf _ ch := cmd in Command fl pf None (map resetContext ch).

Record Result := mkResult { Stdout : bytes; Stderr : bytes; Err : option error }.

(** What [ExecuteContext] does with the tree, the flags, the context and the
    arguments; it may change flags and contexts. *)
Context (execute : command → store → Ctx → list bytes → Result * command * store).

(** [t_Context]: the context of the test when [testing.T] has one. *)
Definition Run (t_Context : option Ctx) (background : Ctx) (root : command) (args : list bytes) (st : store)
  : Result * command * store :=
  let st := resetFlags root st in
  let root := resetContext root in
  let ctx := match t_Context with Some c => c | None => background end in
  execute root st ctx args.

(** *** The reset *)

(** The addresses of the flag sets of the tree. *)
Fixpoint addresses (cmd : command) : list nat :=
  let 'Command fl pf _ ch := cmd in fl ++ pf ++ concat (map addresses ch).

Lemma resetFlagSet_app fs gs st : resetFlagSet (fs ++ gs) st = resetFlagSet gs (resetFlagSet fs st).
Proof. apply foldl_app. Qed.

Lemma resetFlags_flat : ∀ cmd st, resetFlags cmd st = resetFlagSet (addresses cmd) st.
Proof.
  fix IH 1. intros [fl pf ctx ch] st. cbn [resetFlags addresses]. rewrite !resetFlagSet_app.
  generalize (resetFlagSet pf (resetFlagSet fl st)). clear st.
  induction ch as [|c ch IHch]; intros st; cbn [fold_left map concat]; [done|].
  rewrite resetFlagSet_app, (IH c st). apply IHch.
Qed.

Lemma reset_flag_idemp f : reset_flag (reset_flag f) = reset_flag f.
Proof. unfold reset_flag. destruct (Changed f) eqn:E; [done|]. by rewrite E. Qed.

(** Every flag of a set is reset, once or several times; the others stay. *)
Lemma resetFlagSet_lookup fs st i :
  resetFlagSet fs st !! i = if bool_decide (i ∈ fs) then reset_flag <$> st !! i else st !! i.
Proof.
  revert st. induction fs as [|j fs IH]; intros st; cbn [resetFlagSet foldl]; [by rewrite bool_decide_false by (apply not_elem_of_nil)|].
  fold (resetFlagSet fs (alter reset_flag j st)). rewrite IH. destruct (decide (i = j)) as [->|Hne].
  - rewrite lookup_alter_eq. rewrite (bool_decide_true (j ∈ j :: fs)) by (by left). case_bool_decide; [|done].
    destruct (st !! j); cbn; [by rewrite reset_flag_idemp|done].
  - rewrite lookup_alter_ne by done. by rewrite (bool_decide_ext (i ∈ j :: fs) (i ∈ fs)) by (rewrite elem_of_cons; tauto).
Qed.

(** *** Independence of runs *)

(** The flags as they were registered: unchanged, each scalar with the value its
    [DefValue] parses to, each slice empty. *)
Definition registered (f : flag) : Prop :=
  Changed f = false ∧
  match Value f with Scalar v => parse (kind f) (DefValue f) = Some v | Elements l => l = [] end.

(** What a flag may have become: set to another value of its kind, and then marked. *)
Definition may_become (f g : flag) : Prop :=
  kind g = kind f ∧ DefValue g = DefValue f ∧
  (match Value f, Value g with Scalar _, Scalar _ | Elements _, Elements _ => True | _, _ => False end) ∧
  (Changed g = false → Changed f = false ∧ Value g = Value f).

Definition evolved (st st' : store) : Prop := map_Forall2 (λ _ f g, may_become f g) st st'.

Lemma reset_restores f g : registered f → may_become f g → reset_flag g = f.
Proof.
  intros [Hc Hv] (Hk & Hd & Hs & Hch). destruct f as [k d v c], g as [k' d' v' c']. cbn in *. subst.
  unfold reset_flag. cbn. destruct c'; [|by destruct (Hch eq_refl) as [_ ->]].
  destruct v, v'; try done; [by rewrite Hv|by rewrite Hv].
Qed.

Lemma reset_store cmd st0 st :
  map_Forall (λ _ f, registered f) st0 → (∀ i, is_Some (st0 !! i) → i ∈ addresses cmd) → evolved st0 st →
  resetFlags cmd st = st0.
Proof.
  intros Hreg Hin Hev. apply map_eq. intros i. rewrite resetFlags_flat, resetFlagSet_lookup.
  specialize (Hev i). destruct (st0 !! i) as [f|] eqn:E0; inversion Hev as [x g Hm Ha Hb|Ha Hb]; subst.
  - rewrite bool_decide_true by (apply Hin; by rewrite E0). cbn. f_equal. apply reset_restores; [by apply (Hreg i)|done].
  - by destruct (bool_decide _).
Qed.

(** The tree without the contexts. *)
Definition similar (c c' : command) : Prop := resetContext c = resetContext c'.

Lemma resetContext_idemp : ∀ c, resetContext (resetContext c) = resetContext c.
Proof.
  fix IH 1. intros [fl pf ctx ch]. cbn [resetContext]. f_equal. rewrite map_map.
  induction ch as [|c ch IHch]; [done|]. cbn [map]. by rewrite IHch, IH.
Qed.

Lemma resetContext_addresses : ∀ c, addresses (resetContext c) = addresses c.
Proof.
  fix IH 1. intros [fl pf ctx ch]. cbn [resetContext addresses]. do 2 f_equal. rewrite map_map. f_equal.
  induction ch as [|c ch IHch]; [done|]. cbn [map]. by rewrite IHch, IH.
Qed.

Lemma may_become_refl f : may_become f f.
Proof. split_and!; try done. by destruct (Value f). Qed.

Lemma evolved_refl st : evolved st st.
Proof. intros i. destruct (st !! i); constructor. apply may_become_refl. Qed.

(** Executing a command keeps the tree, and sets flags only with their mark. *)
Hypothesis execute_keeps : ∀ root st ctx args r root' st',
  execute root st ctx args = (r, root', st') → similar root root' ∧ evolved st st'.

(** The states that runs of commands lead to. *)
Inductive after_runs (root : command) (st : store) : command → store → Prop :=
  | after_none : after_runs root st root st
  | after_run root1 st1 tc bg args r root2 st2 :
      after_runs root st root1 st1 → Run tc bg root1 args st1 = (r, root2, st2) → after_runs root st root2 st2.

Lemma after_runs_ok root st root' st' :
  map_Forall (λ _ f, registered f) st → (∀ i, is_Some (st !! i) → i ∈ addresses root) → after_runs root st root' st' →
  similar root root' ∧ evolved st st'.
Proof using execute_keeps.
  intros Hreg Hin. induction 1 as [|root1 st1 tc bg args r root2 st2 _ [Hs He] Hrun]; [by split; [|apply evolved_refl]|].
  assert (addresses root1 = addresses root) as Ha by (by rewrite <- resetContext_addresses, <- Hs, resetContext_addresses).
  unfold Run in Hrun. apply execute_keeps in Hrun as [Hs' He']. split.
  - unfold similar in *. by rewrite <- Hs', resetContext_idemp.
  - rewrite (reset_store root1 st st1) in He'; [done|done|by rewrite Ha|done].
Qed.
End Harness.
End CmdTest.

(** Runs of commands in tests are independent.  Whatever commands were run before
    with whatever arguments, and whatever flags and contexts they left behind in the
    shared command tree, the harness runs a command exactly as on the tree and the
    flags as they were registered: its result is the same.  (Slice flags must be
    registered empty, as those of netool are: the reset does not restore their
    default.) *)
Theorem cmdtest_runs_independent {V Ctx} (parse : Flags.kind → bytes → option V)
    (execute : CmdTest.command → gmap nat (CmdTest.flag (V := V)) → Ctx → list bytes → CmdTest.Result * CmdTest.command * gmap nat (CmdTest.flag (V := V)))
    (root root' : CmdTest.command) (st st' : gmap nat (CmdTest.flag (V := V))) (tc : option Ctx) (bg : Ctx) (args : list bytes) :
  (∀ r0 s0 c0 a0 res r1 s1, execute r0 s0 c0 a0 = (res, r1, s1) → CmdTest.similar r0 r1 ∧ CmdTest.evolved (V := V) s0 s1) →
  map_Forall (λ _ f, CmdTest.registered parse f) st → (∀ i, is_Some (st !! i) → i ∈ CmdTest.addresses root) →
  CmdTest.after_runs parse execute root st root' st' →
  CmdTest.Run parse execute tc bg root' args st' = CmdTest.Run parse execute tc bg root args st.
Proof.
  intros Hex Hreg Hin Hafter.
  destruct (CmdTest.after_runs_ok parse execute Hex root st root' st' Hreg Hin Hafter) as [Hs He].
  assert (CmdTest.addresses root' = CmdTest.addresses root) as Ha
    by (by rewrite <- CmdTest.resetContext_addresses, <- Hs, CmdTest.resetContext_addresses).
  unfold CmdTest.Run. rewrite (CmdTest.reset_store parse root st st); [|done|done|apply CmdTest.evolved_refl].
  rewrite (CmdTest.reset_store parse root' st st'); [|done|by rewrite Ha|done]. by rewrite Hs.
Qed.

(** A command with one scalar flag (address 0), shared by the flag sets of the root
    and of a child, and a slice flag (address 1): the first argument sets the scalar,
    the second is appended to the slice, and the run prints both. *)
Definition eg_parse (k : Flags.kind) (s : bytes) : option bytes := Some s.
Definition eg_tree : CmdTest.command (Ctx := nat) := CmdTest.Command [] [0%nat] None [CmdTest.Command [0%nat; 1%nat] [] None []].
Definition eg_store : gmap nat (CmdTest.flag (V := bytes)) :=
  {[ 0%nat := CmdTest.mkFlag Flags.KString (str "d") (CmdTest.Scalar (str "d")) false;
     1%nat := CmdTest.mkFlag Flags.KStringSlice (str "[]") (CmdTest.Elements []) false ]}.
Definition eg_set (x y : bytes) (f : CmdTest.flag (V := bytes)) : CmdTest.flag :=
  CmdTest.mkFlag (CmdTest.kind f) (CmdTest.DefValue f)
    (match CmdTest.Value f with CmdTest.Scalar _ => CmdTest.Scalar x | CmdTest.Elements l => CmdTest.Elements (l ++ [y]) end) true.
Definition eg_show (f : CmdTest.flag (V := bytes)) : bytes :=
  match CmdTest.Value f with CmdTest.Scalar v => v | CmdTest.Elements l => mjoin l end.
Definition eg_execute (c : CmdTest.command (Ctx := nat)) (st : gmap nat (CmdTest.flag (V := bytes))) (ctx : nat) (args : list bytes) :=
  let st := match args with [x; y] => eg_set x y <$> st | _ => st end in
  (CmdTest.mkResult (mjoin (eg_show <$> (map_to_list st).*2)) [] None, c, st).

Lemma eg_execute_keeps r0 s0 c0 a0 res r1 s1 :
  eg_execute r0 s0 c0 a0 = (res, r1, s1) → CmdTest.similar r0 r1 ∧ CmdTest.evolved s0 s1.
Proof.
  unfold eg_execute. intros [= <- <- <-]. split; [done|]. intros i.
  destruct a0 as [|x [|y [|z a0]]]; [apply CmdTest.evolved_refl..| |apply CmdTest.evolved_refl].
  rewrite lookup_fmap. destruct (s0 !! i) as [f|]; constructor. destruct f as [k d [v|l] c]; by split_and!.
Qed.

Lemma cmdtest_runs_independent_witness :
  ∃ r root' st', CmdTest.Run eg_parse eg_execute None 0%nat eg_tree [str "x"; str "y"] eg_store = (r, root', st') ∧
    CmdTest.Stdout r = str "yx" ∧
    CmdTest.Run eg_parse eg_execute None 0%nat root' [] st' = CmdTest.Run eg_parse eg_execute None 0%nat eg_tree [] eg_store.
Proof.
  eexists _, _, _. split; [reflexivity|]. split; [vm_compute; reflexivity|].
  apply (cmdtest_runs_independent eg_parse eg_execute eg_tree _ eg_store); [exact eg_execute_keeps|..].
  - apply map_Forall_insert_2; [by split|]. apply map_Forall_singleton. by split.
  - intros i [f Hf]. unfold eg_store in Hf. apply lookup_insert_Some in Hf as [[<- _]|[_ Hf]]; [by left|].
    apply lookup_singleton_Some in Hf as [<- _]. by right; right; left.
  - eapply (CmdTest.after_run eg_parse eg_execute eg_tree eg_store eg_tree eg_store None 0%nat [str "x"; str "y"]);
      [apply CmdTest.after_none|reflexivity].
Defined.

(** The slice flags of netool are registered empty. *)
Example netool_slices_empty :
  Forall (λ c, Forall (λ f, Flags.f_kind f ∈ [Flags.KStringSlice; Flags.KStringArray] → Flags.f_def f = str "[]") c.2)
    (Flags.all_commands [] Flags.rootCmd).
Proof.
  assert (Hall : forallb (λ c, forallb (λ f, negb (bool_decide (Flags.f_kind f ∈ [Flags.KStringSlice; Flags.KStringArray])) ||
    bool_decide (Flags.f_def f = str "[]")) c.2) (Flags.all_commands [] Flags.rootCmd) = true) by (vm_compute; reflexivity).
  apply Forall_forall. intros c Hc. apply Forall_forall. intros f Hf Hk. rewrite forallb_forall in Hall.
  apply list_elem_of_In, Hall in Hc. rewrite forallb_forall in Hc. apply list_elem_of_In, Hc in Hf.
  rewrite bool_decide_true in Hf by done. by apply bool_decide_eq_true in Hf.
Qed.
