(* ===== verification/Keys.v ===== *)
(** * Keys and signatures

    crypto/keygen/curve25519.go, authenticate/signature/signature.go,
    uuid/rand_string.go and the commands on them: cmd/subcmds/keygen.go,
    signature.go, rand.go and uuid.go.  Of the standard library:
    [encoding/base64] (with padding and without) and [crypto/hmac] with
    [crypto/sha256] (FIPS 198-1 and 180-4).  [golang.org/x/crypto/curve25519] is
    a parameter; random sources are arguments. *)
From S2P Require Import Prelude Errors Wire NetAddr NetText Uuid TcpClient HttpText Cli.

(** ** encoding/base64 *)
Module Base64.

(** The encodings in use: [StdEncoding] (padded) and [RawURLEncoding]. *)
Inductive Encoding := StdEncoding | RawURLEncoding.

Definition letters : bytes := str "ABCDEFGHIJKLMNOPQRSTUVWXYZabcdefghijklmnopqrstuvwxyz0123456789".
Definition alphabet (e : Encoding) : bytes :=
  letters ++ match e with StdEncoding => str "+/" | RawURLEncoding => str "-_" end.
Definition padded (e : Encoding) : bool := match e with StdEncoding => true | RawURLEncoding => false end.
Definition pad (e : Encoding) (n : nat) : bytes := if padded e then replicate n 61 else [].

(** The character of a 6-bit value, and the value of a character ([decodeMap]). *)
Definition char (e : Encoding) (v : Z) : Z := nth (Z.to_nat (Z.land v 63)) (alphabet e) 0.
Definition value (e : Encoding) (c : Z) : option Z := (λ p, Z.of_nat p.1) <$> list_find (eq c) (alphabet e).

Fixpoint EncodeToString (e : Encoding) (src : bytes) : bytes :=
  match src with
  | [] => []
  | [a] =>
      let val := Z.shiftl a 16 in
      [char e (Z.shiftr val 18); char e (Z.shiftr val 12)] ++ pad e 2
  | [a; b] =>
      let val := Z.lor (Z.shiftl a 16) (Z.shiftl b 8) in
      [char e (Z.shiftr val 18); char e (Z.shiftr val 12); char e (Z.shiftr val 6)] ++ pad e 1
  | a :: b :: c :: src' =>
      let val := Z.lor (Z.shiftl a 16) (Z.lor (Z.shiftl b 8) c) in
      [char e (Z.shiftr val 18); char e (Z.shiftr val 12); char e (Z.shiftr val 6); char e val] ++
      EncodeToString e src'
  end.

Definition EncodedLen (e : Encoding) (n : Z) : Z :=
  if padded e then (n + 2) / 3 * 4 else n / 3 * 4 + (n mod 3 * 8 + 5) / 6.

(** The bytes of a quantum of four 6-bit values; [n] of them are meant. *)
Definition quantum (n : nat) (a b c d : Z) : bytes :=
  let val := Z.lor (Z.shiftl a 18) (Z.lor (Z.shiftl b 12) (Z.lor (Z.shiftl c 6) d)) in
  take n [u8 (Z.shiftr val 16); u8 (Z.shiftr val 8); u8 val].

Definition CorruptInputError : error := Errorf "illegal base64 data" None.
Definition corrupt : bytes + error := inr CorruptInputError.

(** [decodeQuantum], again and again; line ends have been taken out.  The last
    quantum has padding, exactly to four characters, or none. *)
Fixpoint decode (e : Encoding) (src : bytes) : bytes + error :=
  match src with
  | [] => inl []
  | c0 :: c1 :: src' =>
      match value e c0, value e c1 with
      | Some a, Some b =>
          match src' with
          | [] => if padded e then corrupt else inl (quantum 1 a b 0 0)
          | c2 :: src' =>
              match value e c2 with
              | None =>
                  if padded e && (c2 =? 61)
                  then match src' with [c3] => if c3 =? 61 then inl (quantum 1 a b 0 0) else corrupt | _ => corrupt end
                  else corrupt
              | Some c =>
                  match src' with
                  | [] => if padded e then corrupt else inl (quantum 2 a b c 0)
                  | c3 :: src' =>
                      match value e c3 with
                      | None =>
                          if padded e && (c3 =? 61)
                          then match src' with [] => inl (quantum 2 a b c 0) | _ => corrupt end
                          else corrupt
                      | Some d => match decode e src' with
                                  | inl rest => inl (quantum 3 a b c d ++ rest)
                                  | inr err => inr err
                                  end
                      end
                  end
              end
          end
      | _, _ => corrupt
      end
  | [_] => corrupt
  end.

(** Line ends are skipped wherever they are. *)
Definition is_newline (c : Z) : bool := (c =? 10) || (c =? 13).
Definition DecodeString (e : Encoding) (s : bytes) : bytes + error := decode e (filter (λ c, is_newline c = false) s).
End Base64.

(** ** crypto/sha256 and crypto/hmac *)
Module Sha256.

Definition rotr (n x : Z) : Z := Z.lor (Z.shiftr x n) (u32 (Z.shiftl x (32 - n))).
Definition not32 (x : Z) : Z := Z.lxor x (2 ^ 32 - 1).

Definition primes : list Z :=
  [2; 3; 5; 7; 11; 13; 17; 19; 23; 29; 31; 37; 41; 43; 47; 53; 59; 61; 67; 71; 73; 79; 83; 89; 97; 101; 103; 107;
   109; 113; 127; 131; 137; 139; 149; 151; 157; 163; 167; 173; 179; 181; 191; 193; 197; 199; 211; 223; 227; 229;
   233; 239; 241; 251; 257; 263; 269; 271; 277; 281; 283; 293; 307; 311].

(** The integer cube root, from the highest of [n] bits down. *)
Fixpoint cbrt (n : nat) (x root : Z) : Z :=
  match n with
  | O => root
  | S n' => let r := root + 2 ^ Z.of_nat n' in cbrt n' x (if r * r * r <=? x then r else root)
  end.

(** The first 32 bits of the fractional parts of the roots of the primes. *)
Definition round_constants : list Z :=
  Eval vm_compute in (λ p, u32 (cbrt 40 (p * 2 ^ 96) 0)) <$> primes.
Definition initial_hash : list Z :=
  Eval vm_compute in (λ p, u32 (Z.sqrt (p * 2 ^ 64))) <$> take 8 primes.

(** The message schedule, newest word first. *)
Fixpoint schedule (n : nat) (ws : list Z) : list Z :=
  match n with
  | O => ws
  | S n' =>
      let w i := nth i ws 0 in
      let w15 := w 14%nat in
      let w2 := w 1%nat in
      let s0 := Z.lxor (rotr 7 w15) (Z.lxor (rotr 18 w15) (Z.shiftr w15 3)) in
      let s1 := Z.lxor (rotr 17 w2) (Z.lxor (rotr 19 w2) (Z.shiftr w2 10)) in
      schedule n' (u32 (w 15%nat + s0 + w 6%nat + s1) :: ws)
  end.

Record vars := mkVars { va : Z; vb : Z; vc : Z; vd : Z; ve : Z; vf : Z; vg : Z; vh : Z }.

Definition round (s : vars) (kw : Z * Z) : vars :=
  let e := ve s in
  let a := va s in
  let s1 := Z.lxor (rotr 6 e) (Z.lxor (rotr 11 e) (rotr 25 e)) in
  let ch := Z.lxor (Z.land e (vf s)) (Z.land (not32 e) (vg s)) in
  let t1 := u32 (vh s + s1 + ch + kw.1 + kw.2) in
  let s0 := Z.lxor (rotr 2 a) (Z.lxor (rotr 13 a) (rotr 22 a)) in
  let maj := Z.lxor (Z.land a (vb s)) (Z.lxor (Z.land a (vc s)) (Z.land (vb s) (vc s))) in
  mkVars (u32 (t1 + u32 (s0 + maj))) a (vb s) (vc s) (u32 (vd s + t1)) e (vf s) (vg s).

Definition block (h : vars) (ws : list Z) : vars :=
  let s := foldl round h (zip round_constants (reverse (schedule 48 (reverse ws)))) in
  mkVars (u32 (va h + va s)) (u32 (vb h + vb s)) (u32 (vc h + vc s)) (u32 (vd h + vd s))
         (u32 (ve h + ve s)) (u32 (vf h + vf s)) (u32 (vg h + vg s)) (u32 (vh h + vh s)).

Fixpoint blocks (n : nat) (h : vars) (ws : list Z) : vars :=
  match n with
  | O => h
  | S n' => blocks n' (block h (take 16 ws)) (drop 16 ws)
  end.

Definition initial : vars :=
  let w i := nth i initial_hash 0 in mkVars (w 0%nat) (w 1%nat) (w 2%nat) (w 3%nat) (w 4%nat) (w 5%nat) (w 6%nat) (w 7%nat).

Definition Sum256 (msg : bytes) : bytes :=
  let ws := Sha1.words (Sha1.pad msg) in
  let h := blocks (length ws / 16) initial ws in
  [va h; vb h; vc h; vd h; ve h; vf h; vg h; vh h] ≫= be_PutUint32.

(** The key, hashed when it is longer than a block, filled with zeros. *)
Definition block_key (key : bytes) : bytes :=
  let k := if 64 <? zlen key then Sum256 key else key in k ++ replicate (64 - length k) 0.

(** [hmac.New(sha256.New, key)], [Write(msg)], [Sum(nil)] *)
Definition Hmac (key msg : bytes) : bytes :=
  let k := block_key key in
  Sum256 ((Z.lxor 92 <$> k) ++ Sum256 ((Z.lxor 54 <$> k) ++ msg)).
End Sha256.

(** ** authenticate/signature *)
Module Signature.

(** [hash.Hash.Write] never returns an error, so [Sign] does not either. *)
Definition Sign (payload key : bytes) : bytes * option error :=
  let hmacSum := Sha256.Hmac key payload in
  (Base64.EncodeToString Base64.StdEncoding hmacSum, None).

Definition VerifySignature (payload key signature : bytes) : bool :=
  match Sign payload key with
  | (targetSignature, None) => bool_decide (signature = targetSignature)
  | (_, Some _) => false
  end.

(** *** cmd/subcmds/signature.go *)

(** [k], [i]: the flags [--key] and [--input]. *)
Definition readKeyAndInput (k i : bytes) : bytes * bytes + error :=
  match Base64.DecodeString Base64.StdEncoding k with
  | inr err => inr (Errorf "invalid key" (Some err))
  | inl key =>
      match Base64.DecodeString Base64.StdEncoding i with
      | inr err => inr (Errorf "invalid input" (Some err))
      | inl input => inl (key, input)
      end
  end.

Definition signatureCmd (format k i : bytes) : Cli.printed + error :=
  match readKeyAndInput k i with
  | inr err => inr err
  | inl (key, input) =>
      match Sign input key with
      | (_, Some err) => inr (Errorf "sign" (Some err))
      | (sign, None) =>
          inl (Cli.emit format [(str "signature", Cli.JString sign)] (str "sign result: " ++ sign ++ [10]))
      end
  end.

(** [s]: the flag [--signature]. *)
Definition signatureVerifyCmd (format k i s : bytes) : Cli.printed + error :=
  match readKeyAndInput k i with
  | inr err => inr err
  | inl (key, input) =>
      match Base64.DecodeString Base64.StdEncoding s with
      | inr err => inr (Errorf "invalid signature" (Some err))
      | inl sign =>
          let ok := VerifySignature input key sign in
          inl (Cli.emit format [(str "valid", Cli.JBool ok)]
                 (str "verify result: " ++ (if ok then str "true" else str "false") ++ [10]))
      end
  end.
End Signature.

(** ** crypto/keygen *)
Module Keygen.

Inductive Encoding := RawURL | Std.

Definition resolve (e : Encoding) : Base64.Encoding :=
  match e with Std => Base64.StdEncoding | RawURL => Base64.RawURLEncoding end.

Record KeyPair := mkKeyPair { Private : bytes; Public : bytes }.

Definition Encode (k : KeyPair) (enc : Encoding) : bytes * bytes :=
  let e := resolve enc in (Base64.EncodeToString e (Private k), Base64.EncodeToString e (Public k)).

Definition ScalarSize : Z := 32.

(** [priv[i] = f(priv[i])] *)
Definition update (i : nat) (f : Z → Z) (l : bytes) : bytes := alter f i l.

Definition clamp (priv : bytes) : bytes :=
  let priv := update 0 (λ b, Z.land b 248) priv in
  let priv := update 31 (λ b, Z.land b 127) priv in
  update 31 (λ b, Z.lor b 64) priv.

Section Generate.
(** [random n]: what [rand.Read] stores in a slice of [n] bytes, or its error;
    [X25519] of golang.org/x/crypto. *)
Context (random : Z → bytes + error) (X25519 : bytes → bytes → bytes + error) (Basepoint : bytes).

Definition decodeOrGenerate (enc : Encoding) (inputBase64 : bytes) : bytes + error :=
  if 0 <? zlen inputBase64 then
    match Base64.DecodeString (resolve enc) inputBase64 with
    | inr err => inr (Errorf "decode private key" (Some err))
    | inl decoded =>
        if negb (zlen decoded =? ScalarSize) then inr (Errorf "invalid private key length" None) else inl decoded
    end
  else
    match random ScalarSize with
    | inr err => inr (Errorf "read random bytes" (Some err))
    | inl priv => inl (clamp priv)
    end.

Definition GenerateCurve25519 (enc : Encoding) (inputBase64 : bytes) : KeyPair + error :=
  match decodeOrGenerate enc inputBase64 with
  | inr err => inr err
  | inl priv =>
      match X25519 priv Basepoint with
      | inr err => inr (Errorf "derive public key" (Some err))
      | inl pub => inl (mkKeyPair priv pub)
      end
  end.

(** *** cmd/subcmds/keygen.go *)

Definition emitKeyPair (format : bytes) (enc : Encoding) (input : bytes) : Cli.printed + error :=
  match GenerateCurve25519 enc input with
  | inr err => inr err
  | inl kp =>
      let '(priv, pub) := Encode kp enc in
      inl (Cli.emit format [(str "private", Cli.JString priv); (str "public", Cli.JString pub)]
             (str "Private key: " ++ priv ++ [10] ++ str "Public key: " ++ pub ++ [10]))
  end.

Definition x25519Cmd (format : bytes) (std : bool) (input : bytes) : Cli.printed + error :=
  emitKeyPair format (if std then Std else RawURL) input.

Definition wgCmd (format input : bytes) : Cli.printed + error := emitKeyPair format Std input.
End Generate.
End Keygen.

(** ** uuid/rand_string.go, cmd/subcmds/rand.go and uuid.go *)
Module RandCmds.

Definition letterBytes : bytes := str "abcdefghijklmnopqrstuvwxyzABCDEFGHIJKLMNOPQRSTUVWXYZ0123456789".

(** [Intn i]: what the [i]-th call of [rand.Intn(len(letterBytes))] returns. *)
Definition GenerateRandomString (Intn : nat → Z) (n : Z) : bytes :=
  (λ i, nth (Z.to_nat (Intn i)) letterBytes 0) <$> seq 0 (Z.to_nat n).

Definition randStrCmd (Intn : nat → Z) (format : bytes) (n : Z) : Cli.printed + error :=
  if n <=? 0 then inr (Errorf "--num must be greater than 0" None)
  else
    let s := GenerateRandomString Intn n in
    inl (Cli.emit format [(str "value", Cli.JString s)] (s ++ [10])).

(** [random]: the bytes [uuid.New] reads; [spare]: what the array of the text
    holds behind it. *)
Definition uuidCmd (random : bytes) (spare : nat) (format input : bytes) : go (Cli.printed + error) :=
  let print u := inl (Cli.emit format [(str "uuid", Cli.JString (UUID_String u))] (UUID_String u ++ [10])) in
  if bool_decide (input = []) then Ret (print (uuid_New random))
  else if 30 <? zlen input then Ret (inr (Errorf "input must be within 30 bytes" None))
  else
    '(u, err) ← ParseString spare input;
    match err with
    | Some e => Ret (inr (Errorf "parse input" (Some e)))
    | None => Ret (print u)
    end.
End RandCmds.
