(* ===== verification/KeysSpec.v ===== *)
(** * Theorems on keys and signatures

    Base64 texts decode to what was encoded; a generated key is clamped and is
    read back from its text; what the signature command prints is not what its
    verify command accepts. *)
From S2P Require Import Prelude Errors Wire NetAddr NetText Uuid TcpClient HttpText Cli Keys.

(** ** Base64 *)
Module Base64Facts.
Import Base64.

(** Induction by threes, as the encoder goes. *)
Lemma list_ind3 {A} (P : list A → Prop) :
  P [] → (∀ a, P [a]) → (∀ a b, P [a; b]) → (∀ a b c l, P l → P (a :: b :: c :: l)) → ∀ l, P l.
Proof.
  intros H0 H1 H2 H3. fix IH 1. intros [|a [|b [|c l]]]; [done|by apply H1|by apply H2|].
  apply H3, IH.
Qed.

(** The characters one by one: each has its value, and none is a line end. *)
Definition char_ok (e : Encoding) (v : Z) : bool :=
  bool_decide (value e (char e v) = Some v) && negb (is_newline (char e v)) && bool_decide (is_byte (char e v)).

Lemma chars_ok e : forallb (λ n, char_ok e (Z.of_nat n)) (seq 0 64) = true.
Proof. by destruct e; vm_compute. Qed.

Lemma char_mod e v : char e (v mod 64) = char e v.
Proof. unfold char. change 63 with (Z.ones 6). rewrite !Z.land_ones by lia. change (2 ^ 6) with 64. by rewrite Zmod_mod. Qed.

Lemma char_spec e v :
  value e (char e v) = Some (v mod 64) ∧ is_newline (char e v) = false ∧ is_byte (char e v).
Proof.
  rewrite <- char_mod. pose proof (Z.mod_pos_bound v 64) as Hb.
  pose proof (proj1 (forallb_forall _ _) (chars_ok e) (Z.to_nat (v mod 64))) as Hc.
  rewrite in_seq, Z2Nat.id in Hc by lia. specialize (Hc ltac:(lia)). unfold char_ok in Hc.
  apply andb_prop in Hc as [Hc Hp]. apply andb_prop in Hc as [Hv Hn].
  apply bool_decide_eq_true in Hv, Hp. by apply negb_true_iff in Hn.
Qed.

(** Four digits to the base 64 make up a 24-bit number. *)
Lemma join4 val :
  0 ≤ val < 2 ^ 24 →
  Z.lor (Z.shiftl (Z.shiftr val 18 mod 64) 18) (Z.lor (Z.shiftl (Z.shiftr val 12 mod 64) 12)
    (Z.lor (Z.shiftl (Z.shiftr val 6 mod 64) 6) (val mod 64))) = val.
Proof.
  intros Hv. rewrite !Z.shiftr_div_pow2 by lia.
  rewrite (Z.lor_comm _ (val mod 64)), lor_shiftl_add by (try apply Z.mod_pos_bound; lia).
  assert (0 ≤ val mod 64 < 64 ∧ 0 ≤ val / 2 ^ 6 mod 64 < 64 ∧ 0 ≤ val / 2 ^ 12 mod 64 < 64) as (? & ? & ?)
    by (repeat split; apply Z.mod_pos_bound; lia).
  rewrite (Z.lor_comm _ (_ + _)), lor_shiftl_add by lia.
  rewrite Z.lor_comm, lor_shiftl_add by lia.
  change (2 ^ 6) with 64. change (2 ^ 12) with 4096. change (2 ^ 18) with 262144.
  Z.div_mod_to_equations. lia.
Qed.

Lemma byte3 a b c : is_byte a → is_byte b → is_byte c →
  let val := Z.lor (Z.shiftl a 16) (Z.lor (Z.shiftl b 8) c) in
  0 ≤ val < 2 ^ 24 ∧ val = a * 65536 + b * 256 + c.
Proof.
  intros Ha Hb Hc val. unfold is_byte in *. assert (val = a * 65536 + b * 256 + c) as ->; [|lia]. unfold val.
  rewrite (Z.lor_comm _ c), lor_shiftl_add by lia. rewrite Z.lor_comm, lor_shiftl_add by lia. lia.
Qed.

(** A quantum made from three bytes gives them back. *)
Lemma quantum_bytes n a b c : is_byte a → is_byte b → is_byte c →
  let val := Z.lor (Z.shiftl a 16) (Z.lor (Z.shiftl b 8) c) in
  quantum n (Z.shiftr val 18 mod 64) (Z.shiftr val 12 mod 64) (Z.shiftr val 6 mod 64) (val mod 64) = take n [a; b; c].
Proof.
  intros Ha Hb Hc val. destruct (byte3 a b c Ha Hb Hc) as [Hv He]. fold val in Hv, He.
  unfold quantum. rewrite join4 by done. rewrite !u8_eq, !Z.shiftr_div_pow2, He by lia.
  unfold is_byte in *. change (2 ^ 16) with 65536. change (2 ^ 8) with 256.
  do 2 f_equal; [|f_equal; [|f_equal]]; Z.div_mod_to_equations; lia.
Qed.

(** The last quanta, of one and of two bytes: the digits that are missing are 0. *)
Lemma quantum_one a : is_byte a →
  quantum 1 (Z.shiftr (Z.shiftl a 16) 18 mod 64) (Z.shiftr (Z.shiftl a 16) 12 mod 64) 0 0 = [a].
Proof.
  intros Ha. pose proof (quantum_bytes 1 a 0 0 Ha ltac:(done) ltac:(done)) as Hq. cbn zeta in Hq.
  rewrite Z.shiftl_0_l, !Z.lor_0_r in Hq. change [a] with (take 1 [a; 0; 0]). rewrite <- Hq. unfold is_byte in Ha.
  f_equal; rewrite ?Z.shiftr_div_pow2, ?Z.shiftl_mul_pow2 by lia; Z.div_mod_to_equations; lia.
Qed.

Lemma quantum_two a b : is_byte a → is_byte b →
  let val := Z.lor (Z.shiftl a 16) (Z.shiftl b 8) in
  quantum 2 (Z.shiftr val 18 mod 64) (Z.shiftr val 12 mod 64) (Z.shiftr val 6 mod 64) 0 = [a; b].
Proof.
  intros Ha Hb val. pose proof (quantum_bytes 2 a b 0 Ha Hb ltac:(done)) as Hq. cbn zeta in Hq.
  rewrite Z.lor_0_r in Hq. fold val in Hq. change [a; b] with (take 2 [a; b; 0]). rewrite <- Hq. f_equal. unfold val, is_byte in *.
  rewrite Z.lor_comm, lor_shiftl_add by (rewrite ?Z.shiftl_mul_pow2 by lia; lia).
  rewrite Z.shiftl_mul_pow2 by lia. Z.div_mod_to_equations. lia.
Qed.

Ltac chars :=
  repeat match goal with
  | |- context [value ?e (char ?e ?v)] => rewrite (proj1 (char_spec e v))
  end.

Lemma decode_encode e bs : is_bytes bs → decode e (EncodeToString e bs) = inl bs.
Proof.
  revert bs. apply (list_ind3 (λ bs, is_bytes bs → decode e (EncodeToString e bs) = inl bs)); [done|..].
  - intros a [Ha _]%Forall_cons. cbn [EncodeToString app decode]. chars.
    destruct e; cbn [pad padded replicate andb negb]; [|by rewrite quantum_one].
    replace (value StdEncoding 61) with (@None Z) by (by vm_compute). change (61 =? 61) with true. by rewrite quantum_one.
  - intros a b [Ha [Hb _]%Forall_cons]%Forall_cons. cbn [EncodeToString app decode]. chars.
    destruct e; cbn [pad padded replicate andb negb]; [|by rewrite quantum_two].
    replace (value StdEncoding 61) with (@None Z) by (by vm_compute). change (61 =? 61) with true. by rewrite quantum_two.
  - intros a b c bs IH [Ha [Hb [Hc Hbs]%Forall_cons]%Forall_cons]%Forall_cons.
    cbn [EncodeToString app decode]. chars. rewrite IH by done. by rewrite quantum_bytes.
Qed.

(** No line end is among the characters of an encoding. *)
Lemma encode_no_newline e bs : Forall (λ c, is_newline c = false) (EncodeToString e bs).
Proof.
  revert bs. apply list_ind3; [done|..]; intros; cbn [EncodeToString app];
    repeat (apply Forall_cons; split; [apply char_spec|]); try done;
    by destruct e; cbn; repeat constructor.
Qed.

Lemma filter_all {A} (P : A → Prop) `{!∀ x, Decision (P x)} (l : list A) : Forall P l → filter P l = l.
Proof. induction 1 as [|x l Hx _ IH]; [done|]. rewrite filter_cons_True by done. by rewrite IH. Qed.

Lemma decode_string_encode e bs : is_bytes bs → DecodeString e (EncodeToString e bs) = inl bs.
Proof. intros Hb. unfold DecodeString. rewrite filter_all by apply encode_no_newline. by apply decode_encode. Qed.

Lemma zlen_encode_std bs : zlen (EncodeToString StdEncoding bs) = EncodedLen StdEncoding (zlen bs).
Proof.
  revert bs. apply list_ind3; [by intros; rewrite ?zlen_cons, ?zlen_nil..|]. intros a b c bs IH. cbn [EncodeToString app].
  rewrite !zlen_cons, IH. unfold EncodedLen. cbn [padded].
  replace (1 + (1 + (1 + zlen bs)) + 2) with (zlen bs + 2 + 1 * 3) by lia. rewrite Z.div_add by lia. lia.
Qed.

Lemma encode_nonempty e bs : bs ≠ [] → EncodeToString e bs ≠ [].
Proof. by destruct bs as [|a [|b [|c bs]]]. Qed.

Lemma encode_is_bytes e bs : is_bytes (EncodeToString e bs).
Proof.
  revert bs. apply list_ind3; [by apply Forall_nil|..]; intros; cbn [EncodeToString app];
    repeat (apply Forall_cons; split; [apply char_spec|]); try done;
    destruct e; repeat (apply Forall_cons; split; [done|]); by apply Forall_nil.
Qed.
End Base64Facts.

(** Every byte sequence is read back from its base64 text, in the padded
    encoding and in the raw URL one, whatever its length modulo three. *)
Theorem base64_roundtrip (e : Base64.Encoding) (bs : bytes) :
  is_bytes bs → Base64.DecodeString e (Base64.EncodeToString e bs) = inl bs.
Proof. apply Base64Facts.decode_string_encode. Qed.

Lemma base64_roundtrip_witness :
  Base64.EncodeToString Base64.RawURLEncoding [251; 255; 7; 42] = str "-_8HKg" ∧
  Base64.DecodeString Base64.RawURLEncoding (str "-_8HKg") = inl [251; 255; 7; 42].
Proof.
  split; [by vm_compute|].
  apply (base64_roundtrip Base64.RawURLEncoding [251; 255; 7; 42]). repeat constructor; by vm_compute.
Defined.

(** ** Signatures *)
Module SignatureFacts.

Lemma Sum256_ok msg : zlen (Sha256.Sum256 msg) = 32 ∧ is_bytes (Sha256.Sum256 msg).
Proof.
  unfold Sha256.Sum256. generalize (Sha256.blocks (length (Sha1.words (Sha1.pad msg)) / 16) Sha256.initial
    (Sha1.words (Sha1.pad msg))) as h. intros h. cbn. split; [by rewrite !zlen_cons|].
  repeat (apply Forall_cons; split; [apply u8_range|]). done.
Qed.

Lemma Hmac_ok key msg : zlen (Sha256.Hmac key msg) = 32 ∧ is_bytes (Sha256.Hmac key msg).
Proof. apply Sum256_ok. Qed.
End SignatureFacts.

(** C39: what [signature] prints for a key and an input is rejected by [signature
    verify] as the signature of the same key and input: verify decodes it and
    compares the 32 bytes of the digest with its 44 characters of base64.  The
    printed text has to be encoded once more to be accepted. *)
Theorem signature_cmds_disagree (k i key input : bytes) :
  Signature.readKeyAndInput k i = inl (key, input) →
  let printed := (Signature.Sign input key).1 in
  Signature.signatureCmd (str "json") k i = inl (Cli.PrintedJSON [(str "signature", Cli.JString printed)]) ∧
  Signature.signatureVerifyCmd (str "json") k i printed = inl (Cli.PrintedJSON [(str "valid", Cli.JBool false)]) ∧
  Signature.signatureVerifyCmd (str "json") k i (Base64.EncodeToString Base64.StdEncoding printed) =
    inl (Cli.PrintedJSON [(str "valid", Cli.JBool true)]).
Proof.
  intros Hr printed. unfold Signature.signatureCmd, Signature.signatureVerifyCmd. rewrite Hr.
  destruct (SignatureFacts.Hmac_ok key input) as [Hlen Hbytes].
  assert (Hp : printed = Base64.EncodeToString Base64.StdEncoding (Sha256.Hmac key input)) by done.
  split; [done|]. split.
  - rewrite Hp, Base64Facts.decode_string_encode by done.
    unfold Signature.VerifySignature, Signature.Sign. rewrite bool_decide_eq_false_2; [done|].
    intros He%(f_equal zlen). rewrite Base64Facts.zlen_encode_std, Hlen in He. by vm_compute in He.
  - assert (Hb : is_bytes printed) by (rewrite Hp; apply Base64Facts.encode_is_bytes).
    rewrite Base64Facts.decode_string_encode by done.
    unfold Signature.VerifySignature. change (Signature.Sign input key) with (printed, @None error). cbv iota beta zeta. by rewrite bool_decide_eq_true_2.
Qed.

(** A computed case: the key and the input of RFC 4231, test case 2. *)
Lemma signature_cmds_disagree_witness :
  Signature.readKeyAndInput (str "SmVmZQ==") (str "d2hhdCBkbyB5YSB3YW50IGZvciBub3RoaW5nPw==") =
    inl (str "Jefe", str "what do ya want for nothing?") ∧
  Signature.signatureVerifyCmd (str "json") (str "SmVmZQ==") (str "d2hhdCBkbyB5YSB3YW50IGZvciBub3RoaW5nPw==")
    (Signature.Sign (str "what do ya want for nothing?") (str "Jefe")).1 =
    inl (Cli.PrintedJSON [(str "valid", Cli.JBool false)]).
Proof.
  assert (Signature.readKeyAndInput (str "SmVmZQ==") (str "d2hhdCBkbyB5YSB3YW50IGZvciBub3RoaW5nPw==") =
    inl (str "Jefe", str "what do ya want for nothing?")) as Hr by by vm_compute.
  destruct (signature_cmds_disagree _ _ _ _ Hr) as (_ & Hv & _). split; [exact Hr|exact Hv].
Defined.

Example hmac_rfc4231 : Hex.EncodeToString (Sha256.Hmac (str "Jefe") (str "what do ya want for nothing?")) =
  str "5bdcc146bf60754e6a042426089575c75a003f089d2739839dec58b964ec3843".
Proof. by vm_compute. Qed.

(** ** Key pairs *)
Module KeygenFacts.
Import Keygen.
Section Facts.
Context (random : Z → bytes + error) (X25519 : bytes → bytes → bytes + error) (Basepoint : bytes).

(** [rand.Read] fills the slice or fails. *)
Hypothesis random_fills : ∀ n b, random n = inl b → zlen b = n ∧ is_bytes b.

(** A decidable property is checked on every byte. *)
Lemma byte_all (P : Z → Prop) `{!∀ b, Decision (P b)} b :
  bool_decide (Forall P (Z.of_nat <$> seq 0 256)) = true → is_byte b → P b.
Proof.
  unfold is_byte. intros Hall%bool_decide_eq_true Hb. rewrite Forall_fmap, Forall_forall in Hall.
  rewrite <- (Z2Nat.id b) by lia. apply Hall, elem_of_seq. lia.
Qed.

Definition clamped (b : Z) : Prop :=
  is_byte (Z.land b 248) ∧ is_byte (Z.lor (Z.land b 127) 64) ∧
  Z.land b 248 mod 8 = 0 ∧ 64 ≤ Z.lor (Z.land b 127) 64 < 128.
#[local] Instance clamped_dec b : Decision (clamped b).
Proof. unfold clamped. apply _. Defined.

Lemma clamp_byte b : is_byte b → clamped b.
Proof. apply (byte_all clamped). by vm_compute. Qed.

(** The bits of a clamped key: the three lowest are clear, the highest is clear,
    the one below it is set, and all others are as they were. *)
Lemma clamp_spec b : zlen b = 32 → is_bytes b →
  ∃ b0 mid b31, b = b0 :: mid ++ [b31] ∧ clamp b = Z.land b0 248 :: mid ++ [Z.lor (Z.land b31 127) 64].
Proof.
  with_strategy transparent [zlen] unfold zlen. intros Hl _.
  destruct b as [|b0 b]; [done|]. destruct b as [|b31 mid _] using rev_ind; [done|].
  rewrite length_cons, length_app in Hl. cbn in Hl. exists b0, mid, b31. split; [done|].
  unfold clamp, update. cbn [alter list_alter]. f_equal.
  assert (length mid = 30)%nat as Hm by lia.
  change 31%nat with (S 30). cbn [alter list_alter].
  rewrite <- Hm. rewrite !alter_app_r_alt by lia. rewrite Nat.sub_diag. done.
Qed.

Lemma clamp_ok b : zlen b = 32 → is_bytes b → zlen (clamp b) = 32 ∧ is_bytes (clamp b).
Proof.
  intros Hl Hb. destruct (clamp_spec b Hl Hb) as (b0 & mid & b31 & -> & ->).
  rewrite zlen_cons, zlen_app, zlen_cons, zlen_nil in *.
  apply Forall_cons in Hb as [H0 [Hm [H31 _]%Forall_cons]%Forall_app]. split; [done|].
  destruct (clamp_byte b0 H0) as (? & _), (clamp_byte b31 H31) as (_ & ? & _).
  apply Forall_cons; split; [done|]. apply Forall_app; split; [done|]. by apply Forall_cons.
Qed.

(** A key that was generated, not given: its bytes. *)
Lemma generated enc kp : GenerateCurve25519 random X25519 Basepoint enc [] = inl kp →
  ∃ b, random ScalarSize = inl b ∧ zlen b = 32 ∧ is_bytes b ∧ Private kp = clamp b ∧
       X25519 (clamp b) Basepoint = inl (Public kp).
Proof.
  unfold GenerateCurve25519, decodeOrGenerate.
  intros Hg. assert ((0 <? zlen (@nil Z)) = false) as Hz by (by apply Z.ltb_ge; rewrite zlen_nil). rewrite Hz in Hg. destruct (random ScalarSize) as [b|] eqn:Hr; [|done].
  destruct (random_fills _ _ Hr) as [Hl Hb].
  destruct (X25519 (clamp b) Basepoint) as [pub|] eqn:Hx; [|done]. injection Hg as <-. by exists b.
Qed.

(** A given private key is used as it is. *)
Lemma given enc priv : zlen priv = 32 → is_bytes priv →
  GenerateCurve25519 random X25519 Basepoint enc (Base64.EncodeToString (resolve enc) priv) =
  match X25519 priv Basepoint with
  | inr err => inr (Errorf "derive public key" (Some err))
  | inl pub => inl (mkKeyPair priv pub)
  end.
Proof.
  intros Hl Hb. unfold GenerateCurve25519, decodeOrGenerate.
  assert (0 < zlen (Base64.EncodeToString (resolve enc) priv)) as Hpos.
  { destruct (Base64.EncodeToString (resolve enc) priv) as [|c s] eqn:He.
    - exfalso. revert He. apply Base64Facts.encode_nonempty. intros ->. by rewrite zlen_nil in Hl.
    - rewrite zlen_cons. pose proof (zlen_nonneg s). lia. }
  rewrite (proj2 (Z.ltb_lt _ _)) by done. rewrite Base64Facts.decode_string_encode by done. by rewrite Hl.
Qed.
End Facts.
End KeygenFacts.

(** A generated private key is clamped as RFC 7748 asks: its three lowest bits
    are clear, its highest bit is clear and the one below is set, while the other
    bits are the random ones; and the pair is found again from the text that was
    printed for the private key, in either encoding. *)
Theorem keygen_clamped_and_reloaded (random : Z → bytes + error) (X25519 : bytes → bytes → bytes + error)
    (Basepoint : bytes) (enc : Keygen.Encoding) (kp : Keygen.KeyPair) :
  (∀ n b, random n = inl b → zlen b = n ∧ is_bytes b) →
  Keygen.GenerateCurve25519 random X25519 Basepoint enc [] = inl kp →
  (∃ b0 b31 p0 mid p31, random 32 = inl (b0 :: mid ++ [b31]) ∧ Keygen.Private kp = p0 :: mid ++ [p31] ∧
     p0 = Z.land b0 248 ∧ p31 = Z.lor (Z.land b31 127) 64 ∧ p0 mod 8 = 0 ∧ 64 ≤ p31 < 128) ∧
  Keygen.GenerateCurve25519 random X25519 Basepoint enc (Keygen.Encode kp enc).1 = inl kp.
Proof.
  intros Hr Hg. destruct (KeygenFacts.generated _ _ _ Hr _ _ Hg) as (b & Hb & Hl & Hbs & Hp & Hx).
  destruct (KeygenFacts.clamp_ok b Hl Hbs) as [Hcl Hcb]. split.
  - destruct (KeygenFacts.clamp_spec b Hl Hbs) as (b0 & mid & b31 & Heq & Hc).
    rewrite Heq in Hbs, Hb. apply Forall_cons in Hbs as [H0 [_ [H31 _]%Forall_cons]%Forall_app].
    destruct (KeygenFacts.clamp_byte b0 H0) as (_ & _ & ? & _), (KeygenFacts.clamp_byte b31 H31) as (_ & _ & _ & ?).
    exists b0, b31, (Z.land b0 248), mid, (Z.lor (Z.land b31 127) 64). by rewrite Hp, Hc.
  - unfold Keygen.Encode. cbn [fst]. rewrite Hp, KeygenFacts.given, Hx by done. destruct kp. cbn in *. by subst.
Qed.

(** A source of bytes, and a function in place of the curve. *)
Definition eg_random (n : Z) : bytes + error :=
  if n <? 0 then inr (Errorf "negative" None) else inl (replicate (Z.to_nat n) 255).
Definition eg_curve (k _ : bytes) : bytes + error := inl (reverse k).
Definition eg_pair : Keygen.KeyPair :=
  Keygen.mkKeyPair (248 :: replicate 30 255 ++ [127]) (127 :: replicate 30 255 ++ [248]).

Lemma keygen_clamped_and_reloaded_witness :
  (Keygen.Encode eg_pair Keygen.RawURL).1 = str "-P_______________________________________38" ∧
  Keygen.GenerateCurve25519 eg_random eg_curve [9] Keygen.RawURL (Keygen.Encode eg_pair Keygen.RawURL).1 = inl eg_pair.
Proof.
  split; [by vm_compute|].
  refine (proj2 (keygen_clamped_and_reloaded eg_random eg_curve [9] Keygen.RawURL eg_pair _ _)); [|by vm_compute].
  intros n b. unfold eg_random. case_if; [done|]. intros [= <-].
  with_strategy transparent [zlen] unfold zlen. rewrite length_replicate. split; [lia|].
  by apply Forall_replicate.
Defined.

(** ** Random strings *)

(** A random string has the length asked for, and letters and digits only. *)
Lemma rand_string_alnum Intn n : 0 ≤ n → (∀ i, 0 ≤ Intn i < 62) →
  zlen (RandCmds.GenerateRandomString Intn n) = n ∧
  Forall (λ c, isAlphaNum c = true) (RandCmds.GenerateRandomString Intn n).
Proof.
  intros Hn Hi. unfold RandCmds.GenerateRandomString. split.
  - with_strategy transparent [zlen] unfold zlen. rewrite length_fmap, length_seq. lia.
  - apply Forall_fmap, Forall_forall. intros i _. cbn.
    assert (forallb (λ n, isAlphaNum (nth n RandCmds.letterBytes 0)) (seq 0 62) = true) as Hall by by vm_compute.
    apply (proj1 (forallb_forall _ _) Hall). apply in_seq. specialize (Hi i). lia.
Qed.
