(* ===== verification/Heartbeat.v ===== *)
(** * Heartbeats over TCP

    examples/net/heartbeat: messages with a length prefix (tcpv2/ldm) and the
    four programs that exchange PING and PONG, with lines (tcp/server,
    tcp/client) and with length prefixes (tcpv2/server, tcpv2/client).

    A connection is served by three goroutines: the handler (or [main] of a
    client), the reader and the heartbeat.  They share two unbuffered channels:
    a send and its receive are one step.  What the network does is a choice:
    the result of each read and write, and when a timer fires. *)
From S2P Require Import Prelude Errors Bytespool IO Wire NetAddr NetText.

(** ** tcpv2/ldm *)
Module Ldm.

Definition Uint32ToBytes (n : Z) : bytes := be_PutUint32 n.

(** [binary.BigEndian.Uint32] panics on a shorter slice. *)
Definition BytesToUint32 (b : bytes) : go Z :=
  match b with
  | b0 :: b1 :: b2 :: b3 :: _ => Ret (be_Uint32 b0 b1 b2 b3)
  | _ => Panic oob_index
  end.

Definition SendMessage {T} `{IOWriter T} (conn : T) (message : bytes) : M (option error * T) :=
  let length := u32 (zlen message) in
  let header := Uint32ToBytes length in
  '(_, err, conn) ← io_write conn header;
  match err with
  | Some e => mret (Some e, conn)
  | None =>
      '(_, err, conn) ← io_write conn message;
      mret (err, conn)
  end.

(** [fuel] bounds the reads of each [io.ReadFull]. *)
Definition ReceiveMessage {R} `{IOReader R} (fuel : nat) (conn : R) : M (bytes * option error * R) :=
  '(header, err, conn) ← ReadFull fuel conn 4;
  match err with
  | Some e => mret ([], Some e, conn)
  | None =>
      length ← lift (BytesToUint32 header);
      '(data, err, conn) ← ReadFull fuel conn length;
      match err with
      | Some e => mret ([], Some e, conn)
      | None => mret (data, None, conn)
      end
  end.
End Ldm.

(** ** The goroutines of a connection *)
Module Heartbeat.

(** What a read may return besides a message: how [errors.Is(err, io.EOF)], the
    assertion to [net.Error], [Temporary] and [Timeout] answer. *)
Record read_error := mkReadError { is_EOF : bool; is_net : bool; Temporary : bool; Timeout : bool }.

Definition PING : bytes := str "PING".
Definition PONG : bytes := str "PONG".

Inductive reader_pc := R_read | R_send_message (m : bytes) | R_send_pong | R_done.
Inductive main_pc := M_select | M_returned.
Inductive beat_pc := H_ticker | H_wait | H_returned.

(** [received], [handled], [replies] and [beats] record what happened: the
    messages the reader has read, those the handler has taken, the PONGs the
    handler has written and the times "Heartbeat successful" was printed. *)
Record peer := mkPeer {
  reader : reader_pc; main : main_pc; beat : beat_pc;
  chans_closed : bool; heartbeatDone : bool; conn_closed : bool;
  received : list bytes; handled : list bytes; replies : nat; pings : nat; beats : nat
}.

Definition init : peer := mkPeer R_read M_select H_ticker false false false [] [] 0 0 0.

Definition set_reader (r : reader_pc) (s : peer) : peer :=
  mkPeer r (main s) (beat s) (chans_closed s) (heartbeatDone s) (conn_closed s) (received s) (handled s) (replies s) (pings s) (beats s).
Definition set_beat (h : beat_pc) (s : peer) : peer :=
  mkPeer (reader s) (main s) h (chans_closed s) (heartbeatDone s) (conn_closed s) (received s) (handled s) (replies s) (pings s) (beats s).

(** The handler returns; its deferred [conn.Close] runs. *)
Definition return_main (s : peer) : peer :=
  mkPeer (reader s) M_returned (beat s) (chans_closed s) (heartbeatDone s) true (received s) (handled s) (replies s) (pings s) (beats s).

(** The heartbeat goroutine ends; a client's then closes [heartbeatDone]. *)
Definition return_beat (client : bool) (s : peer) : peer :=
  mkPeer (reader s) (main s) H_returned (chans_closed s) client (conn_closed s) (received s) (handled s) (replies s) (pings s) (beats s).

Inductive choice :=
  | Read (r : bytes + read_error)   (** the reader's next message or error *)
  | TakeMessage (write_ok : bool)   (** the handler receives a message; whether a reply can be written *)
  | TakeClosed                      (** the handler finds [messageChan] closed *)
  | TakeHeartbeatDone               (** a client finds [heartbeatDone] closed *)
  | Tick (write_ok : bool)          (** the ticker fires; whether PING can be written *)
  | TakePong                        (** the heartbeat receives from [heartbeatResponseChan] *)
  | BeatTimeout.                    (** five seconds have passed *)

(** [client]: the program watches [heartbeatDone]; [decode]: what is made of the
    data of a message. *)
Section Step.
Context (client : bool) (decode : bytes → bytes).

(** The body of the reader's loop.  After the connection was closed here, reads
    fail with an error that is neither temporary nor a timeout. *)
Definition read_step (r : bytes + read_error) (s : peer) : option peer :=
  match reader s, r with
  | R_read, inl data =>
      if conn_closed s then None
      else
        let message := decode data in
        let s := mkPeer (reader s) (main s) (beat s) (chans_closed s) (heartbeatDone s) (conn_closed s)
                   (received s ++ [message]) (handled s) (replies s) (pings s) (beats s) in
        Some (set_reader (if bool_decide (message = PONG) then R_send_pong else R_send_message message) s)
  | R_read, inr err =>
      if negb (is_EOF err) && is_net err && (Temporary err || Timeout err)
      then if conn_closed s then None else Some s
      else Some (mkPeer R_done (main s) (beat s) true (heartbeatDone s) (conn_closed s)
                   (received s) (handled s) (replies s) (pings s) (beats s))
  | _, _ => None
  end.

(** The handler with a message it has received. *)
Definition handle (m : bytes) (write_ok : bool) (s : peer) : peer :=
  let s := mkPeer (reader s) (main s) (beat s) (chans_closed s) (heartbeatDone s) (conn_closed s)
             (received s) (handled s ++ [m]) (replies s) (pings s) (beats s) in
  if bool_decide (m = PING) then
    if write_ok && negb (conn_closed s)
    then mkPeer (reader s) (main s) (beat s) (chans_closed s) (heartbeatDone s) (conn_closed s)
           (received s) (handled s) (S (replies s)) (pings s) (beats s)
    else return_main s
  else s.

Definition step (c : choice) (s : peer) : option peer :=
  match c with
  | Read r => read_step r s
  | TakeMessage write_ok =>
      match main s, reader s with
      | M_select, R_send_message m => Some (handle m write_ok (set_reader R_read s))
      | _, _ => None
      end
  | TakeClosed =>
      match main s with
      | M_select => if chans_closed s then Some (return_main s) else None
      | M_returned => None
      end
  | TakeHeartbeatDone =>
      match main s with
      | M_select => if client && heartbeatDone s then Some (return_main s) else None
      | M_returned => None
      end
  | Tick write_ok =>
      match beat s with
      | H_ticker =>
          if write_ok && negb (conn_closed s)
          then Some (mkPeer (reader s) (main s) H_wait (chans_closed s) (heartbeatDone s) (conn_closed s)
                       (received s) (handled s) (replies s) (S (pings s)) (beats s))
          else Some (return_beat client s)
      | _ => None
      end
  | TakePong =>
      match beat s with
      | H_wait =>
          let ok := mkPeer (reader s) (main s) H_ticker (chans_closed s) (heartbeatDone s) (conn_closed s)
                      (received s) (handled s) (replies s) (pings s) (S (beats s)) in
          if chans_closed s then Some ok
          else match reader s with
               | R_send_pong => Some (set_reader R_read ok)
               | _ => None
               end
      | _ => None
      end
  | BeatTimeout =>
      match beat s with
      | H_wait => Some (return_beat client s)
      | _ => None
      end
  end.
End Step.

(** The four programs.  A line is a message without the space around it. *)
Definition tcp_server : choice → peer → option peer := step false TrimSpace.
Definition tcp_client : choice → peer → option peer := step true TrimSpace.
Definition tcpv2_server : choice → peer → option peer := step false id.
Definition tcpv2_client : choice → peer → option peer := step true id.
End Heartbeat.
