(* ===== verification/HeartbeatSpec.v ===== *)
(** * Theorems on heartbeats

    Messages with a length prefix are read back in order whatever way the stream
    is cut; every PING that is taken is answered; when a server can never move
    again. *)
From S2P Require Import Prelude Errors Bytespool IO Wire NetAddr NetText Heartbeat.

(** ** Length prefixes *)
Module LdmFacts.
Import Ldm.

(** What a message looks like on the wire. *)
Definition frame (m : bytes) : bytes := be_PutUint32 (zlen m) ++ m.

Section Facts.
Context {T R : Type} `{StreamWriter T} `{StreamReader R}.

Lemma SendMessage_spec (t : T) m w : wr_inv t → world_ok w → zlen m < 2 ^ 32 →
  ∃ e t' w', SendMessage t m w = Ret ((e, t'), w') ∧ world_ok w' ∧ wr_inv t' ∧
    (e = None → wr_out t' = wr_out t ++ frame m).
Proof.
  intros Ht Hw Hm. unfold SendMessage, Uint32ToBytes. pose proof (zlen_nonneg m). rewrite u32_id by lia.
  destruct (wr_spec t (be_PutUint32 (zlen m)) w Ht Hw) as (n & e & t1 & w1 & He & Hw1 & Ht1 & Hn & Ho & Hok).
  rewrite (M_bind_Ret _ _ _ _ _ He). cbv iota beta. destruct e as [e|]; [by eexists _, _, _|].
  destruct (wr_spec t1 m w1 Ht1 Hw1) as (n2 & e2 & t2 & w2 & He2 & Hw2 & Ht2 & Hn2 & Ho2 & Hok2).
  rewrite (M_bind_Ret _ _ _ _ _ He2). cbv iota beta. eexists _, _, _. split; [reflexivity|].
  split_and!; [done|done|]. intros ->. rewrite Ho2, Ho, (Hok2 eq_refl), (Hok eq_refl), !ztake_ge by lia.
  unfold frame. by rewrite app_assoc.
Qed.

Lemma ReceiveMessage_spec fuel (r : R) m rest w :
  rd_inv r → world_ok w → zlen m < 2 ^ 32 → (rd_meas r < fuel)%nat → rd_rest r = frame m ++ rest →
  ∃ r' w', ReceiveMessage fuel r w = Ret ((m, None, r'), w') ∧ world_ok w' ∧ rd_inv r' ∧
    rd_rest r' = rest ∧ rd_end r' = rd_end r ∧ (rd_meas r' ≤ rd_meas r)%nat.
Proof.
  intros Hr Hw Hm Hf Hrest. unfold ReceiveMessage. pose proof (zlen_nonneg m). pose proof (zlen_nonneg rest).
  destruct (ReadFull_spec fuel r 4 w Hr Hw) as
    (d & e & r1 & w1 & He & Hw1 & Hr1 & Hd & Hend & Hmeas & Hlen & Hnone & _); [lia|done|].
  rewrite (M_bind_Ret _ _ _ _ _ He). cbv iota beta.
  assert (zlen (frame m ++ rest) = 4 + zlen m + zlen rest) as Hfl.
  { unfold frame, be_PutUint32. rewrite !zlen_app, !zlen_cons, zlen_nil. lia. }
  rewrite Hrest, Hfl in Hlen. assert (zlen d = 4) as Hd4 by lia.
  apply Hnone in Hd4 as He0. subst e.
  rewrite Hrest in Hd. unfold frame in Hd. rewrite <- app_assoc in Hd.
  apply app_inj_1 in Hd as [<- Hd]; [|with_strategy transparent [zlen] unfold zlen in Hd4; cbn; lia].
  assert (BytesToUint32 (be_PutUint32 (zlen m)) = Ret (zlen m)) as Hb by (cbn; by rewrite be_Uint32_PutUint32 by lia).
  rewrite Hb, (M_bind_Ret _ _ _ _ _ (lift_Ret _ _)).
  destruct (ReadFull_spec fuel r1 (zlen m) w1 Hr1 Hw1) as
    (d2 & e2 & r2 & w2 & He2 & Hw2 & Hr2 & Hd2 & Hend2 & Hmeas2 & Hlen2 & Hnone2 & _); [lia|lia|].
  assert (zlen d2 = zlen m) as Hz by (rewrite <- Hd, zlen_app in Hlen2; lia).
  apply Hnone2 in Hz as He3. subst e2. rewrite (M_bind_Ret _ _ _ _ _ He2). cbv iota beta.
  rewrite <- Hd in Hd2.
  apply app_inj_1 in Hd2 as [<- Hd2]; [|with_strategy transparent [zlen] unfold zlen in Hz; lia].
  exists r2, w2. split_and!; [done..|congruence|congruence|lia].
Qed.

(** Send all the messages; stop at the first error. *)
Fixpoint send_all (t : T) (ms : list bytes) : M (option error * T) :=
  match ms with
  | [] => mret (None, t)
  | m :: ms' =>
      '(e, t) ← SendMessage t m;
      match e with Some e => mret (Some e, t) | None => send_all t ms' end
  end.

(** Receive until an error. *)
Fixpoint receive_all (n fuel : nat) (r : R) : M (list bytes * option error * R) :=
  match n with
  | O => mret ([], None, r)
  | S n' =>
      '(m, e, r) ← ReceiveMessage fuel r;
      match e with
      | Some e => mret ([], Some e, r)
      | None => '(ms, e, r) ← receive_all n' fuel r; mret (m :: ms, e, r)
      end
  end.

Lemma send_all_spec ms (t : T) w : wr_inv t → world_ok w → Forall (λ m, zlen m < 2 ^ 32) ms →
  ∃ e t' w', send_all t ms w = Ret ((e, t'), w') ∧ (e = None → wr_out t' = wr_out t ++ mjoin (frame <$> ms)).
Proof.
  revert t w. induction ms as [|m ms IH]; intros t w Ht Hw Hms.
  { eexists _, _, _. split; [reflexivity|]. intros _. cbn. by rewrite app_nil_r. }
  apply Forall_cons in Hms as [Hm Hms].
  destruct (SendMessage_spec t m w Ht Hw Hm) as (e & t1 & w1 & He & Hw1 & Ht1 & Ho).
  cbn [send_all]. rewrite (M_bind_Ret _ _ _ _ _ He). cbv iota beta.
  destruct e as [e|]; [by eexists _, _, _|]. destruct (IH t1 w1 Ht1 Hw1 Hms) as (e2 & t2 & w2 & He2 & Ho2).
  eexists _, _, _. split; [exact He2|]. intros Hn. rewrite (Ho2 Hn), (Ho eq_refl).
  change (mjoin (frame <$> m :: ms)) with (frame m ++ mjoin (frame <$> ms)). by rewrite app_assoc.
Qed.

(** At the end of the stream the error is the stream's. *)
Lemma ReceiveMessage_end fuel (r : R) w : rd_inv r → world_ok w → (rd_meas r < fuel)%nat → rd_rest r = [] →
  ∃ r' w', ReceiveMessage fuel r w = Ret (([], Some (rd_end r), r'), w').
Proof.
  intros Hr Hw Hf Hrest. unfold ReceiveMessage.
  destruct (ReadFull_spec fuel r 4 w Hr Hw) as
    (d & e & r1 & w1 & He & Hw1 & Hr1 & Hd & Hend & Hmeas & Hlen & Hnone & Herr); [lia|done|].
  rewrite (M_bind_Ret _ _ _ _ _ He). cbv iota beta. rewrite Hrest, (@zlen_nil Z) in Hlen.
  destruct e as [e|]; [|exfalso; destruct Hnone as [Hnone _]; specialize (Hnone eq_refl); lia].
  destruct (Herr e eq_refl) as [_ ->]. assert (zlen d = 0) as -> by lia. change (0 <? 0) with false. cbn [andb].
  by eexists _, _.
Qed.

Lemma receive_all_spec ms n fuel (r : R) w :
  rd_inv r → world_ok w → Forall (λ m, zlen m < 2 ^ 32) ms → (rd_meas r < fuel)%nat →
  rd_rest r = mjoin (frame <$> ms) → (length ms < n)%nat →
  ∃ r' w', receive_all n fuel r w = Ret ((ms, Some (rd_end r), r'), w').
Proof.
  revert n r w. induction ms as [|m ms IH]; intros [|n] r w Hr Hw Hms Hf Hrest Hn; [cbn in Hn; lia| |cbn in Hn; lia|].
  - destruct (ReceiveMessage_end fuel r w Hr Hw Hf Hrest) as (r' & w' & He).
    cbn [receive_all]. rewrite (M_bind_Ret _ _ _ _ _ He). cbv iota beta. by eexists _, _.
  - apply Forall_cons in Hms as [Hm Hms]. cbn [length] in Hn.
    destruct (ReceiveMessage_spec fuel r m (mjoin (frame <$> ms)) w Hr Hw Hm Hf Hrest)
      as (r1 & w1 & He & Hw1 & Hr1 & Hrest1 & Hend & Hmeas).
    cbn [receive_all]. rewrite (M_bind_Ret _ _ _ _ _ He). cbv iota beta.
    destruct (IH n r1 w1 Hr1 Hw1 Hms ltac:(lia) Hrest1 ltac:(lia)) as (r2 & w2 & He2).
    rewrite (M_bind_Ret _ _ _ _ _ He2). cbv iota beta. rewrite Hend. by eexists _, _.
Qed.
End Facts.
End LdmFacts.

(** Messages sent with their lengths are received in order and unchanged, by a
    reader that is handed the stream in pieces of any size, and the end of the
    stream is then reported as what it is; only the length is bounded, by what a
    [uint32] holds. *)
Theorem ldm_roundtrip {T R : Type} `{StreamWriter T} `{StreamReader R}
    (t t' : T) (r : R) (ms : list bytes) (fuel : nat) (w w' : World) :
  wr_inv t → rd_inv r → world_ok w → wr_out t = [] → Forall (λ m, zlen m < 2 ^ 32) ms → (rd_meas r < fuel)%nat →
  LdmFacts.send_all t ms w = Ret ((None, t'), w') → rd_rest r = wr_out t' →
  ∃ r' w'', LdmFacts.receive_all (S (length ms)) fuel r w = Ret ((ms, Some (rd_end r), r'), w'').
Proof.
  intros Ht Hr Hw Ho Hms Hf Hs Hrest.
  destruct (LdmFacts.send_all_spec ms t w Ht Hw Hms) as (e & t1 & w1 & He & Hout). rewrite Hs in He.
  injection He as <- <- _. rewrite (Hout eq_refl), Ho in Hrest. apply LdmFacts.receive_all_spec; auto.
Qed.

Lemma ldm_roundtrip_witness :
  ∃ r' w'', LdmFacts.receive_all 3 20 (Script [[0; 0; 0]; [4; 80; 73; 78; 71; 0]; [0; 0; 0]] (ErrNew EOF)) empty_world =
    Ret (([str "PING"; []], Some (ErrNew EOF), r'), w'').
Proof.
  refine (ldm_roundtrip (Sink [] 100 (ErrNew ErrClosedPipe)) (Sink [0; 0; 0; 4; 80; 73; 78; 71; 0; 0; 0; 0] 88 (ErrNew ErrClosedPipe))
    (Script [[0; 0; 0]; [4; 80; 73; 78; 71; 0]; [0; 0; 0]] (ErrNew EOF)) [str "PING"; []] 20 empty_world empty_world
    _ _ _ _ _ _ _ _).
  - cbn. lia.
  - exact I.
  - exact empty_world_ok.
  - reflexivity.
  - repeat constructor.
  - cbn. lia.
  - by vm_compute.
  - reflexivity.
Defined.

(** ** The goroutines *)
Module HeartbeatFacts.
Import Heartbeat.

(** The message the reader is holding, for the handler or for the heartbeat. *)
Definition pending (s : peer) : list bytes := match reader s with R_send_message m => [m] | _ => [] end.
Definition pending_pong (s : peer) : nat := match reader s with R_send_pong => 1 | _ => 0 end.

Definition count (m : bytes) (l : list bytes) : nat := length (filter (λ x, x = m) l).

Lemma count_app m l k : count m (l ++ k) = (count m l + count m k)%nat.
Proof. unfold count. by rewrite filter_app, length_app. Qed.

Lemma count_one m x : count m [x] = if bool_decide (x = m) then 1%nat else 0%nat.
Proof. unfold count. case_bool_decide; [by rewrite filter_cons_True|by rewrite filter_cons_False]. Qed.

#[local] Arguments count : simpl never.
#[local] Arguments PING : simpl never.
#[local] Arguments PONG : simpl never.

Section Facts.
Context (client : bool) (decode : bytes → bytes).

(** The messages reach the handler in order, without the PONGs. *)
Definition in_order (s : peer) : Prop := handled s ++ pending s = filter (λ m, m ≠ PONG) (received s).

Definition replied (s : peer) : Prop := main s = M_select → replies s = count PING (handled s).

Definition beaten (s : peer) : Prop :=
  chans_closed s = false → (beats s + pending_pong s = count PONG (received s))%nat.

Definition pinged (s : peer) : Prop :=
  match beat s with
  | H_ticker => pings s = beats s
  | H_wait => pings s = S (beats s)
  | H_returned => (beats s ≤ pings s)%nat
  end.

(** Which flags go with which program points. *)
Definition is_done (r : reader_pc) : bool := match r with R_done => true | _ => false end.
Definition is_returned (m : main_pc) : bool := match m with M_returned => true | M_select => false end.
Definition flags (s : peer) : Prop :=
  chans_closed s = is_done (reader s) ∧ conn_closed s = is_returned (main s) ∧
  (beat s = H_returned → heartbeatDone s = client).

Record inv (s : peer) : Prop := mkInv {
  inv_order : in_order s; inv_replied : replied s; inv_beaten : beaten s; inv_pinged : pinged s; inv_flags : flags s
}.

Lemma peer_init_inv : inv init.
Proof. split; unfold in_order, replied, beaten, pinged, flags; cbn; naive_solver. Qed.

Ltac open_inv :=
  unfold in_order, replied, beaten, pinged, flags, pending, pending_pong in *; cbn in *.
Ltac by_cases := repeat match goal with |- _ ∧ _ => split end; try done; try congruence; try lia.

Lemma read_inv r s s' : inv s → read_step decode r s = Some s' → inv s'.
Proof.
  intros [Ho Hr Hb Hp (Hf1 & Hf2 & Hf3)] Hs. unfold read_step in Hs. open_inv.
  destruct (reader s) eqn:Hrd; try done. destruct r as [data|err].
  - destruct (conn_closed s) eqn:Hc; [done|]. injection Hs as <-. rewrite app_nil_r in Ho. specialize (Hb Hf1).
    split; open_inv; rewrite ?Hf1; try done.
    + rewrite filter_app. case_bool_decide as Hm.
      * rewrite (filter_cons_False _ _ []) by (by intros []). by rewrite filter_nil, !app_nil_r.
      * by rewrite Ho, filter_cons_True.
    + intros _. rewrite count_app, count_one. case_bool_decide; lia.
    + by case_bool_decide.
  - destruct (negb (is_EOF err) && is_net err && (Temporary err || Timeout err)).
    + destruct (conn_closed s) eqn:Hc; [done|]. injection Hs as <-. split; open_inv; rewrite ?Hrd, ?Hc; auto.
    + injection Hs as <-. by split; open_inv.
Qed.

Lemma handle_inv m write_ok s : main s = M_select → reader s = R_send_message m → inv s →
  inv (handle m write_ok (set_reader R_read s)).
Proof.
  intros Hm Hrd [Ho Hr Hb Hp (Hf1 & Hf2 & Hf3)]. open_inv. rewrite Hrd in *. specialize (Hr Hm). rewrite Hm in *.
  specialize (Hb Hf1). unfold handle, return_main. cbn. rewrite Hf2. rewrite andb_true_r.
  case_bool_decide as Hping; [destruct write_ok|];
    split; open_inv; rewrite ?app_nil_r, ?count_app, ?count_one, ?Hm; try done; intros _; try lia.
  - rewrite bool_decide_eq_true_2 by done. lia.
  - rewrite bool_decide_eq_false_2 by done. lia.
Qed.

Lemma step_inv_peer c s s' : inv s → step client decode c s = Some s' → inv s'.
Proof.
  intros Hi Hs. destruct c; cbn in Hs; [by eapply read_inv|..].
  { destruct (main s) eqn:Hm, (reader s) eqn:Hrd; try done. injection Hs as <-. by apply handle_inv. }
  all: destruct Hi as [Ho Hr Hb Hp (Hf1 & Hf2 & Hf3)]; open_inv.
  - destruct (main s) eqn:Hm; try done. destruct (chans_closed s) eqn:Hcl; try done. injection Hs as <-.
    split; open_inv; by_cases.
  - destruct (main s) eqn:Hm; try done. destruct (client && heartbeatDone s); try done. injection Hs as <-.
    split; open_inv; by_cases.
  - destruct (beat s) eqn:Hbt; try done.
    destruct (write_ok && negb (conn_closed s)); injection Hs as <-; split; open_inv; by_cases.
  - destruct (beat s) eqn:Hbt; try done. destruct (chans_closed s) eqn:Hc.
    + injection Hs as <-. split; open_inv; by_cases.
    + destruct (reader s) eqn:Hrd; try done. injection Hs as <-. specialize (Hb eq_refl).
      split; open_inv; rewrite ?Hc, ?Hrd; by_cases.
  - destruct (beat s) eqn:Hbt; try done. injection Hs as <-. split; open_inv; by_cases.
Qed.

Lemma peer_reachable_inv cs s : run_steps (step client decode) cs init = Some s → inv s.
Proof. apply run_steps_inv; [intros *; apply step_inv_peer|apply peer_init_inv]. Qed.
End Facts.
End HeartbeatFacts.

(** In every run of a connection, server or client, with lines or with length
    prefixes, the handler has taken the messages that were read in their order,
    the PONGs left out; as long as it runs it has answered every PING it took;
    and until the reader has finished, the heartbeat has reported success once
    for every PONG handed to it, never more often than it sent PING. *)
Theorem heartbeat_answers_pings (client : bool) (decode : bytes → bytes) (cs : list Heartbeat.choice) (s : Heartbeat.peer) :
  run_steps (Heartbeat.step client decode) cs Heartbeat.init = Some s →
  Heartbeat.handled s ++ HeartbeatFacts.pending s = filter (λ m, m ≠ Heartbeat.PONG) (Heartbeat.received s) ∧
  (Heartbeat.main s = Heartbeat.M_select →
     Heartbeat.replies s = HeartbeatFacts.count Heartbeat.PING (Heartbeat.handled s)) ∧
  (Heartbeat.chans_closed s = false →
     (Heartbeat.beats s + HeartbeatFacts.pending_pong s = HeartbeatFacts.count Heartbeat.PONG (Heartbeat.received s))%nat) ∧
  (Heartbeat.beats s ≤ Heartbeat.pings s)%nat.
Proof.
  intros Hr. destruct (HeartbeatFacts.peer_reachable_inv _ _ _ _ Hr) as [Ho Hp Hb Hpi _]. split_and!; [done..|].
  unfold HeartbeatFacts.pinged in Hpi. destruct (Heartbeat.beat s); lia.
Qed.

(** A server that is pinged, greeted and then answered. *)
Definition heartbeat_run : list Heartbeat.choice :=
  [Heartbeat.Read (inl (str "PING" ++ [13; 10])); Heartbeat.TakeMessage true; Heartbeat.Read (inl (str "hi" ++ [10]));
   Heartbeat.TakeMessage true; Heartbeat.Tick true; Heartbeat.Read (inl (str "PONG" ++ [10])); Heartbeat.TakePong].

Lemma heartbeat_answers_pings_witness :
  ∃ s, run_steps Heartbeat.tcp_server heartbeat_run Heartbeat.init = Some s ∧
    Heartbeat.handled s = [str "PING"; str "hi"] ∧ Heartbeat.replies s = 1%nat ∧ Heartbeat.beats s = 1%nat ∧
    Heartbeat.handled s ++ HeartbeatFacts.pending s = filter (λ m, m ≠ Heartbeat.PONG) (Heartbeat.received s).
Proof.
  destruct (run_steps Heartbeat.tcp_server heartbeat_run Heartbeat.init) as [s|] eqn:Hs; [|by vm_compute in Hs].
  exists s. destruct (heartbeat_answers_pings false TrimSpace heartbeat_run s Hs) as (Ho & _).
  split_and!; [done| | | |exact Ho]; by vm_compute in Hs; injection Hs as <-.
Defined.

(** C25: when the goroutines of a connection are stuck for ever while the handler
    still runs: exactly when the program is a server, its heartbeat has given up
    after a timeout (or a failed write), and the reader then received a PONG,
    which nobody takes any more.  The connection is then never closed and no
    message is handled.  A client cannot be stuck, because it watches the end of
    its heartbeat. *)
Theorem heartbeat_stuck_iff (client : bool) (decode : bytes → bytes) (cs : list Heartbeat.choice) (s : Heartbeat.peer) :
  run_steps (Heartbeat.step client decode) cs Heartbeat.init = Some s → Heartbeat.main s = Heartbeat.M_select →
  ((∀ c, Heartbeat.step client decode c s = None) ↔
   client = false ∧ Heartbeat.reader s = Heartbeat.R_send_pong ∧ Heartbeat.beat s = Heartbeat.H_returned).
Proof.
  intros Hr Hm. destruct (HeartbeatFacts.peer_reachable_inv _ _ _ _ Hr) as [_ _ _ _ (Hf1 & Hf2 & Hf3)].
  rewrite Hm in Hf2. split.
  - intros Hnone. destruct (Heartbeat.reader s) eqn:Hrd.
    + specialize (Hnone (Heartbeat.Read (inr (Heartbeat.mkReadError true false false false)))). cbn in Hnone.
      unfold Heartbeat.read_step in Hnone. by rewrite Hrd in Hnone.
    + specialize (Hnone (Heartbeat.TakeMessage true)). cbn in Hnone. by rewrite Hm, Hrd in Hnone.
    + destruct (Heartbeat.beat s) eqn:Hb.
      * specialize (Hnone (Heartbeat.Tick true)). cbn in Hnone. rewrite Hb in Hnone. by case_match.
      * specialize (Hnone Heartbeat.TakePong). cbn in Hnone. rewrite Hb, Hrd in Hnone. by case_match.
      * split_and!; [|done..]. specialize (Hnone Heartbeat.TakeHeartbeatDone). cbn in Hnone.
        rewrite Hm, (Hf3 eq_refl) in Hnone. by destruct client.
    + specialize (Hnone Heartbeat.TakeClosed). cbn in Hnone. by rewrite Hm, Hf1 in Hnone.
  - intros (-> & Hrd & Hb) c. rewrite Hrd in Hf1.
    destruct c; cbn; unfold Heartbeat.read_step; by rewrite ?Hm, ?Hrd, ?Hb, ?Hf1.
Qed.

(** A PONG that comes after the heartbeat has timed out. *)
Definition late_pong : list Heartbeat.choice :=
  [Heartbeat.Tick true; Heartbeat.BeatTimeout; Heartbeat.Read (inl (str "PONG"))].

Lemma heartbeat_stuck_iff_witness :
  ∃ s, run_steps Heartbeat.tcpv2_server late_pong Heartbeat.init = Some s ∧
    Heartbeat.conn_closed s = false ∧ ∀ c, Heartbeat.tcpv2_server c s = None.
Proof.
  destruct (run_steps Heartbeat.tcpv2_server late_pong Heartbeat.init) as [s|] eqn:Hs; [|by vm_compute in Hs].
  exists s. split; [done|]. split; [by vm_compute in Hs; injection Hs as <-|].
  apply (heartbeat_stuck_iff false id late_pong s Hs); [|split; [done|]];
    by vm_compute in Hs; injection Hs as <-.
Defined.

(** The end of the connection is taken for an answer: a PING that was sent
    before the reader finished is reported as successful without a PONG. *)
Lemma heartbeat_success_without_pong :
  ∃ s, run_steps Heartbeat.tcp_server
         [Heartbeat.Tick true; Heartbeat.Read (inr (Heartbeat.mkReadError true false false false)); Heartbeat.TakePong]
         Heartbeat.init = Some s ∧
    Heartbeat.beats s = 1%nat ∧ Heartbeat.received s = [].
Proof. eexists. by split; [vm_compute; reflexivity|]. Qed.
