(* ===== verification/WebSocket.v ===== *)
(** * Websockets

    http/client/gorilla.go and websocket.go, the [WS] method of fetcher.go, and
    the echo servers of snippets/httproto/ws.  The websocket libraries are what
    the choices of the steps stand for: the result of each dial, read and write.
    One channel operation, one [select] and one call of the library are each one
    step of a goroutine. *)
From S2P Require Import Prelude Errors NetAddr NetText TcpClient HttpText Cli.

(** ** Addresses and handlers *)
Module WsAddr.

(** The address that is dialled. *)
Definition server_addr (u : ReqURL) : bytes :=
  if Grpcrefl.EqualFold (Scheme u) (str "https")
  then str "wss://" ++ URLHost u ++ RequestURI u
  else str "ws://" ++ URLHost u ++ RequestURI u.

(** Whether the dialer of [doGorilla] skips the verification of certificates. *)
Definition gorilla_insecure (ctx : context) (u : ReqURL) : bool :=
  Grpcrefl.EqualFold (Scheme u) (str "https") && InsecureFromContext ctx.

Definition websocket_origin (req : Request) (u : ReqURL) : bytes :=
  match Header_Get (RHeader req) (str "Origin") with
  | [] => Scheme u ++ str "://" ++ URLHost u
  | origin => origin
  end.

(** The ping handler, with the result of writing the pong: [close_sent] is
    [errors.Is(err, ErrCloseSent)], [temporary] the assertion to [net.Error]
    together with [Temporary]. *)
Definition ping_handler (close_sent temporary : error → bool) (write : option error) : option error :=
  match write with
  | None => None
  | Some err => if close_sent err then None else if temporary err then None else Some err
  end.

(** Which client [WS] runs. *)
Definition WS (ctx : context) {A} (doGorilla doWebsocket : A) : A :=
  if GorillaFromContext ctx then doGorilla else doWebsocket.
End WsAddr.

Definition is_quit (msg : bytes) : bool := bool_decide (msg = str ":quit") || bool_decide (msg = str ":exit").

(** A goroutine that reads in a loop and sends on a channel: before the [select]
    on the context, in the read, in the send, in the two deferred calls
    ([wg.Done], then [close]), finished. *)
Inductive loop_pc := L_check | L_read | L_send (m : bytes) | L_done | L_close | L_end.

(** ** gorilla.go *)
Module Gorilla.

Inductive frame := TextMessage (m : bytes) | CloseMessage (reason : bytes).
Inductive main_pc := G_select | G_wait | G_ret (err : option error).

(** [reader]: wsGorillaLoop; [input]: wsInputLoop.  [messages] is the buffer of
    messageChannel.  [got] and [lines] record what the two loops have read,
    [shown] what was printed and [sent] what was written to the connection. *)
Record session := mkSession {
  reader : loop_pc; input : loop_pc; main : main_pc;
  cancelled : bool; wg : nat;
  messages : list bytes; messages_closed : bool; input_closed : bool;
  got : list bytes; shown : list bytes; lines : list bytes; sent : list frame
}.

Definition init : session := mkSession L_check L_check G_select false 2 [] false false [] [] [] [].

Definition set_reader (pc : loop_pc) (s : session) : session :=
  mkSession pc (input s) (main s) (cancelled s) (wg s) (messages s) (messages_closed s) (input_closed s)
    (got s) (shown s) (lines s) (sent s).
Definition set_input (pc : loop_pc) (s : session) : session :=
  mkSession (reader s) pc (main s) (cancelled s) (wg s) (messages s) (messages_closed s) (input_closed s)
    (got s) (shown s) (lines s) (sent s).
Definition wg_done (s : session) : session :=
  mkSession (reader s) (input s) (main s) (cancelled s) (pred (wg s)) (messages s) (messages_closed s) (input_closed s)
    (got s) (shown s) (lines s) (sent s).
(** [doGorilla] goes to its [wg.Wait]. *)
Definition start_wait (s : session) : session :=
  mkSession (reader s) (input s) G_wait (cancelled s) (wg s) (messages s) (messages_closed s) (input_closed s)
    (got s) (shown s) (lines s) (sent s).
(** It returns; the deferred [cancel] and [conn.Close] run. *)
Definition return_with (err : option error) (s : session) : session :=
  mkSession (reader s) (input s) (G_ret err) true (wg s) (messages s) (messages_closed s) (input_closed s)
    (got s) (shown s) (lines s) (sent s).
(** It writes a frame; a close is followed by [cancel]. *)
Definition write_frame (f : frame) (s : session) : session :=
  mkSession (reader s) (input s) (main s) (match f with CloseMessage _ => true | _ => cancelled s end) (wg s)
    (messages s) (messages_closed s) (input_closed s) (got s) (shown s) (lines s) (sent s ++ [f]).

Inductive choice :=
  | ReaderStep                         (** the next step of wsGorillaLoop that is not a read *)
  | ReaderReads (r : bytes + error)    (** [conn.ReadMessage] *)
  | InputStep
  | InputReads (r : bytes + error)     (** [reader.ReadString('\n')] *)
  | SeeDone                            (** the cases of the [select] of doGorilla *)
  | TakeMessage
  | TakeInput (write : option error)   (** and the result of writing it *)
  | SelectTimeout
  | WaitReturns.                       (** [wg.Wait] *)

Definition capacity : nat := 10.

(** wsGorillaLoop, reads apart. *)
Definition reader_step (s : session) : option session :=
  match reader s with
  | L_check => Some (set_reader (if cancelled s then L_done else L_read) s)
  | L_read => None
  | L_send m =>
      if (length (messages s) <? capacity)%nat then
        Some (mkSession L_check (input s) (main s) (cancelled s) (wg s) (messages s ++ [m]) (messages_closed s)
                (input_closed s) (got s) (shown s) (lines s) (sent s))
      else None
  | L_done => Some (wg_done (set_reader L_close s))
  | L_close =>
      Some (mkSession L_end (input s) (main s) (cancelled s) (wg s) (messages s) true (input_closed s)
              (got s) (shown s) (lines s) (sent s))
  | L_end => None
  end.

Definition wsGorillaLoop (r : bytes + error) (s : session) : option session :=
  match reader s, r with
  | L_read, inr _ => Some (set_reader L_done s)
  | L_read, inl msg =>
      match main s with
      | G_ret _ => None      (* the connection is closed: reads fail *)
      | _ => Some (mkSession (L_send msg) (input s) (main s) (cancelled s) (wg s) (messages s) (messages_closed s)
                     (input_closed s) (got s ++ [msg]) (shown s) (lines s) (sent s))
      end
  | _, _ => None
  end.

(** wsInputLoop, reads and the send apart. *)
Definition input_step (s : session) : option session :=
  match input s with
  | L_check => Some (set_input (if cancelled s then L_done else L_read) s)
  | L_done => Some (wg_done (set_input L_close s))
  | L_close =>
      Some (mkSession (reader s) L_end (main s) (cancelled s) (wg s) (messages s) (messages_closed s) true
              (got s) (shown s) (lines s) (sent s))
  | _ => None
  end.

Definition wsInputLoop (r : bytes + error) (s : session) : option session :=
  match input s, r with
  | L_read, inr _ => Some (set_input L_done s)
  | L_read, inl line =>
      let msg := TrimSpace line in
      Some (mkSession (reader s) (L_send msg) (main s) (cancelled s) (wg s) (messages s) (messages_closed s)
              (input_closed s) (got s) (shown s) (lines s ++ [msg]) (sent s))
  | _, _ => None
  end.

(** doGorilla with a line from inputChannel. *)
Definition take_input (msg : bytes) (write : option error) (s : session) : session :=
  if is_quit msg then write_frame (CloseMessage msg) s
  else match write with
       | Some er => return_with (Some er) s
       | None => write_frame (TextMessage msg) s
       end.

Definition doGorilla (c : choice) (s : session) : option session :=
  match c with
  | ReaderStep => reader_step s
  | ReaderReads r => wsGorillaLoop r s
  | InputStep => input_step s
  | InputReads r => wsInputLoop r s
  | SeeDone => match main s with G_select => if cancelled s then Some (start_wait s) else None | _ => None end
  | TakeMessage =>
      match main s, messages s with
      | G_select, m :: rest =>
          Some (mkSession (reader s) (input s) (main s) (cancelled s) (wg s) rest (messages_closed s) (input_closed s)
                  (got s) (shown s ++ [m]) (lines s) (sent s))
      | G_select, [] => if messages_closed s then Some (return_with None s) else None
      | _, _ => None
      end
  | TakeInput write =>
      match main s, input s with
      | G_select, L_send msg => Some (take_input msg write (set_input (if is_quit msg then L_done else L_check) s))
      | G_select, _ => if input_closed s then Some (return_with None s) else None
      | _, _ => None
      end
  | SelectTimeout => match main s with G_select => Some s | _ => None end
  | WaitReturns =>
      match main s with
      | G_wait => if (wg s =? 0)%nat then Some (return_with None s) else None
      | _ => None
      end
  end.
End Gorilla.

(** ** websocket.go *)
Module XNet.

Inductive main_pc := X_input | X_select | X_wait | X_ret (err : option error).

Record session := mkSession {
  reader : loop_pc; main : main_pc; cancelled : bool; wg : nat;
  messages : list bytes; messages_closed : bool; got : list bytes; shown : list bytes; sent : list bytes
}.

Definition init : session := mkSession L_check X_input false 1 [] false [] [] [].

Definition set_reader (pc : loop_pc) (s : session) : session :=
  mkSession pc (main s) (cancelled s) (wg s) (messages s) (messages_closed s) (got s) (shown s) (sent s).
Definition set_main (pc : main_pc) (s : session) : session :=
  mkSession (reader s) pc (cancelled s) (wg s) (messages s) (messages_closed s) (got s) (shown s) (sent s).
Definition cancel (s : session) : session :=
  mkSession (reader s) (main s) true (wg s) (messages s) (messages_closed s) (got s) (shown s) (sent s).

Inductive choice :=
  | ReaderStep
  | ReaderReads (r : bytes + error)                  (** [websocket.Message.Receive] *)
  | InputReads (line : bytes) (write : option error) (** a line, and the result of sending it *)
  | SeeDone | TakeMessage | SelectTimeout | WaitReturns.

(** wsReadLoop, reads apart. *)
Definition reader_step (s : session) : option session :=
  match reader s with
  | L_check => Some (set_reader (if cancelled s then L_done else L_read) s)
  | L_read => None
  | L_send m =>
      if (length (messages s) <? Gorilla.capacity)%nat then
        Some (mkSession L_check (main s) (cancelled s) (wg s) (messages s ++ [m]) (messages_closed s)
                (got s) (shown s) (sent s))
      else None
  | L_done => Some (mkSession L_close (main s) (cancelled s) (pred (wg s)) (messages s) (messages_closed s)
                      (got s) (shown s) (sent s))
  | L_close => Some (mkSession L_end (main s) (cancelled s) (wg s) (messages s) true (got s) (shown s) (sent s))
  | L_end => None
  end.

Definition wsReadLoop (r : bytes + error) (s : session) : option session :=
  match reader s, r with
  | L_read, inr _ => Some (set_reader L_done s)
  | L_read, inl data =>
      match main s with
      | X_ret _ => None
      | _ => let msg := TrimSpace data in
             Some (mkSession (L_send msg) (main s) (cancelled s) (wg s) (messages s) (messages_closed s)
                     (got s ++ [msg]) (shown s) (sent s))
      end
  | _, _ => None
  end.

(** The error of [ReadString] is ignored; a quit command cancels and is sent. *)
Definition read_and_send (line : bytes) (write : option error) (s : session) : session :=
  let msg := TrimSpace line in
  let s := if is_quit msg then cancel s else s in
  match write with
  | Some er => cancel (set_main (X_ret (Some er)) s)
  | None => mkSession (reader s) X_select (cancelled s) (wg s) (messages s) (messages_closed s)
              (got s) (shown s) (sent s ++ [msg])
  end.

Definition doWebsocket (c : choice) (s : session) : option session :=
  match c with
  | ReaderStep => reader_step s
  | ReaderReads r => wsReadLoop r s
  | InputReads line write => match main s with X_input => Some (read_and_send line write s) | _ => None end
  | SeeDone => match main s with X_select => if cancelled s then Some (set_main X_wait s) else None | _ => None end
  | TakeMessage =>
      match main s, messages s with
      | X_select, m :: rest =>
          Some (mkSession (reader s) X_input (cancelled s) (wg s) rest (messages_closed s) (got s) (shown s ++ [m]) (sent s))
      | X_select, [] => if messages_closed s then Some (cancel (set_main (X_ret None) s)) else None
      | _, _ => None
      end
  | SelectTimeout => match main s with X_select => Some (set_main X_input s) | _ => None end
  | WaitReturns =>
      match main s with
      | X_wait => if (wg s =? 0)%nat then Some (set_main (X_ret None) s) else None
      | _ => None
      end
  end.
End XNet.

(** ** The echo servers of snippets/httproto/ws *)
Module WsEcho.

Inductive echo_pc := E_run | E_returned.

(** readLoop sends on an unbuffered channel that it closes at its end. *)
Record echo := mkEcho {
  reader : loop_pc; main : echo_pc; ctx_done : bool; received : list (Z * bytes); echoed : list (Z * bytes);
  held : option (Z * bytes)
}.

Definition init : echo := mkEcho L_check E_run false [] [] None.

Definition return_ (s : echo) : echo := mkEcho (reader s) E_returned (ctx_done s) (received s) (echoed s) (held s).
Definition set_reader (pc : loop_pc) (s : echo) : echo :=
  mkEcho pc (main s) (ctx_done s) (received s) (echoed s) (held s).

Inductive choice :=
  | ReaderStep | ReaderReads (r : Z * bytes + error)
  | ContextDone | SeeDone
  | TakeMessage (write : option error) | Ping (write : option error).

(** readLoop; its only deferred call is [close(msgCh)]. *)
Definition readLoop (r : option (Z * bytes + error)) (s : echo) : option echo :=
  match reader s, r with
  | L_check, None => Some (set_reader (if ctx_done s then L_close else L_read) s)
  | L_read, Some (inr _) => Some (set_reader L_close s)
  | L_read, Some (inl m) =>
      match main s with
      | E_returned => None   (* the connection is closed *)
      | E_run => Some (mkEcho (L_send m.2) E_run (ctx_done s) (received s ++ [m]) (echoed s) (Some m))
      end
  | L_close, None => Some (set_reader L_end s)
  | _, _ => None
  end.

(** gorillaEchoHandler. *)
Definition gorillaEchoHandler (c : choice) (s : echo) : option echo :=
  match c with
  | ReaderStep => readLoop None s
  | ReaderReads r => readLoop (Some r) s
  | ContextDone => Some (mkEcho (reader s) (main s) true (received s) (echoed s) (held s))
  | SeeDone => match main s with E_run => if ctx_done s then Some (return_ s) else None | _ => None end
  | TakeMessage write =>
      match main s, reader s, held s with
      | E_run, L_send _, Some m =>
          let s := mkEcho L_check E_run (ctx_done s) (received s) (echoed s) None in
          match write with
          | Some _ => Some (return_ s)
          | None => Some (mkEcho L_check E_run (ctx_done s) (received s) (echoed s ++ [m]) None)
          end
      | E_run, L_end, _ => Some (return_ s)
      | _, _, _ => None
      end
  | Ping write =>
      match main s with
      | E_run => match write with Some _ => Some (return_ s) | None => Some s end
      | E_returned => None
      end
  end.

(** simpleEchoHandler, on the results of its receives, each with that of the
    send that follows; [cancelled]: [ctx] is done before the loop's next turn. *)
Fixpoint simpleEchoHandler (script : list (bool * (bytes + error) * option error)) : list bytes :=
  match script with
  | [] => []
  | (cancelled, receive, send) :: script' =>
      if (cancelled : bool) then []
      else match receive with
           | inr _ => []
           | inl msg => match send with
                        | Some _ => []
                        | None => msg :: simpleEchoHandler script'
                        end
           end
  end.
End WsEcho.
