(* ===== verification/WebSocketSpec.v ===== *)
(** * Theorems on websockets

    Messages are printed in the order they are read and lines are sent in the
    order they are typed; when the client hangs on exit; the echo server
    answers in order. *)
From S2P Require Import Prelude Errors NetAddr NetText TcpClient HttpText Cli WebSocket.

(** The message a loop is about to send. *)
Definition loop_pending (pc : loop_pc) : list bytes := match pc with L_send m => [m] | _ => [] end.

(** Whether a loop still has its [wg.Done] before it. *)
Definition loop_counts (pc : loop_pc) : nat := match pc with L_close | L_end => 0 | _ => 1 end.

Definition loop_over (pc : loop_pc) : Prop := match pc with L_done | L_close | L_end => True | _ => False end.

(** ** gorilla.go *)
Module GorillaFacts.
Import Gorilla.

(** What is written to the connection for a line. *)
Definition frame_of (msg : bytes) : frame := if is_quit msg then CloseMessage msg else TextMessage msg.

Definition failed (s : session) : Prop := ∃ err, main s = G_ret (Some err).
Definition running (s : session) : Prop := match main s with G_ret _ => False | _ => True end.

Record inv (s : session) : Prop := mkInv {
  inv_got : shown s ++ messages s ++ loop_pending (reader s) = got s;
  inv_cap : (length (messages s) ≤ capacity)%nat;
  inv_sent : failed s ∨ sent s ++ (frame_of <$> loop_pending (input s)) = frame_of <$> lines s;
  inv_wg : wg s = (loop_counts (reader s) + loop_counts (input s))%nat;
  inv_over : running s → cancelled s = true → loop_over (input s);
  inv_wait : main s = G_wait → cancelled s = true
}.

Lemma gorilla_init_inv : inv init.
Proof. split; cbn; [done|unfold capacity; lia|by right|done|done|done]. Qed.

Ltac crush :=
  split; cbn in *; rewrite ?app_nil_r, ?fmap_app, ?length_app in *; cbn in *;
  try done; try lia; try tauto; try (by intros; congruence).

Lemma reader_step_inv s s' : inv s → reader_step s = Some s' → inv s'.
Proof.
  intros [Hg Hc Hs Hw Ho Hwt] Hst. unfold reader_step, wg_done, set_reader in Hst.
  destruct (reader s) eqn:Hr; try done.
  - injection Hst as <-. destruct (cancelled s) eqn:Hcn; crush.
  - destruct (Nat.ltb_spec (length (messages s)) capacity); [|done]. injection Hst as <-. crush.
  - injection Hst as <-. crush.
  - injection Hst as <-. crush.
Qed.

Lemma reader_reads_inv r s s' : inv s → wsGorillaLoop r s = Some s' → inv s'.
Proof.
  intros [Hg Hc Hs Hw Ho Hwt] Hst. unfold wsGorillaLoop, set_reader in Hst.
  destruct (reader s) eqn:Hr; try done. destruct r as [m|err].
  - destruct (main s) eqn:Hm; try done; injection Hst as <-; unfold failed, running in *; rewrite ?Hm in *; crush;
      by rewrite <- Hg, !app_assoc.
  - injection Hst as <-. crush.
Qed.

Lemma input_step_inv s s' : inv s → input_step s = Some s' → inv s'.
Proof.
  intros [Hg Hc Hs Hw Ho Hwt] Hst. unfold input_step, wg_done, set_input in Hst.
  destruct (input s) eqn:Hr; try done.
  - injection Hst as <-. destruct (cancelled s) eqn:Hcn; crush.
  - injection Hst as <-. crush.
  - injection Hst as <-. crush.
Qed.

Lemma input_reads_inv r s s' : inv s → wsInputLoop r s = Some s' → inv s'.
Proof.
  intros [Hg Hc Hs Hw Ho Hwt] Hst. unfold wsInputLoop, set_input in Hst.
  destruct (input s) eqn:Hr; try done. destruct r as [m|err]; injection Hst as <-; crush.
  destruct Hs as [Hs|Hs]; [by left|right]. by rewrite Hs.
Qed.

Lemma take_input_inv m write s : main s = G_select → input s = L_send m → inv s →
  inv (take_input m write (set_input (if is_quit m then L_done else L_check) s)).
Proof.
  intros Hm Hi [Hg Hc Hs Hw Ho Hwt]. unfold take_input, write_frame, return_with, set_input, failed, running in *.
  rewrite Hm in *. destruct Hs as [[err Hs]|Hs]; [done|]. rewrite Hi in *. cbn in Hs.
  assert (cancelled s = false) as Hcn by (destruct (cancelled s); [by destruct (Ho I eq_refl)|done]).
  destruct (is_quit m) eqn:Hq.
  - crush. right. by rewrite <- Hs; unfold frame_of; rewrite Hq.
  - destruct write; crush.
    + left. by eexists.
    + right. by rewrite <- Hs; unfold frame_of; rewrite Hq.
Qed.

(** Returning without an error. *)
Lemma return_inv s : running s → inv s → inv (return_with None s).
Proof.
  intros Hr [Hg Hc Hs Hw Ho Hwt]. unfold failed, running in *. crush.
  destruct Hs as [[err Hs]|Hs]; [by rewrite Hs in Hr|by right].
Qed.

Lemma doGorilla_inv c s s' : inv s → doGorilla c s = Some s' → inv s'.
Proof.
  intros Hi Hst. destruct c; cbn in Hst;
    [by eapply reader_step_inv|by eapply reader_reads_inv|by eapply input_step_inv|by eapply input_reads_inv|..].
  all: destruct (main s) eqn:Hm; try done; assert (running s) as Hrun by (by unfold running; rewrite Hm).
  - destruct (cancelled s) eqn:Hcn; [|done]. injection Hst as <-.
    destruct Hi as [Hg Hc Hs Hw Ho Hwt]. unfold failed, running in *. crush.
    destruct Hs as [[err Hs]|Hs]; [by rewrite Hs in Hm|by right].
  - destruct (messages s) as [|m rest] eqn:Hms.
    + destruct (messages_closed s); [|done]. injection Hst as <-. by apply return_inv.
    + injection Hst as <-. destruct Hi as [Hg Hc Hs Hw Ho Hwt]. unfold failed, running in *. rewrite Hms in *. crush.
      * by rewrite <- Hg, <- app_assoc.
      * destruct Hs as [[err Hs]|Hs]; [by rewrite Hs in Hm|by right].
  - destruct (input s) eqn:Hin; [..| |]; try (destruct (input_closed s); [|done]; injection Hst as <-; by apply return_inv).
    injection Hst as <-. by apply take_input_inv.
  - by injection Hst as <-.
  - destruct (wg s =? 0)%nat; [|done]. injection Hst as <-. by apply return_inv.
Qed.

Lemma gorilla_reachable_inv cs s : run_steps doGorilla cs init = Some s → inv s.
Proof. apply run_steps_inv; [intros *; apply doGorilla_inv|apply gorilla_init_inv]. Qed.
End GorillaFacts.


(** The server sends two messages; one is printed; a line and a quit are typed. *)
Definition gorilla_run : list Gorilla.choice :=
  [Gorilla.ReaderStep; Gorilla.ReaderReads (inl (str "a")); Gorilla.ReaderStep; Gorilla.ReaderStep;
   Gorilla.ReaderReads (inl (str "b")); Gorilla.TakeMessage;
   Gorilla.InputStep; Gorilla.InputReads (inl (str " hi" ++ [10])); Gorilla.TakeInput None;
   Gorilla.InputStep; Gorilla.InputReads (inl (str ":quit" ++ [10])); Gorilla.TakeInput None; Gorilla.SeeDone].


(** C22: a client that was told to quit and waits for its goroutines is stuck for ever
    exactly when its reader holds a message and the channel already has ten: the
    wait has taken away the only receiver.  Otherwise some goroutine can move. *)
Theorem gorilla_quit_stuck_iff (cs : list Gorilla.choice) (s : Gorilla.session) :
  run_steps Gorilla.doGorilla cs Gorilla.init = Some s → Gorilla.main s = Gorilla.G_wait →
  ((∀ c, Gorilla.doGorilla c s = None) ↔
   Gorilla.input s = L_end ∧ (∃ m, Gorilla.reader s = L_send m) ∧ length (Gorilla.messages s) = 10%nat).
Proof.
  intros Hr Hm. destruct (GorillaFacts.gorilla_reachable_inv _ _ Hr) as [_ Hc _ Hw Ho Hwt].
  unfold GorillaFacts.running in Ho. rewrite Hm in Ho. specialize (Ho I (Hwt Hm)). split.
  - intros Hnone.
    pose proof (Hnone Gorilla.InputStep) as Hi. pose proof (Hnone Gorilla.ReaderStep) as Hrs.
    pose proof (Hnone (Gorilla.ReaderReads (inl []))) as Hrr. pose proof (Hnone Gorilla.WaitReturns) as Hwr.
    cbn in Hi, Hrs, Hrr, Hwr. unfold Gorilla.input_step, Gorilla.reader_step, Gorilla.wsGorillaLoop in *.
    rewrite Hm in *. destruct (Gorilla.input s) eqn:Hin; try done. cbn in Hw. rewrite Nat.add_0_r in Hw.
    destruct (Gorilla.reader s) eqn:Hrd; cbn in Hw; rewrite ?Hw in Hwr; try done.
    destruct (Nat.ltb_spec (length (Gorilla.messages s)) Gorilla.capacity); [done|].
    unfold Gorilla.capacity in *. split_and!; [done|by eexists|lia].
  - intros (Hin & [m Hrd] & Hlen) c. rewrite Hin, Hrd in Hw. cbn in Hw.
    destruct c; cbn; unfold Gorilla.input_step, Gorilla.reader_step, Gorilla.wsGorillaLoop, Gorilla.wsInputLoop;
      by rewrite ?Hm, ?Hin, ?Hrd, ?Hlen, ?Hw.
Qed.

(** Eleven messages arrive before the quit command is taken. *)
Definition gorilla_flood : list Gorilla.choice :=
  mjoin (replicate 11 [Gorilla.ReaderStep; Gorilla.ReaderReads (inl (str "x")); Gorilla.ReaderStep]) .
Definition gorilla_hang : list Gorilla.choice :=
  take 32 gorilla_flood ++
  [Gorilla.InputStep; Gorilla.InputReads (inl (str ":quit" ++ [10])); Gorilla.TakeInput None; Gorilla.SeeDone;
   Gorilla.InputStep; Gorilla.InputStep].

Lemma gorilla_quit_stuck_iff_witness :
  ∃ s, run_steps Gorilla.doGorilla gorilla_hang Gorilla.init = Some s ∧ Gorilla.main s = Gorilla.G_wait ∧
    ∀ c, Gorilla.doGorilla c s = None.
Proof.
  destruct (run_steps Gorilla.doGorilla gorilla_hang Gorilla.init) as [s|] eqn:Hs; [|by vm_compute in Hs].
  assert (Gorilla.main s = Gorilla.G_wait) as Hm by (by vm_compute in Hs; injection Hs as <-).
  exists s. split_and!; [done..|]. apply (gorilla_quit_stuck_iff gorilla_hang s Hs Hm).
  vm_compute in Hs. injection Hs as <-. split_and!; [done|by eexists|done].
Defined.

(** ** websocket.go *)
Module XNetFacts.
Import XNet.

(** When the input has ended, every read gives an empty line without looking at
    the error: the client sends empty messages, one per second, for ever. *)
Definition spin (n : nat) : list choice := mjoin (replicate n [InputReads [] None; SelectTimeout]).

Lemma spin_step k s : main s = X_input → run_steps doWebsocket (spin k) s =
  Some (mkSession (reader s) X_input (cancelled s) (wg s) (messages s) (messages_closed s) (got s) (shown s)
          (sent s ++ replicate k [])).
Proof.
  revert s. induction k as [|k IH]; intros s Hm.
  - cbn. rewrite app_nil_r. by destruct s; cbn in *; subst.
  - change (spin (S k)) with ([InputReads [] None; SelectTimeout] ++ spin k).
    rewrite run_steps_app. cbn. rewrite Hm. cbn. rewrite IH by done. cbn. by rewrite <- app_assoc.
Qed.

Lemma websocket_spins_at_eof n : ∃ s, run_steps doWebsocket (spin n) init = Some s ∧ sent s = replicate n [].
Proof. eexists. by rewrite spin_step by done. Qed.

(** A server that says nothing more after the quit command: the reader is in its
    read, and only a message or an error of the connection lets the client end. *)
Lemma websocket_quit_needs_server s : main s = X_wait → reader s = L_read → wg s = 1%nat →
  ∀ c s', doWebsocket c s = Some s' → ∃ r, c = ReaderReads r.
Proof.
  intros Hm Hr Hw [] s' Hs; cbn in Hs; unfold reader_step in Hs; rewrite ?Hm, ?Hr, ?Hw in Hs; try done. by eexists.
Qed.
End XNetFacts.

(** ** The echo server *)
Module EchoFacts.
Import WsEcho.

Definition pending (s : echo) : list (Z * bytes) := match held s with Some m => [m] | None => [] end.

Definition inv (s : echo) : Prop :=
  (main s = E_run → echoed s ++ pending s = received s) ∧
  match reader s with L_send _ => is_Some (held s) | _ => held s = None end.

Lemma step_inv_echo c s s' : inv s → gorillaEchoHandler c s = Some s' → inv s'.
Proof.
  unfold inv, pending. intros [Ho Hh] Hs. destruct c; cbn in Hs; unfold readLoop, set_reader, return_ in Hs.
  - destruct (reader s) eqn:Hr; try done; injection Hs as <-; cbn; rewrite ?Hh in *; [|done].
    split; [done|]. by destruct (ctx_done s).
  - destruct (reader s) eqn:Hr; try done. destruct r as [m|err]; [|by injection Hs as <-].
    destruct (main s); [|done]. injection Hs as <-. cbn. rewrite Hh in Ho. rewrite app_nil_r in Ho.
    split; [intros _; by rewrite Ho|done].
  - by injection Hs as <-.
  - destruct (main s); [|done]. destruct (ctx_done s); [|done]. by injection Hs as <-.
  - destruct (main s) eqn:Hm; [|done]. specialize (Ho eq_refl).
    destruct (reader s) eqn:Hr; try done.
    + destruct Hh as [m0 Hh]. rewrite Hh in *. destruct write; injection Hs as <-; cbn; [done|].
      split; [intros _; by rewrite app_nil_r|done].
    + rewrite Hh in *. by injection Hs as <-.
  - destruct (main s) eqn:Hm; [|done]. destruct write; injection Hs as <-; cbn; split; auto; done.
Qed.

(** While it serves, the echo server has sent back what it received, in order,
    up to one message that its reader holds. *)
Lemma echo_in_order cs s : run_steps gorillaEchoHandler cs init = Some s → main s = E_run →
  echoed s ++ pending s = received s.
Proof.
  intros Hr. assert (inv s) as [Ho _]; [|exact Ho]. revert Hr.
  apply run_steps_inv; [intros *; apply step_inv_echo|by split].
Qed.

(** A reader that holds a message when the handler returns is never released:
    its send has no case for the end of the context. *)
Lemma echo_reader_leaks m cs s s' : main s = E_returned → reader s = L_send m →
  run_steps gorillaEchoHandler cs s = Some s' → reader s' = L_send m.
Proof.
  intros Hm Hr Hrun. assert (main s' = E_returned ∧ reader s' = L_send m) as [_ ?]; [|done].
  revert Hrun. apply (run_steps_inv _ (λ s, main s = E_returned ∧ reader s = L_send m)); [|done].
  clear. intros c s s' [Hm Hr] Hs. destruct c; cbn in Hs; unfold readLoop in Hs; rewrite ?Hm, ?Hr in Hs; try done.
  by injection Hs as <-.
Qed.
End EchoFacts.
