(* ===== verification/WsBeat.v ===== *)
(** * Control frames and heartbeats over WebSocket

    [setHandlers] of snippets/httproto/ws/gorilla.go, and the pair of
    examples/net/heartbeat/websocket (server, client): a server that echoes messages
    and a client that reads them, each with a goroutine that sends pings.

    The frames that the library writes for a call are put on the wire in order; its
    own ping handler, which the server of the example keeps, answers with a pong. *)
From S2P Require Import Prelude Errors Bytespool IO Wire HttpText Config WebSocket.

Module WsBeat.

Inductive frame :=
  | DataFrame (messageType : Z) (data : bytes)
  | PingFrame (data : bytes)
  | PongFrame (data : bytes)
  | CloseFrame (payload : bytes).

#[global] Instance frame_eq_dec : EqDecision frame.
Proof. solve_decision. Defined.

(** ** snippets/httproto/ws: the handlers of control frames *)

(** [websocket.FormatCloseMessage]: no payload for the code that means no code. *)
Definition CloseNoStatusReceived : Z := 1005.
Definition FormatCloseMessage (code : Z) (text : bytes) : bytes :=
  if code =? CloseNoStatusReceived then [] else Serial.be_PutUint16 (u16 code) ++ text.

Inductive control := OnPing (message : bytes) | OnPong (appData : bytes) | OnClose (code : Z) (text : bytes).

Section Handlers.
(** Which errors of a write say that a close frame was sent already, and which are
    temporary; [write]: the result of the call of [WriteControl]. *)
Context (close_sent temporary : error → bool).

(** The frame that is written, and the error that the handler returns. *)
Definition setHandlers (c : control) (write : option error) : list frame * option error :=
  match c with
  | OnPing message =>
      ([PongFrame message],
       match write with
       | None => None
       | Some e => if close_sent e then None else if temporary e then None else Some e
       end)
  | OnPong _ => ([], None)
  | OnClose code text => ([CloseFrame (FormatCloseMessage code [])], None)
  end.

(** Only a pong that cannot be written for good ends the reading. *)
Lemma setHandlers_error c write e :
  (setHandlers c write).2 = Some e ↔ (∃ m, c = OnPing m) ∧ write = Some e ∧ close_sent e = false ∧ temporary e = false.
Proof.
  destruct c as [m|a|code text]; cbn; [|split; [done|by intros [[? ?] _]]..].
  destruct write as [x|]; [|by split; [|intros (_ & ? & _)]].
  destruct (close_sent x) eqn:Hc; [|destruct (temporary x) eqn:Ht]; (split; [intros Hx|intros (_ & [= <-] & H1 & H2)]); try congruence.
  injection Hx as <-. eauto.
Qed.
End Handlers.

(** ** examples/net/heartbeat/websocket *)

(** One side: its connection, its reading loop and its heartbeat goroutine; the
    pings it has sent and the pongs it has received. *)
Record peer := mkPeer { is_open : bool; reading : bool; beating : bool; pings : nat; pongs : nat }.
Record pair := mkPair { server : peer; client : peer; s2c : list frame; c2s : list frame; echoed : list (Z * bytes) }.

Definition new_peer : peer := mkPeer true true true 0 0.
Definition init (messages : list (Z * bytes)) : pair :=
  mkPair new_peer new_peer [] ((λ m, DataFrame m.1 m.2) <$> messages) [].

Inductive choice :=
  | ServerTick (err : option error)       (** a tick of the ticker, the result of the write *)
  | ClientTick (err : option error)
  | ServerRead (err : option error)       (** the next frame, the result of the write that answers it *)
  | ClientRead (err : option error)
  | ServerReadError | ClientReadError.

(** [startHeartbeat]: a write on a closed connection fails. *)
Definition startHeartbeat (err : option error) (p : peer) : option (list frame * peer) :=
  if beating p then
    if is_open p then
      match err with
      | None => Some ([PingFrame (str "ping")], mkPeer true (reading p) true (S (pings p)) (pongs p))
      | Some _ => Some ([], mkPeer true (reading p) false (pings p) (pongs p))
      end
    else Some ([], mkPeer false (reading p) false (pings p) (pongs p))
  else None.

(** The loop is left, and the deferred [conn.Close()] runs. *)
Definition leave (p : peer) : peer := mkPeer false false (beating p) (pings p) (pongs p).
Definition got_pong (p : peer) : peer := mkPeer (is_open p) (reading p) (beating p) (pings p) (S (pongs p)).

(** A turn of the loop of [handleWebSocket], with the control frames that
    [ReadMessage] handles on the way.  Pings are answered by the handler of the
    library, which ignores some errors of its write ([ignored]) and returns the others
    from [ReadMessage]. *)
Definition handleWebSocket (ignored : error → bool) (f : frame) (err : option error) (p : peer) : list frame * peer * list (Z * bytes) :=
  match f with
  | PingFrame d =>
      match err with
      | None => ([PongFrame d], p, [])
      | Some e => if ignored e then ([], p, []) else ([], leave p, [])
      end
  | PongFrame _ => ([], got_pong p, [])
  | DataFrame t d => match err with None => ([DataFrame t d], p, [(t, d)]) | Some _ => ([], leave p, []) end
  | CloseFrame _ => ([], leave p, [])
  end.

(** The loop of the client, with its own handlers of pings and pongs. *)
Definition client_read (f : frame) (err : option error) (p : peer) : list frame * peer :=
  match f with
  | PingFrame d => match err with None => ([PongFrame d], p) | Some _ => ([], leave p) end
  | PongFrame _ => ([], got_pong p)
  | DataFrame _ _ => ([], p)
  | CloseFrame _ => ([], leave p)
  end.

Definition step (ignored : error → bool) (c : choice) (s : pair) : option pair :=
  match c with
  | ServerTick err => '(out, p) ← startHeartbeat err (server s); Some (mkPair p (client s) (s2c s ++ out) (c2s s) (echoed s))
  | ClientTick err => '(out, p) ← startHeartbeat err (client s); Some (mkPair (server s) p (s2c s) (c2s s ++ out) (echoed s))
  | ServerRead err =>
      match reading (server s), c2s s with
      | true, f :: rest =>
          let '(out, p, e) := handleWebSocket ignored f err (server s) in
          Some (mkPair p (client s) (s2c s ++ out) rest (echoed s ++ e))
      | _, _ => None
      end
  | ClientRead err =>
      match reading (client s), s2c s with
      | true, f :: rest =>
          let '(out, p) := client_read f err (client s) in Some (mkPair (server s) p rest (c2s s ++ out) (echoed s))
      | _, _ => None
      end
  | ServerReadError => if reading (server s) then Some (mkPair (leave (server s)) (client s) (s2c s) (c2s s) (echoed s)) else None
  | ClientReadError => if reading (client s) then Some (mkPair (server s) (leave (client s)) (s2c s) (c2s s) (echoed s)) else None
  end.

(** ** Lemmas *)

Definition n_pings (l : list frame) : nat := length (List.filter (λ f, match f with PingFrame _ => true | _ => false end) l).
Definition n_pongs (l : list frame) : nat := length (List.filter (λ f, match f with PongFrame _ => true | _ => false end) l).
Definition data_of (l : list frame) : list (Z * bytes) := omap (λ f, match f with DataFrame t d => Some (t, d) | _ => None end) l.

Lemma n_pings_app l k : n_pings (l ++ k) = (n_pings l + n_pings k)%nat.
Proof. unfold n_pings. by rewrite List.filter_app, length_app. Qed.
Lemma n_pongs_app l k : n_pongs (l ++ k) = (n_pongs l + n_pongs k)%nat.
Proof. unfold n_pongs. by rewrite List.filter_app, length_app. Qed.
Lemma n_pings_cons f l : n_pings (f :: l) = ((match f with PingFrame _ => 1 | _ => 0 end) + n_pings l)%nat.
Proof. by destruct f. Qed.
Lemma n_pongs_cons f l : n_pongs (f :: l) = ((match f with PongFrame _ => 1 | _ => 0 end) + n_pongs l)%nat.
Proof. by destruct f. Qed.
Lemma n_nil : n_pings [] = 0%nat ∧ n_pongs [] = 0%nat.
Proof. done. Qed.
Lemma data_of_app l k : data_of (l ++ k) = data_of l ++ data_of k.
Proof. apply omap_app. Qed.

(** Every ping is in flight, or its pong is, or its pong has arrived -- or the
    side that had to answer it has left its loop, or (not [exact]) has ignored that it
    could not. *)
Definition accounted (exact : bool) (from to_ : peer) (there back : list frame) : Prop :=
  (pongs from + n_pongs back + n_pings there ≤ pings from)%nat ∧
  (exact = true → reading to_ = true → (pongs from + n_pongs back + n_pings there = pings from)%nat).

Record inv (all : list (Z * bytes)) (s : pair) : Prop := {
  inv_server : accounted true (server s) (client s) (s2c s) (c2s s);
  inv_client : accounted false (client s) (server s) (c2s s) (s2c s);
  inv_echo : echoed s ++ data_of (c2s s) `prefix_of` all ∨ reading (server s) = false ∧ echoed s `prefix_of` all;
  inv_open_s : is_open (server s) = reading (server s);
  inv_open_c : is_open (client s) = reading (client s)
}.

Lemma data_of_messages ms : data_of ((λ m : Z * bytes, DataFrame m.1 m.2) <$> ms) = ms.
Proof. induction ms as [|[t d] ms IH]; [done|]. unfold data_of in *. cbn. by rewrite IH. Qed.

Lemma no_pings_messages ms :
  n_pings ((λ m : Z * bytes, DataFrame m.1 m.2) <$> ms) = 0%nat ∧ n_pongs ((λ m : Z * bytes, DataFrame m.1 m.2) <$> ms) = 0%nat.
Proof. induction ms as [|[t d] ms [IH1 IH2]]; [done|]. unfold n_pings, n_pongs in *. cbn. by split. Qed.

Lemma init_inv_ws ms : inv ms (init ms).
Proof.
  destruct (no_pings_messages ms) as [H1 H2].
  split; try done; unfold accounted; cbn [init server client s2c c2s echoed]; rewrite ?H1, ?H2; [cbn; lia..|].
  left. by rewrite data_of_messages.
Qed.

#[local] Opaque n_pings n_pongs.

Ltac count := unfold accounted in *; cbn in *; destruct n_nil;
  rewrite ?n_pings_app, ?n_pongs_app, ?n_pings_cons, ?n_pongs_cons in *; cbn in *;
  repeat match goal with H : _ ∧ _ |- _ => destruct H end; repeat split; intros; intuition (first [done|congruence|lia]).

(** What a tick does to the counts. *)
Lemma tick_accounted ex ex' err p q there back out p' :
  accounted ex p q there back → accounted ex' q p back there → startHeartbeat err p = Some (out, p') →
  accounted ex p' q (there ++ out) back ∧ accounted ex' q p' back (there ++ out) ∧ reading p' = reading p ∧
  is_open p' = is_open p ∧ data_of out = [].
Proof.
  intros H1 H2 Hs. unfold startHeartbeat in Hs. destruct (beating p); [|done].
  destruct (is_open p) eqn:Eo; [destruct err|]; injection Hs as <- <-; (split_and!; [..|done|done|done]); count.
Qed.

Lemma prefix_drop_tail {A} (a b c : list A) : a ++ b `prefix_of` c → a `prefix_of` c.
Proof. intros [k ->]. exists (b ++ k). by rewrite app_assoc. Qed.

Lemma step_inv_ws ignored all c s s' : inv all s → step ignored c s = Some s' → inv all s'.
Proof.
  intros [Hs Hc He Hos Hoc] Hst. destruct c as [err|err|err|err| |]; cbn [step] in Hst.
  - apply bind_Some in Hst as ([out p] & Ht & [= <-]).
    destruct (tick_accounted _ _ err _ _ _ _ _ _ Hs Hc Ht) as (H1 & H2 & H3 & H4 & _). split; cbn; rewrite ?H3, ?H4; done.
  - apply bind_Some in Hst as ([out p] & Ht & [= <-]).
    destruct (tick_accounted _ _ err _ _ _ _ _ _ Hc Hs Ht) as (H1 & H2 & H3 & H4 & Hd).
    split; cbn; try done; [|congruence]. by rewrite data_of_app, Hd, app_nil_r.
  - destruct (reading (server s)) eqn:Hr; [|done]. destruct He as [He|[? _]]; [|done].
    destruct (c2s s) as [|f rest] eqn:Hq; [done|].
    assert (Hpre : echoed s `prefix_of` all) by (by apply prefix_drop_tail in He).
    destruct f as [t d|d|d|p]; cbn in Hst; try destruct err as [e|]; try destruct (ignored e); injection Hst as <-;
      split; cbn; rewrite ?app_nil_r; try done; try (by rewrite Hr); try (by right); try (by left); try count.
    left. by rewrite <- app_assoc.
  - destruct (reading (client s)) eqn:Hr; [|done]. destruct (s2c s) as [|f rest] eqn:Hq; [done|].
    destruct f as [t d|d|d|p]; cbn in Hst; try destruct err as [e|]; injection Hst as <-;
      split; cbn; rewrite ?app_nil_r, ?data_of_app; cbn; rewrite ?app_nil_r; try done; try (by rewrite Hr); count.
  - destruct (reading (server s)) eqn:Hr; [|done]. injection Hst as <-. destruct He as [He|[? _]]; [|done].
    split; cbn; try done; try count.
  - destruct (reading (client s)) eqn:Hr; [|done]. injection Hst as <-. split; cbn; try done; try count.
Qed.
End WsBeat.

(** Heartbeats over WebSocket.  In every interleaving of the two loops and the two
    tickers: the server echoes the messages in order; as long as the client reads, each
    ping of the server is on its way, or its pong is, or its pong has arrived; the
    client never counts more pongs than it has sent pings; and when the server has left
    its loop it sends nothing more, and its heartbeat goroutine ends with the next
    tick. *)
Theorem ws_heartbeat (ignored : error → bool) (messages : list (Z * bytes)) (cs : list WsBeat.choice) (s : WsBeat.pair) :
  run_steps (WsBeat.step ignored) cs (WsBeat.init messages) = Some s →
  WsBeat.echoed s `prefix_of` messages ∧
  (WsBeat.reading (WsBeat.client s) = true →
     (WsBeat.pongs (WsBeat.server s) + WsBeat.n_pongs (WsBeat.c2s s) + WsBeat.n_pings (WsBeat.s2c s) = WsBeat.pings (WsBeat.server s))%nat) ∧
  (WsBeat.pongs (WsBeat.client s) + WsBeat.n_pongs (WsBeat.s2c s) + WsBeat.n_pings (WsBeat.c2s s) ≤ WsBeat.pings (WsBeat.client s))%nat ∧
  (∀ err, WsBeat.reading (WsBeat.server s) = false → WsBeat.beating (WsBeat.server s) = true →
     ∃ s', WsBeat.step ignored (WsBeat.ServerTick err) s = Some s' ∧ WsBeat.beating (WsBeat.server s') = false ∧ WsBeat.s2c s' = WsBeat.s2c s).
Proof.
  intros Hr. assert (WsBeat.inv messages s) as [[_ Hs] [Hc _] He Hos _].
  { revert Hr. apply run_steps_inv; [intros *; apply WsBeat.step_inv_ws|apply WsBeat.init_inv_ws]. }
  split_and!; [|by apply Hs|done|].
  - destruct He as [He|[_ He]]; [by apply WsBeat.prefix_drop_tail in He|done].
  - intros err Hn Hb. cbn [WsBeat.step]. unfold WsBeat.startHeartbeat. rewrite Hb, Hos, Hn. cbn.
    eexists. split; [reflexivity|]. cbn. by rewrite app_nil_r.
Qed.

Lemma ws_heartbeat_witness :
  ∃ s, run_steps (WsBeat.step (λ _, false)) [WsBeat.ServerTick None; WsBeat.ServerRead None; WsBeat.ClientRead None; WsBeat.ServerRead None]
      (WsBeat.init [(1, str "a")]) = Some s ∧
    WsBeat.echoed s = [(1, str "a")] ∧ WsBeat.pongs (WsBeat.server s) = 1%nat ∧ WsBeat.echoed s `prefix_of` [(1, str "a")].
Proof.
  eexists. split; [reflexivity|]. split_and!; [reflexivity..|].
  exact (proj1 (ws_heartbeat (λ _, false) [(1, str "a")] [WsBeat.ServerTick None; WsBeat.ServerRead None; WsBeat.ClientRead None; WsBeat.ServerRead None]
    _ eq_refl)).
Defined.
