(* ===== verification/Units.v ===== *)
(** * Sizes of data

    units/bytesize.go: printing and parsing sizes such as 1.50MB.  A [float64] is
    an IEEE binary64 number of the [SpecFloat] library of the kernel; of the
    standard library: [strconv.FormatFloat] with two decimals and
    [strconv.ParseFloat] on texts without letters (both exactly rounded), and
    [strings].  Texts are ASCII. *)
From Stdlib Require SpecFloat.
From S2P Require Import Prelude Errors NetAddr NetText NetTextSpec TcpClient HttpText.

(** ** float64 *)
Module F64.
Import SpecFloat.

Definition float64 : Type := spec_float.

(** [float64(n)] of an unsigned integer, [x / y] and [x * y]. *)
Definition of_uint64 (n : Z) : float64 := binary_normalize 53 1024 n 0 false.
Definition div (x y : float64) : float64 := SFdiv 53 1024 x y.
Definition mul (x y : float64) : float64 := SFmul 53 1024 x y.

(** [x <= 0] *)
Definition le_zero (x : float64) : bool := SFleb x (S754_zero false).

(** The integer part of a positive number. *)
Definition floor (m : positive) (e : Z) : Z := if 0 <=? e then Zpos m * 2 ^ e else Zpos m / 2 ^ (- e).

(** [uint64(x)]; the language leaves open what comes of a value that does not
    fit, which is [other]. *)
Definition to_uint64 (other : Z) (x : float64) : Z :=
  match x with
  | S754_zero _ => 0
  | S754_finite false m e => if floor m e <? 2 ^ 64 then floor m e else other
  | _ => other
  end.

(** The nearest integer to [100 * m * 2^e], the even one of two. *)
Definition hundredths (m : positive) (e : Z) : Z :=
  if 0 <=? e then 100 * Zpos m * 2 ^ e
  else
    let d := 2 ^ (- e) in
    let q := 100 * Zpos m / d in
    let r := 100 * Zpos m mod d in
    match 2 * r ?= d with
    | Lt => q
    | Gt => q + 1
    | Eq => if Z.even q then q else q + 1
    end.

Definition two_digits (n : Z) : bytes := [48 + n / 10; 48 + n mod 10].

(** [strconv.FormatFloat(x, 'f', 2, 64)] *)
Definition FormatFloat2 (x : float64) : bytes :=
  let sign s := if (s : bool) then str "-" else [] in
  match x with
  | S754_zero s => sign s ++ str "0.00"
  | S754_infinity s => if s then str "-Inf" else str "+Inf"
  | S754_nan => str "NaN"
  | S754_finite s m e =>
      let h := hundredths m e in sign s ++ Itoa (h / 100) ++ str "." ++ two_digits (h mod 100)
  end.

(** The digits of a number: its value without the point, how many digits follow
    the point, whether there was one, and whether there were digits. *)
Fixpoint read_digits (s : bytes) (sawdot sawdigits : bool) (mant frac : Z) : option (Z * Z * bool) :=
  match s with
  | [] => Some (mant, frac, sawdigits)
  | c :: s' =>
      if c =? 95 then read_digits s' sawdot sawdigits mant frac
      else if c =? 46 then if sawdot then None else read_digits s' true sawdigits mant frac
      else if is_digit c then read_digits s' sawdot true (10 * mant + (c - 48)) (if sawdot then frac + 1 else frac)
      else None
  end.

(** Underscores stand between digits; [digit], [under]: what came before. *)
Fixpoint underscoreOK (digit under : bool) (s : bytes) : bool :=
  match s with
  | [] => negb under
  | c :: s' =>
      if is_digit c then underscoreOK true false s'
      else if c =? 95 then if digit then underscoreOK false true s' else false
      else if under then false else underscoreOK false false s'
  end.

(** [strconv.ParseFloat(s, 64)] of a text without letters; [None]: an error of
    syntax or range. *)
Definition ParseFloat (s : bytes) : option float64 :=
  let '(neg, ds) := match s with
                    | [] => (false, s)
                    | c :: s' => if c =? 43 then (false, s') else if c =? 45 then (true, s') else (false, s)
                    end in
  match read_digits ds false false 0 0 with
  | Some (mant, frac, true) =>
      if negb (underscoreOK false false ds) then None
      else
        match mant with
        | Zpos m =>
            let '(mz, ez, lz) := SFdiv_core_binary 53 1024 (Zpos m) 0 (10 ^ frac) 0 in
            match binary_round_aux 53 1024 neg mz ez lz with
            | S754_infinity _ => None
            | x => Some x
            end
        | _ => Some (S754_zero neg)
        end
  | _ => None
  end.
End F64.

(** ** bytesize.go *)
Module Units.

(** [ByteSize] is [uint64]. *)
Definition KB : Z := Eval vm_compute in Z.shiftl 1 10.
Definition MB : Z := Eval vm_compute in Z.shiftl 1 20.
Definition GB : Z := Eval vm_compute in Z.shiftl 1 30.
Definition TB : Z := Eval vm_compute in Z.shiftl 1 40.
Definition PB : Z := Eval vm_compute in Z.shiftl 1 50.
Definition EB : Z := Eval vm_compute in Z.shiftl 1 60.

Definition errInvalidSize := Sentinel "units.errInvalidSize" "invalid size".
Definition errInvalidUnit := Sentinel "units.errInvalidUnit" "invalid or unsupported unit".

(** [strings.TrimSuffix] *)
Definition TrimSuffix (s suffix : bytes) : bytes :=
  if bool_decide (drop (length s - length suffix) s = suffix) && (length suffix <=? length s)%nat
  then take (length s - length suffix) s else s.

(** The unit and the value the [switch] chooses; [None]: zero. *)
Definition scale (b : Z) : option (bytes * F64.float64) :=
  let value unit := F64.div (F64.of_uint64 b) (F64.of_uint64 unit) in
  if b =? 0 then None
  else if b <? KB then Some (str "B", F64.of_uint64 b)
  else if b <? MB then Some (str "KB", value KB)
  else if b <? GB then Some (str "MB", value MB)
  else if b <? TB then Some (str "GB", value GB)
  else if b <? PB then Some (str "TB", value TB)
  else if b <? EB then Some (str "PB", value PB)
  else Some (str "EB", value EB).

Definition String (b : Z) : bytes :=
  match scale b with
  | None => str "0"
  | Some (unit, value) =>
      let result := F64.FormatFloat2 value in
      let result := TrimSuffix result (str ".0") in
      result ++ unit
  end.

(** [strings.ToUpper] *)
Definition ToUpper (s : bytes) : bytes := upper <$> s.

Definition is_letter (c : Z) : bool := is_upper c || is_lower c.

(** The factor of a unit. *)
Definition multiple_of (multiple : bytes) : option Z :=
  if bool_decide (multiple = str "B") then Some 1
  else if bool_decide (multiple ∈ [str "K"; str "KB"; str "KIB"]) then Some KB
  else if bool_decide (multiple ∈ [str "M"; str "MB"; str "MIB"]) then Some MB
  else if bool_decide (multiple ∈ [str "G"; str "GB"; str "GIB"]) then Some GB
  else if bool_decide (multiple ∈ [str "T"; str "TB"; str "TIB"]) then Some TB
  else if bool_decide (multiple ∈ [str "P"; str "PB"; str "PIB"]) then Some PB
  else if bool_decide (multiple ∈ [str "E"; str "EB"; str "EIB"]) then Some EB
  else None.

(** [Parse] after the space was trimmed, on a receiver that holds [b]: what it
    holds then, and the error. *)
Definition parse_trimmed (other b : Z) (s : bytes) : Z * option error :=
  let s := ToUpper s in
  match list_find (λ c, is_letter c = true) s with
  | None => (b, Some (ErrNew errInvalidUnit))
  | Some (i, _) =>
      let bytesString := take i s in
      let multiple := drop i s in
      match F64.ParseFloat bytesString with
      | None => (b, Some (ErrNew errInvalidSize))
      | Some value =>
          if F64.le_zero value then (b, Some (ErrNew errInvalidSize))
          else
            match multiple_of multiple with
            | None => (b, Some (ErrNew errInvalidUnit))
            | Some 1 => (F64.to_uint64 other value, None)
            | Some unit => (F64.to_uint64 other (F64.mul value (F64.of_uint64 unit)), None)
            end
      end
  end.

Definition Parse (other b : Z) (s : bytes) : Z * option error := parse_trimmed other b (TrimSpace s).
End Units.

(** ** Theorems *)
Module UnitsFacts.
Import Units.

(** A whole number of units is printed, between two visible characters, and
    read back. *)
Definition is_visible (c : Z) : bool := (33 <=? c) && (c <=? 126).
Definition reads_back (b : Z) : bool :=
  let t := String b in
  match t with
  | c :: _ => is_visible c && match last t with Some d => is_visible d | None => false end
  | [] => false
  end &&
  match parse_trimmed 0 0 t with (b', None) => b' =? b | _ => false end.

(** Every exponent of a unit with every count below 1024 that fits. *)
Definition whole_sizes : list Z :=
  k ← seq 0 7; n ← seq 1 1023; let b := Z.of_nat n * 2 ^ (10 * Z.of_nat k) in if b <? 2 ^ 64 then [b] else [].

Lemma whole_sizes_read_back : forallb reads_back whole_sizes = true.
Proof. vm_compute. reflexivity. Qed.

Lemma elem_of_whole_sizes k n :
  0 ≤ k ≤ 6 → 1 ≤ n < 1024 → n * 2 ^ (10 * k) < 2 ^ 64 → n * 2 ^ (10 * k) ∈ whole_sizes.
Proof.
  intros Hk Hn Hb. unfold whole_sizes. apply list_elem_of_bind. exists (Z.to_nat k). split; [|apply elem_of_seq; lia].
  apply list_elem_of_bind. exists (Z.to_nat n). split; [|apply elem_of_seq; lia]. cbn zeta. rewrite !Z2Nat.id by lia.
  rewrite (proj2 (Z.ltb_lt _ _)) by done. by apply list_elem_of_singleton.
Qed.

Lemma reads_back_Parse b : reads_back b = true → Parse 0 0 (String b) = (b, None).
Proof.
  unfold reads_back, Parse, is_visible. intros Hr. destruct (String b) as [|c s] eqn:Hs; [done|].
  destruct (last (c :: s)) as [d|] eqn:Hl; [|by rewrite andb_false_r in Hr]. bool_hyps.
  rewrite (TrimSpace_id c s d) by (first [done|unfold visible; lia]).
  destruct (parse_trimmed 0 0 (c :: s)) as [b' [e|]]; [done|]. bool_hyps. by subst.
Qed.

(** The receiver of a failed [Parse] keeps its value. *)
Lemma parse_error_keeps other b s b' e : Parse other b s = (b', Some e) → b' = b.
Proof. intros Hp. unfold Parse, parse_trimmed in Hp. repeat (case_match; try (by simplify_eq)). Qed.

(** Two decimals are always printed: the suffix that [String] takes off never
    occurs. *)
Lemma two_digits_kept q n : 0 ≤ n < 100 →
  TrimSuffix (q ++ str "." ++ F64.two_digits n) (str ".0") = q ++ str "." ++ F64.two_digits n.
Proof.
  intros Hn. unfold TrimSuffix, F64.two_digits. change (str ".") with [46]. change (str ".0") with [46; 48].
  rewrite bool_decide_eq_false_2; [done|]. rewrite length_app, drop_app_ge by (cbn; lia).
  replace (length q + _ - _ - _)%nat with 1%nat by (cbn; lia). cbn [drop app].
  intros Heq. injection Heq as Heq _. pose proof (Z.div_pos n 10). lia.
Qed.
End UnitsFacts.

(** C26: a size that is a whole number of bytes, KB, MB, ... or EB, fewer than 1024 of
    them, is read back from its text: [Parse] after [String] is the identity, with
    all roundings of the floating-point arithmetic in between. *)
Theorem bytesize_roundtrip (k n : Z) :
  0 ≤ k ≤ 6 → 1 ≤ n < 1024 → n * 2 ^ (10 * k) < 2 ^ 64 →
  Units.Parse 0 0 (Units.String (n * 2 ^ (10 * k))) = (n * 2 ^ (10 * k), None).
Proof.
  intros Hk Hn Hb. pose proof (UnitsFacts.elem_of_whole_sizes k n Hk Hn Hb) as Hin.
  apply list_elem_of_In in Hin.
  apply UnitsFacts.reads_back_Parse. exact (proj1 (forallb_forall _ _) UnitsFacts.whole_sizes_read_back _ Hin).
Qed.

Lemma bytesize_roundtrip_witness :
  Units.String (1000 * 2 ^ 20) = str "1000.00MB" ∧ Units.Parse 0 0 (Units.String (1000 * 2 ^ (10 * 2))) = (1000 * 2 ^ (10 * 2), None).
Proof. split; [by vm_compute|]. apply (bytesize_roundtrip 2 1000); lia. Defined.

(** The largest sizes print as 16.00EB, which is 2^64 and does not fit: what
    [Parse] stores is then left open by the language. *)
Lemma bytesize_top_not_read_back other :
  Units.String (2 ^ 64 - 1) = str "16.00EB" ∧ Units.Parse other 0 (str "16.00EB") = (other, None).
Proof. split; by vm_compute. Qed.
