(* ===== verification/ProtoDump.v ===== *)
(** * The command that prints protobuf files

    cmd/subcmds/proto.go: a second reader of the wire format, that prints what it
    reads.  It is compared with the one of binproto/protobuf ([Protobuf]). *)
From S2P Require Import Prelude Errors Wire NetAddr NetText Protobuf.

(** ** Model *)
Module ProtoDump.

(** [readVarint]: every byte adds seven bits; there is no limit on their number,
    and bits above the 64th are lost. *)
Fixpoint varint_loop (reader : bytes) (value shift : Z) : Z * option error * bytes :=
  match reader with
  | [] => (0, Some (ErrNew EOF), [])
  | b :: reader' =>
      let value := Z.lor value (u64 (Z.shiftl (Z.land b 127) shift)) in
      if b <? 128 then (value, None, reader') else varint_loop reader' value (shift + 7)
  end.
Definition readVarint (reader : bytes) : Z * option error * bytes := varint_loop reader 0 0.

(** The lines that are printed. *)
Definition header_line (fieldNumber wireType : Z) : bytes :=
  str "Field Number: " ++ Itoa fieldNumber ++ str ", Wire Type: " ++ Itoa wireType ++ [10].
Definition value_line (what : string) (v : Z) : bytes := str what ++ str " Value: " ++ Itoa v ++ [10].
Definition bytes_line (length : Z) (value : bytes) : bytes :=
  str "Length-delimited " ++ Itoa length ++ str " Value: " ++ value ++ [10].

(** [binary.Read] of a little-endian number. *)
Definition fixed (what : string) (size : Z) (reader : bytes) : bytes * option error * bytes :=
  match read_full reader size with
  | (_, Some er, reader) => ([], Some (Errorf "read value" (Some er)), reader)
  | (d, None, reader) => (value_line what (le_value d), None, reader)
  end.

(** The [switch] on the wire type: what is printed, the error, what is left. *)
Definition print_value (wireType : Z) (reader : bytes) : go (bytes * option error * bytes) :=
  if wireType =? 0 then
    match readVarint reader with
    | (_, Some er, reader) => Ret ([], Some (Errorf "read varint value" (Some er)), reader)
    | (value, None, reader) => Ret (value_line "Varint" value, None, reader)
    end
  else if wireType =? 1 then Ret (fixed "Fixed64" 8 reader)
  else if wireType =? 2 then
    match readVarint reader with
    | (_, Some er, reader) => Ret ([], Some (Errorf "read length" (Some er)), reader)
    | (length, None, reader) =>
        if maxAlloc <? length then Panic "runtime error: makeslice: len out of range"
        else
          match read_full reader length with
          | (_, Some er, reader) => Ret ([], Some (Errorf "read length-delimited value" (Some er)), reader)
          | (value, None, reader) => Ret (bytes_line length value, None, reader)
          end
    end
  else if wireType =? 5 then Ret (fixed "Fixed32" 4 reader)
  else Ret ([], Some (Errorf "unsupported wire type" None), reader).

(** What was written to [w], and the error. *)
Fixpoint dump_loop (fuel : nat) (reader w : bytes) : go (bytes * option error) :=
  match fuel with
  | O => OutOfFuel
  | S fuel' =>
      match readVarint reader with
      | (_, Some err, _) => if is_sentinel EOF err then Ret (w, None) else Ret (w, Some (Errorf "read key" (Some err)))
      | (key, None, reader) =>
          let fieldNumber := Z.shiftr key 3 in
          let wireType := Z.land key 7 in
          let w := w ++ header_line fieldNumber wireType in
          '(line, err, reader) ← print_value wireType reader;
          match err with
          | Some e => Ret (w, Some e)
          | None => dump_loop fuel' reader (w ++ line)
          end
      end
  end.

(** Every turn reads at least one byte. *)
Definition ParseProtobufTo (data : bytes) : go (bytes * option error) := dump_loop (S (length data)) data [].

(** The command: [filename] is the flag, [read] what [os.ReadFile] returns. *)
Definition readProtoCmd (filename : bytes) (read : bytes + error) : go (bytes * option error) :=
  if bool_decide (filename = []) then Ret ([], Some (Errorf "--data-file is required" None))
  else match read with
       | inr err => Ret ([], Some (Errorf "read file" (Some err)))
       | inl data => ParseProtobufTo data
       end.
End ProtoDump.

(** ** Lemmas *)
Module ProtoDumpFacts.
Import ProtoDump.

Lemma u64_eq x : u64 x = Z.land x (Z.ones 64).
Proof. with_strategy transparent [u64] unfold u64. by rewrite Z.land_ones by lia. Qed.

Lemma u64_lor a b : u64 (Z.lor a b) = Z.lor (u64 a) (u64 b).
Proof. by rewrite !u64_eq, Z.land_lor_distr_l. Qed.

Lemma u64_i64 x : u64 (i64 x) = u64 x.
Proof.
  with_strategy transparent [u64 i64] unfold u64, i64. rewrite Zminus_mod, Zmod_mod, <- Zminus_mod. f_equal. lia.
Qed.

Lemma u64_idem x : u64 (u64 x) = u64 x.
Proof. with_strategy transparent [u64] unfold u64. by rewrite Zmod_mod. Qed.

(** Where the reader of binproto/protobuf reads a number, so does this one, with
    the same bits; and it comes to the end of the data when the other does. *)
Lemma varint_agrees r acc shift : is_bytes r →
  match Protobuf.read_varint_loop r acc shift with
  | (v, None, r') => varint_loop r (u64 acc) shift = (u64 v, None, r') ∧ (length r' < length r)%nat ∧ is_bytes r'
  | (_, Some err, _) =>
      is_sentinel EOF err = true → ∃ r', varint_loop r (u64 acc) shift = (0, Some (ErrNew EOF), r')
  end.
Proof.
  intros Hr. revert acc shift. induction Hr as [|b r Hb Hr IH]; intros acc shift; cbn [Protobuf.read_varint_loop varint_loop].
  { intros _. by eexists. }
  rewrite land_128 by done.
  replace (Z.lor (u64 acc) (u64 (Z.shiftl (Z.land b 127) shift)))
    with (u64 (Z.lor acc (i64 (Z.shiftl (Z.land b 127) shift)))) by (by rewrite u64_lor, u64_i64).
  destruct (b <? 128); [cbn [length]; split_and!; [done|lia|done]|]. destruct (64 <=? shift + 7) eqn:Hs; [done|].
  specialize (IH (Z.lor acc (i64 (Z.shiftl (Z.land b 127) shift))) (shift + 7)).
  destruct (Protobuf.read_varint_loop r _ (shift + 7)) as [[v [err|]] r']; [done|].
  destruct IH as (? & ? & ?). cbn [length]. split_and!; [done|lia|done].
Qed.

Lemma readVarint_agrees r v r' : is_bytes r → Protobuf.readVarint r = (v, None, r') →
  readVarint r = (u64 v, None, r') ∧ (length r' < length r)%nat ∧ is_bytes r'.
Proof.
  intros Hr Hv. pose proof (varint_agrees r 0 0 Hr) as Ha. unfold Protobuf.readVarint in Hv. rewrite Hv in Ha. exact Ha.
Qed.

(** The line for a value that was read. *)
Definition line_of (v : value) : bytes :=
  match v with
  | VInt x => value_line "Varint" (u64 x)
  | VUint64 x => value_line "Fixed64" x
  | VBytes b => bytes_line (zlen b) b
  | VUint32 x => value_line "Fixed32" x
  end.

Lemma read_full_Some r n d r' : is_bytes r → read_full r n = (d, None, r') → 0 ≤ n →
  zlen d = n ∧ (length r' ≤ length r)%nat ∧ is_bytes r'.
Proof.
  intros Hr Hf Hn. unfold read_full in Hf. destruct (n <=? zlen r) eqn:Hle; bool_hyps; [|by destruct r]. injection Hf as <- <-. rewrite zlen_ztake by lia.
  split; [done|]. unfold zdrop. rewrite length_drop. split; [lia|by apply Forall_drop].
Qed.

Lemma print_agrees r wt v r' : is_bytes r → readValue r wt = Ret (Some v, None, r') →
  print_value wt r = Ret (line_of v, None, r') ∧ (length r' ≤ length r)%nat ∧ is_bytes r'.
Proof.
  intros Hr Hv. unfold readValue in Hv. unfold print_value, fixed. destruct (wt =? 0).
  { destruct (Protobuf.readVarint r) as [[x err] r1] eqn:Hx. injection Hv as <- -> <-.
    destruct (readVarint_agrees _ _ _ Hr Hx) as (-> & ? & ?). split_and!; [done|lia|done]. }
  destruct (wt =? 1).
  { destruct (read_full r 8) as [[d [err|]] r1] eqn:Hf; [done|]. injection Hv as <- <-.
    destruct (read_full_Some _ _ _ _ Hr Hf) as (? & ? & ?); [lia|done]. }
  destruct (wt =? 2).
  { destruct (Protobuf.readVarint r) as [[n [err|]] r1] eqn:Hx; [done|].
    destruct (readVarint_agrees _ _ _ Hr Hx) as (-> & ? & Hr1).
    destruct (n <? 0) eqn:Hn; [done|]. destruct (maxAlloc <? n) eqn:Hm; [done|]. bool_hyps. cbn in Hv.
    unfold maxAlloc in Hm. rewrite u64_id by lia. unfold maxAlloc. zltb_solve.
    destruct (read_full r1 n) as [[d [err|]] r2] eqn:Hf; [done|]. injection Hv as <- <-.
    destruct (read_full_Some _ _ _ _ Hr1 Hf) as (<- & ? & ?); [lia|]. split_and!; [done|lia|done]. }
  destruct (wt =? 5); [|done].
  destruct (read_full r 4) as [[d [err|]] r1] eqn:Hf; [done|]. injection Hv as <- <-.
  destruct (read_full_Some _ _ _ _ Hr Hf) as (? & ? & ?); [lia|done].
Qed.

(** The text for the fields of a message.  A tag is read as a signed number
    there and an unsigned one here: field numbers agree modulo 2^61. *)
Definition field_text (f : field) : bytes := header_line (f_number f mod 2 ^ 61) (f_wireType f) ++ line_of (f_value f).

Lemma shiftr_tag tag : Z.shiftr (u64 tag) 3 = Z.shiftr tag 3 mod 2 ^ 61.
Proof.
  with_strategy transparent [u64] unfold u64. rewrite !Z.shiftr_div_pow2 by lia. change (2 ^ 64) with (8 * 2 ^ 61).
  change (2 ^ 3) with 8. rewrite Z.rem_mul_r by lia. rewrite Z.mul_comm, Z.div_add by lia.
  rewrite (Z.div_small (tag mod 8)) by (apply Z.mod_pos_bound; lia). lia.
Qed.

Lemma land7_tag tag : Z.land (u64 tag) 7 = Z.land tag 7.
Proof. rewrite u64_eq, <- Z.land_assoc. f_equal. Qed.

Lemma readValue_some r wt r' : readValue r wt ≠ Ret (None, None, r').
Proof. unfold readValue. repeat case_match; congruence. Qed.

Lemma dump_agrees fuel r printed out w : is_bytes r → (length r < fuel)%nat →
  parse_loop fuel r printed = Ret (out, AtEOF) →
  ∃ fs, out = printed ++ fs ∧ dump_loop fuel r w = Ret (w ++ mjoin (field_text <$> fs), None).
Proof.
  revert r printed out w. induction fuel as [|fuel IH]; intros r printed out w Hr Hlen Hp; [done|].
  cbn [parse_loop dump_loop] in *. unfold readFieldHeader in Hp.
  destruct (Protobuf.readVarint r) as [[tag [err|]] r1] eqn:Hx.
  - destruct (is_sentinel EOF err) eqn:He; [|done]. injection Hp as <-. exists []. rewrite !app_nil_r. split; [done|].
    pose proof (varint_agrees r 0 0 Hr) as Ha. unfold Protobuf.readVarint in Hx. rewrite Hx in Ha.
    destruct (Ha He) as [r' Hd]. unfold readVarint. change (u64 0) with 0 in Hd. by rewrite Hd.
  - destruct (readVarint_agrees _ _ _ Hr Hx) as (-> & Hl1 & Hr1). rewrite land7_tag, shiftr_tag.
    destruct (readValue r1 (Z.land tag 7)) as [[[v err] r2]|m|] eqn:Hv; cbn [mbind go_bind] in Hp; [|done|done].
    destruct err as [e|]; [by destruct v|]. destruct v as [v|]; [|by apply readValue_some in Hv].
    destruct (print_agrees _ _ _ _ Hr1 Hv) as (-> & Hl2 & Hr2). rewrite go_bind_Ret.
    destruct (IH r2 _ out ((w ++ header_line (Z.shiftr tag 3 mod 2 ^ 61) (Z.land tag 7)) ++ line_of v) Hr2 ltac:(lia) Hp)
      as (fs & -> & Hd).
    exists (mkField (Z.shiftr tag 3) (Z.land tag 7) v :: fs). split; [by rewrite <- app_assoc|].
    rewrite Hd. do 2 f_equal.
    change (mjoin (field_text <$> mkField (Z.shiftr tag 3) (Z.land tag 7) v :: fs)) with
      ((header_line (Z.shiftr tag 3 mod 2 ^ 61) (Z.land tag 7) ++ line_of v) ++ mjoin (field_text <$> fs)).
    by rewrite <- !app_assoc.
Qed.
End ProtoDumpFacts.

(** C24: the command that prints protobuf files agrees with the decoder of
    binproto/protobuf: on every message the decoder reads to its end, the command
    reports no error and prints the same fields with the same values (numbers
    without their sign), although the two read tags and varints with different
    loops and integer types. *)
Theorem proto_dump_agrees (data : bytes) (fs : list field) :
  is_bytes data → ParseProtoMessage data = Ret (fs, AtEOF) →
  ProtoDump.ParseProtobufTo data = Ret (mjoin (ProtoDumpFacts.field_text <$> fs), None).
Proof.
  intros Hd Hp.
  destruct (ProtoDumpFacts.dump_agrees (S (length data)) data [] fs [] Hd (Nat.lt_succ_diag_r _) Hp) as (fs' & -> & Hr).
  exact Hr.
Qed.

Lemma proto_dump_agrees_witness :
  ProtoDump.ParseProtobufTo [8; 150; 1; 18; 2; 104; 105] =
  Ret (str "Field Number: 1, Wire Type: 0" ++ [10] ++ str "Varint Value: 150" ++ [10] ++
       str "Field Number: 2, Wire Type: 2" ++ [10] ++ str "Length-delimited 2 Value: hi" ++ [10], None).
Proof.
  rewrite (proto_dump_agrees [8; 150; 1; 18; 2; 104; 105] [mkField 1 0 (VInt 150); mkField 2 2 (VBytes [104; 105])]);
    [by vm_compute| |by vm_compute].
  repeat (apply Forall_cons; split; [done|]). by apply Forall_nil.
Defined.

(** The command accepts more: a varint of any length, whose high bits are lost. *)
Lemma proto_dump_long_varint :
  ProtoDump.readVarint (replicate 20 128 ++ [1]) = (0, None, []) ∧
  (Protobuf.readVarint (replicate 20 128 ++ [1])).1.2 = Some (Errorf "varint too long" None).
Proof. split; by vm_compute. Qed.

(** ** Termination *)
Module ProtoDumpEnds.
Import ProtoDump.

Lemma varint_shorter r acc shift v r' : varint_loop r acc shift = (v, None, r') → (length r' < length r)%nat.
Proof.
  revert acc shift. induction r as [|b r IH]; intros acc shift Hv; cbn in Hv; [done|].
  destruct (b <? 128); [injection Hv as _ <-; cbn; lia|]. apply IH in Hv. cbn. lia.
Qed.

Lemma read_full_shorter r n d e r' : read_full r n = (d, e, r') → (length r' ≤ length r)%nat.
Proof.
  unfold read_full. intros Hf. destruct (n <=? zlen r).
  - injection Hf as _ _ <-. unfold zdrop. rewrite length_drop. lia.
  - destruct r; injection Hf as _ _ <-; cbn; lia.
Qed.

Lemma print_shorter wt r :
  match print_value wt r with Ret (_, None, r') => (length r' ≤ length r)%nat | OutOfFuel => False | _ => True end.
Proof.
  unfold print_value, fixed, readVarint. repeat case_match; simplify_eq; try done;
    repeat match goal with
    | Hv : varint_loop _ _ _ = (_, None, _) |- _ => apply varint_shorter in Hv
    | Hf : read_full _ _ = _ |- _ => apply read_full_shorter in Hf
    end; lia.
Qed.

Lemma dump_loop_ends fuel r w : (length r < fuel)%nat → dump_loop fuel r w ≠ OutOfFuel.
Proof.
  revert r w. induction fuel as [|fuel IH]; intros r w Hl; [lia|]. cbn [dump_loop].
  destruct (readVarint r) as [[key [err|]] r1] eqn:Hv; [by destruct (is_sentinel EOF err)|].
  apply varint_shorter in Hv. pose proof (print_shorter (Z.land key 7) r1) as Hp.
  destruct (print_value (Z.land key 7) r1) as [[[line [e|]] r2]|m|]; try done. rewrite go_bind_Ret. apply IH. lia.
Qed.
End ProtoDumpEnds.

(** The command always ends: with what it printed and an error or none, or by a
    panic on a length that cannot be allocated. *)
Theorem proto_dump_ends (data : bytes) : ProtoDump.ParseProtobufTo data ≠ OutOfFuel.
Proof. apply ProtoDumpEnds.dump_loop_ends. lia. Qed.
