(* ===== verification/Proxy.v ===== *)
(** * The HTTP proxies, with their connections

    examples/net/httpproxy/main.go,
    examples/proxyproto/transparentporxy/httpproxy/main.go and
    cmd/distro/http_proxy.go share their handlers; [Cli.HttpProxy] has the
    decisions they make.  Here are the bytes: what the buffered reader takes from
    the client, and the two copies of a tunnel, as goroutines that share the two
    connections.

    A socket's incoming data is the list of the pieces that its reads return;
    [http.ReadRequest] is a parameter that is given the head of a request. *)
From S2P Require Import Prelude Errors NetAddr NetText TcpClient HttpText Cli.

(** ** Model *)
Module Proxy.

(** The length of the head of a request, to the end of its empty line; the lines
    end in a line feed, with or without a carriage return. *)
Fixpoint head_length (s : bytes) : option nat :=
  if HasPrefix s [10; 10] then Some 2%nat
  else if HasPrefix s [10; 13; 10] then Some 3%nat
  else match s with
       | _ :: s' => S <$> head_length s'
       | [] => None
       end.

(** [bufio.NewReader(conn)] and the reads of [http.ReadRequest]: pieces are read
    until the buffer has a whole head.  The result is the head, what is left in
    the buffer, and the pieces that are still in the socket. *)
Fixpoint read_head (pieces : list bytes) (buffer : bytes) : option (bytes * bytes * list bytes) :=
  match head_length buffer with
  | Some n => Some (take n buffer, drop n buffer, pieces)
  | None =>
      match pieces with
      | [] => None
      | p :: pieces' => read_head pieces' (buffer ++ p)
      end
  end.

(** [io.Copy]: running, or ended with an error or none. *)
Inductive copy_pc := Copying | Ended (err : option error).

(** [up]: the goroutine that copies from the client to the target; [down]: the
    handler, that copies back and then closes both connections. *)
Record tunnel := mkTunnel {
  from_client : list bytes; from_target : list bytes; to_target : bytes; to_client : bytes;
  up : copy_pc; down : copy_pc; closed : bool
}.

Definition errClosed : error := Errorf "use of closed network connection" None.

Inductive choice :=
  | UpCopies (write : option (error * nat)) | UpFails (err : error)
  | DownCopies (write : option (error * nat)) | DownFails (err : error).

(** One turn of a copy: a piece is read and written, [write] gives an error of the
    write and how much it had written; the end of the pieces is [io.EOF], and a
    read may fail before it. *)
Definition tunnel_step (c : choice) (t : tunnel) : option tunnel :=
  match c with
  | UpCopies write =>
      match up t with
      | Ended _ => None
      | Copying =>
          if closed t then
            Some (mkTunnel (from_client t) (from_target t) (to_target t) (to_client t) (Ended (Some errClosed)) (down t) true)
          else
            match from_client t with
            | [] => Some (mkTunnel [] (from_target t) (to_target t) (to_client t) (Ended None) (down t) false)
            | p :: rest =>
                match write with
                | None => Some (mkTunnel rest (from_target t) (to_target t ++ p) (to_client t) Copying (down t) false)
                | Some (err, n) =>
                    Some (mkTunnel rest (from_target t) (to_target t ++ take n p) (to_client t) (Ended (Some err)) (down t) false)
                end
            end
      end
  | UpFails err =>
      match up t with
      | Ended _ => None
      | Copying =>
          Some (mkTunnel (from_client t) (from_target t) (to_target t) (to_client t) (Ended (Some err)) (down t) (closed t))
      end
  | DownFails err =>
      match down t with
      | Ended _ => None
      | Copying =>
          Some (mkTunnel (from_client t) (from_target t) (to_target t) (to_client t) (up t) (Ended (Some err)) true)
      end
  | DownCopies write =>
      match down t with
      | Ended _ => None
      | Copying =>
          match from_target t with
          | [] => Some (mkTunnel (from_client t) [] (to_target t) (to_client t) (up t) (Ended None) true)
          | p :: rest =>
              match write with
              | None => Some (mkTunnel (from_client t) rest (to_target t) (to_client t ++ p) (up t) Copying (closed t))
              | Some (err, n) =>
                  Some (mkTunnel (from_client t) rest (to_target t) (to_client t ++ take n p) (up t) (Ended (Some err)) true)
              end
          end
      end
  end.

(** What has become of a client: its connection was closed after a reply, or a
    tunnel runs. *)
Inductive outcome := Replied (reply : bytes) | Tunnelled (t : tunnel).

Section Handlers.
(** [dial]: the pieces the target will send, or the error; [render]: the text of
    an error as it is printed (the examples use it as a format); [xff]: the
    handler adds X-Forwarded-For; [write_request]: [request.Write], the bytes
    written and the error, given what is left in the buffered reader. *)
Context (ReadRequest : bytes → Request + error) (dial : bytes → list bytes + error) (render : error → bytes)
        (xff : bool) (write_request : Request → bytes → bytes * option error) (remote : bytes).

Definition established : bytes := str "HTTP/1.1 200 Connection Established" ++ [13; 10; 13; 10].

Definition handleConnectMethod (req : Request) (pieces : list bytes) : outcome :=
  match dial (HttpProxy.target_host req) with
  | inr err => Replied (HttpProxy.service_unavailable (render err))
  | inl from_target => Tunnelled (mkTunnel pieces from_target [] established Copying Copying false)
  end.

Definition handleHTTPRequest (req : Request) (buffer : bytes) (pieces : list bytes) : outcome :=
  match dial (HttpProxy.target_host req) with
  | inr err => Replied (HttpProxy.service_unavailable (render err))
  | inl from_target =>
      let req :=
        if xff then
          mkRequest (Method req) (RURL req) (Host req)
            (Header_Set (RHeader req) (str "X-Forwarded-For") (HttpProxy.forwarded_for remote (RHeader req)))
            (RBody req) (RContentLength req)
        else req in
      match write_request req buffer with
      | (_, Some err) => Replied (HttpProxy.service_unavailable (render err))
      | (out, None) => Tunnelled (mkTunnel pieces from_target out [] Copying Copying false)
      end
  end.

(** Both copies of a tunnel read from the connection, not from the buffered
    reader. *)
Definition handleHTTPProxy (pieces : list bytes) : outcome :=
  match read_head pieces [] with
  | None => Replied []
  | Some (head, buffer, pieces) =>
      match ReadRequest head with
      | inr _ => Replied []
      | inl req =>
          if bool_decide (Method req = str "CONNECT") then handleConnectMethod req pieces
          else handleHTTPRequest req buffer pieces
      end
  end.
End Handlers.

(** The loop of [copyTo] (examples/net/httpproxy): the results of its reads, with
    those of the writes; what was written, and the error. *)
Fixpoint copyTo (reads : list (bytes * option error * option (error * nat))) (w : bytes) : bytes * option (option error) :=
  match reads with
  | [] => (w, None)
  | (p, err, write) :: reads' =>
      let after_write w :=
        match err with
        | None => copyTo reads' w
        | Some e => if is_sentinel EOF e then (w, Some None) else (w, Some (Some e))
        end in
      match p with
      | [] => after_write w
      | _ => match write with
             | Some (we, n) => (w ++ take n p, Some (Some we))
             | None => after_write (w ++ p)
             end
      end
  end.
End Proxy.

(** ** Lemmas *)
Module ProxyFacts.
Import Proxy.

(** Nothing is lost or invented while the head is read. *)
Lemma read_head_bytes pieces buffer head rest left : read_head pieces buffer = Some (head, rest, left) →
  buffer ++ mjoin pieces = head ++ rest ++ mjoin left.
Proof.
  revert buffer. induction pieces as [|p pieces IH]; intros buffer Hr; cbn [read_head] in Hr;
    (destruct (head_length buffer) as [n|]; [injection Hr as <- <- <-; by rewrite app_assoc, take_drop|]); [done|].
  apply IH in Hr. rewrite <- Hr. change (mjoin (p :: pieces)) with (p ++ mjoin pieces). by rewrite app_assoc.
Qed.

(** How far one direction has come: [all] are the pieces there were, [left] those
    still to be read, [out] what was written. *)
Definition progress (pc : copy_pc) (start : bytes) (all left : list bytes) (out : bytes) : Prop :=
  ∃ gone, all = gone ++ left ∧
    match pc with
    | Copying => out = start ++ mjoin gone
    | Ended None => left = [] ∧ out = start ++ mjoin gone
    | Ended (Some _) => out `prefix_of` start ++ mjoin gone
    end.

Lemma progress_prefix pc start all left out : progress pc start all left out → out `prefix_of` start ++ mjoin all.
Proof.
  intros (gone & -> & Hpc). rewrite join_app, app_assoc. apply prefix_app_r.
  destruct pc as [|[|]]; [by subst|done|by destruct Hpc as [_ ->]].
Qed.

Lemma progress_all start all left out : progress (Ended None) start all left out → out = start ++ mjoin all.
Proof. intros (gone & -> & -> & ->). by rewrite app_nil_r. Qed.

Lemma progress_piece start all p left out : progress Copying start all (p :: left) out →
  progress Copying start all left (out ++ p) ∧
  ∀ err n, progress (Ended (Some err)) start all left (out ++ take n p).
Proof.
  intros (gone & -> & ->).
  assert (∀ x, (start ++ mjoin gone) ++ x = start ++ mjoin (gone ++ [x])) as Hj
    by (intros x; rewrite join_app; cbn; by rewrite app_nil_r, app_assoc).
  split; [|intros err n]; exists (gone ++ [p]); (split; [by rewrite <- app_assoc|]); [by rewrite Hj|].
  rewrite <- Hj. apply prefix_app. by exists (drop n p); rewrite take_drop.
Qed.

(** A copy that is told that the connection is closed keeps what it wrote. *)
Lemma progress_stop start all left out err : progress Copying start all left out → progress (Ended (Some err)) start all left out.
Proof. intros (gone & -> & ->). by exists gone. Qed.

Lemma progress_end start all out : progress Copying start all [] out → progress (Ended None) start all [] out.
Proof. intros (gone & -> & ->). by exists gone. Qed.

Definition inv (u0 d0 : bytes) (P Q : list bytes) (t : tunnel) : Prop :=
  progress (up t) u0 P (from_client t) (to_target t) ∧ progress (down t) d0 Q (from_target t) (to_client t).

Lemma tunnel_inv u0 d0 P Q c t t' : inv u0 d0 P Q t → tunnel_step c t = Some t' → inv u0 d0 P Q t'.
Proof.
  intros [Hu Hd] Hs. destruct c as [write|err|write|err]; cbn in Hs.
  - destruct (up t); [|done]. destruct (closed t).
    { injection Hs as <-. split; [by apply progress_stop|done]. }
    destruct (from_client t) as [|p rest] eqn:Hp.
    { injection Hs as <-. split; [by apply progress_end|done]. }
    destruct (progress_piece _ _ _ _ _ Hu) as [Hok Herr]. destruct write as [[err n]|]; injection Hs as <-; by split; cbn; auto.
  - destruct (up t); [|done]. injection Hs as <-. split; [by apply progress_stop|done].
  - destruct (down t); [|done]. destruct (from_target t) as [|p rest] eqn:Hp.
    { injection Hs as <-. split; [done|by apply progress_end]. }
    destruct (progress_piece _ _ _ _ _ Hd) as [Hok Herr]. destruct write as [[err n]|]; injection Hs as <-; by split; cbn; auto.
  - destruct (down t); [|done]. injection Hs as <-. split; [done|by apply progress_stop].
Qed.
End ProxyFacts.

(** C34: what a CONNECT makes of the bytes.  The client's stream is the head of its
    request, what the buffered reader took beyond it, and the rest; the target is
    sent the rest, in order, and all of it when the copy ends at the client's end,
    but never the bytes in between; the client is sent the confirmation and the
    target's bytes in order, and all of them when the copy back ends normally. *)
Theorem proxy_tunnel_delivers (ReadRequest : bytes → Request + error) (dial : bytes → list bytes + error)
    (render : error → bytes) (xff : bool) (write_request : Request → bytes → bytes * option error) (remote : bytes)
    (pieces : list bytes) (head early : bytes) (left : list bytes) (req : Request) (Q : list bytes) :
  Proxy.read_head pieces [] = Some (head, early, left) → ReadRequest head = inl req → Method req = str "CONNECT" →
  dial (HttpProxy.target_host req) = inl Q →
  mjoin pieces = head ++ early ++ mjoin left ∧
  ∃ t0, Proxy.handleHTTPProxy ReadRequest dial render xff write_request remote pieces = Proxy.Tunnelled t0 ∧
    ∀ cs t, run_steps Proxy.tunnel_step cs t0 = Some t →
      Proxy.to_target t `prefix_of` mjoin left ∧
      (Proxy.up t = Proxy.Ended None → Proxy.to_target t = mjoin left) ∧
      Proxy.to_client t `prefix_of` Proxy.established ++ mjoin Q ∧
      (Proxy.down t = Proxy.Ended None → Proxy.to_client t = Proxy.established ++ mjoin Q).
Proof.
  intros Hh Hr Hm Hd. split; [exact (ProxyFacts.read_head_bytes _ _ _ _ _ Hh)|].
  unfold Proxy.handleHTTPProxy. rewrite Hh, Hr, bool_decide_eq_true_2 by done.
  unfold Proxy.handleConnectMethod. rewrite Hd. eexists. split; [reflexivity|]. intros cs t Hrun.
  assert (ProxyFacts.inv [] Proxy.established left Q t) as [Hu Hdn].
  { revert Hrun. apply run_steps_inv; [intros *; apply ProxyFacts.tunnel_inv|].
    split; exists []; (split; [done|]); cbn; by rewrite ?app_nil_r. }
  split_and!.
  - exact (ProxyFacts.progress_prefix _ _ _ _ _ Hu).
  - intros He. rewrite He in Hu. exact (ProxyFacts.progress_all _ _ _ _ Hu).
  - exact (ProxyFacts.progress_prefix _ _ _ _ _ Hdn).
  - intros He. rewrite He in Hdn. exact (ProxyFacts.progress_all _ _ _ _ Hdn).
Qed.

(** A client that sends HELLO with its request: the target gets only what comes
    after. *)
Definition eg_connect : bytes := str "CONNECT h:1 HTTP/1.1" ++ [13; 10; 13; 10].
Definition eg_request : Request := mkRequest (str "CONNECT") None (str "h:1") ∅ NilBody 0.

Lemma proxy_tunnel_delivers_witness :
  ∃ t0 t, Proxy.handleHTTPProxy (λ _, inl eg_request) (λ _, inl [str "hi"]) (λ _, []) false (λ _ _, ([], None)) []
      [eg_connect ++ str "HELLO"; str "world"] = Proxy.Tunnelled t0 ∧
    run_steps Proxy.tunnel_step
      [Proxy.UpCopies None; Proxy.UpCopies None; Proxy.DownCopies None; Proxy.DownCopies None] t0 = Some t ∧
    Proxy.to_target t = str "world" ∧ Proxy.to_client t = Proxy.established ++ str "hi".
Proof.
  destruct (proxy_tunnel_delivers (λ _, inl eg_request) (λ _, inl [str "hi"]) (λ _, []) false (λ _ _, ([], None)) []
    [eg_connect ++ str "HELLO"; str "world"] eg_connect (str "HELLO") [str "world"] eg_request [str "hi"])
    as (_ & t0 & Ht & Hrun); [by vm_compute..|].
  injection Ht as <-. eexists _, _. split; [reflexivity|]. split; [reflexivity|].
  destruct (Hrun [Proxy.UpCopies None; Proxy.UpCopies None; Proxy.DownCopies None; Proxy.DownCopies None] _ eq_refl)
    as (_ & Hu & _ & Hd). split; [by rewrite Hu|by rewrite Hd].
Defined.

(** The end of the client's data is not passed on: the copy ends, and the tunnel
    stays as it is, so a target that waits for the end waits for ever. *)
Lemma proxy_half_close_not_forwarded t : Proxy.up t = Proxy.Copying → Proxy.closed t = false → Proxy.from_client t = [] →
  Proxy.tunnel_step (Proxy.UpCopies None) t =
  Some (Proxy.mkTunnel [] (Proxy.from_target t) (Proxy.to_target t) (Proxy.to_client t) (Proxy.Ended None) (Proxy.down t) false).
Proof. intros Hu Hc Hf. cbn. by rewrite Hu, Hc, Hf. Qed.
