(* ===== verification/FetchCmd.v ===== *)
(** * The fetch and grpc commands

    cmd/subcmds/fetch.go, cmd/subcmds/grpc.go, cmd/internal/grpcrefl/protofile.go
    and invoke.go, and binproto/grpc/codec/json.go: the flags of a command are
    turned into a context and a request, given to the fetcher ([HttpFetch]) or to
    the reflection client ([Grpcrefl]), and what comes back is printed.

    Parameters: [url.Parse] and [URL.String], the transport, the parser of .proto
    files, protobuf messages and their JSON form, and a gRPC channel.  Deadlines
    are not part of a context. *)
From S2P Require Import Prelude Errors NetAddr NetText Bytespool IO Wire Http2Frames TcpClient HttpText Http1 HttpFetch Cli WebSocket.

(** ** fetch.go: flags and requests *)
Module FetchCmd.

Record flags := mkFlags {
  user_agent : bytes; method : bytes; header : list bytes; data : bytes;
  http1 : bool; http2 : bool; websocket : bool; ws : bool; grpc : bool; upgrade : bool;
  proto_path : bytes; verbose : bool; fetchTLS : option Cli.TLSFlags
}.

Definition methodTakesBody (m : bytes) : bool :=
  bool_decide (upper <$> m ∈ [str "POST"; str "PUT"; str "PATCH"]).

(** [%03d] *)
Definition pad3 (n : Z) : bytes := let s := Itoa n in replicate (3 - length s) 48 ++ s.

(** The new value of traceIDGen, the name of the client trace, and the context. *)
Definition decorate (traceIDGen : Z) (ctx : context) (verbose upgrade : bool) : Z * option bytes * context :=
  let '(gen, trace, ctx) :=
    if verbose then
      let traceID := u32 (traceIDGen + 1) in
      (traceID, Some (str "trace-req-" ++ pad3 traceID), WithVerbose ctx)
    else (traceIDGen, None, ctx) in
  (gen, trace, if upgrade then WithUpgrade ctx else ctx).

(** The context of [httpCall]. *)
Definition http_context (fl : flags) (ctx : context) : context :=
  if http1 fl then WithProtocol ctx HTTP1 else if http2 fl then WithProtocol ctx HTTP2 else ctx.

(** The body of [httpCall], when there is one. *)
Definition http_body (fl : flags) : option bytes :=
  if methodTakesBody (method fl) && negb (bool_decide (data fl = [])) then Some (data fl) else None.

(** [validMethod] of net/http *)
Definition validMethod (m : bytes) : bool := negb (bool_decide (m = [])) && forallb validHeaderFieldByte m.

(** [hasPort] and [removeEmptyPort] of net/http *)
Definition has_port (s : bytes) : bool :=
  match LastIndexByte 58 s, LastIndexByte 93 s with
  | Some i, Some j => (j <? i)%nat
  | Some _, None => true
  | None, _ => false
  end.
Definition removeEmptyPort (host : bytes) : bytes :=
  if has_port host && bool_decide (last host = Some 58) then take (length host - 1) host else host.

Section Requests.
Context (url_Parse : bytes → ReqURL + error) (URL_String : ReqURL → bytes).

(** [http.NewRequestWithContext] with the body of a [strings.Reader]. *)
Definition NewRequest (m : bytes) (u : ReqURL) (body : option bytes) : Request + error :=
  let m := match m with [] => str "GET" | _ => m end in
  if negb (validMethod m) then inr (Errorf "net/http: invalid method" None)
  else match url_Parse (URL_String u) with
       | inr err => inr err
       | inl u =>
           let u := mkReqURL (Scheme u) (Opaque u) (removeEmptyPort (URLHost u)) (EscapedPath u) (ForceQuery u) (RawQuery u) in
           inl (mkRequest m (Some u) (URLHost u) ∅
                  match body with None => NilBody | Some [] => NoBody | Some b => ReaderBody (inl b) end
                  match body with None => 0 | Some b => zlen b end)
       end.

(** The request of [httpCall]: the fields of -H replace the others. *)
Definition http_request (fl : flags) (u : ReqURL) : Request + error :=
  match NewRequest (method fl) u (http_body fl) with
  | inr err => inr (Errorf "build request" (Some err))
  | inl req =>
      let h := match user_agent fl with [] => RHeader req | ua => Header_Set (RHeader req) (str "User-Agent") ua end in
      let h := Cli.ParseHeaders (header fl) ∪ h in
      inl (mkRequest (Method req) (RURL req) (Host req) h (RBody req)
             match http_body fl with Some b => zlen b | None => RContentLength req end)
  end.
End Requests.

(** [strings.Join(v, ",")] *)
Fixpoint Join (sep : bytes) (l : list bytes) : bytes :=
  match l with [] => [] | [x] => x | x :: l' => x ++ sep ++ Join sep l' end.

Definition crlf : bytes := [13; 10].

(** What [httpCall] prints; the order of the header fields is that of
    [map_to_list]. *)
Definition print_response (res : Response) : bytes :=
  Status res ++ str " " ++ Proto res ++ crlf ++
  mjoin ((λ kv, kv.1 ++ str ": " ++ Join (str ",") kv.2 ++ crlf) <$> map_to_list (PHeader res)) ++
  crlf ++ PBody res.

(** ** filepath *)

(** [filepath.Clean] on the elements of a path. *)
Fixpoint clean_elements (rooted : bool) (l : list bytes) (out : list bytes) : list bytes :=
  match l with
  | [] => reverse out
  | e :: l' =>
      if bool_decide (e = []) || bool_decide (e = str ".") then clean_elements rooted l' out
      else if bool_decide (e = str "..") then
        match out with
        | p :: out' => if bool_decide (p = str "..") then clean_elements rooted l' (e :: out)
                       else clean_elements rooted l' out'
        | [] => if rooted then clean_elements rooted l' [] else clean_elements rooted l' [e]
        end
      else clean_elements rooted l' (e :: out)
  end.
Definition Clean (path : bytes) : bytes :=
  let rooted := HasPrefix path (str "/") in
  match Join (str "/") (clean_elements rooted (Split 47 path) []) with
  | [] => if rooted then str "/" else str "."
  | p => if rooted then str "/" ++ p else p
  end.

Definition filepath_Dir (path : bytes) : bytes :=
  Clean match LastIndexByte 47 path with Some i => take (S i) path | None => [] end.
Fixpoint trim_slashes (s : bytes) : bytes :=
  match s with c :: s' => if c =? 47 then trim_slashes s' else s | [] => [] end.
Definition filepath_Base (path : bytes) : bytes :=
  match path with
  | [] => str "."
  | _ =>
      let path := reverse (trim_slashes (reverse path)) in
      match (match LastIndexByte 47 path with Some i => drop (S i) path | None => path end) with
      | [] => str "/"
      | base => base
      end
  end.

(** ** protofile.go *)
Section ProtoFile.
(** [protoparse.Parser.ParseFiles], given the import path and the file. *)
Context (ParseFiles : bytes → bytes → list Grpcrefl.file_desc + error).

Definition availableServices (fd : Grpcrefl.file_desc) : bytes :=
  Join (str ", ") (Grpcrefl.sv_FullName <$> Grpcrefl.fd_Services fd).

Definition LoadFromProtoFile (protoPath service method : bytes) : Grpcrefl.method_desc + error :=
  match ParseFiles (filepath_Dir protoPath) (filepath_Base protoPath) with
  | inr err => inr (Errorf "parse proto" (Some err))
  | inl [] => inr (Errorf "no file descriptors parsed" None)
  | inl (fd :: _) =>
      match list_find (λ s, Grpcrefl.sv_FullName s = service) (Grpcrefl.fd_Services fd) with
      | None => inr (Errorf "service not found" None)
      | Some (_, srv) =>
          match list_find (λ m, Grpcrefl.m_Name m = method) (Grpcrefl.sv_Methods srv) with
          | None => inr (Errorf "method not found in service" None)
          | Some (_, m) => inl m
          end
      end
  end.
End ProtoFile.

(** ** fetch.go: the three kinds of calls *)
Section Calls.
Context {W Cn CC Msg : Type} `{!Transport W Cn CC}.
Context (url_Parse : bytes → ReqURL + error) (URL_String : ReqURL → bytes).
Context (ParseFiles : bytes → bytes → list Grpcrefl.file_desc + error).
(** [dynamicpb.NewMessage] of a type, [protojson], and [proto]. *)
Context (NewMessage : bytes → Msg) (fromJSON : bytes → Msg → Msg + error) (toJSON : Msg → bytes + error)
        (Marshal : Msg → bytes + error) (Unmarshal : bytes → Msg → option error * Msg) (spare : bytes).
(** The two websocket clients. *)
Context (doGorilla doWebsocket : context → Request → W → option error * W).
(** [fuel] bounds the header lines of the answer to an upgrade. *)
Context (fuel : nat).

(** [client.NewFetcher()] *)
Definition NewFetcher (w : W) : state W CC := mkState newConnPool w.

(** What is printed, or the error. *)
Definition httpCall (fl : flags) (ctx : context) (u : ReqURL) (w : W) : go ((bytes + error) * W) :=
  let ctx := http_context fl ctx in
  match http_request url_Parse URL_String fl u with
  | inr err => Ret (inr err, w)
  | inl req =>
      '(r, st) ← Do fuel ctx req (NewFetcher w);
      match r with
      | inr err => Ret (inr (Errorf "call" (Some err)), world st)
      | inl res => Ret (inl (print_response res), world st)
      end
  end.

Definition ws_context (fl : flags) (ctx : context) (isGorilla : bool) : context :=
  let ctx := WithProtocol ctx WebSocket in
  let ctx := if isGorilla then WithGorilla ctx else ctx in
  if match fetchTLS fl with Some t => Cli.Insecure t | None => false end then WithInsecure ctx else ctx.

Definition wsCall (fl : flags) (ctx : context) (u : ReqURL) (isGorilla : bool) (w : W) : (bytes + error) * W :=
  let ctx := ws_context fl ctx isGorilla in
  match NewRequest url_Parse URL_String (str "GET") u None with
  | inr err => (inr (Errorf "build request" (Some err)), w)
  | inl req =>
      match WsAddr.WS ctx doGorilla doWebsocket ctx req w with
      | (Some err, w) => (inr (Errorf "websocket" (Some err)), w)
      | (None, w) => (inl [], w)
      end
  end.

Definition gRPCCall (fl : flags) (ctx : context) (u : ReqURL) (path : bytes) (w : W) : go ((bytes + error) * W) :=
  match Grpcrefl.ParseURLPath path with
  | inr err => Ret (inr (Errorf "invalid service or method" (Some err)), w)
  | inl (service, m) =>
      match LoadFromProtoFile ParseFiles (proto_path fl) service m with
      | inr err => Ret (inr err, w)
      | inl methodDesc =>
          match fromJSON (data fl) (NewMessage (Grpcrefl.m_Input methodDesc)) with
          | inr err => Ret (inr (Errorf "parse request JSON" (Some err)), w)
          | inl reqMessage =>
              '(err, resMessage, st) ←
                CallGRPC Marshal Unmarshal spare fuel (WithProtocol ctx HTTP2) u reqMessage
                  (NewMessage (Grpcrefl.m_Output methodDesc)) (NewFetcher w);
              match err with
              | Some err => Ret (inr (Errorf "call grpc" (Some err)), world st)
              | None =>
                  match toJSON resMessage with
                  | inr err => Ret (inr (Errorf "serialize response JSON" (Some err)), world st)
                  | inl out => Ret (inl (out ++ [10]), world st)
                  end
              end
          end
      end
  end.

(** The command: [u_path] is [targetURL.Path]. *)
Definition fetchCmd (u_path : ReqURL → bytes) (fl : flags) (traceIDGen : Z) (arg : bytes) (w : W) : go ((bytes + error) * W) :=
  match url_Parse arg with
  | inr err => Ret (inr (Errorf "invalid url" (Some err)), w)
  | inl u =>
      let '(_, _, ctx) := decorate traceIDGen [] (verbose fl) (upgrade fl) in
      if grpc fl then gRPCCall fl ctx u (u_path u) w
      else if websocket fl || ws fl then Ret (wsCall fl ctx u (ws fl) w)
      else httpCall fl ctx u w
  end.
End Calls.
End FetchCmd.

(** ** binproto/grpc/codec/json.go *)
Module JsonFrame.
Section JsonFrame.
(** Values of other types go through encoding/json. *)
Context {V : Type} (json_Marshal : V → bytes + error) (json_Unmarshal : bytes → V → option error * V).

Inductive value := AFrame (RawData : bytes) | AnOther (v : V).

Definition Name : bytes := str "json".
Definition Marshal (v : value) : bytes + error :=
  match v with AFrame raw => inl raw | AnOther v => json_Marshal v end.
Definition Unmarshal (data : bytes) (v : value) : option error * value :=
  match v with
  | AFrame _ => (None, AFrame data)
  | AnOther v => let '(err, v) := json_Unmarshal data v in (err, AnOther v)
  end.
End JsonFrame.
Arguments value : clear implicits.
End JsonFrame.

(** ** grpc.go *)
Module GrpcCmd.
Import Grpcrefl.

(** A gRPC channel, as [grpc.NewClient] makes it: streams and calls by method
    name; [ch_Invoke] is given the codec's name, the method and the encoded
    request, and answers with the encoded response. *)
Class GrpcChannel (W Cred : Type) := {
  ch_NewClient : option Cred → bytes → W → option error * W;
  ch_Close : W → W;
  ch_NewStream : Header → bytes → W → option error * W;
  ch_Send : refl_request → W → option error * W;
  ch_Recv : W → (refl_response + error) * W;
  ch_Invoke : Header → bytes → bytes → bytes → W → (bytes + error) * W;
  ch_Unmarshal : bytes → bytes + error;
  ch_NewFile : bytes → file_desc + error;
  ch_status_code : error → option Z
}.

(** [metadata.MD.Append] of every header field, by its name in lower case. *)
Definition parseGRPCMetadata (raw : list bytes) : Header :=
  foldl (λ md kv, <[ToLower kv.1 := default [] (md !! ToLower kv.1) ++ kv.2]> md) ∅ (map_to_list (Cli.ParseHeaders raw)).

(** The method a call of [method] is sent to, under the interceptors. *)
Definition contextPathInterceptor (contextPath : option bytes) (method : bytes) : bytes :=
  match contextPath with Some p => prefixMethod p method | None => method end.

Record methodSummary := mkMethodSummary {
  ms_Name : bytes; ms_Input : bytes; ms_Output : bytes; ms_StreamClient : bool; ms_StreamServer : bool
}.
Record serviceSummary := mkServiceSummary { ss_Service : bytes; ss_Methods : list methodSummary }.

Definition summary (srv : service_desc) : serviceSummary :=
  mkServiceSummary (sv_FullName srv)
    ((λ m, mkMethodSummary (m_Name m) (m_Input m) (m_Output m) (m_StreamClient m) (m_StreamServer m)) <$> sv_Methods srv).

Definition show_bool (b : bool) : bytes := if b then str "true" else str "false".
Definition method_line (m : methodSummary) : bytes :=
  [9] ++ ms_Name m ++ str "(" ++ ms_Input m ++ str ") returns (" ++ ms_Output m ++ str ") stream_client=" ++
  show_bool (ms_StreamClient m) ++ str " stream_server=" ++ show_bool (ms_StreamServer m) ++ [10].
Definition service_text (s : serviceSummary) : bytes := ss_Service s ++ [10] ++ mjoin (method_line <$> ss_Methods s).

(** What the command prints. *)
Inductive output :=
  | RawResponse (payload : bytes) | NamesJSON (services : list bytes)
  | SummariesJSON (services : list serviceSummary) | OutText (text : bytes).

Section Commands.
Context {W Cred Msg : Type} `{!GrpcChannel W Cred}.
Context (NewMessage : bytes → Msg) (fromJSON : bytes → Msg → Msg + error) (toJSON : Msg → bytes + error)
        (proto_Marshal : Msg → bytes + error) (proto_Unmarshal : bytes → Msg → Msg + error).
(** The name of the method ServerReflectionInfo. *)
Context (reflection_method : bytes).

(** [grpcrefl.InvokeJSON]: the proto codec encodes the message. *)
Definition InvokeJSON (contextPath : option bytes) (md : Header) (methodDesc : method_desc) (jsonRequest : bytes) (w : W)
  : (bytes + error) * W :=
  match fromJSON (or_empty_object jsonRequest) (NewMessage (m_Input methodDesc)) with
  | inr err => (inr (Errorf "parse request JSON" (Some err)), w)
  | inl req =>
      let rpc := str "/" ++ m_Parent methodDesc ++ str "/" ++ m_Name methodDesc in
      match proto_Marshal req with
      | inr err => (inr (Errorf "grpc call" (Some err)), w)
      | inl b =>
          match ch_Invoke md (str "proto") (contextPathInterceptor contextPath rpc) b w with
          | (inr err, w) => (inr (Errorf "grpc call" (Some err)), w)
          | (inl b, w) =>
              match proto_Unmarshal b (NewMessage (m_Output methodDesc)) with
              | inr err => (inr (Errorf "grpc call" (Some err)), w)
              | inl res => match toJSON res with
                           | inr err => (inr (Errorf "marshal response JSON" (Some err)), w)
                           | inl out => (inl out, w)
                           end
              end
          end
      end
  end.

(** [conn.Invoke] with [ForceCodec(&codec.JsonFrame{})]. *)
Definition invoke_frame (contextPath : option bytes) (md : Header) (rpc raw : bytes) (w : W) : (bytes + error) * W :=
  match JsonFrame.Marshal (V := Msg) (λ _, inr (Errorf "json" None)) (JsonFrame.AFrame raw) with
  | inr err => (inr err, w)
  | inl b =>
      match ch_Invoke md JsonFrame.Name (contextPathInterceptor contextPath rpc) b w with
      | (inr err, w) => (inr err, w)
      | (inl b, w) =>
          match JsonFrame.Unmarshal (V := Msg) (λ _ v, (None, v)) b (JsonFrame.AFrame []) with
          | (None, JsonFrame.AFrame raw) => (inl raw, w)
          | (Some err, _) => (inr err, w)
          | (None, _) => (inl [], w)
          end
      end
  end.

(** The connection that the functions of [Grpcrefl] are given. *)
Definition conn (cred : option Cred) (contextPath : option bytes) (md : Header) : GrpcConn W := {|
  gc_NewClient := ch_NewClient cred;
  gc_Close := ch_Close;
  gc_openStream := ch_NewStream md (contextPathInterceptor contextPath reflection_method);
  gc_Send := ch_Send;
  gc_Recv := ch_Recv;
  gc_Unmarshal := ch_Unmarshal;
  gc_NewFile := ch_NewFile;
  gc_InvokeJSON := InvokeJSON contextPath md;
  gc_InvokeFrame := invoke_frame contextPath md;
  status_code := ch_status_code
|}.

(** The two lists are asked for without the interceptors. *)
Definition grpcCmd (plaintext : bool) (cfg : option Cred + error) (contextPath : bytes) (headers : list bytes)
    (data format : bytes) (args : list bytes) (w : W) : (output + error) * W :=
  match args with
  | target :: op :: more =>
      match grpcCredentials plaintext cfg with
      | inr err => (inr err, w)
      | inl cred =>
          let md := parseGRPCMetadata headers in
          let json := bool_decide (format = str "json") in
          let path := match contextPath with [] => None | p => Some p end in
          if EqualFold op (str "list") then
            match more with
            | service :: _ =>
                match @listServiceSymbols W (conn cred None md) target service w with
                | (inr err, w) => (inr err, w)
                | (inl services, w) =>
                    let services := summary <$> services in
                    (inl (if json then SummariesJSON services else OutText (mjoin (service_text <$> services))), w)
                end
            | [] =>
                match @listServerServices W (conn cred None md) target w with
                | (inr err, w) => (inr err, w)
                | (inl services, w) =>
                    (inl (if json then NamesJSON services else OutText (mjoin ((λ s, s ++ [10]) <$> services))), w)
                end
            end
          else
            match @invokeByReflection W (conn cred path md) target op data w with
            | (inr err, w) => (inr err, w)
            | (inl payload, w) => (inl (RawResponse (payload ++ [10])), w)
            end
      end
  | _ => (inr (Errorf "usage: netool grpc TARGET SERVICE/METHOD" None), w)
  end.
End Commands.
End GrpcCmd.
