(* ===== verification/FetchSpec.v ===== *)
(** * The fetch and grpc commands: theorems

    The request that the flags describe is the one that is sent, and what the
    server answers is what is printed, through the fetcher and its transport and
    through the reflection client and its channel. *)
From S2P Require Import Prelude Errors NetAddr NetText Bytespool IO Wire Http2Frames TcpClient HttpText Http1 HttpFetch HttpFetchSpec Cli CliSpec WebSocket FetchCmd.

(** ** Header fields of the command line *)
Module HeaderFacts.

(** The values that the items of -H give to the field [k], in order. *)
Definition header_values (raw : list bytes) (k : bytes) : list bytes :=
  omap (λ item, match Cli.Cut item with
                | Some (key, v) => if bool_decide (CanonicalMIMEHeaderKey (TrimSpace key) = k) then Some (TrimSpace v) else None
                | None => None
                end) raw.

Definition some_values (l : list bytes) : option (list bytes) := match l with [] => None | _ => Some l end.

Lemma default_some_values l : default [] (some_values l) = l.
Proof. by destruct l. Qed.

Lemma some_values_snoc l v : some_values (l ++ [v]) = Some (l ++ [v]).
Proof. by destruct l. Qed.

Lemma ParseHeaders_lookup raw k : Cli.ParseHeaders raw !! k = some_values (header_values raw k).
Proof.
  induction raw as [|item raw IH] using rev_ind; [done|].
  unfold Cli.ParseHeaders, header_values in *. rewrite foldl_snoc, omap_app. cbn [omap list_omap].
  destruct (Cli.Cut item) as [[key v]|]; [|by rewrite app_nil_r].
  unfold Header_Add in *. case_bool_decide as Hk.
  - subst k. by rewrite lookup_insert_eq, IH, default_some_values, some_values_snoc.
  - by rewrite lookup_insert_ne, IH, app_nil_r.
Qed.
End HeaderFacts.

(** The request of an HTTP fetch is the one the flags describe: a field has the
    values that -H gives it, in their order, else it is the user agent's, else it
    is absent; there is a body exactly for POST, PUT and PATCH (in any case) with
    data, and it is the data with its length. *)
Theorem fetch_request_fields url_Parse URL_String fl u req :
  FetchCmd.http_request url_Parse URL_String fl u = inl req →
  (∀ k, RHeader req !! k =
     match HeaderFacts.header_values (FetchCmd.header fl) k with
     | [] => if bool_decide (k = str "User-Agent" ∧ FetchCmd.user_agent fl ≠ []) then Some [FetchCmd.user_agent fl] else None
     | vs => Some vs
     end) ∧
  (if FetchCmd.methodTakesBody (FetchCmd.method fl) && negb (bool_decide (FetchCmd.data fl = []))
   then RBody req = ReaderBody (inl (FetchCmd.data fl)) ∧ RContentLength req = zlen (FetchCmd.data fl)
   else RBody req = NilBody ∧ RContentLength req = 0) ∧
  Method req = (match FetchCmd.method fl with [] => str "GET" | m => m end) ∧
  FetchCmd.validMethod (Method req) = true.
Proof.
  unfold FetchCmd.http_request, FetchCmd.NewRequest, FetchCmd.http_body.
  set (m := match FetchCmd.method fl with [] => _ | _ => _ end).
  destruct (FetchCmd.validMethod m) eqn:Hv; cbn [negb]; [|done].
  destruct (url_Parse _) as [u'|]; [|done]. intros Hr. injection Hr as <-. cbn [RHeader RBody RContentLength Method].
  split; [|split; [|split; [subst m; by destruct (FetchCmd.method fl)|done]]].
  - intros k. rewrite lookup_union, HeaderFacts.ParseHeaders_lookup.
    destruct (HeaderFacts.header_values _ k) as [|v vs]; cbn [HeaderFacts.some_values].
    + rewrite (left_id_L None _). destruct (FetchCmd.user_agent fl) as [|a ua] eqn:Hua.
      { rewrite lookup_empty. by case_bool_decide as Hk; [destruct Hk|]. }
      unfold Header_Set. change (CanonicalMIMEHeaderKey (str "User-Agent")) with (str "User-Agent").
      case_bool_decide as Hk; [destruct Hk as [-> _]; by rewrite lookup_insert_eq|].
      rewrite lookup_insert_ne; [by rewrite lookup_empty|]. intros <-. by apply Hk.
    + by destruct (_ !! k).
  - destruct (FetchCmd.methodTakesBody _); [|done]. by destruct (FetchCmd.data fl).
Qed.

Definition eg_flags : FetchCmd.flags :=
  FetchCmd.mkFlags (str "netool") (str "post") [str "X-A: 1"; str "bad"; str "x-a:2"] (str "{}")
    true false false false false false [] false None.
Definition eg_url : ReqURL := mkReqURL (str "http") [] (str "h:") (str "/p") false [].

Lemma fetch_request_fields_witness :
  ∃ req, FetchCmd.http_request (λ _, inl eg_url) (λ _, []) eg_flags eg_url = inl req ∧ Host req = str "h" ∧
    RHeader req !! str "X-A" = Some [str "1"; str "2"] ∧ RHeader req !! str "User-Agent" = Some [str "netool"] ∧
    RContentLength req = 2.
Proof.
  eexists. split; [vm_compute; reflexivity|]. split; [reflexivity|].
  destruct (fetch_request_fields (λ _, inl eg_url) (λ _, []) eg_flags eg_url _ eq_refl) as (Hf & (_ & Hl) & _).
  split; [exact (Hf (str "X-A"))|]. split; [exact (Hf (str "User-Agent"))|exact Hl].
Defined.

(** ** From the command line to the network and back *)
Section EndToEnd.
Context {W Cn CC Msg : Type} `{!Transport W Cn CC}.
Context (url_Parse : bytes → ReqURL + error) (URL_String : ReqURL → bytes).
Context (ParseFiles : bytes → bytes → list Grpcrefl.file_desc + error).
Context (NewMessage : bytes → Msg) (fromJSON : bytes → Msg → Msg + error) (toJSON : Msg → bytes + error)
        (Marshal : Msg → bytes + error) (Unmarshal : bytes → Msg → option error * Msg) (spare : bytes).
Context (doGorilla doWebsocket : context → Request → W → option error * W) (fuel : nat) (u_path : ReqURL → bytes).

Definition run_fetch := FetchCmd.fetchCmd (CC := CC) url_Parse URL_String ParseFiles NewMessage fromJSON toJSON Marshal Unmarshal
  spare doGorilla doWebsocket fuel u_path.

(** Flags that differ in the TLS flags alone. *)
Definition with_tls (fl : FetchCmd.flags) (t : option Cli.TLSFlags) : FetchCmd.flags :=
  FetchCmd.mkFlags (FetchCmd.user_agent fl) (FetchCmd.method fl) (FetchCmd.header fl) (FetchCmd.data fl)
    (FetchCmd.http1 fl) (FetchCmd.http2 fl) (FetchCmd.websocket fl) (FetchCmd.ws fl) (FetchCmd.grpc fl)
    (FetchCmd.upgrade fl) (FetchCmd.proto_path fl) (FetchCmd.verbose fl) t.

(** The request as [doHTTP1] sends it. *)
Definition closing (req : Request) : Request :=
  mkRequest (Method req) (RURL req) (match Host req with [] => default [] (URLHost <$> RURL req) | h => h end)
    (Header_Set (RHeader req) (str "Connection") (str "close")) (RBody req) (RContentLength req).

(** Fetch --http1, from the command line to the network and back: one connection
    is dialled to the host of the URL, the request of the flags is exchanged on it
    once, with Connection: close, and the status line, the header and the body of
    the response are printed; whatever fails first is the error of the command,
    and nothing is sent after it. *)
Theorem fetch_http1_end_to_end (fl : FetchCmd.flags) (gen : Z) (arg : bytes) (u u' : ReqURL) (req : Request) (w : W) :
  url_Parse arg = inl u → FetchCmd.http_request url_Parse URL_String fl u = inl req → RURL req = Some u' →
  Scheme u' ≠ str "https" →
  FetchCmd.http1 fl = true → FetchCmd.grpc fl = false → FetchCmd.websocket fl = false → FetchCmd.ws fl = false →
  run_fetch fl gen arg w =
  match t_dial (dial_address (Host req) false) false w with
  | (inr err, w1) => Ret (inr (Errorf "call" (Some err)), w1)
  | (inl conn, w1) =>
      match t_http1 conn (closing req) w1 with
      | (inr err, w2) => Ret (inr (Errorf "call" (Some err)), w2)
      | (inl resp, w2) => Ret (inl (FetchCmd.print_response resp), w2)
      end
  end.
Proof.
  intros Hu Hr Hru Hs H1 Hg Hw Hws. unfold run_fetch, FetchCmd.fetchCmd. rewrite Hu, Hg, Hw, Hws.
  destruct (FetchCmd.decorate _ _ _ _) as [[gen' tr] ctx]. cbn [orb].
  unfold FetchCmd.httpCall. rewrite Hr. unfold Do. rewrite Hru, bool_decide_eq_false_2 by done.
  unfold doHTTP, FetchCmd.http_context. rewrite H1. cbn [ProtocolFromContext WithProtocol].
  change (ProtocolFromContext (WithProtocol ctx HTTP1)) with HTTP1. cbn [is_http1].
  rewrite bool_decide_eq_false_2 by done. cbn [mbind go_bind].
  unfold doHTTP1, dialConn, doHTTP1WithConn, FetchCmd.NewFetcher. cbn [world].
  destruct (t_dial _ _ w) as [[conn|err] w1]; [|done].
  unfold closing. rewrite Hru. cbn [default fmap option_fmap option_map set_world world pool].
  by destruct (t_http1 conn _ w1) as [[resp|err] w2].
Qed.


(** The TLS flags reach the websocket clients alone: an HTTP or gRPC fetch does
    the same whatever they are. *)
Lemma fetch_ignores_tls_flags fl t gen arg w : FetchCmd.grpc fl || negb (FetchCmd.websocket fl || FetchCmd.ws fl) = true →
  run_fetch (with_tls fl t) gen arg w = run_fetch fl gen arg w.
Proof.
  intros H. unfold run_fetch, FetchCmd.fetchCmd, with_tls. cbn. destruct (url_Parse arg) as [u|]; [|done].
  destruct (FetchCmd.decorate _ _ _ _) as [[gen' tr] ctx]. destruct (FetchCmd.grpc fl); [done|]. cbn in H.
  by destruct (FetchCmd.websocket fl || FetchCmd.ws fl).
Qed.
End EndToEnd.

(** Without --proto-path the parser is asked for the file "." in the directory
    "."; with one, for the file in its directory. *)
Example proto_path_empty : (FetchCmd.filepath_Dir [], FetchCmd.filepath_Base []) = (str ".", str ".").
Proof. reflexivity. Qed.
Example proto_path_file :
  (FetchCmd.filepath_Dir (str "/a//b/../c/health.proto"), FetchCmd.filepath_Base (str "/a//b/../c/health.proto")) =
  (str "/a/c", str "health.proto").
Proof. vm_compute. reflexivity. Qed.

(** ** Examples with the recording transport *)
Section FetchCmdWitnesses.
Import FetchExamples.

Definition eg_fetch (u_path : ReqURL → bytes) := run_fetch (CC := nat) (λ _, inl url0) (λ _, [])
  (λ _ _, inl [Grpcrefl.mkFile [Grpcrefl.mkServiceDesc (str "S") [Grpcrefl.mkMethod (str "M") (str "S") [] [] false false]]])
  (λ _, []) (λ j _, inl j) (λ m : bytes, inl m) (λ m, inl m) (λ b _, (None, b)) [] (λ _ _ w, (None, w)) (λ _ _ w, (None, w)) 10 u_path.

Lemma fetch_http1_end_to_end_witness :
  eg_fetch (λ _, []) eg_flags 0 [] [] = Ret (inl (FetchCmd.print_response resp0), [EvDial 0]).
Proof.
  unfold eg_fetch.
  refine (fetch_http1_end_to_end (λ _, inl url0) (λ _, []) _ _ _ _ _ _ _ _ _ 10 _ eg_flags 0 [] url0 url0 _ []
    eq_refl _ _ _ eq_refl eq_refl eq_refl eq_refl); [vm_compute; reflexivity|reflexivity|by apply (bool_decide_unpack _)].
Defined.

Definition eg_grpc_flags : FetchCmd.flags :=
  FetchCmd.mkFlags [] (str "GET") [] (str "{}") false false false false true false (str "s.proto") false None.

End FetchCmdWitnesses.

(** ** The grpc command *)
Section GrpcCommand.
Import GrpcCmd.
Context {W Cred Msg : Type} `{!GrpcChannel W Cred}.
Context (NewMessage : bytes → Msg) (fromJSON : bytes → Msg → Msg + error) (toJSON : Msg → bytes + error)
        (proto_Marshal : Msg → bytes + error) (proto_Unmarshal : bytes → Msg → Msg + error) (reflection_method : bytes).

Definition run_grpc := grpcCmd NewMessage fromJSON toJSON proto_Marshal proto_Unmarshal reflection_method.
Definition grpc_conn := conn NewMessage fromJSON toJSON proto_Marshal proto_Unmarshal reflection_method.

(** The context path of the flag. *)
Definition path_flag (p : bytes) : option bytes := match p with [] => None | _ => Some p end.

(** C13: the grpc command on a channel.  When reflection gives a method, the message
    that the JSON describes is sent to it, under the context path, and the JSON of
    the answer is printed; when the server has no reflection, the JSON itself ("{}"
    for none) is sent as a frame of the json codec and the answer is printed as it
    came; any other reflection error is the command's, and no call is made.  The
    channel is closed in each case. *)
Theorem grpc_call_end_to_end plaintext (cfg : option Cred + error) cred contextPath headers data format target op more service m
    (w w1 w2 : W) r :
  Grpcrefl.grpcCredentials plaintext cfg = inl cred → Grpcrefl.EqualFold op (str "list") = false →
  ch_NewClient cred target w = (None, w1) → Grpcrefl.ParseFullMethod op = inl (service, m) →
  @Grpcrefl.LoadViaReflection W (grpc_conn cred (path_flag contextPath) (parseGRPCMetadata headers)) service m w1 = (r, w2) →
  (∀ desc req b b' res out w3,
     r = inl desc → fromJSON (Grpcrefl.or_empty_object data) (NewMessage (Grpcrefl.m_Input desc)) = inl req →
     proto_Marshal req = inl b →
     ch_Invoke (parseGRPCMetadata headers) (str "proto")
       (contextPathInterceptor (path_flag contextPath) (str "/" ++ Grpcrefl.m_Parent desc ++ str "/" ++ Grpcrefl.m_Name desc))
       b w2 = (inl b', w3) →
     proto_Unmarshal b' (NewMessage (Grpcrefl.m_Output desc)) = inl res → toJSON res = inl out →
     run_grpc plaintext cfg contextPath headers data format (target :: op :: more) w =
       (inl (RawResponse (out ++ [10])), ch_Close w3)) ∧
  (∀ err raw w3, r = inr err → ch_status_code err = Some Grpcrefl.Unimplemented →
     ch_Invoke (parseGRPCMetadata headers) (str "json")
       (contextPathInterceptor (path_flag contextPath) (str "/" ++ service ++ str "/" ++ m))
       (Grpcrefl.or_empty_object data) w2 = (inl raw, w3) →
     run_grpc plaintext cfg contextPath headers data format (target :: op :: more) w =
       (inl (RawResponse (raw ++ [10])), ch_Close w3)) ∧
  (∀ err, r = inr err → ch_status_code err ≠ Some Grpcrefl.Unimplemented →
     run_grpc plaintext cfg contextPath headers data format (target :: op :: more) w = (inr err, ch_Close w2)).
Proof.
  intros Hcred Hop Hnew Hpm Hl. unfold run_grpc, grpcCmd. rewrite Hcred, Hop.
  unfold Grpcrefl.invokeByReflection. fold (path_flag contextPath). fold grpc_conn.
  change (@Grpcrefl.gc_NewClient W (grpc_conn cred (path_flag contextPath) (parseGRPCMetadata headers)) target w)
    with (ch_NewClient cred target w). rewrite Hnew.
  unfold Grpcrefl.invoke_on. rewrite Hpm, Hl. split_and!.
  - intros desc req b b' res out w3 -> Hj Hb Hi Hu Ho. cbn [Grpcrefl.gc_InvokeJSON grpc_conn conn]. unfold InvokeJSON.
    assert (Grpcrefl.or_empty_object (Grpcrefl.or_empty_object data) = Grpcrefl.or_empty_object data) as -> by by destruct data.
    by rewrite Hj, Hb, Hi, Hu, Ho.
  - intros err raw w3 -> Hs Hi. cbn [Grpcrefl.status_code grpc_conn conn]. rewrite Hs, Z.eqb_refl.
    unfold Grpcrefl.invokeJSONFrame. cbn [Grpcrefl.gc_InvokeFrame grpc_conn conn]. unfold invoke_frame. cbn [JsonFrame.Marshal].
    unfold JsonFrame.Name. by rewrite Hi.
  - intros err -> Hs. cbn [Grpcrefl.status_code grpc_conn conn].
    destruct (ch_status_code err) as [code|]; [|done]. by destruct (Z.eqb_spec code Grpcrefl.Unimplemented) as [->|].
Qed.

(** The lists are asked for without the context path. *)
Lemma grpc_list_ignores_context_path plaintext cfg p headers data format target op more w :
  Grpcrefl.EqualFold op (str "list") = true →
  run_grpc plaintext cfg p headers data format (target :: op :: more) w =
  run_grpc plaintext cfg [] headers data format (target :: op :: more) w.
Proof. intros Ho. unfold run_grpc, grpcCmd. by rewrite Ho. Qed.
End GrpcCommand.

(** A channel that records the methods it is asked for; its server has no
    reflection, and answers calls with "ok". *)
Definition recording : GrpcCmd.GrpcChannel (list bytes) unit := {|
  GrpcCmd.ch_NewClient := λ _ _ w, (None, w);
  GrpcCmd.ch_Close := λ w, w;
  GrpcCmd.ch_NewStream := λ _ m w, (Some (Errorf "unimplemented" None), w ++ [m]);
  GrpcCmd.ch_Send := λ _ w, (None, w);
  GrpcCmd.ch_Recv := λ w, (inl Grpcrefl.OtherResponse, w);
  GrpcCmd.ch_Invoke := λ _ _ m _ w, (inl (str "ok"), w ++ [m]);
  GrpcCmd.ch_Unmarshal := inl;
  GrpcCmd.ch_NewFile := λ _, inl (Grpcrefl.mkFile []);
  GrpcCmd.ch_status_code := λ _, Some 12
|}.

Lemma grpc_call_end_to_end_witness :
  run_grpc (GrpcChannel0 := recording) (λ _, tt) (λ _ _, inl tt) (λ _, inl []) (λ _, inl []) (λ _ _, inl tt) (str "/r/R")
    true (inl None) (str "api") [] [] (str "text") [str "h:1"; str "s.S/M"] [] =
  (inl (GrpcCmd.RawResponse (str "ok" ++ [10])), [str "/api/r/R"; str "/api/s.S/M"]).
Proof.
  refine (proj1 (proj2 (grpc_call_end_to_end (GrpcChannel0 := recording) (λ _, tt) (λ _ _, inl tt) (λ _, inl []) (λ _, inl [])
    (λ _ _, inl tt) (str "/r/R") true (inl None) None (str "api") [] [] (str "text") (str "h:1") (str "s.S/M") [] (str "s.S") (str "M")
    [] [] [str "/api/r/R"] (inr (Errorf "unimplemented" None)) eq_refl eq_refl eq_refl _ _))
    _ (str "ok") _ eq_refl eq_refl _); vm_compute; reflexivity.
Defined.
