(* ===== verification/Descriptor.v ===== *)
(** * Descriptors and messages

    - [Descriptor]: binproto/protobuf/descriptor.go, which reads the raw descriptor
      that generated code carries, gzip-compressed or not, and prints a .proto file;
    - [Reflect]: reflect/proto.go, the tests on dynamic values;
    - [ProtoParse]: [GetReqResMessages] of examples/proto/protoparse, against the
      function of the fetch command that does the same.

    Parameters: gzip, [proto.Unmarshal] of a descriptor, [json.MarshalIndent] and the
    parser of .proto files. *)
From S2P Require Import Prelude Errors Wire NetAddr NetText Protobuf HttpText Cli FetchCmd.

Module Descriptor.

(** The parts of descriptorpb.FileDescriptorProto that are printed; the type of a
    field as the text that [String()] gives. *)
Record FieldDescriptor := mkFieldDescriptor { f_Type : bytes; f_Name : bytes; f_Number : Z }.
Record MessageType := mkMessageType { m_Name : bytes; m_Field : list FieldDescriptor }.
Record FileDescriptor := mkFileDescriptor { fd_Syntax : bytes; fd_Package : bytes; fd_Messages : list MessageType }.

Definition isGzipCompressed (data : bytes) : bool :=
  match data with
  | b0 :: b1 :: _ :: _ => (b0 =? 0x1f) && (b1 =? 0x8b)
  | _ => false
  end.

Definition nl : bytes := [10].
Definition quote : bytes := [34].

Definition field_text (f : FieldDescriptor) : bytes :=
  str "  " ++ f_Type f ++ str " " ++ f_Name f ++ str " = " ++ Itoa (f_Number f) ++ str ";" ++ nl.
Definition message_text (m : MessageType) : bytes :=
  str "message " ++ m_Name m ++ str " {" ++ nl ++ mjoin (field_text <$> m_Field m) ++ str "}" ++ nl.

Section Parse.
Context {R : Type} (gzip_NewReader : bytes → R + error) (ReadAll : R → bytes + error)
        (Unmarshal : bytes → FileDescriptor + error) (MarshalIndent : FileDescriptor → bytes + error).

(** What is printed after the descriptor was read; on an error the JSON is nil. *)
Definition printed (fd : FileDescriptor) : bytes :=
  str "File Descriptor JSON:" ++ nl ++ (match MarshalIndent fd with inl j => j | inr _ => [] end) ++ nl ++
  nl ++ str "Recovered .proto file:" ++ nl ++
  str "syntax = " ++ quote ++ fd_Syntax fd ++ quote ++ str ";" ++ nl ++
  str "package " ++ fd_Package fd ++ str ";" ++ nl ++ nl ++
  mjoin (message_text <$> fd_Messages fd).

(** The bytes to unmarshal. *)
Definition decompressed (rawDesc : bytes) : bytes + error :=
  if isGzipCompressed rawDesc then
    match gzip_NewReader rawDesc with
    | inr er => inr er
    | inl r => ReadAll r
    end
  else inl rawDesc.

(** The output, and the result. *)
Definition ParseRawProto (rawDesc : bytes) : bytes * (FileDescriptor + error) :=
  match decompressed rawDesc with
  | inr err => ([], inr err)
  | inl data =>
      match Unmarshal data with
      | inr err => ([], inr err)
      | inl fd => (printed fd, inl fd)
      end
  end.
End Parse.

(** ** Lemmas *)

(** The two bytes that start a gzip stream are no protobuf: the first is a tag of
    wire type 7. *)
Lemma gzip_is_no_message data rest :
  data = 0x1f :: rest → ∃ fs e, ParseProtoMessage data = Ret (fs, ValueError e).
Proof. intros ->. exists [], (Errorf "unsupported wire type" None). reflexivity. Qed.

Lemma message_is_no_gzip data fs : ParseProtoMessage data = Ret (fs, AtEOF) → isGzipCompressed data = false.
Proof.
  intros Hp. destruct data as [|b0 [|b1 [|b2 data]]]; [done..|]. cbn [isGzipCompressed].
  destruct (b0 =? 0x1f) eqn:E; [|done]. apply Z.eqb_eq in E. subst b0.
  destruct (gzip_is_no_message _ (b1 :: b2 :: data) eq_refl) as (fs' & e & Hq). rewrite Hq in Hp. discriminate.
Qed.

(** Nothing is printed when there is an error. *)
Lemma ParseRawProto_error {R} (nr : bytes → R + error) ra um mi raw err :
  (ParseRawProto nr ra um mi raw).2 = inr err → (ParseRawProto nr ra um mi raw).1 = [].
Proof. unfold ParseRawProto. repeat case_match; cbn; intros; congruence. Qed.
End Descriptor.

(** ** reflect/proto.go *)
Module Reflect.

(** What a type assertion finds of a dynamic value: whether it is a
    protoadapt.MessageV1, and its method [ProtoReflect] with whether that returns a
    non-nil message (an interface with that method alone is a MessageV2). *)
Inductive any := Nil | Value (isV1 : bool) (ProtoReflect : option bool).

Definition isV2 (p : option bool) : bool := match p with Some _ => true | None => false end.

Definition IsLegacyProtoMessage (msg : any) : bool :=
  match msg with Nil => false | Value v1 p => v1 && negb (isV2 p) end.
Definition IsProtoMessage (msg : any) : bool :=
  match msg with
  | Nil => false
  | Value _ (Some nonnil) => nonnil
  | Value _ None => false
  end.

(** No value is both, and what is neither is nil, no message at all, or a message
    that reflects to nil. *)
Lemma proto_kinds msg :
  (IsLegacyProtoMessage msg && IsProtoMessage msg = false) ∧
  (IsLegacyProtoMessage msg = false → IsProtoMessage msg = false →
   msg = Nil ∨ msg = Value false None ∨ ∃ v1, msg = Value v1 (Some false)).
Proof. destruct msg as [|[] [[]|]]; cbn; naive_solver. Qed.
End Reflect.

(** ** examples/proto/protoparse *)
Module ProtoParse.
Import Grpcrefl.

Section Messages.
Context {Msg : Type} (ParseFiles : bytes → bytes → list file_desc + error) (NewMessage : bytes → Msg).

(** The types of a method that was parsed are never nil. *)
Definition GetReqResMessages (protoPath serviceName methodName : bytes) : (Msg * Msg) + error :=
  match ParseFiles (FetchCmd.filepath_Dir protoPath) (FetchCmd.filepath_Base protoPath) with
  | inr err => inr (Errorf "parse proto file" None)
  | inl files =>
      match files with
      | [] => inr (Errorf "no parsed file" None)
      | file :: _ =>
          match list_find (λ s, sv_FullName s = serviceName) (fd_Services file) with
          | None => inr (Errorf "service not found" None)
          | Some (_, service) =>
              match list_find (λ m, m_Name m = methodName) (sv_Methods service) with
              | None => inr (Errorf "method not found" None)
              | Some (_, method) => inl (NewMessage (m_Input method), NewMessage (m_Output method))
              end
          end
      end
  end.

(** The example finds a method exactly when the fetch command does, and makes the
    messages of its types. *)
Lemma GetReqResMessages_agrees path service method :
  match FetchCmd.LoadFromProtoFile ParseFiles path service method with
  | inl m => GetReqResMessages path service method = inl (NewMessage (m_Input m), NewMessage (m_Output m))
  | inr _ => ∃ err, GetReqResMessages path service method = inr err
  end.
Proof.
  unfold FetchCmd.LoadFromProtoFile, GetReqResMessages.
  destruct (ParseFiles _ _) as [[|fd fds]|err]; [by eexists| |by eexists].
  destruct (list_find _ (fd_Services fd)) as [[i sv]|]; [|by eexists].
  by destruct (list_find _ (sv_Methods sv)) as [[j m]|]; [|eexists].
Qed.
End Messages.
End ProtoParse.

(** A raw descriptor is read the same whether generated code stored it as it is or
    gzip-compressed.  For the encoding [d] of a descriptor (which the schema-less
    reader reads to its end) and any gzip stream [z] that decompresses to [d],
    ParseRawProto prints the same text and returns the same descriptor for both: the
    test of the first two bytes takes no uncompressed message for a gzip stream. *)
Theorem raw_descriptor_either {R} (nr : bytes → R + error) (ra : R → bytes + error) um mi d z r fs fd :
  ParseProtoMessage d = Ret (fs, AtEOF) → um d = inl fd →
  Descriptor.isGzipCompressed z = true → nr z = inl r → ra r = inl d →
  Descriptor.ParseRawProto nr ra um mi d = (Descriptor.printed mi fd, inl fd) ∧
  Descriptor.ParseRawProto nr ra um mi z = (Descriptor.printed mi fd, inl fd).
Proof.
  intros Hp Hu Hz Hn Hr. unfold Descriptor.ParseRawProto, Descriptor.decompressed.
  rewrite (Descriptor.message_is_no_gzip d fs Hp), Hz, Hn, Hr. by rewrite !Hu.
Qed.

(** A toy instance: "gzip" that only adds a header, and a descriptor with a name of
    its package. *)
Lemma raw_descriptor_either_witness :
  let d := encode_field (2, VBytes (str "p")) in
  let um b := if decide (b = d) then inl (Descriptor.mkFileDescriptor [] (str "p") []) else inr (ErrNew EOF) in
  let mi _ := inl (str "{}") in
  Descriptor.ParseRawProto (λ z, inl (drop 3 z)) inl um mi d =
  Descriptor.ParseRawProto (λ z, inl (drop 3 z)) inl um mi (0x1f :: 0x8b :: 8 :: d).
Proof.
  intros d um mi.
  destruct (raw_descriptor_either (λ z, inl (drop 3 z)) inl um mi d (0x1f :: 0x8b :: 8 :: d) d
    [mkField 2 2 (VBytes (str "p"))] (Descriptor.mkFileDescriptor [] (str "p") [])) as [-> ->]; reflexivity.
Defined.
