(* ===== verification/Agent.v ===== *)
(** * The status agent

    snippets/soundness/agent (agent.go, options.go): an agent that posts a status
    file to a collector whenever it changes, and a heartbeat at intervals.

    [Start] and the goroutines that wait for the file share the fsnotify watcher
    and the lock of the file.  The steps: one [select], one operation on the file,
    the lock or the network.  The file system is the environment: it may write,
    remove or rename the file at any point, and the watch, when there is one,
    turns that into an event.  Parameters: [url.Parse], [URL.String] and the query
    of a URL. *)
From S2P Require Import Prelude Errors NetAddr NetText TcpClient HttpText.

Module Agent.

(** ** options.go *)
Record options := mkOptions {
  o_agentID : bytes; o_heartbeatInterval : Z; o_heartbeatPath : bytes; o_collectPath : bytes;
  o_statusFile : bytes; o_customHeaders : gmap bytes bytes
}.
Definition Option : Type := options → options.

Definition defaultOptions : options :=
  mkOptions [] (60 * 1000000000) (str "/heartbeat") (str "/collect") (str "/tmp/status.json") ∅.

Definition WithAgentID (id : bytes) : Option := λ o,
  mkOptions id (o_heartbeatInterval o) (o_heartbeatPath o) (o_collectPath o) (o_statusFile o) (o_customHeaders o).
Definition WithCustomHeaders (h : gmap bytes bytes) : Option := λ o,
  mkOptions (o_agentID o) (o_heartbeatInterval o) (o_heartbeatPath o) (o_collectPath o) (o_statusFile o) h.
Definition WithHeartbeatPath (p : bytes) : Option := λ o,
  mkOptions (o_agentID o) (o_heartbeatInterval o) p (o_collectPath o) (o_statusFile o) (o_customHeaders o).
Definition WithCollectURL (p : bytes) : Option := λ o,
  mkOptions (o_agentID o) (o_heartbeatInterval o) (o_heartbeatPath o) p (o_statusFile o) (o_customHeaders o).
Definition WithHeartbeatInterval (d : Z) : Option := λ o,
  mkOptions (o_agentID o) d (o_heartbeatPath o) (o_collectPath o) (o_statusFile o) (o_customHeaders o).
Definition WithStatusFile (p : bytes) : Option := λ o,
  mkOptions (o_agentID o) (o_heartbeatInterval o) (o_heartbeatPath o) (o_collectPath o) p (o_customHeaders o).

Definition evaluateOptions (opts : list Option) : options := foldl (λ o f, f o) defaultOptions opts.

(** ** agent.go: requests *)
Record agent := mkAgent {
  agentID : bytes; heartbeatInterval : Z; heartbeatUrl : bytes; collectorUrl : bytes;
  statusFile : bytes; customHeaders : gmap bytes bytes
}.

Definition with_path (u : ReqURL) (p : bytes) : ReqURL :=
  mkReqURL (Scheme u) (Opaque u) (URLHost u) p (ForceQuery u) (RawQuery u).

Section Requests.
Context (url_Parse : bytes → ReqURL + error) (URL_String : ReqURL → bytes).
(** [u.Query()], [Set("name", id)] and [Encode()]. *)
Context (set_name : bytes → bytes → bytes).

(** The agent, and what becomes of the caller's URL, which is the agent's too. *)
Definition NewAgent (brokerURL : ReqURL) (opts : list Option) : agent * ReqURL :=
  let o := evaluateOptions opts in
  let brokerURL := with_path brokerURL (o_heartbeatPath o) in
  let heartbeatUrl := URL_String brokerURL in
  let brokerURL := with_path brokerURL (o_collectPath o) in
  let collectorUrl := URL_String brokerURL in
  (mkAgent (o_agentID o) (o_heartbeatInterval o) heartbeatUrl collectorUrl (o_statusFile o) (o_customHeaders o), brokerURL).

(** The request of [loadAndSendJSON] and of [sendHeartbeat]. *)
Definition post_request (a : agent) (url body : bytes) : Request + error :=
  match url_Parse url with
  | inr err => inr err
  | inl u =>
      let h := Header_Set ∅ (str "Content-Type") (str "application/json") in
      let h := foldl (λ h kv, Header_Set h kv.1 kv.2) h (map_to_list (customHeaders a)) in
      let body_of := match body with [] => NoBody | _ => ReaderBody (inl body) end in
      match agentID a with
      | [] => inl (mkRequest (str "POST") (Some u) (URLHost u) h body_of (zlen body))
      | id =>
          let u' := mkReqURL (Scheme u) (Opaque u) (URLHost u) (EscapedPath u) (ForceQuery u) (set_name (RawQuery u) id) in
          inl (mkRequest (str "POST") (Some u') (URLHost u) (Header_Set h (str "X-Resource-Id") id) body_of (zlen body))
      end
  end.

Definition collect_request (a : agent) (content : bytes) : Request + error := post_request a (collectorUrl a) content.
Definition heartbeat_request (a : agent) : Request + error := post_request a (heartbeatUrl a) (str "{}").

(** ** agent.go: the goroutines *)

(** An event has one operation: a write, a removal, or another (a renaming, a
    change of the attributes). *)
Inductive event := EWrite | ERemove | EOther.

(** [loadAndSendJSON]: at the lock, with the lock before the file is read, with
    its content before the request. *)
Inductive load_pc := L_lock | L_read | L_send (content : bytes).

(** [Start]: in its [select], in [waitForCompleteWrite], in [loadAndSendJSON],
    returned.  [watchStatusFile]: in its [select], in [loadAndSendJSON], ended. *)
Inductive main_pc := M_select | M_wait | M_load (l : load_pc) | M_ret.
Inductive watch_pc := W_select | W_load (l : load_pc) | W_end.
#[global] Instance load_pc_eq : EqDecision load_pc := ltac:(solve_decision).
#[global] Instance watch_pc_eq : EqDecision watch_pc := ltac:(solve_decision).

Definition returned (pc : main_pc) : bool := match pc with M_ret => true | _ => false end.

Inductive thread := TMain | TWatch (i : nat).
#[global] Instance thread_eq : EqDecision thread := ltac:(solve_decision).

(** [flocked]: a writer holds an exclusive lock of the file.  [loaded]: what each
    load read ([None]: it failed); [posted]: the requests to the collector;
    [beats]: those of the heartbeat. *)
Record system := mkSystem {
  file : option bytes; flocked : bool; watched : bool; events : list event; cancelled : bool;
  main : main_pc; watchers : list watch_pc; fileLock : option thread;
  loaded : list (option bytes); posted : list (Request + error); beats : list (Request + error)
}.

(** The start: the first watcher goroutine runs. *)
Definition init (file : option bytes) : system := mkSystem file false false [] false M_select [W_select] None [] [] [].

Definition set_env (s : system) (f : option bytes) (fl : bool) (w : bool) (es : list event) : system :=
  mkSystem f fl w es (cancelled s) (main s) (watchers s) (fileLock s) (loaded s) (posted s) (beats s).
Definition cancel (s : system) : system :=
  mkSystem (file s) (flocked s) (watched s) (events s) true (main s) (watchers s) (fileLock s) (loaded s) (posted s) (beats s).
Definition set_main (pc : main_pc) (s : system) : system :=
  mkSystem (file s) (flocked s) (watched s) (events s) (cancelled s) pc (watchers s) (fileLock s) (loaded s) (posted s) (beats s).
Definition set_watchers (ws : list watch_pc) (s : system) : system :=
  mkSystem (file s) (flocked s) (watched s) (events s) (cancelled s) (main s) ws (fileLock s) (loaded s) (posted s) (beats s).
Definition set_lock (l : option thread) (s : system) : system :=
  mkSystem (file s) (flocked s) (watched s) (events s) (cancelled s) (main s) (watchers s) l (loaded s) (posted s) (beats s).
Definition add_loaded (c : option bytes) (s : system) : system :=
  mkSystem (file s) (flocked s) (watched s) (events s) (cancelled s) (main s) (watchers s) (fileLock s) (loaded s ++ [c])
    (posted s) (beats s).
Definition add_posted (r : Request + error) (s : system) : system :=
  mkSystem (file s) (flocked s) (watched s) (events s) (cancelled s) (main s) (watchers s) (fileLock s) (loaded s)
    (posted s ++ [r]) (beats s).
Definition add_beat (r : Request + error) (s : system) : system :=
  mkSystem (file s) (flocked s) (watched s) (events s) (cancelled s) (main s) (watchers s) (fileLock s) (loaded s)
    (posted s) (beats s ++ [r]).

(** The event of a watched file. *)
Definition notify (s : system) (e : event) : list event := if watched s then events s ++ [e] else events s.

Inductive choice :=
  | EnvWrite (content : bytes) | EnvRemove | EnvRename | EnvAttrib | EnvFlock (held : bool) | EnvCancel
  | TakeEvent | TakeDone | Tick                     (** the [select] of Start *)
  | WaitOpen (flock_ok : bool) | WaitTimeout        (** waitForCompleteWrite *)
  | Load (t : thread) (ok : bool)                   (** loadAndSendJSON *)
  | WatchTick (i : nat) (add_ok : bool) | WatchDone (i : nat).

(** One step of [loadAndSendJSON] in the goroutine [t]; the result is [None]
    when it waits, and [inl tt] when it has returned. *)
Definition load_step (a : agent) (t : thread) (ok : bool) (l : load_pc) (s : system) : option ((unit + load_pc) * system) :=
  match l with
  | L_lock => match fileLock s with
              | None => Some (inr L_read, set_lock (Some t) s)
              | Some _ => None
              end
  | L_read =>
      match (if ok then file s else None) with
      | None => Some (inl tt, set_lock None (add_loaded None s))
      | Some c => Some (inr (L_send c), add_loaded (Some c) s)
      end
  | L_send c => Some (inl tt, set_lock None (add_posted (collect_request a c) s))
  end.

(** One turn of the loop: the time is up, or the file is opened and locked; the
    lock waits for a writer that holds it. *)
Definition waitForCompleteWrite (c : choice) (s : system) : option system :=
  match c with
  | WaitTimeout => Some (set_main (M_load L_lock) s)
  | WaitOpen flock_ok =>
      match file s with
      | None => Some s
      | Some _ => if negb flock_ok then Some s
                  else if flocked s then None else Some (set_main (M_load L_lock) s)
      end
  | _ => None
  end.

Definition Start_step (a : agent) (c : choice) (s : system) : option system :=
  match c, main s with
  | TakeEvent, M_select =>
      match events s with
      | [] => None
      | e :: es =>
          let s := set_env s (file s) (flocked s) (watched s) es in
          Some match e with
               | EWrite => set_main M_wait s
               | ERemove => set_watchers (watchers s ++ [W_select]) s
               | EOther => s
               end
      end
  | TakeDone, M_select => if cancelled s then Some (set_main M_ret (set_env s (file s) (flocked s) false [])) else None
  | Tick, M_select => Some (if cancelled s then s else add_beat (heartbeat_request a) s)
  | WaitOpen _, M_wait | WaitTimeout, M_wait => waitForCompleteWrite c s
  | Load TMain ok, M_load l =>
      match load_step a TMain ok l s with
      | None => None
      | Some (inr l, s) => Some (set_main (M_load l) s)
      | Some (inl _, s) => Some (set_main M_select s)
      end
  | _, _ => None
  end.

Definition watchStatusFile_step (a : agent) (i : nat) (c : choice) (s : system) : option system :=
  match c, watchers s !! i with
  | WatchDone _, Some W_select => if cancelled s then Some (set_watchers (<[i := W_end]> (watchers s)) s) else None
  | WatchTick _ add_ok, Some W_select =>
      match file s with
      | None => Some s
      | Some _ =>
          if add_ok && negb (returned (main s)) then
            let s := set_env s (file s) (flocked s) true (events s) in
            Some (set_watchers (<[i := W_load L_lock]> (watchers s)) s)
          else Some (set_watchers (<[i := W_end]> (watchers s)) s)
      end
  | Load _ ok, Some (W_load l) =>
      match load_step a (TWatch i) ok l s with
      | None => None
      | Some (inr l, s) => Some (set_watchers (<[i := W_load l]> (watchers s)) s)
      | Some (inl _, s) => Some (set_watchers (<[i := W_end]> (watchers s)) s)
      end
  | _, _ => None
  end.

(** A removed file has no watch any more; nor has a renamed one. *)
Definition step (a : agent) (c : choice) (s : system) : option system :=
  match c with
  | EnvWrite content => Some (set_env s (Some content) (flocked s) (watched s) (notify s EWrite))
  | EnvRemove => Some (set_env s None false false (notify s ERemove))
  | EnvRename => Some (set_env s None false false (notify s EOther))
  | EnvAttrib => Some (set_env s (file s) (flocked s) (watched s) (notify s EOther))
  | EnvFlock held => Some (set_env s (file s) held (watched s) (events s))
  | EnvCancel => Some (cancel s)
  | TakeEvent | TakeDone | Tick | WaitOpen _ | WaitTimeout | Load TMain _ => Start_step a c s
  | Load (TWatch i) _ | WatchTick i _ | WatchDone i => watchStatusFile_step a i c s
  end.
End Requests.
End Agent.
