(* ===== verification/AgentSpec.v ===== *)
(** * The status agent: theorems

    The collector is sent what the file holds: while the file is watched, the last
    load has seen its content or another load is on its way, and the loads are
    posted in the order in which they were read. *)
From S2P Require Import Prelude Errors NetAddr NetText TcpClient HttpText Agent.

Module AgentFacts.
Import Agent.
Section Facts.
Context (url_Parse : bytes → ReqURL + error) (set_name : bytes → bytes → bytes) (a : agent).
Local Abbreviation step := (step url_Parse set_name a).
Local Abbreviation collect := (collect_request url_Parse set_name a).

(** Where a goroutine is in its load, if it is in one. *)
Definition main_load (pc : main_pc) : option load_pc := match pc with M_load l => Some l | _ => None end.
Definition watch_load (pc : watch_pc) : option load_pc := match pc with W_load l => Some l | _ => None end.
Definition thread_load (s : system) (t : thread) : option load_pc :=
  match t with TMain => main_load (main s) | TWatch i => watchers s !! i ≫= watch_load end.

(** The goroutine has the lock. *)
Definition inside (l : option load_pc) : Prop := match l with Some (L_read | L_send _) => True | _ => False end.
Definition sending (l : option load_pc) : list bytes := match l with Some (L_send c) => [c] | _ => [] end.

(** A load that has not read the file yet is on its way. *)
Definition before_read (l : option load_pc) : Prop := match l with Some (L_lock | L_read) => True | _ => False end.
Definition will_read (s : system) : Prop :=
  EWrite ∈ events s ∨ main s = M_wait ∨ ∃ t, before_read (thread_load s t).

Definition fresh (s : system) : Prop := last (loaded s) = Some None ∨ last (loaded s) = Some (file s).

Record inv (s : system) : Prop := {
  inv_lock : ∀ t, inside (thread_load s t) → fileLock s = Some t;
  inv_holder : ∀ t, fileLock s = Some t → inside (thread_load s t);
  inv_posted : posted s ++ (collect <$> match fileLock s with Some t => sending (thread_load s t) | None => [] end) =
    collect <$> omap id (loaded s);
  inv_fresh : watched s = true → fresh s ∨ will_read s;
  inv_gone : watched s = true → is_Some (file s)
}.

(** The part of the invariant that is about the lock. *)
Definition lock_inv (s : system) : Prop :=
  (∀ t, inside (thread_load s t) → fileLock s = Some t) ∧ (∀ t, fileLock s = Some t → inside (thread_load s t)) ∧
  posted s ++ (collect <$> match fileLock s with Some t => sending (thread_load s t) | None => [] end) =
    collect <$> omap id (loaded s).

Lemma inv_parts s : inv s ↔ lock_inv s ∧ (watched s = true → fresh s ∨ will_read s) ∧ (watched s = true → is_Some (file s)).
Proof. split; [intros [? ? ? ? ?]; by repeat split|intros ((? & ? & ?) & ? & ?); by split]. Qed.

(** A step that moves no goroutine into or out of the lock. *)
Lemma lock_frame s s' : lock_inv s →
  fileLock s' = fileLock s → loaded s' = loaded s → posted s' = posted s →
  (∀ t, thread_load s' t = thread_load s t ∨ ¬ inside (thread_load s t) ∧ ¬ inside (thread_load s' t)) →
  lock_inv s'.
Proof.
  intros (H1 & H2 & H3) Hl Hld Hp Ht. unfold lock_inv. rewrite Hl, Hld, Hp. split_and!.
  - intros t Hi. destruct (Ht t) as [E|[_ E]]; [rewrite E in Hi; by apply H1|done].
  - intros t E. specialize (H2 t E). destruct (Ht t) as [->|[N _]]; done.
  - rewrite <- H3. destruct (fileLock s) as [t|]; [|done]. specialize (H2 t eq_refl).
    by destruct (Ht t) as [->|[N _]].
Qed.

(** A step of a load, whatever the goroutine: [s'] is [s1] after the goroutine
    has moved. *)
Definition moved (t : thread) (r : unit + load_pc) (s1 s' : system) : Prop :=
  thread_load s' t = (match r with inl _ => None | inr l => Some l end) ∧
  (∀ t', t' ≠ t → thread_load s' t' = thread_load s1 t') ∧
  file s' = file s1 ∧ watched s' = watched s1 ∧ events s' = events s1 ∧ fileLock s' = fileLock s1 ∧
  loaded s' = loaded s1 ∧ posted s' = posted s1 ∧ (main s1 = M_wait → main s' = M_wait).

Lemma thread_load_lock s l t : thread_load (set_lock l s) t = thread_load s t.
Proof. by destruct t. Qed.
Lemma thread_load_loaded s c t : thread_load (add_loaded c s) t = thread_load s t.
Proof. by destruct t. Qed.
Lemma thread_load_posted s c t : thread_load (add_posted c s) t = thread_load s t.
Proof. by destruct t. Qed.

Lemma load_lock_inv t ok l s r s1 s' : lock_inv s → thread_load s t = Some l →
  load_step url_Parse set_name a t ok l s = Some (r, s1) → moved t r s1 s' → lock_inv s'.
Proof.
  intros (H1 & H2 & H3) Ht Hs (M1 & M2 & _ & _ & _ & M6 & M7 & M8 & _). unfold lock_inv. rewrite M6, M7, M8.
  destruct l as [| |c]; cbn in Hs.
  - destruct (fileLock s) eqn:Hl; [done|]. injection Hs as <- <-. cbn [set_lock fileLock loaded posted]. split_and!.
    + intros t' Hi. destruct (decide (t' = t)) as [->|Hne]; [done|]. rewrite M2, thread_load_lock in Hi by done.
      by specialize (H1 t' Hi).
    + intros t' [= <-]. by rewrite M1.
    + by rewrite M1.
  - pose proof (H1 t ltac:(by rewrite Ht)) as Hl. rewrite Hl, Ht in H3. cbn [sending fmap list_fmap] in H3. rewrite app_nil_r in H3.
    assert (∀ t', t' ≠ t → ¬ inside (thread_load s t')) as Hno by (intros t' Hne Hi; apply H1 in Hi; congruence).
    destruct (if ok then file s else None) as [c|]; injection Hs as <- <-; cbn [set_lock add_loaded fileLock loaded posted];
      rewrite omap_app; cbn [omap list_omap id]; rewrite fmap_app.
    + rewrite Hl. split_and!; [| |by rewrite M1, H3].
      * intros t' Hi. destruct (decide (t' = t)) as [->|Hne]; [done|]. rewrite M2, thread_load_loaded in Hi by done. by apply H1 in Hi as <-.
      * intros t' [= <-]. by rewrite M1.
    + split_and!; [|done|cbn; by rewrite !app_nil_r, H3].
      intros t' Hi. destruct (decide (t' = t)) as [->|Hne]; [by rewrite M1 in Hi|].
      rewrite M2, thread_load_lock, thread_load_loaded in Hi by done. by destruct (Hno t' Hne).
  - pose proof (H1 t ltac:(by rewrite Ht)) as Hl. rewrite Hl, Ht in H3. injection Hs as <- <-. cbn [set_lock add_posted fileLock loaded posted].
    split_and!; [|done|cbn; rewrite app_nil_r; exact H3].
    intros t' Hi. destruct (decide (t' = t)) as [->|Hne]; [by rewrite M1 in Hi|].
    rewrite M2, thread_load_lock, thread_load_posted in Hi by done. apply H1 in Hi. congruence.
Qed.

Lemma load_fresh t ok l s r s1 s' : thread_load s t = Some l → fresh s ∨ will_read s →
  load_step url_Parse set_name a t ok l s = Some (r, s1) → moved t r s1 s' → fresh s' ∨ will_read s'.
Proof.
  intros Ht Hf Hs (M1 & M2 & M3 & M4 & M5 & _ & M7 & _ & M9).
  assert (last (loaded s1) = last (loaded s) → file s1 = file s → events s1 = events s → main s1 = main s →
    (∀ t', thread_load s1 t' = thread_load s t') → (before_read (Some l) → before_read (thread_load s' t)) →
    fresh s' ∨ will_read s') as Hkeep.
  { intros K1 K2 K3 K4 K5 K6. destruct Hf as [Hf|[Hf|[Hf|[t' Hf]]]].
    - left. unfold fresh. by rewrite M7, M3, K1, K2.
    - right. left. by rewrite M5, K3.
    - right. right. left. apply M9. by rewrite K4.
    - right. right. right. destruct (decide (t' = t)) as [->|Hne]; [exists t; rewrite Ht in Hf; auto|].
      exists t'. by rewrite M2, K5. }
  destruct l as [| |c]; cbn in Hs.
  - destruct (fileLock s); [done|]. injection Hs as <- <-. apply Hkeep; try done; intros; by rewrite ?thread_load_lock, ?M1.
  - left. unfold fresh. rewrite M7, M3. destruct ok; [destruct (file s) as [c|] eqn:Hfile|];
      injection Hs as <- <-; cbn [set_lock add_loaded loaded file]; rewrite last_snoc; [right; by rewrite Hfile|by left..].
  - injection Hs as <- <-. by apply Hkeep.
Qed.

Lemma load_inv t ok l s r s1 s' : inv s → thread_load s t = Some l →
  load_step url_Parse set_name a t ok l s = Some (r, s1) → moved t r s1 s' → inv s'.
Proof.
  rewrite !inv_parts. intros (H1 & H2 & H3) Ht Hs Hm.
  assert (watched s1 = watched s ∧ file s1 = file s) as [Hw Hf].
  { destruct l; cbn in Hs; [destruct (fileLock s)|destruct (if ok then file s else None)|]; by inversion Hs; subst. }
  pose proof Hm as (_ & _ & M3 & M4 & _). rewrite M3, M4, Hw, Hf. split_and!; [by eapply load_lock_inv| |done].
  intros Hwt. by eapply load_fresh; eauto.
Qed.

(** A watcher goroutine that changes its place. *)
Lemma thread_load_watch s ws t :
  thread_load (set_watchers ws s) t = match t with TMain => thread_load s TMain | TWatch i => ws !! i ≫= watch_load end.
Proof. by destruct t. Qed.

Lemma watch_moved i pc s1 r : (i < length (watchers s1))%nat →
  watch_load pc = (match r with inl _ => None | inr l => Some l end) →
  moved (TWatch i) r s1 (set_watchers (<[i := pc]> (watchers s1)) s1).
Proof.
  intros Hi Hpc. split.
  { cbn. by rewrite list_lookup_insert_eq. }
  split; [|done]. intros [|j] Hne; [done|]. cbn. rewrite list_lookup_insert_ne; [done|congruence].
Qed.

Lemma main_moved pc s1 r : main_load pc = (match r with inl _ => None | inr l => Some l end) → main s1 ≠ M_wait →
  moved TMain r s1 (set_main pc s1).
Proof. intros Hpc Hm. split; [done|]. split; [|done]. by intros [|j] Hne. Qed.

(** A step that leaves every load where it is. *)
Lemma quiet_inv s s' : inv s → fileLock s' = fileLock s → loaded s' = loaded s → posted s' = posted s →
  (∀ t, thread_load s' t = thread_load s t) →
  (watched s' = true → watched s = true ∧ file s' = file s ∧
     (EWrite ∈ events s → EWrite ∈ events s') ∧ (main s = M_wait → main s' = M_wait)) → inv s'.
Proof.
  rewrite !inv_parts. intros (H1 & H2 & H3) Hl Hld Hp Ht Hw. split; [|split; intros Hw'; destruct (Hw Hw') as (W & F & E & M)].
  - eapply lock_frame; eauto.
  - destruct (H2 W) as [Hf|[Hf|[Hf|[t Hf]]]].
    + left. unfold fresh. by rewrite Hld, F.
    + right. left. auto.
    + right. right. left. auto.
    + right. right. right. exists t. by rewrite Ht.
  - rewrite F. auto.
Qed.

(** A step after which a load is on its way. *)
Lemma begin_inv s s' : inv s → fileLock s' = fileLock s → loaded s' = loaded s → posted s' = posted s →
  (∀ t, thread_load s' t = thread_load s t ∨ ¬ inside (thread_load s t) ∧ ¬ inside (thread_load s' t)) →
  (watched s' = true → is_Some (file s')) → will_read s' → inv s'.
Proof.
  rewrite !inv_parts. intros (H1 & H2 & H3) Hl Hld Hp Ht Hw Hr. split; [by eapply lock_frame|]. split; [by right|done].
Qed.

Lemma Start_inv c s s' : inv s → Start_step url_Parse set_name a c s = Some s' → inv s'.
Proof.
  intros Hi Hs. destruct c as [| | | | | | | | |flock_ok| |[|j] ok| |]; cbn in Hs; try done; destruct (main s) eqn:Hm; try done.
  - destruct (events s) as [|[] es] eqn:He; [done|..]; injection Hs as <-.
    + eapply begin_inv; [exact Hi|done..| | |right; by left].
      * intros [|i]; [right; cbn; rewrite Hm; by split; intros []|by left].
      * intros Hw. exact (inv_gone _ Hi Hw).
    + apply (quiet_inv s); [done..| |].
      * intros [|i]; [done|]. cbn. rewrite lookup_app. destruct (watchers s !! i); [done|].
        by destruct (i - length (watchers s))%nat as [|[]].
      * cbn. rewrite He, elem_of_cons. intros Hw. split_and!; [done|done| |by rewrite Hm]. by intros [?|?].
    + apply (quiet_inv s); [done..|]. cbn. rewrite He, elem_of_cons. intros Hw. split_and!; try done. by intros [?|?].
  - destruct (cancelled s); [|done]. injection Hs as <-. apply (quiet_inv s); [done..| |done].
    intros [|i]; [cbn; by rewrite Hm|done].
  - injection Hs as <-. destruct (cancelled s); [done|]. by apply (quiet_inv s).
  - destruct (file s) eqn:Hf; [|by injection Hs as <-]. destruct flock_ok; [|by injection Hs as <-]. destruct (flocked s); [done|].
    injection Hs as <-. eapply begin_inv; [exact Hi|done..| | |].
    + intros [|i]; [right; cbn; rewrite Hm; by split; intros []|by left].
    + intros Hw. exact (inv_gone _ Hi Hw).
    + right. right. by exists TMain.
  - injection Hs as <-. eapply begin_inv; [exact Hi|done..| | |].
    + intros [|i]; [right; cbn; rewrite Hm; by split; intros []|by left].
    + intros Hw. exact (inv_gone _ Hi Hw).
    + right. right. by exists TMain.
  - destruct (load_step _ _ _ _ _ _ s) as [[[[]|l'] s1]|] eqn:Hl; [..|done]; injection Hs as <-;
      (eapply load_inv; [exact Hi| |exact Hl|]; [cbn; by rewrite Hm|]; apply main_moved; [done|]);
      (assert (main s1 = main s) as -> by
        (destruct l; cbn in Hl; [destruct (fileLock s)|destruct (if ok then file s else None)|]; by inversion Hl; subst));
      by rewrite Hm.
Qed.

Lemma watch_inv i c s s' : inv s → watchStatusFile_step url_Parse set_name a i c s = Some s' → inv s'.
Proof.
  intros Hi Hs. destruct c; cbn in Hs; try done; destruct (watchers s !! i) as [pc|] eqn:Hpc; try done; destruct pc; try done.
  - assert (i < length (watchers s))%nat as Hlt by (by apply lookup_lt_Some in Hpc).
    destruct (load_step _ _ _ _ _ _ s) as [[[[]|l'] s1]|] eqn:Hl; [..|done]; injection Hs as <-;
      (assert (watchers s1 = watchers s) as Hw1 by
        (destruct l; cbn in Hl; [destruct (fileLock s)|destruct (if ok then file s else None)|]; by inversion Hl; subst));
      (eapply load_inv; [exact Hi| |exact Hl|]; [cbn; by rewrite Hpc|]; apply watch_moved; [by rewrite Hw1|done]).
  - assert (i < length (watchers s))%nat as Hlt by (by apply lookup_lt_Some in Hpc).
    destruct (file s) eqn:Hf; [|by injection Hs as <-].
    destruct (add_ok && negb (returned (main s))); injection Hs as <-.
    + eapply begin_inv; [exact Hi|done..| | |].
      * intros [|j]; [by left|]. destruct (decide (j = i)) as [->|Hne].
        { right. cbn. rewrite Hpc, list_lookup_insert_eq by done. by split; intros []. }
        left. cbn. by rewrite list_lookup_insert_ne by congruence.
      * cbn. eauto.
      * right. right. exists (TWatch i). cbn. by rewrite list_lookup_insert_eq by done.
    + apply (quiet_inv s); [done..| |done]. intros [|j]; [done|]. cbn. destruct (decide (j = i)) as [->|Hne].
      * by rewrite Hpc, list_lookup_insert_eq by done.
      * by rewrite list_lookup_insert_ne by congruence.
  - destruct (cancelled s); [|done]. injection Hs as <-. apply (quiet_inv s); [done..| |done].
    intros [|j]; [done|]. cbn. destruct (decide (j = i)) as [->|Hne].
    + rewrite Hpc, list_lookup_insert_eq; [done|by apply lookup_lt_Some in Hpc].
    + by rewrite list_lookup_insert_ne by congruence.
Qed.

Lemma agent_step_inv c s s' : inv s → step c s = Some s' → inv s'.
Proof.
  intros Hi Hs. destruct c; cbn [Agent.step] in Hs; try by eapply Start_inv. all: try by eapply watch_inv.
  - injection Hs as <-. apply inv_parts in Hi as (H1 & H2 & H3). apply inv_parts. split; [by apply (lock_frame s); auto|].
    cbn. unfold notify. split; [|eauto]. intros Hw. right. left. cbn. rewrite Hw. apply elem_of_app. right. by left.
  - injection Hs as <-. by apply (quiet_inv s).
  - injection Hs as <-. by apply (quiet_inv s).
  - injection Hs as <-. apply (quiet_inv s); [done..|]. cbn. unfold notify. intros Hw. rewrite Hw. split_and!; try done.
    rewrite elem_of_app. by left.
  - injection Hs as <-. by apply (quiet_inv s).
  - injection Hs as <-. by apply (quiet_inv s).
  - destruct t; [by eapply Start_inv|by eapply watch_inv].
Qed.

Lemma agent_init_inv f : inv (init f).
Proof.
  split; try done. intros [|[|i]] Hi; destruct Hi.
Qed.

(** Nothing is under way: no event waits, Start is in its [select], and no
    watcher goroutine loads. *)
Definition settled (s : system) : Prop :=
  events s = [] ∧ main s = M_select ∧ ∀ i pc, watchers s !! i = Some pc → pc = W_select ∨ pc = W_end.

Lemma settled_load s t : settled s → thread_load s t = None.
Proof.
  intros (_ & Hm & Hw). destruct t as [|i]; cbn; [by rewrite Hm|]. destruct (watchers s !! i) as [pc|] eqn:Hi; [|done].
  by destruct (Hw i pc Hi) as [->| ->].
Qed.

Lemma settled_free s : inv s → settled s → fileLock s = None.
Proof.
  intros Hi Hs. destruct (fileLock s) as [t|] eqn:Hl; [|done]. apply (inv_holder _ Hi) in Hl.
  by rewrite settled_load in Hl.
Qed.

(** Nobody looks at the file any more. *)
Definition blind (l : list (option bytes)) (s : system) : Prop :=
  watched s = false ∧ (∀ e, e ∈ events s → e = EOther) ∧ (main s = M_select ∨ main s = M_ret) ∧
  (∀ i pc, watchers s !! i = Some pc → pc = W_end) ∧ loaded s = l.

Lemma blind_step l c s s' : blind l s → step c s = Some s' → blind l s'.
Proof.
  intros (Hw & He & Hm & Hws & Hl) Hs.
  assert (∀ e, notify s e = events s) as Hn by (intros e; unfold notify; by rewrite Hw).
  destruct c as [| | | | | | | | |flock_ok| |[|j] ok| |]; cbn in Hs;
    try (injection Hs as <-; split_and!; cbn; rewrite ?Hn; by auto).
  - destruct Hm as [Hm|Hm]; rewrite Hm in Hs; [|done]. destruct (events s) as [|e es] eqn:Hes; [done|].
    rewrite (He e) in Hs by (by left). injection Hs as <-. split_and!; cbn; auto. intros e' Hin. apply He. by right.
  - destruct Hm as [Hm|Hm]; rewrite Hm in Hs; [|done]. destruct (cancelled s); [|done]. injection Hs as <-.
    split_and!; cbn; auto. by intros e Hin%not_elem_of_nil.
  - destruct Hm as [Hm|Hm]; rewrite Hm in Hs; [|done]. injection Hs as <-.
    destruct (cancelled s); split_and!; cbn; auto.
  - by destruct Hm as [Hm|Hm]; rewrite Hm in Hs.
  - by destruct Hm as [Hm|Hm]; rewrite Hm in Hs.
  - by destruct Hm as [Hm|Hm]; rewrite Hm in Hs.
  - destruct (watchers s !! j) as [pc|] eqn:Hpc; [|done]. by rewrite (Hws j pc Hpc) in Hs.
  - destruct (watchers s !! i) as [pc|] eqn:Hpc; [|done]. by rewrite (Hws i pc Hpc) in Hs.
  - destruct (watchers s !! i) as [pc|] eqn:Hpc; [|done]. by rewrite (Hws i pc Hpc) in Hs.
Qed.

Lemma app_ne {A} (l k : list A) : k ≠ [] → l ++ k ≠ l.
Proof. intros Hk Hl. apply (f_equal length) in Hl. rewrite length_app in Hl. destruct k; [done|cbn in Hl; lia]. Qed.

(** A watched file that is written is loaded. *)
Lemma watched_loads s : settled s → fileLock s = None → watched s = true →
  ∃ cs s', run_steps step cs s = Some s' ∧ loaded s' ≠ loaded s.
Proof.
  intros (He & Hm & _) Hl Hw. exists [EnvWrite []; EnvFlock false; TakeEvent; WaitOpen true; Load TMain true; Load TMain true].
  eexists. cbn. unfold notify. rewrite Hw, He. cbn. rewrite Hm. cbn. rewrite Hl. cbn.
  split; [reflexivity|]. cbn. by apply app_ne.
Qed.

(** So is the file that a watcher goroutine waits for. *)
Lemma waiting_loads s i : settled s → fileLock s = None → watchers s !! i = Some W_select →
  ∃ cs s', run_steps step cs s = Some s' ∧ loaded s' ≠ loaded s.
Proof.
  intros (He & Hm & _) Hl Hw. pose proof (lookup_lt_Some _ _ _ Hw) as Hlt.
  exists [EnvWrite []; WatchTick i true; Load (TWatch i) true; Load (TWatch i) true].
  eexists. cbn. rewrite Hw, Hm. cbn. rewrite list_lookup_insert_eq by done. cbn. rewrite Hl. cbn.
  rewrite list_lookup_insert_eq by (by rewrite length_insert). cbn.
  split; [reflexivity|]. cbn. by apply app_ne.
Qed.
End Facts.
End AgentFacts.


(** C23: the agent goes blind.  When nothing is under way, some continuation loads
    the file again if and only if the file is watched or a goroutine still waits
    for it: a renaming of the file, or a failed attempt to watch it, leaves an
    agent that never posts its content again, whatever is written. *)
Theorem agent_sees_iff url_Parse set_name a f cs s :
  run_steps (Agent.step url_Parse set_name a) cs (Agent.init f) = Some s → AgentFacts.settled s →
  (∃ cs' s', run_steps (Agent.step url_Parse set_name a) cs' s = Some s' ∧ Agent.loaded s' ≠ Agent.loaded s) ↔
  Agent.watched s = true ∨ Agent.W_select ∈ Agent.watchers s.
Proof.
  intros Hr Hs. assert (AgentFacts.inv url_Parse set_name a s) as Hi.
  { revert Hr. apply run_steps_inv; [intros *; apply AgentFacts.agent_step_inv|apply AgentFacts.agent_init_inv]. }
  pose proof (AgentFacts.settled_free _ _ _ _ Hi Hs) as Hl. split.
  - intros (cs' & s' & Hr' & Hne). destruct (Agent.watched s) eqn:Hw; [by left|]. right.
    destruct (decide (Exists (λ pc, pc = Agent.W_select) (Agent.watchers s))) as [He|He].
    { apply Exists_exists in He as (pc & Hin & ->). done. }
    exfalso. apply Hne. assert (AgentFacts.blind (Agent.loaded s) s') as (_ & _ & _ & _ & Hb); [|done].
    revert Hr'. apply run_steps_inv; [intros *; apply AgentFacts.blind_step|].
    destruct Hs as (Hev & Hm & Hws). split_and!; [done|rewrite Hev; by intros e Hin%not_elem_of_nil|by left| |done].
    intros i pc Hpc. destruct (Hws i pc Hpc) as [->|]; [|done]. destruct He. apply Exists_exists. exists Agent.W_select.
    split; [by eapply list_elem_of_lookup_2|done].
  - intros [Hw|Hin]; [by apply AgentFacts.watched_loads|]. apply list_elem_of_lookup_1 in Hin as [i Hin].
    by eapply AgentFacts.waiting_loads.
Qed.

(** ** Examples: a file that is watched and written, and one that is renamed *)
Definition eg_agent : Agent.agent := Agent.mkAgent (str "id") 0 [] [] [] ∅.
Definition eg_broker : ReqURL := mkReqURL (str "http") [] (str "b") [] false [].
Local Abbreviation eg_step := (Agent.step (λ _, inl eg_broker) (λ _ id, str "name=" ++ id) eg_agent).

(** The watcher goroutine finds the file and posts it. *)
Definition eg_found : list Agent.choice :=
  [Agent.WatchTick 0 true; Agent.Load (Agent.TWatch 0) true; Agent.Load (Agent.TWatch 0) true; Agent.Load (Agent.TWatch 0) true].
Definition eg_rewritten : list Agent.choice :=
  [Agent.EnvWrite (str "2"); Agent.TakeEvent; Agent.WaitOpen true; Agent.Load Agent.TMain true; Agent.Load Agent.TMain true;
   Agent.Load Agent.TMain true].

Lemma eg_settled s : Agent.events s = [] → Agent.main s = Agent.M_select → Agent.watchers s = [Agent.W_end] → AgentFacts.settled s.
Proof. intros He Hm Hw. split; [done|]. split; [done|]. rewrite Hw. intros [|i] pc; [|done]. intros [= <-]. by right. Qed.

(** What a run leads to, without the requests. *)
Definition observe (s : Agent.system) :=
  (Agent.events s, Agent.main s, Agent.watchers s, Agent.watched s, Agent.loaded s, Agent.file s).

Lemma observe_run cs es m ws w l f :
  observe <$> run_steps eg_step cs (Agent.init (Some (str "1"))) = Some (es, m, ws, w, l, f) →
  ∃ s, run_steps eg_step cs (Agent.init (Some (str "1"))) = Some s ∧ Agent.events s = es ∧ Agent.main s = m ∧
    Agent.watchers s = ws ∧ Agent.watched s = w ∧ Agent.loaded s = l ∧ Agent.file s = f.
Proof. destruct (run_steps _ _ _) as [s|]; [|done]. intros [= <- <- <- <- <- <-]. by exists s. Qed.

Lemma observe_rewritten : ∃ s, run_steps eg_step (eg_found ++ eg_rewritten) (Agent.init (Some (str "1"))) = Some s ∧
  Agent.events s = [] ∧ Agent.main s = Agent.M_select ∧ Agent.watchers s = [Agent.W_end] ∧ Agent.watched s = true ∧
  Agent.loaded s = [Some (str "1"); Some (str "2")] ∧ Agent.file s = Some (str "2").
Proof. apply observe_run. vm_compute. reflexivity. Qed.

Lemma observe_renamed : ∃ s, run_steps eg_step (eg_found ++ [Agent.EnvRename; Agent.TakeEvent]) (Agent.init (Some (str "1"))) = Some s ∧
  Agent.events s = [] ∧ Agent.main s = Agent.M_select ∧ Agent.watchers s = [Agent.W_end] ∧ Agent.watched s = false ∧
  Agent.loaded s = [Some (str "1")] ∧ Agent.file s = None.
Proof. apply observe_run. vm_compute. reflexivity. Qed.


Lemma agent_sees_iff_witness :
  ∃ s, run_steps eg_step (eg_found ++ [Agent.EnvRename; Agent.TakeEvent]) (Agent.init (Some (str "1"))) = Some s ∧
    ∀ cs s', run_steps eg_step cs s = Some s' → Agent.loaded s' = Agent.loaded s.
Proof.
  destruct observe_renamed as (s & Hs & He & Hm & Hws & Hw & Hl & Hf). exists s. split; [exact Hs|]. intros cs s' Hr.
  destruct (decide (Agent.loaded s' = Agent.loaded s)) as [?|Hne]; [done|]. exfalso.
  destruct (proj1 (agent_sees_iff _ _ _ _ _ _ Hs (eg_settled _ He Hm Hws)) (ex_intro _ cs (ex_intro _ s' (conj Hr Hne)))) as [Hy|Hin];
    [congruence|]. rewrite Hws in Hin. by apply list_elem_of_singleton in Hin.
Defined.

(** [NewAgent] leaves its caller's URL with the path of the collector. *)
Lemma NewAgent_changes_url URL_String u opts :
  (Agent.NewAgent URL_String u opts).2 = Agent.with_path u (Agent.o_collectPath (Agent.evaluateOptions opts)).
Proof. reflexivity. Qed.
