(* ===== verification/Handlers.v ===== *)
(** * HTTP handlers and the servers that use them

    http/extensions (handlers.go, middleware.go), the handlers of
    cmd/distro/devtool.go and file_server.go, net/ipaddr/addr.go, the example
    server examples/net/httpserver and the servers of snippets/httproto.

    A handler takes a request and what has been written of the response so far.
    What a handler prints is recorded; logging of single values is left out.
    Parameters: name resolution, [json.MarshalIndent], and the handlers of other
    packages. *)
From S2P Require Import Prelude Errors NetAddr NetText TcpClient HttpText Http1 Cli Sockets.

(** ** net/http *)
Module Http.

(** A request as a server sees it: [sr_Body]: the bytes of the body and the error
    that ends it ([None]: EOF), or nil; [sr_Local]: the local address. *)
Record ServerRequest := mkServerRequest {
  sr_Method : bytes; sr_RequestURI : bytes; sr_URL : ReqURL; sr_Path : bytes; sr_Proto : bytes; sr_ProtoMajor : Z;
  sr_Header : Header; sr_Body : option (bytes * option error); sr_ContentLength : Z;
  sr_Host : bytes; sr_Remote : bytes; sr_Local : option bytes; sr_Trailer : Header
}.

(** [rw_sent]: the status and the header once they are written; [rw_log]: the
    texts that were logged. *)
Record ResponseWriter := mkRW {
  rw_header : Header; rw_sent : option (Z * Header); rw_body : bytes; rw_log : list bytes
}.

Definition Handler : Type := ServerRequest → ResponseWriter → ResponseWriter.

Definition set_header (k v : bytes) (w : ResponseWriter) : ResponseWriter :=
  mkRW (Header_Set (rw_header w) k v) (rw_sent w) (rw_body w) (rw_log w).

Definition WriteHeader (code : Z) (w : ResponseWriter) : ResponseWriter :=
  match rw_sent w with
  | None => mkRW (rw_header w) (Some (code, rw_header w)) (rw_body w) (rw_log w)
  | Some _ => w
  end.

Definition Write (b : bytes) (w : ResponseWriter) : ResponseWriter :=
  let w := WriteHeader 200 w in mkRW (rw_header w) (rw_sent w) (rw_body w ++ b) (rw_log w).

Definition log_text (t : bytes) (w : ResponseWriter) : ResponseWriter :=
  mkRW (rw_header w) (rw_sent w) (rw_body w) (rw_log w ++ [t]).

(** [http.Error] *)
Definition Http_Error (text : bytes) (code : Z) (w : ResponseWriter) : ResponseWriter :=
  let w := mkRW (delete (str "Content-Length") (rw_header w)) (rw_sent w) (rw_body w) (rw_log w) in
  let w := set_header (str "Content-Type") (str "text/plain; charset=utf-8") w in
  let w := set_header (str "X-Content-Type-Options") (str "nosniff") w in
  Write (text ++ [10]) (WriteHeader code w).

(** [http.MaxBytesReader] and a reader of everything: what is read, and whether
    an error ended it. *)
Definition read_limited (limit : nat) (body : bytes * option error) : bytes * bool :=
  if (limit <? length body.1)%nat then (take limit body.1, true)
  else (body.1, match body.2 with Some _ => true | None => false end).

(** [ServeMux]: the longest pattern that matches; a pattern that ends in a slash
    matches every path below it.  The paths are clean. *)
Definition matches (pattern path : bytes) : bool :=
  if bool_decide (last pattern = Some 47) then HasPrefix path pattern else bool_decide (path = pattern).
Fixpoint mux_find (routes : list (bytes * Handler)) (path : bytes) (best : option (bytes * Handler)) : option (bytes * Handler) :=
  match routes with
  | [] => best
  | (p, h) :: routes' =>
      let better := match best with Some (q, _) => (length q <? length p)%nat | None => true end in
      mux_find routes' path (if matches p path && better then Some (p, h) else best)
  end.
Definition ServeMux (routes : list (bytes * Handler)) : Handler := λ r w,
  match mux_find routes (sr_Path r) None with
  | Some (_, h) => h r w
  | None => Http_Error (str "404 page not found") 404 w
  end.

(** A request served: the header is sent at the end when the handler has not. *)
Definition respond (h : Handler) (r : ServerRequest) : ResponseWriter := WriteHeader 200 (h r (mkRW ∅ None [] [])).
End Http.

(** ** http/extensions *)
Module Extensions.
Import Http.

(** *** middleware.go *)
Definition NoCacheMiddleware (next : Handler) : Handler := λ r w,
  let w := set_header (str "Cache-Control") (str "no-store, no-cache, must-revalidate, max-age=0") w in
  let w := set_header (str "Pragma") (str "no-cache") w in
  let w := set_header (str "Expires") (str "0") w in
  next r w.

Definition cors_headers (w : ResponseWriter) : ResponseWriter :=
  let w := set_header (str "Access-Control-Allow-Origin") (str "*") w in
  let w := set_header (str "Access-Control-Allow-Methods") (str "GET, POST, PUT, DELETE, OPTIONS") w in
  set_header (str "Access-Control-Allow-Headers") (str "Content-Type, X-Auth-Token") w.

Definition CORSMiddleware (next : Handler) : Handler := λ r w,
  let w := cors_headers w in
  if bool_decide (sr_Method r = str "OPTIONS") then w else next r w.

(** The names of the trailer, in the order of [map_to_list]. *)
Definition trailer_line (t : Header) : bytes :=
  match map_to_list t with
  | [] => []
  | l => str "Trailer: " ++ HttpProxy.join_comma l.*1 ++ crlf
  end.

Definition FormatRequest (r : ServerRequest) : bytes :=
  [10] ++ sr_Method r ++ str " " ++ RequestURI (sr_URL r) ++ str " " ++ sr_Proto r ++ crlf ++
  Header_Write (sr_Header r) ++
  (match sr_Remote r with [] => [] | a => str "Remote-Addr: " ++ a ++ crlf end) ++
  trailer_line (sr_Trailer r).

Definition FormatResponse (p : Response) : bytes :=
  [10] ++ Proto p ++ str " " ++ Status p ++ crlf ++ Header_Write (PHeader p) ++ trailer_line (Trailer p) ++ crlf.

Definition FormatResponseWriter (w : ResponseWriter) : bytes := Header_Write (rw_header w).

(** [redirected]: [r.Response], the response that a client's redirect came from. *)
Definition LoggingMiddleware (redirected : ServerRequest → option Response) (next : Handler) : Handler := λ r w,
  let w := log_text (FormatRequest r) w in
  let w := next r w in
  match redirected r with
  | Some p => log_text (FormatResponse p) w
  | None => log_text (FormatResponseWriter w) w
  end.

(** *** handlers.go *)
Definition getClientIP (h : Header) (remote : bytes) : bytes :=
  match Header_Get h (str "X-Forwarded-For") with
  | (_ :: _) as xff => TrimSpace (default [] (head (Split 44 xff)))
  | [] => match Header_Get h (str "X-Real-IP") with
          | (_ :: _) as x => TrimSpace x
          | [] => TrimSpace remote
          end
  end.

Section Debug.
Context (Hostname : bytes + error) (LookupHost : bytes → list bytes + error).
(** [json.MarshalIndent] of the map: the texts, and the header. *)
Context (MarshalIndent : list (bytes * bytes) → Header → bytes + error).
(** The text that [%v] makes of the error of a body. *)
Context (read_error : bytes).

Definition getServerIP (r : ServerRequest) : bytes :=
  match sr_Local r with
  | Some a => a
  | None =>
      let host := match sr_Host r with [] => Hostname | h => inl h end in
      match host with
      | inr _ => []
      | inl host => match LookupHost host with inl (a :: _) => a | _ => str "Unknown" end
      end
  end.

Definition max_body : nat := Z.to_nat (2 ^ 20).

Definition ip_headers (r : ServerRequest) (w : ResponseWriter) : ResponseWriter :=
  set_header (str "Server-IP") (getServerIP r) (set_header (str "Client-IP") (getClientIP (sr_Header r) (sr_Remote r)) w).

Definition debug_text (r : ServerRequest) : bytes :=
  sr_Method r ++ str " " ++ sr_RequestURI r ++ str " " ++ sr_Proto r ++ [10] ++ Header_Write (sr_Header r) ++ [10] ++
  (match sr_Body r with Some b => (read_limited max_body b).1 | None => [] end) ++ Header_Write (sr_Trailer r).

Definition DebugHandler : Handler := λ r w,
  let w := set_header (str "Content-Type") (str "text/plain; charset=utf-8") w in
  Write (debug_text r) (ip_headers r w).

Definition DebugHandlerJSON : Handler := λ r w,
  let w := set_header (str "Content-Type") (str "application/json; charset=utf-8") w in
  let w := ip_headers r w in
  let body := match sr_Body r with
              | None => []
              | Some b => match read_limited max_body b with
                          | (data, false) => data
                          | (_, true) => str "Error reading body: " ++ read_error
                          end
              end in
  match MarshalIndent [(str ":method", sr_Method r); (str ":path", sr_RequestURI r); (str ":protocol", sr_Proto r);
                       (str "body", body); (str "client_ip", getClientIP (sr_Header r) (sr_Remote r));
                       (str "server_ip", getServerIP r)] (sr_Header r) with
  | inr _ => Http_Error (str "Error generating JSON") 500 w
  | inl out => Write out w
  end.

(** *** cmd/distro/devtool.go: the handler of runDevtoolServer *)
Definition devtool (verbose : bool) : Handler :=
  let debugHandler := CORSMiddleware DebugHandler in
  let debugHandlerJSON := CORSMiddleware DebugHandlerJSON in
  let logging h := if verbose then LoggingMiddleware (λ _, None) h else h in
  ServeMux [(str "/", CORSMiddleware (logging debugHandler)); (str "/json", CORSMiddleware (logging debugHandlerJSON))].
End Debug.
End Extensions.

(** ** net/ipaddr/addr.go and cmd/distro/file_server.go *)
Module FileServer.
Import Http Extensions.

(** An interface: its name, its flags, and its addresses, each with its IP
    ([None]: neither an [*net.IPNet] nor an [*net.IPAddr]). *)
Record Interface := mkInterface { i_Flags : Z; i_Addrs : list (option bytes) + error }.
Definition FlagUp : Z := 1.
Definition FlagLoopback : Z := 4.

(** [IP_String]: [net.IP.String] *)
Section Addrs.
Context (IP_String : bytes → bytes).

Definition addr_text (ip : option bytes) : option bytes :=
  match ip with
  | None => None
  | Some ip =>
      if Sockets.IsLoopback ip || bool_decide (Sockets.To4 ip = None) then None else Some (IP_String ip)
  end.

Definition iface_texts (i : Interface) : list bytes :=
  if Z.land (i_Flags i) FlagUp =? 0 then []
  else if negb (Z.land (i_Flags i) FlagLoopback =? 0) then []
  else match i_Addrs i with inr _ => [] | inl addrs => omap addr_text addrs end.

Definition GetLocalIPv4Addrs (interfaces : list Interface + error) : list bytes + error :=
  match interfaces with
  | inr err => inr err
  | inl l => inl (concat (map iface_texts l))
  end.

(** The address that is announced. *)
Definition announced (interfaces : list Interface + error) (port : Z) : bytes :=
  let addrs := match GetLocalIPv4Addrs interfaces with inl (a :: l) => a :: l | _ => [str "0.0.0.0"] end in
  str "http://" ++ default [] (head addrs) ++ str ":" ++ FormatInt port.
End Addrs.

(** [http.StripPrefix("/", h)]: the path without its first slash. *)
Definition StripPrefix (h : Handler) : Handler := λ r w,
  match sr_Path r with
  | 47 :: p =>
      h (mkServerRequest (sr_Method r) (sr_RequestURI r) (sr_URL r) p (sr_Proto r) (sr_ProtoMajor r) (sr_Header r) (sr_Body r)
           (sr_ContentLength r) (sr_Host r) (sr_Remote r) (sr_Local r) (sr_Trailer r)) w
  | _ => Http_Error (str "404 page not found") 404 w
  end.

(** [files]: [http.FileServer] of the directory. *)
Definition file_server (files : Handler) : Handler := ServeMux [(str "/", StripPrefix (NoCacheMiddleware files))].
End FileServer.

(** ** examples/net/httpserver *)
Module HttpServer.
Import Http.

Definition serverVersion : bytes := str "1.0.0".

Definition getClientIP (h : Header) (remote : bytes) : bytes :=
  match Header_Get h (str "X-Forwarded-For") with
  | (_ :: _) as xff => TrimSpace (default [] (head (Split 44 xff)))
  | [] => match Header_Get h (str "X-Real-IP") with
          | (_ :: _) as x => TrimSpace x
          | [] => match SplitHostPort remote with (ip, _, None) => ip | _ => str "Unknown" end
          end
  end.

Section Server.
Context (Hostname : bytes + error) (LookupHost : bytes → list bytes + error) (URL_String : ReqURL → bytes).

Definition getServerIP : bytes + error :=
  match Hostname with
  | inr err => inr err
  | inl host => match LookupHost host with
                | inr err => inr err
                | inl (a :: _) => inl a
                | inl [] => inr (Errorf "could not determine server IP" None)
                end
  end.

(** [chunk]: how much the one [Read] of the body gives. *)
Definition buildResponse (chunk : nat) (r : ServerRequest) (clientIP serverIP : bytes) : go bytes :=
  let line k v := str k ++ v ++ [10] in
  let head := str "HTTP Request Information:" ++ [10] ++ line "Client IP: " clientIP ++ line "Server IP: " serverIP ++
    line "Server Version: " serverVersion ++ line "Request Method: " (sr_Method r) ++
    line "Request URL: " (URL_String (sr_URL r)) ++ line "HTTP Protocol: " (sr_Proto r) ++ str "Headers:" ++ [10] ++
    mjoin ((λ kv, mjoin ((λ v, str "  " ++ kv.1 ++ str ": " ++ v ++ [10]) <$> kv.2)) <$> map_to_list (sr_Header r)) in
  if bool_decide (sr_Method r ∈ [str "POST"; str "PUT"]) then
    if sr_ContentLength r <? 0 then Panic "makeslice: len out of range"
    else
      let n := Z.to_nat (sr_ContentLength r) in
      let got := take (Nat.min chunk n) (match sr_Body r with Some (b, _) => b | None => [] end) in
      Ret (head ++ [10] ++ str "Body:" ++ [10] ++ got ++ replicate (n - length got) 0)
  else Ret head.

Definition handleRequest (chunk : nat) (r : ServerRequest) (w : ResponseWriter) : go ResponseWriter :=
  let clientIP := getClientIP (sr_Header r) (sr_Remote r) in
  let serverIP := match getServerIP with inl a => a | inr _ => str "Unknown" end in
  response ← buildResponse chunk r clientIP serverIP;
  let w := set_header (str "Content-Type") (str "text/plain; charset=utf-8") w in
  Ret (Write response (WriteHeader 200 w)).
End Server.
End HttpServer.

(** ** The servers of snippets/httproto *)
Module Snippets.
Import Http Extensions.

(** The handlers of other packages, and those that take the connection over. *)
Record others := mkOthers {
  SimpleEchoHandler : Handler; GorillaEchoHandler : Handler; metrics : Handler; SSEHandler : Handler;
  grpcEcho : Handler; h2cUpgraded : Handler; h2cLibrary : Handler; tls10Upgraded : Handler; debug : Handler
}.

Definition upgrade_of (r : ServerRequest) : bytes := ToLower (Header_Get (sr_Header r) (str "Upgrade")).

(** A handler for requests with the given Upgrade field. *)
Definition upgrade_only (proto : bytes) (h : Handler) : Handler := λ r w,
  if bool_decide (upgrade_of r = proto) then h r w else Http_Error (str "Unsupported upgrade protocol") 426 w.

Definition health : Handler := λ _ w, Write (str "OK" ++ [10]) w.

(** The path without [/grpc], in the URL and in the request line. *)
Definition strip_grpc (h : Handler) : Handler := λ r w,
  let path := if HasPrefix (sr_Path r) (str "/grpc") then drop 5 (sr_Path r) else sr_Path r in
  let u := mkReqURL (Scheme (sr_URL r)) (Opaque (sr_URL r)) (URLHost (sr_URL r)) path (ForceQuery (sr_URL r)) (RawQuery (sr_URL r)) in
  h (mkServerRequest (sr_Method r) (RequestURI u) u path (sr_Proto r) (sr_ProtoMajor r) (sr_Header r) (sr_Body r)
       (sr_ContentLength r) (sr_Host r) (sr_Remote r) (sr_Local r) (sr_Trailer r)) w.

Definition h2cserver (o : others) : Handler :=
  LoggingMiddleware (λ _, None)
    (ServeMux [(str "/health", health); (str "/websocket", upgrade_only (str "websocket") (SimpleEchoHandler o));
               (str "/ws", upgrade_only (str "websocket") (GorillaEchoHandler o));
               (str "/h2c", upgrade_only (str "h2c") (debug o)); (str "/http2", debug o);
               (str "/grpc/", strip_grpc (grpcEcho o)); (str "/metrics", metrics o); (str "/sse", SSEHandler o)]).

Definition httpserver (o : others) : Handler :=
  ServeMux [(str "/health", health); (str "/websocket", upgrade_only (str "websocket") (SimpleEchoHandler o));
            (str "/ws", upgrade_only (str "websocket") (GorillaEchoHandler o));
            (str "/h2c", upgrade_only (str "h2c") (h2cUpgraded o));
            (str "/http2", LoggingMiddleware (λ _, None) (h2cLibrary o));
            (str "/sse", SSEHandler o); (str "/metrics", metrics o)].

Definition tlsserver (o : others) : Handler :=
  ServeMux [(str "/health", health); (str "/metrics", metrics o);
            (str "/websocket", upgrade_only (str "websocket") (SimpleEchoHandler o));
            (str "/ws", upgrade_only (str "websocket") (GorillaEchoHandler o));
            (str "/grpc/", λ r w,
               if (sr_ProtoMajor r =? 2) && HasPrefix (Header_Get (sr_Header r) (str "Content-Type")) (str "application/grpc")
               then strip_grpc (grpcEcho o) r w else debug o r w);
            (str "/sse", SSEHandler o)].

(** [has]: whether the query has a key. *)
Definition upgrader (has : ServerRequest → bytes → bool) (o : others) : Handler :=
  LoggingMiddleware (λ _, None) (λ r w,
    if Contains (upgrade_of r) (str "websocket") then
      (if has r (str "gorilla") then GorillaEchoHandler o else SimpleEchoHandler o) r w
    else if Contains (upgrade_of r) (str "h2c") then
      (if has r (str "simple") then h2cUpgraded o else h2cLibrary o) r w
    else if Contains (upgrade_of r) (str "tls/1.0") then tls10Upgraded o r w
    else Write (str "Welcome to upgrade service" ++ [10]) w).

(** sse/clock.go: the events of the ticks [ts] (as text), until the client goes. *)
Fixpoint sse_events (i : Z) (ts : list bytes) : bytes :=
  match ts with
  | [] => []
  | t :: ts' =>
      str "event: message" ++ [10] ++ str "id: " ++ FormatInt i ++ [10] ++ str "data: Time: " ++ t ++ [10; 10] ++
      sse_events (i64 (i + 1)) ts'
  end.
Definition SSE (flusher : bool) (ts : list bytes) : Handler := λ _ w,
  let w := set_header (str "Content-Type") (str "text/event-stream") w in
  let w := set_header (str "Cache-Control") (str "no-cache") w in
  let w := set_header (str "Connection") (str "keep-alive") w in
  if negb flusher then Http_Error (str "Streaming unsupported!") 500 w
  else match ts with [] => w | _ => Write (sse_events 1 ts) w end.

(** h2c/h2c.go: what is written to the hijacked connection, or the error; a
    write and a flush may fail. *)
Definition switching : bytes :=
  str "HTTP/1.1 101 Switching Protocols" ++ crlf ++ str "Connection: Upgrade" ++ crlf ++ str "Upgrade: h2c" ++ crlf ++ crlf.
Definition h2cUpgrade (hijack : option (option error)) (write flush : option error) : bytes + error :=
  match hijack with
  | None => inr (Errorf "h2c upgrade server unsupport hijacker" None)
  | Some (Some err) => inr (Errorf "h2c upgrade conn hijack failure" None)
  | Some None => match write, flush with
                 | Some _, _ => inr (Errorf "send h2c upgrade response failure" None)
                 | None, Some _ => inr (Errorf "h2c upgrade flush buffer failure" None)
                 | None, None => inl switching
                 end
  end.

(** tls10/hijack.go: the listener of one connection; [None] is the nil one. *)
Definition singleListener (Cn : Type) : Type := option Cn.
Definition sl_Accept {Cn} (sl : singleListener Cn) : (Cn + error) * singleListener Cn :=
  match sl with None => (inr (Errorf "conn is nil" None), None) | Some c => (inl c, None) end.
Definition sl_Close {Cn} (close : Cn → option error) (sl : singleListener Cn) : option error := c ← sl; close c.
Definition sl_Addr {Cn} (addr : Cn → bytes) (sl : singleListener Cn) : go bytes :=
  match sl with None => Panic nil_deref | Some c => Ret (addr c) end.

(** [http.Serve]: connections are accepted until an error; those accepted, and
    the error it returns. *)
Fixpoint serve_loop {Cn} (fuel : nat) (sl : singleListener Cn) (acc : list Cn) : option (list Cn * error) :=
  match fuel with
  | O => None
  | S fuel => match sl_Accept sl with
              | (inl c, sl) => serve_loop fuel sl (acc ++ [c])
              | (inr err, _) => Some (acc, err)
              end
  end.
End Snippets.
