(* ===== verification/HandlersSpec.v ===== *)
(** * HTTP handlers: theorems

    The debug server answers the same whether it logs or not, and the address it
    reports for a client that comes through the proxies is the client's. *)
From S2P Require Import Prelude Errors NetAddr NetText NetTextSpec TcpClient HttpText Http1 EtcdSpec Cli Sockets Handlers.

(** ** The address of a client behind proxies *)
Module ClientIP.

(** The header of a request that a proxy has forwarded for [remote]. *)
Definition forward (h : Header) (remote : bytes) : Header :=
  Header_Set h (str "X-Forwarded-For") (HttpProxy.forwarded_for remote h).

Definition xff : bytes := str "X-Forwarded-For".

Lemma forward_lookup h remote : forward h remote !! xff = Some [HttpProxy.forwarded_for remote h].
Proof. unfold forward, Header_Set. change (CanonicalMIMEHeaderKey (str "X-Forwarded-For")) with xff. apply lookup_insert_eq. Qed.

(** A field that begins with [ip] keeps doing so. *)
Definition led_by (ip : bytes) (h : Header) : Prop := ∃ more, h !! xff = Some [ip ++ more] ∧ (more = [] ∨ ∃ m, more = 44 :: m).

Lemma led_by_first h remote ip port : h !! xff = None → SplitHostPort remote = (ip, port, None) → led_by ip (forward h remote).
Proof.
  intros Hh Hs. exists []. rewrite forward_lookup, app_nil_r. split; [|by left].
  unfold HttpProxy.forwarded_for. change (h !! str "X-Forwarded-For") with (h !! xff). by rewrite Hh, Hs.
Qed.

Lemma led_by_next ip h remote : led_by ip h → led_by ip (forward h remote).
Proof.
  intros (more & Hh & Hm). unfold led_by. rewrite forward_lookup. unfold HttpProxy.forwarded_for.
  change (h !! str "X-Forwarded-For") with (h !! xff). rewrite Hh. cbn [HttpProxy.join_comma]. rewrite <- app_assoc.
  eexists. split; [reflexivity|]. right. destruct Hm as [->|[m ->]]; [by eexists|]. by eexists.
Qed.

Lemma led_by_chain ip h remotes : led_by ip h → led_by ip (foldl forward h remotes).
Proof. revert h. induction remotes as [|r remotes IH]; intros h Hh; [done|]. cbn. apply IH, led_by_next, Hh. Qed.

Lemma led_by_ip ip h remote : led_by ip h → ip ≠ [] → Forall visible ip → 44 ∉ ip → Extensions.getClientIP h remote = ip.
Proof.
  intros (more & Hh & Hm) Hne Hv Hc. unfold Extensions.getClientIP, Header_Get.
  change (CanonicalMIMEHeaderKey (str "X-Forwarded-For")) with xff. rewrite Hh.
  assert (head (Split 44 (ip ++ more)) = Some ip) as Hd.
  { destruct Hm as [->|[m ->]]; [by rewrite app_nil_r, Split_none|]. by rewrite Split_app, Split_none. }
  destruct ip as [|c ip]; [done|]. cbn [app] in *. rewrite Hd. cbn [default].
  destruct (last (c :: ip)) as [d|] eqn:Hl; [|by apply last_None in Hl].
  rewrite Forall_forall in Hv. eapply TrimSpace_id; [apply Hv; by left|exact Hl|].
  apply Hv. apply last_Some in Hl as [l ->]. apply elem_of_app. right. by left.
Qed.
End ClientIP.

(** The debug server reports the address of the client behind any chain of this
    repository's proxies: the first proxy writes the address it sees into
    X-Forwarded-For, every other appends its own, and the handler takes the first
    one, whatever the address of the last proxy. *)
Theorem client_ip_through_proxies (h : Header) (client ip port : bytes) (proxies : list bytes) (last_hop : bytes) :
  h !! str "X-Forwarded-For" = None → SplitHostPort client = (ip, port, None) →
  ip ≠ [] → Forall visible ip → 44 ∉ ip →
  Extensions.getClientIP (foldl ClientIP.forward h (client :: proxies)) last_hop = ip ∧
  HttpServer.getClientIP (foldl ClientIP.forward h (client :: proxies)) last_hop = ip.
Proof.
  intros Hh Hs Hne Hv Hc.
  assert (ClientIP.led_by ip (foldl ClientIP.forward h (client :: proxies))) as Hl
    by (apply (ClientIP.led_by_chain ip (ClientIP.forward h client)); by eapply ClientIP.led_by_first).
  pose proof (ClientIP.led_by_ip ip _ last_hop Hl Hne Hv Hc) as He. split; [done|].
  destruct Hl as (more & Hl & _). unfold HttpServer.getClientIP, Extensions.getClientIP, Header_Get in *.
  change (CanonicalMIMEHeaderKey (str "X-Forwarded-For")) with ClientIP.xff in *. rewrite Hl in *.
  destruct ip; [done|]. exact He.
Qed.

Lemma client_ip_through_proxies_witness :
  Extensions.getClientIP (foldl ClientIP.forward ∅ [str "10.0.0.7:5555"; str "10.0.0.1:80"; str "10.0.0.2:80"]) (str "10.0.0.3:1") =
  str "10.0.0.7".
Proof.
  refine (proj1 (client_ip_through_proxies ∅ (str "10.0.0.7:5555") (str "10.0.0.7") (str "5555") [str "10.0.0.1:80"; str "10.0.0.2:80"]
    (str "10.0.0.3:1") eq_refl _ _ _ _)); [vm_compute; reflexivity|done| |].
  - apply Forall_forall. intros c. change (str "10.0.0.7") with [49; 48; 46; 48; 46; 48; 46; 55]. unfold visible.
    rewrite !elem_of_cons, elem_of_nil. lia.
  - by apply (bool_decide_unpack _).
Defined.

(** Without proxies the debug server reports the port too, the example server
    does not. *)
Example client_ip_has_port :
  Extensions.getClientIP ∅ (str "10.0.0.7:5555") = str "10.0.0.7:5555" ∧
  HttpServer.getClientIP ∅ (str "10.0.0.7:5555") = str "10.0.0.7".
Proof. by split; vm_compute. Qed.

(** ** The debug server *)
Module DebugFacts.
Import Http Extensions.

Definition same_response (w w' : ResponseWriter) : Prop :=
  rw_header w = rw_header w' ∧ rw_sent w = rw_sent w' ∧ rw_body w = rw_body w'.

(** A handler that does not look at the log. *)
Definition log_free (h : Handler) : Prop := ∀ r w w', same_response w w' → same_response (h r w) (h r w').

Lemma same_response_set k v w w' : same_response w w' → same_response (set_header k v w) (set_header k v w').
Proof. intros (H1 & H2 & H3). unfold same_response. cbn. by rewrite H1, H2, H3. Qed.

Lemma same_response_status c w w' : same_response w w' → same_response (WriteHeader c w) (WriteHeader c w').
Proof. intros (H1 & H2 & H3). unfold same_response, WriteHeader. rewrite H2. destruct (rw_sent w') eqn:E; cbn; split_and!; congruence. Qed.

Lemma same_response_write b w w' : same_response w w' → same_response (Write b w) (Write b w').
Proof.
  intros H. apply (same_response_status 200) in H as (H1 & H2 & H3). unfold same_response, Write. cbn. by rewrite H1, H2, H3.
Qed.

Lemma same_response_error t c w w' : same_response w w' → same_response (Http_Error t c w) (Http_Error t c w').
Proof.
  intros (H1 & H2 & H3). unfold Http_Error. apply same_response_write, same_response_status, same_response_set, same_response_set.
  unfold same_response. cbn. by rewrite H1, H2, H3.
Qed.

Lemma same_response_log t w w' : same_response w w' → same_response (log_text t w) w'.
Proof. done. Qed.

#[local] Hint Resolve same_response_set same_response_status same_response_write same_response_error same_response_log : core.

Lemma debug_log_free hn lh : log_free (DebugHandler hn lh).
Proof. intros r w w' H. unfold DebugHandler, ip_headers. auto 10. Qed.

Lemma debug_json_log_free hn lh mi re : log_free (DebugHandlerJSON hn lh mi re).
Proof. intros r w w' H. unfold DebugHandlerJSON, ip_headers. destruct (mi _ _); auto 10. Qed.

Lemma cors_log_free h : log_free h → log_free (CORSMiddleware h).
Proof. intros Hh r w w' H. unfold CORSMiddleware, cors_headers. destruct (bool_decide _); auto 10. Qed.

(** The log is all that the middleware adds. *)
Lemma logging_same red h r w w' : log_free h → same_response w w' → same_response (LoggingMiddleware red h r w) (h r w').
Proof.
  intros Hh H. unfold LoggingMiddleware. assert (same_response (h r (log_text (FormatRequest r) w)) (h r w')) as Hs by auto.
  by destruct (red r).
Qed.

(** Twice is once. *)
Lemma cors_twice w : cors_headers (cors_headers w) = cors_headers w.
Proof.
  unfold cors_headers, set_header. cbn [rw_header rw_sent rw_body rw_log]. f_equal. unfold Header_Set. apply map_eq. intros k.
  rewrite !lookup_insert. by repeat case_decide.
Qed.

Lemma cors_idempotent h r w : CORSMiddleware (CORSMiddleware h) r w = CORSMiddleware h r w.
Proof. unfold CORSMiddleware. by destruct (bool_decide _); rewrite ?cors_twice. Qed.

(** A handler with CORS outside, and with logging in between, answers as with
    CORS alone. *)
Lemma cors_logged verbose h r w w' : log_free h → same_response w w' →
  same_response (CORSMiddleware (if verbose : bool then LoggingMiddleware (λ _, None) (CORSMiddleware h) else CORSMiddleware h) r w)
    (CORSMiddleware h r w').
Proof.
  intros Hh H. rewrite <- (cors_idempotent h r w'). unfold CORSMiddleware at 1 4. destruct (bool_decide _); [unfold cors_headers; auto|].
  destruct verbose; [apply logging_same|apply cors_log_free]; auto using cors_log_free; unfold cors_headers; auto.
Qed.

(** The header fields of CORS survive a handler that sets others. *)
Definition has_cors (h : Header) : Prop :=
  h !! str "Access-Control-Allow-Origin" = Some [str "*"] ∧
  h !! str "Access-Control-Allow-Methods" = Some [str "GET, POST, PUT, DELETE, OPTIONS"] ∧
  h !! str "Access-Control-Allow-Headers" = Some [str "Content-Type, X-Auth-Token"].

Lemma has_cors_init w : has_cors (rw_header (cors_headers w)).
Proof. unfold has_cors. cbn [cors_headers set_header rw_header]. unfold Header_Set. split_and!; rewrite !lookup_insert; by vm_compute. Qed.

Definition other_key (k : bytes) : bool :=
  negb (bool_decide (CanonicalMIMEHeaderKey k ∈ [str "Access-Control-Allow-Origin"; str "Access-Control-Allow-Methods"; str "Access-Control-Allow-Headers"])).

Lemma has_cors_set k v w : other_key k = true → has_cors (rw_header w) → has_cors (rw_header (set_header k v w)).
Proof.
  intros Hk%negb_true_iff%bool_decide_eq_false (H1 & H2 & H3). rewrite !elem_of_cons in Hk. unfold has_cors.
  cbn [set_header rw_header]. unfold Header_Set. rewrite !lookup_insert_ne by (intros E; apply Hk; rewrite E; auto). done.
Qed.

(** What has been sent has the fields, or what will be. *)
Definition cors_ok (w : ResponseWriter) : Prop :=
  match rw_sent w with Some (_, h) => has_cors h | None => has_cors (rw_header w) end.

Lemma cors_ok_status c w : cors_ok w → cors_ok (WriteHeader c w).
Proof. unfold cors_ok, WriteHeader. destruct (rw_sent w) as [[]|] eqn:E; cbn; by rewrite ?E. Qed.
Lemma cors_ok_write b w : cors_ok w → cors_ok (Write b w).
Proof. intros H. by apply (cors_ok_status 200) in H. Qed.
Lemma cors_ok_set k v w : other_key k = true → cors_ok w → cors_ok (set_header k v w).
Proof.
  intros Hk. unfold cors_ok. change (rw_sent (set_header k v w)) with (rw_sent w).
  destruct (rw_sent w) as [[]|]; [done|]. by apply has_cors_set.
Qed.
Lemma cors_ok_error t c w : cors_ok w → cors_ok (Http_Error t c w).
Proof.
  intros H. unfold Http_Error. apply cors_ok_write, cors_ok_status, cors_ok_set; [by vm_compute|]. apply cors_ok_set; [by vm_compute|].
  revert H. unfold cors_ok. cbn [rw_sent rw_header]. destruct (rw_sent w) as [[]|]; [done|]. intros (H1 & H2 & H3). unfold has_cors.
  by rewrite !lookup_delete_ne by done.
Qed.

Lemma cors_ok_init w : rw_sent w = None → cors_ok (cors_headers w).
Proof. intros E. unfold cors_ok. change (rw_sent (cors_headers w)) with (rw_sent w). rewrite E. apply has_cors_init. Qed.

Lemma cors_ok_respond h r w : rw_sent w = None → (∀ w, cors_ok w → cors_ok (h r w)) → cors_ok (CORSMiddleware h r w).
Proof. intros E Hh. unfold CORSMiddleware. destruct (bool_decide _); [|apply Hh]; by apply cors_ok_init. Qed.

Lemma cors_ok_ip hn lh r w : cors_ok w → cors_ok (ip_headers hn lh r w).
Proof. intros H. unfold ip_headers. do 2 (apply cors_ok_set; [by vm_compute|]). done. Qed.

Lemma cors_ok_debug hn lh r w : cors_ok w → cors_ok (DebugHandler hn lh r w).
Proof. intros H. unfold DebugHandler. apply cors_ok_write, cors_ok_ip, cors_ok_set; [by vm_compute|done]. Qed.

Lemma cors_ok_debug_json hn lh mi re r w : cors_ok w → cors_ok (DebugHandlerJSON hn lh mi re r w).
Proof.
  intros H. unfold DebugHandlerJSON. destruct (mi _ _); [apply cors_ok_write|apply cors_ok_error];
    (apply cors_ok_ip, cors_ok_set; [by vm_compute|done]).
Qed.

Lemma same_response_sym w w' : same_response w w' → same_response w' w.
Proof. intros (H1 & H2 & H3). by split_and!. Qed.
Lemma same_response_trans w w' w'' : same_response w w' → same_response w' w'' → same_response w w''.
Proof. intros (H1 & H2 & H3) (K1 & K2 & K3). split_and!; congruence. Qed.
Lemma same_response_cors w w' : same_response w w' → cors_ok w' → cors_ok w.
Proof. intros (H1 & H2 & H3). unfold cors_ok. by rewrite H1, H2. Qed.

(** The route of a path, whatever the logging. *)
Lemma devtool_route hn lh mi re verbose r w :
  HasPrefix (sr_Path r) (str "/") = true →
  same_response (devtool hn lh mi re verbose r w)
    (CORSMiddleware (if bool_decide (sr_Path r = str "/json") then DebugHandlerJSON hn lh mi re else DebugHandler hn lh) r w).
Proof.
  intros Hp. unfold devtool, ServeMux. cbn [mux_find].
  assert (matches (str "/") (sr_Path r) = true) as -> by exact Hp.
  assert (matches (str "/json") (sr_Path r) = bool_decide (sr_Path r = str "/json")) as -> by done.
  cbn [andb]. case_bool_decide as E; cbn.
  - by apply cors_logged; [apply debug_json_log_free|].
  - by apply cors_logged; [apply debug_log_free|].
Qed.
End DebugFacts.

(** The debug server answers every request with the CORS fields and the same
    response whether it logs or not; an OPTIONS request gets nothing but those; any
    other path than /json is answered with the request: its line, its header, and
    its body unless that is longer than a megabyte or ends in an error. *)
Theorem devtool_serves hn lh mi re verbose (r : Http.ServerRequest) :
  HasPrefix (Http.sr_Path r) (str "/") = true →
  let w := Http.respond (Extensions.devtool hn lh mi re verbose) r in
  DebugFacts.same_response w (Http.respond (Extensions.devtool hn lh mi re (negb verbose)) r) ∧
  (∃ code h, Http.rw_sent w = Some (code, h) ∧ DebugFacts.has_cors h) ∧
  (Http.sr_Method r = str "OPTIONS" → Http.rw_body w = []) ∧
  (Http.sr_Method r ≠ str "OPTIONS" → Http.sr_Path r ≠ str "/json" →
   ∀ body, Http.sr_Body r = Some (body, None) → (length body ≤ Extensions.max_body)%nat →
   Http.rw_body w =
     Http.sr_Method r ++ str " " ++ Http.sr_RequestURI r ++ str " " ++ Http.sr_Proto r ++ [10] ++
     Header_Write (Http.sr_Header r) ++ [10] ++ body ++ Header_Write (Http.sr_Trailer r)).
Proof.
  intros Hp w. pose proof (λ v w0, DebugFacts.devtool_route hn lh mi re v r w0 Hp) as Hr.
  set (w0 := Http.mkRW ∅ None [] []). unfold w, Http.respond. fold w0.
  pose proof (DebugFacts.same_response_status 200 _ _ (Hr verbose w0)) as Hs. split_and!.
  - eapply DebugFacts.same_response_trans; [exact Hs|].
    apply DebugFacts.same_response_sym, DebugFacts.same_response_status, Hr.
  - assert (DebugFacts.cors_ok (Http.WriteHeader 200 (Extensions.devtool hn lh mi re verbose r w0))) as Hc.
    { apply DebugFacts.cors_ok_status. eapply DebugFacts.same_response_cors; [apply Hr|].
      apply DebugFacts.cors_ok_respond; [done|]. intros w1 Hw1.
      case_bool_decide; [by apply DebugFacts.cors_ok_debug_json|by apply DebugFacts.cors_ok_debug]. }
    unfold DebugFacts.cors_ok, Http.WriteHeader in *.
    destruct (Http.rw_sent (Extensions.devtool hn lh mi re verbose r w0)) as [[code h]|] eqn:E; cbn in Hc |- *; [rewrite E in *|]; eauto.
  - intros Ho. destruct Hs as (_ & _ & ->). unfold Extensions.CORSMiddleware. by rewrite bool_decide_eq_true_2.
  - intros Ho Hj body Hb Hl. destruct Hs as (_ & _ & ->). unfold Extensions.CORSMiddleware.
    rewrite (bool_decide_eq_false_2 _ Ho), (bool_decide_eq_false_2 _ Hj).
    unfold Extensions.DebugHandler, Extensions.debug_text. rewrite Hb. unfold Http.read_limited. cbn [fst snd].
    by rewrite (proj2 (Nat.ltb_ge _ _) Hl).
Qed.

Definition eg_post : Http.ServerRequest :=
  Http.mkServerRequest (str "POST") (str "/x") (mkReqURL [] [] [] (str "/x") false []) (str "/x") (str "HTTP/1.1") 1 ∅
    (Some (str "hello", None)) 5 (str "h") (str "10.0.0.7:5555") (Some (str "10.0.0.1:80")) ∅.

Lemma devtool_serves_witness :
  Http.rw_body (Http.respond (Extensions.devtool (inl []) (λ _, inl []) (λ _ _, inl []) [] true) eg_post) =
  str "POST /x HTTP/1.1" ++ [10] ++ [10] ++ str "hello".
Proof.
  rewrite (proj2 (proj2 (proj2 (devtool_serves (inl []) (λ _, inl []) (λ _ _, inl []) [] true eg_post eq_refl)))
    ltac:(by apply (bool_decide_unpack _)) ltac:(by apply (bool_decide_unpack _)) (str "hello") eq_refl).
  - vm_compute. reflexivity.
  - unfold Extensions.max_body. change (length (str "hello")) with (Z.to_nat 5). apply Z2Nat.inj_le; lia.
Defined.

(** ** The other servers *)

(** The example server allocates a buffer of ContentLength bytes, which is -1 for
    a chunked body. *)
Lemma httpserver_chunked_panics hn lh us chunk r w :
  Http.sr_Method r = str "POST" → Http.sr_ContentLength r = -1 →
  HttpServer.handleRequest hn lh us chunk r w = Panic "makeslice: len out of range".
Proof.
  intros Hm Hc. unfold HttpServer.handleRequest, HttpServer.buildResponse. rewrite Hm, Hc.
  rewrite bool_decide_eq_true_2 by (by left). reflexivity.
Qed.

(** The listener of one connection gives it once; [http.Serve] on it always ends
    with an error, after the upgrade as well as without. *)
Lemma tls10_serve_fails {Cn} (c : Cn) :
  Snippets.serve_loop 2 (Some c) [] = Some ([c], Errorf "conn is nil" None).
Proof. reflexivity. Qed.

(** The identifiers of the events count from one. *)
Lemma sse_events_split i ts t : 0 < i → i + zlen ts < 2 ^ 63 →
  Snippets.sse_events i (ts ++ [t]) = Snippets.sse_events i ts ++ Snippets.sse_events (i + zlen ts) [t].
Proof.
  revert i. induction ts as [|x ts IH]; intros i Hi Hn.
  - rewrite (@zlen_nil bytes), Z.add_0_r. reflexivity.
  - rewrite zlen_cons in Hn |- *. pose proof (zlen_nonneg ts).
    change (Snippets.sse_events i ((x :: ts) ++ [t])) with
      (str "event: message" ++ [10] ++ str "id: " ++ FormatInt i ++ [10] ++ str "data: Time: " ++ x ++ [10; 10] ++
       Snippets.sse_events (i64 (i + 1)) (ts ++ [t])).
    change (Snippets.sse_events i (x :: ts)) with
      (str "event: message" ++ [10] ++ str "id: " ++ FormatInt i ++ [10] ++ str "data: Time: " ++ x ++ [10; 10] ++
       Snippets.sse_events (i64 (i + 1)) ts).
    rewrite i64_id by lia. rewrite IH by lia. rewrite <- !app_assoc. replace (i + (1 + zlen ts)) with (i + 1 + zlen ts) by lia.
    reflexivity.
Qed.

Lemma land_bit f n : 0 ≤ n → (Z.land f (2 ^ n) =? 0) = negb (Z.testbit f n).
Proof.
  intros Hn. destruct (Z.testbit f n) eqn:E; cbn [negb].
  - apply Z.eqb_neq. intros H0. apply (f_equal (λ z, Z.testbit z n)) in H0.
    rewrite Z.land_spec, E, Z.pow2_bits_true, Z.testbit_0_l in H0 by lia. done.
  - apply Z.eqb_eq, Z.bits_inj'. intros k Hk. rewrite Z.land_spec, Z.testbit_0_l.
    destruct (decide (n = k)) as [->|Hne]; [by rewrite E|]. by rewrite Z.pow2_bits_false, andb_false_r.
Qed.

(** Local addresses: exactly the IPv4 addresses, not of loopback, of the
    interfaces that are up and not loopback themselves. *)
Lemma local_addrs_spec IP_String l t : t ∈ concat (map (FileServer.iface_texts IP_String) l) ↔
  ∃ i addrs ip, i ∈ l ∧ FileServer.i_Addrs i = inl addrs ∧ Some ip ∈ addrs ∧
    Z.testbit (FileServer.i_Flags i) 0 = true ∧ Z.testbit (FileServer.i_Flags i) 2 = false ∧
    Sockets.IsLoopback ip = false ∧ Sockets.To4 ip ≠ None ∧ t = IP_String ip.
Proof.
  rewrite list_elem_of_In, in_concat. setoid_rewrite in_map_iff. setoid_rewrite <- list_elem_of_In. split.
  - intros (x & (i & <- & Hi) & Ht). unfold FileServer.iface_texts in Ht.
    change FileServer.FlagUp with (2 ^ 0) in Ht. change FileServer.FlagLoopback with (2 ^ 2) in Ht. rewrite !land_bit in Ht by lia.
    destruct (Z.testbit (FileServer.i_Flags i) 0) eqn:Hu; [|by apply not_elem_of_nil in Ht].
    destruct (Z.testbit (FileServer.i_Flags i) 2) eqn:Hl; [by apply not_elem_of_nil in Ht|].
    cbn [negb] in Ht. destruct (FileServer.i_Addrs i) as [addrs|] eqn:Ha; [|by apply not_elem_of_nil in Ht].
    apply list_elem_of_omap in Ht as ([ip|] & Hin & Ht); [|done]. unfold FileServer.addr_text in Ht.
    destruct (Sockets.IsLoopback ip) eqn:Hlo; [done|]. cbn [orb] in Ht. case_bool_decide as H4; [done|]. injection Ht as <-.
    by exists i, addrs, ip.
  - intros (i & addrs & ip & Hi & Ha & Hin & Hu & Hl & Hlo & H4 & ->). exists (FileServer.iface_texts IP_String i).
    split; [by exists i|]. unfold FileServer.iface_texts.
    change FileServer.FlagUp with (2 ^ 0). change FileServer.FlagLoopback with (2 ^ 2). rewrite !land_bit, Hu, Hl, Ha by lia.
    cbn [negb]. apply list_elem_of_omap. exists (Some ip). split; [done|]. unfold FileServer.addr_text.
    by rewrite Hlo, (bool_decide_eq_false_2 _ H4).
Qed.
