(* ===== verification/GrpcMux.v ===== *)
(** * gRPC servers: interceptors, health, and sharing a port with HTTP

    - grpc/interceptors (client_interceptor.go, server_interceptor.go);
    - [BuildServer] of grpc/server/start.go, and the servers that the examples and
      snippets/httproto/grpc/echo.go put together: what is registered on them;
    - the handlers with which examples/grpc (http, mux, https, https2, httproxy)
      serve gRPC and HTTP on one port;
    - the health checks: examples/grpc/heartbeat (client and server),
      examples/net/heartbeat/grpc and grpcv2, grpc/proto/echoserver.

    The gRPC library is a parameter: a server is what the code asked of it, the
    health service is an interface with its documented laws. *)
From S2P Require Import Prelude Errors NetAddr NetText TcpClient HttpText Http1 Cli Handlers HandlersSpec.
Import DebugFacts.

(** Responses up to the log. *)
#[global] Instance same_response_equivalence : Equivalence same_response.
Proof. unfold same_response. split; [by intros w|by intros w w' (-> & -> & ->)|by intros ??? (-> & -> & ->) (-> & -> & ->)]. Qed.

#[global] Instance WriteHeader_proper code : Proper (same_response ==> same_response) (Http.WriteHeader code).
Proof. intros w w'. apply same_response_status. Qed.

(** ** Interceptors *)
Module Interceptors.
Section Interceptors.
Context {W Req Resp MD : Type}.

(** What is logged. *)
Inductive entry :=
  | Metadata (method : bytes) (md : MD)
  | Request (method : bytes) (req : Req)
  | Response (method : bytes) (resp : Resp) (err : option error).

Definition UnaryHandler : Type := Req → W → Resp * option error * W.

(** [md]: the metadata of the incoming context, if it has any. *)
Definition LoggingUnaryServerInterceptor (md : option MD) (FullMethod : bytes) (req : Req) (handler : UnaryHandler) (w : W)
  : Resp * option error * W * list entry :=
  let l1 := match md with Some md => [Metadata FullMethod md] | None => [] end in
  let l2 := [Request FullMethod req] in
  let '(resp, err, w) := handler req w in
  (resp, err, w, l1 ++ l2 ++ [Response FullMethod resp err]).

(** The invoker stores the answer in [reply]. *)
Definition UnaryInvoker : Type := bytes → Req → Resp → W → option error * Resp * W.

Definition LoggingUnaryClientInterceptor (md : option MD) (method : bytes) (req : Req) (reply : Resp) (invoker : UnaryInvoker) (w : W)
  : option error * Resp * W * list entry :=
  let l1 := match md with Some md => [Metadata method md] | None => [] end in
  let l2 := [Request method req] in
  let '(err, reply, w) := invoker method req reply w in
  (err, reply, w, l1 ++ l2 ++ [Response method reply err]).

(** An interceptor of the server as the library chains them: the first is the
    outermost. *)
Definition Interceptor : Type := bytes → Req → UnaryHandler → W → Resp * option error * W.
Definition chain (is_ : list Interceptor) (method : bytes) (handler : UnaryHandler) : UnaryHandler :=
  foldr (λ (i : Interceptor) (h : UnaryHandler), λ req w, i method req h w) handler is_.

Definition transparent (i : Interceptor) : Prop := ∀ method req h w, i method req h w = h req w.

(** The logging interceptors return what the handler and the invoker return, and
    call them once. *)
Lemma logging_server_transparent md : transparent (λ m req h w, (LoggingUnaryServerInterceptor md m req h w).1).
Proof. intros m req h w. unfold LoggingUnaryServerInterceptor. by destruct (h req w) as [[resp err] w']. Qed.

Lemma logging_client_transparent md m req reply inv w :
  (LoggingUnaryClientInterceptor md m req reply inv w).1 = inv m req reply w.
Proof. unfold LoggingUnaryClientInterceptor. by destruct (inv m req reply w) as [[err reply'] w']. Qed.

Lemma chain_transparent is_ method h req w : Forall transparent is_ → chain is_ method h req w = h req w.
Proof. intros Hi. induction Hi as [|i is_ Hi _ IH]; [done|]. cbn [chain foldr]. by rewrite Hi. Qed.
End Interceptors.
End Interceptors.

(** ** The health service *)
Module Health.

Inductive status := UNKNOWN | SERVING | NOT_SERVING | SERVICE_UNKNOWN.
#[global] Instance status_eq_dec : EqDecision status.
Proof. solve_decision. Defined.

(** google.golang.org/grpc/health: a status per service name; [Check] of a name that
    has none is an error ([None]).  The empty name, the server as a whole, is
    SERVING from the start. *)
Class HealthServer (H : Type) := {
  NewServer : H;
  SetServingStatus : bytes → status → H → H;
  Check : bytes → H → option status
}.
Class HealthLaws (H : Type) `{HealthServer H} := {
  check_set : ∀ s st h, Check s (SetServingStatus s st h) = Some st;
  check_other : ∀ s s' st h, s ≠ s' → Check s' (SetServingStatus s st h) = Check s' h;
  check_new : ∀ s, Check s NewServer = if bool_decide (s = []) then Some SERVING else None
}.

(** An instance, to evaluate the model. *)
#[global] Instance map_health : HealthServer (gmap bytes status) := {|
  NewServer := {[ [] := SERVING ]}; SetServingStatus s st h := <[s := st]> h; Check s h := h !! s
|}.
#[global] Program Instance map_health_laws : HealthLaws (gmap bytes status).
Next Obligation. intros. apply lookup_insert_eq. Qed.
Next Obligation. intros. by apply lookup_insert_ne. Qed.
Next Obligation.
  intros s. cbn. case_bool_decide as E; [subst; apply lookup_singleton_eq|]. by apply lookup_singleton_ne.
Qed.
End Health.

(** ** The servers *)
Module GrpcServers.
Import Health.

Definition second : Z := 1000000000.

(** keepalive.ServerParameters and ClientParameters *)
Record ServerParameters := mkServerParameters {
  MaxConnectionIdle : Z; MaxConnectionAge : Z; MaxConnectionAgeGrace : Z; Time : Z; Timeout : Z
}.
Definition kaParams : ServerParameters :=
  mkServerParameters (5 * 60 * second) (2 * 3600 * second) (5 * 60 * second) (3600 * second) (20 * second).

Record ClientParameters := mkClientParameters { c_Time : Z; c_Timeout : Z; PermitWithoutStream : bool }.
Definition client_kaParams : ClientParameters := mkClientParameters (10 * second) (3 * second) true.

Inductive interceptor := ILogging | IPrometheus.
Inductive service := SHealth | SReflectionV1 | SReflection | SChannelz | SPrometheus | SApp (name : bytes).

#[global] Instance service_eq_dec : EqDecision service.
Proof. solve_decision. Defined.

Section Servers.
Context {H : Type} `{HealthServer H}.

(** What [grpc.NewServer] was given and what was registered, in order. *)
Record server := mkServer {
  s_ka : ServerParameters; s_unary : list interceptor; s_stream : list interceptor; s_creds : bool;
  s_services : list service; s_health : option H
}.

Definition NewGrpcServer (ka : ServerParameters) (unary stream : list interceptor) (creds : bool) : server :=
  mkServer ka unary stream creds [] None.
Definition register (s : service) (v : server) : server :=
  mkServer (s_ka v) (s_unary v) (s_stream v) (s_creds v) (s_services v ++ [s]) (s_health v).
Definition RegisterHealthServer (h : H) (v : server) : server :=
  mkServer (s_ka v) (s_unary v) (s_stream v) (s_creds v) (s_services v ++ [SHealth]) (Some h).

(** grpc/server/start.go *)
Definition BuildServer (serviceName : bytes) (serviceRegistry : option (server → server)) : server :=
  let s := NewGrpcServer kaParams [ILogging] [] false in
  let healthServer := SetServingStatus serviceName SERVING NewServer in
  let s := RegisterHealthServer healthServer s in
  let s := register SReflectionV1 s in
  let s := register SChannelz s in
  match serviceRegistry with Some f => f s | None => s end.

(** cmd/distro/echo_server.go *)
Definition echoservice : server := BuildServer (str "echoservice") (Some (register (SApp (str "EchoService")))).

(** grpc/proto/echoserver *)
Definition echoserver : server :=
  register (SApp (str "EchoService")) (register SChannelz (register SReflectionV1
    (RegisterHealthServer (SetServingStatus (str "echo-service") SERVING NewServer) (NewGrpcServer kaParams [ILogging] [] false)))).

(** examples/grpc/heartbeat/server and examples/grpc/tls/server *)
Definition heartbeat_server (creds : bool) : server :=
  register SPrometheus (register SChannelz (register SReflectionV1
    (RegisterHealthServer (SetServingStatus (str "my_service") SERVING NewServer)
      (NewGrpcServer kaParams [ILogging; IPrometheus] [IPrometheus] creds)))).
Definition tls_server : server := heartbeat_server true.

(** examples/grpc/http and mux *)
Definition http_server : server :=
  register SPrometheus (register SChannelz (register SReflectionV1
    (RegisterHealthServer NewServer (NewGrpcServer kaParams [IPrometheus] [IPrometheus] false)))).
Definition mux_server : server := http_server.
(** examples/grpc/https, https2 and httproxy *)
Definition https_server : server :=
  register SPrometheus (register SChannelz (register SReflectionV1
    (RegisterHealthServer NewServer (NewGrpcServer kaParams [IPrometheus; ILogging] [IPrometheus] false)))).
Definition https2_server : server := https_server.
Definition httproxy_server : server := https_server.
(** snippets/httproto/grpc/echo.go *)
Definition NewEchoHandler : server :=
  register (SApp (str "EchoService")) (register SPrometheus (register SChannelz (register SReflectionV1
    (RegisterHealthServer NewServer (NewGrpcServer kaParams [ILogging; IPrometheus] [IPrometheus] false))))).
(** examples/net/heartbeat/grpc/server and grpcv2/server *)
Definition hb_grpc_server : server :=
  register (SApp (str "HeartbeatService")) (register SChannelz (register SReflection
    (RegisterHealthServer NewServer (NewGrpcServer kaParams [] [] false)))).
Definition hb_grpcv2_server : server :=
  let s := register SChannelz (register SReflection (RegisterHealthServer NewServer (NewGrpcServer kaParams [] [] false))) in
  mkServer (s_ka s) (s_unary s) (s_stream s) (s_creds s) (s_services s) (SetServingStatus (str "heartbeat") SERVING <$> s_health s).

(** [Check] on a server. *)
Definition health_of (v : server) (service : bytes) : option status := s_health v ≫= Check service.

(** A server that [BuildServer] made reports its service, and itself, as serving;
    the application can only add to what is registered. *)
Lemma build_server_healthy `{!HealthLaws H} name f :
  (∀ v, s_health (f v) = s_health v) →
  health_of (BuildServer name (Some f)) name = Some SERVING ∧ health_of (BuildServer name (Some f)) [] = Some SERVING.
Proof.
  intros Hf. unfold health_of, BuildServer. rewrite Hf. cbn. rewrite check_set. split; [done|].
  destruct (decide (name = [])) as [->|Hn]; [by rewrite check_set|]. by rewrite check_other, check_new by done.
Qed.
End Servers.
End GrpcServers.

(** ** Heartbeats by health checks *)
Module HealthBeat.
Import Health.

Inductive entry :=
  | CheckFailed | CheckStatus (st : status) | NotServing             (** examples/grpc/heartbeat *)
  | TopChannelsFailed | ChannelLine (id : Z) (state target : bytes) | SubchannelFailed | SubchannelLine (id : Z) (state : bytes)
  | SocketFailed | SocketLine (id : Z) (local remote : bytes).

(** [doHeartbeat]: the entries, and whether it returned an error. *)
Definition doHeartbeat (check : bytes → option status) : list entry * bool :=
  match check (str "my_service") with
  | None => ([CheckFailed], true)
  | Some st => (CheckStatus st :: (if bool_decide (st = SERVING) then [] else [NotServing]), false)
  end.

(** The answers of the channelz service. *)
Record socket := mkSocket { so_id : Z; so_local : bytes; so_remote : bytes }.
Record subchannel := mkSubchannel { sc_id : Z; sc_state : bytes; sc_sockets : list Z }.
Record channel := mkChannel { ch_id : Z; ch_state : bytes; ch_target : bytes; ch_subchannels : list Z }.

Section Report.
Context (GetTopChannels : list channel + error) (GetSubchannel : Z → subchannel + error) (GetSocket : Z → socket + error).

Fixpoint getSocketInfo (refs : list Z) : list entry :=
  match refs with
  | [] => []
  | r :: refs' =>
      match GetSocket r with
      | inr _ => SocketFailed :: getSocketInfo refs'
      | inl s => SocketLine (so_id s) (so_local s) (so_remote s) :: getSocketInfo refs'
      end
  end.

Fixpoint getSubchannelInfo (refs : list Z) : list entry :=
  match refs with
  | [] => []
  | r :: refs' =>
      match GetSubchannel r with
      | inr _ => SubchannelFailed :: getSubchannelInfo refs'
      | inl s => SubchannelLine (sc_id s) (sc_state s) :: getSocketInfo (sc_sockets s) ++ getSubchannelInfo refs'
      end
  end.

Definition reportChannelzInfo : list entry :=
  match GetTopChannels with
  | inr _ => [TopChannelsFailed]
  | inl chs => flat_map (λ ch, ChannelLine (ch_id ch) (ch_state ch) (ch_target ch) :: getSubchannelInfo (ch_subchannels ch)) chs
  end.

(** One tick of the loop of [main]. *)
Definition tick (check : bytes → option status) : list entry :=
  match doHeartbeat check with
  | (l, true) => l
  | (l, false) => l ++ reportChannelzInfo
  end.

(** A subchannel or a socket that cannot be had costs its own line only. *)
Lemma sockets_reported refs r s : r ∈ refs → GetSocket r = inl s → SocketLine (so_id s) (so_local s) (so_remote s) ∈ getSocketInfo refs.
Proof.
  intros Hr Hs. induction refs as [|x refs IH]; [by apply not_elem_of_nil in Hr|]. cbn.
  apply elem_of_cons in Hr as [<-|Hr]; [rewrite Hs; by left|]. destruct (GetSocket x); right; by apply IH.
Qed.

Lemma subchannels_reported refs r s k so :
  r ∈ refs → GetSubchannel r = inl s → k ∈ sc_sockets s → GetSocket k = inl so →
  SubchannelLine (sc_id s) (sc_state s) ∈ getSubchannelInfo refs ∧ SocketLine (so_id so) (so_local so) (so_remote so) ∈ getSubchannelInfo refs.
Proof.
  intros Hr Hs Hk Hso. induction refs as [|x refs IH]; [by apply not_elem_of_nil in Hr|]. cbn.
  apply elem_of_cons in Hr as [<-|Hr].
  - rewrite Hs. split; [by left|]. right. apply elem_of_app. left. by apply (sockets_reported _ k).
  - destruct (IH Hr) as [H1 H2]. destruct (GetSubchannel x); (split; right; [|]); rewrite ?elem_of_app; auto.
Qed.
End Report.

(** *** examples/grpc/heartbeat/server *)
Section Chaos.
Context {H : Type} `{HealthLaws H}.

(** One turn of [startChaos], after each of its sleeps. *)
Definition chaos_down (h : H) : H := SetServingStatus (str "my_service") NOT_SERVING h.
Definition chaos_up (h : H) : H := SetServingStatus (str "my_service") SERVING h.

(** The statuses that clients see, half-turn after half-turn; the context is looked
    at before a whole turn only. *)
Fixpoint startChaos (done : list bool) (h : H) : list H :=
  match done with
  | [] => []
  | true :: _ => []
  | false :: done' => chaos_down h :: chaos_up (chaos_down h) :: startChaos done' (chaos_up (chaos_down h))
  end.

(** The service is known at all times, so that no heartbeat fails: it warns in the
    first half of each turn and does not in the second. *)
Lemma chaos_heartbeats done h :
  (λ h, doHeartbeat (λ s, Check s h)) <$> startChaos done h =
  mjoin (replicate (length (startChaos done h) / 2) [([CheckStatus NOT_SERVING; NotServing], false); ([CheckStatus SERVING], false)]).
Proof.
  revert h. induction done as [|[] done IH]; intros h; [done..|]. cbn [startChaos fmap list_fmap length].
  change (list_fmap ?f ?x) with (f <$> x). rewrite IH.
  replace (S (S (length (startChaos done (chaos_up (chaos_down h))))) / 2)%nat
    with (S (length (startChaos done (chaos_up (chaos_down h))) / 2)).
  2: { change (S (S ?n)) with (2 + n)%nat. rewrite <- (Nat.mul_1_l 2) at 2. rewrite Nat.div_add_l by lia. lia. }
  cbn [replicate]. change (mjoin (?x :: ?y)) with (x ++ mjoin y).
  unfold doHeartbeat, chaos_up, chaos_down. rewrite !check_set. done.
Qed.

(** The other servers: the names that the clients of examples/net/heartbeat/grpcv2
    and of examples/grpc/tls check are served. *)
Lemma examples_healthy :
  GrpcServers.health_of GrpcServers.hb_grpcv2_server (str "heartbeat") = Some SERVING ∧
  GrpcServers.health_of GrpcServers.tls_server [] = Some SERVING ∧
  GrpcServers.health_of (GrpcServers.heartbeat_server false) (str "my_service") = Some SERVING.
Proof. unfold GrpcServers.health_of. cbn. rewrite !check_set, check_other, check_new by done. done. Qed.
End Chaos.

(** *** examples/net/heartbeat/grpc and grpcv2 *)
Inductive hb_log := TickStart | HeartbeatError | Received (msg : bytes) | ReceivedStatus (st : status) | Exit_.

(** [doHeartbeat] of the two clients, over the call that each makes. *)
Definition hb_doHeartbeat (call : bytes → bytes + error) : hb_log :=
  match call (str "PING") with inl msg => Received msg | inr _ => HeartbeatError end.
Definition hb2_doHeartbeat (check : bytes → option status) : hb_log :=
  match check (str "heartbeat") with Some st => ReceivedStatus st | None => HeartbeatError end.

(** What the [select] of [startHeartbeat] takes: a tick, with the server as it is
    then, or the end of the context. *)
Inductive hb_event {A : Type} := Tick (server : A) | Done_.
Arguments hb_event : clear implicits.

Fixpoint start_beating {A} (beat : A → hb_log) (events : list (hb_event A)) : list hb_log :=
  match events with
  | [] => []
  | Done_ :: _ => [Exit_]
  | Tick a :: events' => TickStart :: beat a :: start_beating beat events'
  end.
Definition hb_startHeartbeat := start_beating hb_doHeartbeat.
Definition hb2_startHeartbeat := start_beating hb2_doHeartbeat.

(** The handler of the heartbeat service. *)
Definition Heartbeat (message : bytes) : bytes := str "PONG".

(** A failed heartbeat does not end the loop, only the context does. *)
Lemma hb_continues {A} (beat : A → hb_log) servers :
  start_beating beat (Tick <$> servers) = flat_map (λ a, [TickStart; beat a]) servers ∧
  start_beating beat ((Tick <$> servers) ++ [Done_]) = flat_map (λ a, [TickStart; beat a]) servers ++ [Exit_].
Proof.
  induction servers as [|a servers [IH1 IH2]]; [done|]. cbn. change (list_fmap ?f ?x) with (f <$> x). by rewrite IH1, IH2.
Qed.

(** Each client against its own server. *)
Lemma hb_pairs {H} `{HealthLaws H} n :
  hb_startHeartbeat (replicate n (Tick (λ m, inl (Heartbeat m)))) = mjoin (replicate n [TickStart; Received (str "PONG")]) ∧
  hb2_startHeartbeat (replicate n (Tick (GrpcServers.health_of (H := H) GrpcServers.hb_grpcv2_server))) =
    mjoin (replicate n [TickStart; ReceivedStatus SERVING]).
Proof.
  assert (Hs : GrpcServers.health_of (H := H) GrpcServers.hb_grpcv2_server (str "heartbeat") = Some SERVING).
  { unfold GrpcServers.health_of. cbn. by rewrite check_set. }
  induction n as [|n [IH1 IH2]]; [done|]. unfold hb_startHeartbeat, hb2_startHeartbeat in *. cbn [replicate start_beating].
  rewrite IH1, IH2. unfold hb2_doHeartbeat. by rewrite Hs.
Qed.
End HealthBeat.

(** ** gRPC and HTTP on one port *)
Module GrpcMux.
Import Http Extensions.

Definition is_grpc (r : ServerRequest) : bool :=
  (sr_ProtoMajor r =? 2) && HasPrefix (Header_Get (sr_Header r) (str "Content-Type")) (str "application/grpc").

Definition NotFound : Handler := λ _ w, Http_Error (str "404 page not found") 404 w.
Definition Fprintln (s : bytes) : Handler := λ _ w, Write (s ++ [10]) w.

(** [r.URL.Path = strings.TrimPrefix(r.URL.Path, "/grpc")]; the path needs no
    escaping, and the request line stays. *)
Definition trim_grpc (h : Handler) : Handler := λ r w,
  let path := if HasPrefix (sr_Path r) (str "/grpc") then drop 5 (sr_Path r) else sr_Path r in
  let u := mkReqURL (Scheme (sr_URL r)) (Opaque (sr_URL r)) (URLHost (sr_URL r)) path (ForceQuery (sr_URL r)) (RawQuery (sr_URL r)) in
  h (mkServerRequest (sr_Method r) (sr_RequestURI r) u path (sr_Proto r) (sr_ProtoMajor r) (sr_Header r) (sr_Body r)
       (sr_ContentLength r) (sr_Host r) (sr_Remote r) (sr_Local r) (sr_Trailer r)) w.

Section Servers.
(** [grpcServer.ServeHTTP] and the handler of the metrics. *)
Context (grpcServer metrics : Handler).

(** examples/grpc/httproxy *)
Definition httproxy_handler : Handler := λ r w,
  if is_grpc r then grpcServer r w
  else if bool_decide (sr_Path r = str "/health") then Write (str "OK") (WriteHeader 200 w)
  else if bool_decide (sr_Path r = str "/metrics") then metrics r w
  else NotFound r w.
Definition httproxy : Handler := LoggingMiddleware (λ _, None) httproxy_handler.

(** examples/grpc/https: the handler of "/" on the default mux *)
Definition https_handler : Handler := λ r w,
  if is_grpc r then grpcServer r w
  else if bool_decide (sr_Path r = str "/health") then Fprintln (str "OK") r w
  else if bool_decide (sr_Path r = str "/metrics") then metrics r w
  else NotFound r w.
Definition https : Handler := ServeMux [(str "/", https_handler)].

(** examples/grpc/https2 *)
Definition grpcMiddleware (next : Handler) : Handler := λ r w, if is_grpc r then grpcServer r w else next r w.
Definition https2_handler : Handler := λ r w,
  if bool_decide (sr_Path r = str "/health") then Fprintln (str "OK") r w
  else if bool_decide (sr_Path r = str "/metrics") then metrics r w
  else NotFound r w.
Definition https2 : Handler := LoggingMiddleware (λ _, None) (grpcMiddleware https2_handler).

(** examples/grpc/http and examples/grpc/mux; [h2c.NewHandler] passes a request
    on. *)
Definition http : Handler :=
  ServeMux [(str "/health", Fprintln (str "OK")); (str "/grpc/", trim_grpc grpcServer); (str "/metrics", metrics)].
Definition mux : Handler :=
  LoggingMiddleware (λ _, None)
    (ServeMux [(str "/health", Fprintln (str "OK")); (str "/grpc/", trim_grpc grpcServer); (str "/metrics", metrics)]).

(** Where a request goes. *)
Inductive route := RGrpc | RHealth | RMetrics | RNotFound.

Definition route_of (r : ServerRequest) : route :=
  if is_grpc r then RGrpc
  else if bool_decide (sr_Path r = str "/health") then RHealth
  else if bool_decide (sr_Path r = str "/metrics") then RMetrics else RNotFound.

Definition run_route (health : Handler) (rt : route) : Handler :=
  match rt with RGrpc => grpcServer | RHealth => health | RMetrics => metrics | RNotFound => NotFound end.

Lemma httproxy_route r w :
  httproxy_handler r w = run_route (λ _ w, Write (str "OK") (WriteHeader 200 w)) (route_of r) r w.
Proof. unfold httproxy_handler, route_of. by repeat case_match. Qed.

Lemma https_route r w : HasPrefix (sr_Path r) (str "/") = true → https r w = run_route (Fprintln (str "OK")) (route_of r) r w.
Proof.
  intros Hp. unfold https, ServeMux. cbn [mux_find length]. change (matches (str "/") (sr_Path r)) with (HasPrefix (sr_Path r) (str "/")).
  rewrite Hp. cbn [andb]. unfold https_handler, route_of. by repeat case_match.
Qed.

Lemma https2_route r w : grpcMiddleware https2_handler r w = run_route (Fprintln (str "OK")) (route_of r) r w.
Proof. unfold grpcMiddleware, https2_handler, route_of. by repeat case_match. Qed.

Lemma write_header_200 b w : Write b (WriteHeader 200 w) = Write b w.
Proof. unfold Write. f_equal; unfold WriteHeader; by destruct (rw_sent w) eqn:E; rewrite ?E. Qed.

Lemma not_found_log_free : log_free NotFound.
Proof. intros r w w' Hs. by apply same_response_error. Qed.

Lemma println_log_free s : log_free (Fprintln s).
Proof. intros r w w' Hs. by apply same_response_write. Qed.

Lemma route_log_free health rt : log_free grpcServer → log_free metrics → log_free health → log_free (run_route health rt).
Proof. destruct rt; try done. intros _ _ _. apply not_found_log_free. Qed.
End Servers.
End GrpcMux.

(** The examples that share a port between gRPC and HTTP agree.  For every request
    with a rooted path: examples/grpc/https and https2 give the same response, up to
    what is logged; so does examples/grpc/httproxy except for /health, where its body
    lacks the line feed; and all three send to the gRPC server exactly the HTTP/2
    requests whose content type is that of gRPC, whatever their path. *)
Theorem grpc_mux_agree (grpcServer metrics : Http.Handler) (r : Http.ServerRequest) :
  log_free grpcServer → log_free metrics → HasPrefix (Http.sr_Path r) (str "/") = true →
  same_response (Http.respond (GrpcMux.https grpcServer metrics) r) (Http.respond (GrpcMux.https2 grpcServer metrics) r) ∧
  (GrpcMux.route_of r ≠ GrpcMux.RHealth →
     same_response (Http.respond (GrpcMux.https grpcServer metrics) r) (Http.respond (GrpcMux.httproxy grpcServer metrics) r)) ∧
  (GrpcMux.is_grpc r = true →
     Http.respond (GrpcMux.https grpcServer metrics) r = Http.respond grpcServer r) ∧
  (GrpcMux.route_of r = GrpcMux.RHealth →
     Http.rw_body (Http.respond (GrpcMux.https grpcServer metrics) r) = str "OK" ++ [10] ∧
     Http.rw_body (Http.respond (GrpcMux.httproxy grpcServer metrics) r) = str "OK").
Proof.
  intros Hg Hm Hp. unfold Http.respond. set (w0 := Http.mkRW ∅ None [] []). rewrite GrpcMux.https_route by done.
  assert (Hf : ∀ health rt, log_free health → log_free (GrpcMux.run_route grpcServer metrics health rt))
    by (intros; by apply GrpcMux.route_log_free).
  split_and!.
  - symmetry. apply same_response_status. unfold GrpcMux.https2.
    etrans; [apply (logging_same _ _ r w0 w0); [|done]|by rewrite GrpcMux.https2_route].
    intros r' w w' Hs. rewrite !GrpcMux.https2_route. by apply Hf; [apply GrpcMux.println_log_free|].
  - intros Hr. symmetry. apply same_response_status. unfold GrpcMux.httproxy.
    etrans; [apply (logging_same _ _ r w0 w0); [|done]|].
    + intros r' w w' Hs. rewrite !GrpcMux.httproxy_route. apply Hf; [|done].
      intros ? ? ? Hs'. by apply same_response_write, same_response_status.
    + rewrite GrpcMux.httproxy_route. by destruct (GrpcMux.route_of r).
  - intros Hi. unfold GrpcMux.route_of. by rewrite Hi.
  - intros Hr. rewrite Hr. split; [done|]. unfold GrpcMux.httproxy, Extensions.LoggingMiddleware.
    rewrite GrpcMux.httproxy_route, Hr. done.
Qed.

Definition eg_health : Http.ServerRequest :=
  Http.mkServerRequest (str "GET") (str "/health") (mkReqURL (str "http") [] (str "h") (str "/health") false []) (str "/health")
    (str "HTTP/2.0") 2 ∅ None 0 (str "h") [] None ∅.

Lemma grpc_mux_agree_witness :
  Http.rw_body (Http.respond (GrpcMux.https GrpcMux.NotFound GrpcMux.NotFound) eg_health) = str "OK" ++ [10] ∧
  same_response (Http.respond (GrpcMux.https GrpcMux.NotFound GrpcMux.NotFound) eg_health)
    (Http.respond (GrpcMux.https2 GrpcMux.NotFound GrpcMux.NotFound) eg_health).
Proof.
  destruct (grpc_mux_agree GrpcMux.NotFound GrpcMux.NotFound eg_health GrpcMux.not_found_log_free GrpcMux.not_found_log_free)
    as (H1 & _ & _ & H4); [reflexivity|]. split; [apply H4; reflexivity|exact H1].
Defined.
