(* ===== verification/Apps.v ===== *)
(** * Small programs

    - [SoundnessApp]: snippets/soundness/app, which configures the status agent from
      its environment;
    - [HealthClient]: the clients of examples/grpc/clients/tcpclient and http2, and
      where their requests arrive at the servers of [GrpcMux];
    - [HttpsServer]: examples/net/httpsserver, whose functions are those of
      examples/net/httpserver;
    - [Http11]: the heartbeat over HTTP/1.1 (examples/net/heartbeat/http11);
    - [FdServer]: examples/net/fd/server;
    - [H2c]: the rest of snippets/httproto/h2c;
    - [Logging]: http/client/logger.go and http/extensions/trace.go. *)
From S2P Require Import Prelude Errors Wire NetAddr NetText TcpClient HttpText Agent Handlers HandlersSpec GrpcMux.

(** ** snippets/soundness/app *)
Module SoundnessApp.
Import Agent.

Definition second : Z := 1000000000.

Section Main.
Context (url_Parse : bytes → ReqURL + error) (URL_String : ReqURL → bytes).
(** [os.LookupEnv]; [os.Getenv] gives the empty text for an unset variable. *)
Context (LookupEnv : bytes → option bytes).

Definition resource_headers : gmap bytes bytes :=
  <[str "X-Resource-Type" := str "znt-i"]> {[ str "X-Resource-Op" := str "update" ]}.

Definition interval_option : list Option :=
  match LookupEnv (str "HEARTBEAT_INTERVAL") with
  | Some v => match Atoi v with
              | Some interval => [WithHeartbeatInterval (i64 (interval * second))]
              | None => []
              end
  | None => []
  end.
Definition path_options : list Option :=
  match LookupEnv (str "STATUS_PATH") with
  | Some ((_ :: _) as v) => [WithCollectURL v; WithHeartbeatPath v]
  | _ => []
  end.
Definition file_option : list Option :=
  match LookupEnv (str "FILE_PATH") with
  | Some ((_ :: _) as v) => [WithStatusFile v]
  | _ => []
  end.

(** [main], up to [srv.Start], which makes its ticker first. *)
Definition main_agent : go agent :=
  match LookupEnv (str "BROKER_URL") with
  | None | Some [] => Panic "BROKER_URL environment variable not set"
  | Some rawURL =>
      match url_Parse rawURL with
      | inr _ => Panic "failed to parse BROKER_URL"
      | inl brokerURL =>
          match default [] (LookupEnv (str "AGENT_NAME")) with
          | [] => Panic "AGENT_NAME environment variable not set"
          | agentID =>
              Ret (NewAgent URL_String brokerURL
                     ([WithCustomHeaders resource_headers; WithAgentID agentID] ++ interval_option ++ path_options ++ file_option)).1
          end
      end
  end.

(** [time.NewTicker(o.heartbeatInterval)] *)
Definition new_ticker (a : agent) : go unit :=
  if heartbeatInterval a <=? 0 then Panic "non-positive interval for NewTicker" else Ret ().

Definition main : go agent := a ← main_agent; _ ← new_ticker a; Ret a.

(** The duration of the ticker. *)
Definition interval : Z :=
  match LookupEnv (str "HEARTBEAT_INTERVAL") ≫= Atoi with
  | Some n => i64 (n * second)
  | None => 60 * second
  end.
Definition path_or (default_path : bytes) : bytes :=
  match LookupEnv (str "STATUS_PATH") with Some ((_ :: _) as v) => v | _ => default_path end.

(** What the environment configures. *)
Lemma main_agent_fields raw u nm :
  LookupEnv (str "BROKER_URL") = Some raw → raw ≠ [] → url_Parse raw = inl u →
  LookupEnv (str "AGENT_NAME") = Some nm → nm ≠ [] →
  main_agent = Ret (mkAgent nm interval (URL_String (with_path u (path_or (str "/heartbeat"))))
    (URL_String (with_path (with_path u (path_or (str "/heartbeat"))) (path_or (str "/collect"))))
    (match LookupEnv (str "FILE_PATH") with Some ((_ :: _) as v) => v | _ => str "/tmp/status.json" end) resource_headers).
Proof.
  intros Hb Hne Hu Ha Hid. unfold main_agent. rewrite Hb, Ha. destruct raw as [|x raw]; [done|]. rewrite Hu.
  destruct nm as [|y nm]; [done|]. cbn [default from_option id].
  unfold NewAgent, evaluateOptions, interval, path_or, interval_option, path_options, file_option.
  destruct (LookupEnv (str "HEARTBEAT_INTERVAL")) as [v|]; cbn [mbind option_bind];
    [destruct (Atoi v)|]; destruct (LookupEnv (str "STATUS_PATH")) as [[|]|]; destruct (LookupEnv (str "FILE_PATH")) as [[|]|]; reflexivity.
Qed.
End Main.

(** An interval that is not positive, or so long that it overflows, ends the program
    at the start. *)
Definition eg_env (interval : string) (name : bytes) : option bytes :=
  if decide (name = str "BROKER_URL") then Some (str "http://b")
  else if decide (name = str "AGENT_NAME") then Some (str "a")
  else if decide (name = str "HEARTBEAT_INTERVAL") then Some (str interval)
  else None.
Definition eg_parse (s : bytes) : ReqURL + error := inl (mkReqURL (str "http") [] (str "b") [] false []).

Example app_bad_interval :
  main eg_parse EscapedPath (eg_env "0") = Panic "non-positive interval for NewTicker" ∧
  main eg_parse EscapedPath (eg_env "10000000000") = Panic "non-positive interval for NewTicker" ∧
  (∃ a, main eg_parse EscapedPath (eg_env "soon") = Ret a ∧ heartbeatInterval a = 60 * second).
Proof. split_and!; [vm_compute; reflexivity..|]. eexists. split; vm_compute; reflexivity. Qed.
End SoundnessApp.

(** ** examples/grpc/clients *)
Module HealthClient.
Import Http GrpcMux.

Definition serviceMethod (contextPath : bytes) : bytes :=
  match contextPath with
  | [] => str "grpc.health.v1.Health/Check"
  | _ => contextPath ++ str "/" ++ str "grpc.health.v1.Health/Check"
  end.

(** [callHealthCheck], over [client.Call]: the response, when it is printed. *)
Definition callHealthCheck {Msg} (Call : bytes → Msg → Msg → option error * Msg) (contextPath : bytes) (req res : Msg) : option Msg :=
  match Call (serviceMethod contextPath) req res with
  | (Some _, _) => None
  | (None, res) => Some res
  end.

(** The request that an HTTP/2 server hands to its handler for the header block of a
    call (net/http: the pseudo fields, and the others under their canonical names). *)
Definition field (hs : list HeaderField) (name : string) : bytes :=
  match list_find (λ f, hf_Name f = str name) hs with Some (_, f) => hf_Value f | None => [] end.
Definition is_pseudo (f : HeaderField) : bool := HasPrefix (hf_Name f) (str ":").
Definition served (hs : list HeaderField) : ServerRequest :=
  let path := field hs ":path" in
  mkServerRequest (field hs ":method") path (mkReqURL [] [] [] path false []) path (str "HTTP/2.0") 2
    (foldl (λ h f, if is_pseudo f then h else Header_Add h (hf_Name f) (hf_Value f)) ∅ hs) None (-1)
    (field hs ":authority") [] None ∅.

Definition check_request (u : URL) (contextPath : bytes) : ServerRequest := served (grpcHeaders u (serviceMethod contextPath)).

Lemma check_is_grpc u contextPath : is_grpc (check_request u contextPath) = true.
Proof. vm_compute. reflexivity. Qed.

Lemma check_path u contextPath :
  sr_Path (check_request u contextPath) =
  let m := serviceMethod contextPath in if negb (HasPrefix m (str "/")) then str "/" ++ m else m.
Proof. reflexivity. Qed.

(** The request as the gRPC server gets it: its path is that of the method. *)
Definition method_path : bytes := str "/grpc.health.v1.Health/Check".

Lemma plain_path u : sr_Path (check_request u []) = method_path.
Proof. reflexivity. Qed.

(** Below [/grpc/] the mux of examples/grpc/http finds the gRPC server. *)
Lemma http_below_grpc grpcServer metrics r w :
  HasPrefix (sr_Path r) (str "/grpc/") = true → http grpcServer metrics r w = trim_grpc grpcServer r w.
Proof.
  intros Hp. unfold http, ServeMux. cbn [mux_find].
  change (matches (str "/grpc/") (sr_Path r)) with (HasPrefix (sr_Path r) (str "/grpc/")). rewrite Hp.
  assert (Hh : matches (str "/health") (sr_Path r) = false).
  { unfold matches. cbn. apply bool_decide_eq_false. intros He. rewrite He in Hp. discriminate. }
  assert (Hm : matches (str "/metrics") (sr_Path r) = false).
  { unfold matches. cbn. apply bool_decide_eq_false. intros He. rewrite He in Hp. discriminate. }
  by rewrite Hh, Hm.
Qed.
End HealthClient.

(** ** examples/net/httpsserver *)
Module HttpsServer.

Definition serverVersion := HttpServer.serverVersion.
Definition getClientIP := HttpServer.getClientIP.
Definition getServerIP := HttpServer.getServerIP.
Definition buildResponse := HttpServer.buildResponse.
Definition handleRequest := HttpServer.handleRequest.
End HttpsServer.

(** ** examples/net/heartbeat/http11 *)
Module Http11.
Import Http.

Definition server : Handler :=
  ServeMux [(str "/heartbeat", GrpcMux.Fprintln (str "OK")); (str "/", GrpcMux.Fprintln (str "Hello, HTTP/1.1!"))].

Inductive entry := SendFailed | ResponseStatus (code : Z) | Successful | GotResponse | GetFailed.

(** A tick of [startHeartbeat]; the request itself can always be made.  [Do]: the
    status of the response to a GET of a path. *)
Definition heartbeat (Do : bytes → Z + error) : entry :=
  match Do (str "/heartbeat") with
  | inr _ => SendFailed
  | inl code => if code =? 200 then Successful else ResponseStatus code
  end.

(** A turn of the loop of [main]: what it prints, and how long it sleeps (seconds). *)
Definition get_turn (Do : bytes → Z + error) : entry * Z :=
  match Do (str "/") with
  | inr _ => (GetFailed, 5)
  | inl _ => (GotResponse, 10)
  end.

(** The client against its own server, whatever the rest of the request. *)
Definition get (path : bytes) : ServerRequest :=
  mkServerRequest (str "GET") path (mkReqURL [] [] [] path false []) path (str "HTTP/1.1") 1 ∅ None 0 (str "localhost:8080") [] None ∅.
Definition status (w : ResponseWriter) : Z + error :=
  match rw_sent w with Some (code, _) => inl code | None => inr (Errorf "no response" None) end.

Lemma http11_heartbeat : heartbeat (λ p, status (respond server (get p))) = Successful ∧
  get_turn (λ p, status (respond server (get p))) = (GotResponse, 10) ∧
  rw_body (respond server (get (str "/heartbeat"))) = str "OK" ++ [10].
Proof. vm_compute. done. Qed.
End Http11.

(** ** examples/net/fd/server *)
Module FdServer.

Definition response : bytes :=
  str "HTTP/1.1 200 OK" ++ [13; 10] ++ str "Content-Type: text/plain" ++ [13; 10] ++ str "Connection: close" ++ [13; 10] ++
  [13; 10] ++ str "Hello, World!" ++ [10].

(** What is done with the connection and with the file that shares it. *)
Inductive op := CloseRead | CloseWrite | GetFile | WriteFile (data : bytes) | CloseFile | NotTCP.

(** The operations in the order in which they run, the deferred ones included. *)
Definition handleConnection (isTCP : bool) (File : option error) (write : option error) : list op :=
  if isTCP then
    match File with
    | Some _ => [GetFile; CloseWrite; CloseRead]
    | None => [GetFile; WriteFile response; CloseFile; CloseWrite; CloseRead]
    end
  else [NotTCP].

(** Both directions are shut down whatever fails, and the response is written before;
    the response ends its header and closes the connection by its own account. *)
Lemma fd_shut_down File write :
  ∃ l, handleConnection true File write = l ++ [CloseWrite; CloseRead] ∧ (CloseWrite ∉ l) ∧ (CloseRead ∉ l) ∧
    (File = None → l = [GetFile; WriteFile response; CloseFile]).
Proof.
  destruct File; [exists [GetFile]|exists [GetFile; WriteFile response; CloseFile]]; (split; [done|]);
    split_and!; try done; apply (bool_decide_unpack _) || (rewrite !not_elem_of_cons; split_and!; try done; apply not_elem_of_nil).
Qed.
End FdServer.

(** ** snippets/httproto/h2c *)
Module H2c.
Import Http Extensions.

Section Handler.
(** [w.( http.Hijacker).Hijack()], the write and the flush of the response. *)
Context (hijack : option (option error)) (write flush : option error).

(** The response when there is no connection to serve; otherwise the connection is
    hijacked, the response written to it, and served by a goroutine. *)
Definition SimpleH2cHandler (w : ResponseWriter) : ResponseWriter + bytes :=
  match Snippets.h2cUpgrade hijack write flush with
  | inr _ => inl (Http_Error (str "HTTP/2 Upgrade Failure") 500 w)
  | inl sent => inr sent
  end.
End Handler.

(** [h2c.NewHandler] of the library as it is. *)
Definition NewH2CHandler (h2c_NewHandler : Handler → Handler) (h : Handler) : Handler := λ r w, h2c_NewHandler h r w.

(** The connection is served exactly when the upgrade was announced on it; an error
    is answered on [w], also when the connection was already taken from it. *)
Lemma h2c_served hijack write flush w :
  (∃ sent, SimpleH2cHandler hijack write flush w = inr sent) ↔ hijack = Some None ∧ write = None ∧ flush = None.
Proof.
  unfold SimpleH2cHandler, Snippets.h2cUpgrade. split; [intros [sent H]; repeat case_match; naive_solver|].
  intros (-> & -> & ->). eauto.
Qed.
End H2c.

(** ** Logging *)
Module Logging.

(** http/client/logger.go *)
Record verboseLogger := mkVerboseLogger { verbose : bool }.
Definition newVerboseLogger (ctx : context) : verboseLogger := mkVerboseLogger (VerboseFromContext ctx).
Definition Verbose (vl : verboseLogger) : bool := verbose vl.
Definition Printf (vl : verboseLogger) (text : bytes) (log : list bytes) : list bytes := if verbose vl then log ++ [text] else log.
Definition Println (vl : verboseLogger) (text : bytes) (log : list bytes) : list bytes := if verbose vl then log ++ [text] else log.

(** Without --verbose nothing is logged; with it everything is, in order. *)
Lemma verbose_logged ctx texts log :
  VerboseFromContext (WithVerbose ctx) = true ∧
  foldl (λ l t, Printf (newVerboseLogger ctx) t l) log texts = if VerboseFromContext ctx then log ++ texts else log.
Proof.
  split; [reflexivity|]. unfold Printf. cbn [newVerboseLogger verbose]. revert log.
  induction texts as [|t texts IH]; intros log; cbn [foldl]; [by destruct (VerboseFromContext ctx); rewrite ?app_nil_r|].
  rewrite IH. destruct (VerboseFromContext ctx); [by rewrite <- app_assoc|done].
Qed.

(** http/extensions/trace.go: the callbacks and what they are given, as text. *)
Inductive trace_call :=
  | GetConn (hostPort : bytes) | GotConn (info : bytes) | PutIdleConn (err : bytes) | GotFirstResponseByte | Got100Continue
  | Got1xxResponse (code header : bytes) | DNSStart (info : bytes) | DNSDone (info : bytes)
  | ConnectStart (network addr : bytes) | ConnectDone (network addr err : bytes) | TLSHandshakeStart
  | TLSHandshakeDone (state err : bytes) | WroteHeaderField (key value : bytes) | WroteHeaders | Wait100Continue
  | WroteRequest (info : bytes).

(** The entry: its prefix, its message and its attributes; [Got1xxResponse] returns
    nil, which lets the client go on. *)
Record entry := mkEntry { e_trace : bytes; e_msg : bytes; e_attrs : list (bytes * bytes) }.
Definition NewDebugClientTrace (prefix : bytes) (c : trace_call) : entry * option error :=
  let a k (v : bytes) := (str k, v) in
  let e (msg : string) attrs := (mkEntry prefix (str msg) attrs, None) in
  match c with
  | GetConn hostPort => e "GetConn" [a "hostPort" hostPort]
  | GotConn info => e "GotConn" [a "info" info]
  | PutIdleConn err => e "PutIdleConn" [a "err" err]
  | GotFirstResponseByte => e "GotFirstResponseByte" []
  | Got100Continue => e "Got100Continue" []
  | Got1xxResponse code header => e "Got1xxResponse" [a "code" code; a "header" header]
  | DNSStart info => e "DNSStart" [a "info" info]
  | DNSDone info => e "DNSDone" [a "info" info]
  | ConnectStart network addr => e "ConnectStart" [a "network" network; a "addr" addr]
  | ConnectDone network addr err => e "ConnectDone" [a "network" network; a "addr" addr; a "err" err]
  | TLSHandshakeStart => e "TLSHandshakeStart" []
  | TLSHandshakeDone state err => e "TLSHandshakeDone" [a "state" state; a "err" err]
  | WroteHeaderField key value => e "WroteHeaderField" [a "key" key; a "value" value]
  | WroteHeaders => e "WroteHeaders" []
  | Wait100Continue => e "Wait100Continue" []
  | WroteRequest info => e "WroteRequest" [a "info" info]
  end.

(** The log tells the calls apart: from an entry the call and its data can be read. *)
Lemma trace_injective prefix c c' : NewDebugClientTrace prefix c = NewDebugClientTrace prefix c' → c = c'.
Proof. destruct c, c'; vm_compute; intros H; try discriminate; congruence. Qed.
End Logging.

(** The health check of the example clients reaches the example servers.  Without a
    context path the request is handed to the gRPC server by examples/grpc/https,
    https2 and httproxy, and answered with 404 by examples/grpc/http and mux.  With the
    context path /grpc (or grpc) the last two hand it to the gRPC server, with the path
    that the call without a context path has. *)
Theorem health_check_routed (grpcServer metrics : Http.Handler) (u : URL) (w : Http.ResponseWriter) :
  let r := HealthClient.check_request u [] in
  let r' cp := HealthClient.check_request u cp in
  GrpcMux.https grpcServer metrics r w = grpcServer r w ∧
  GrpcMux.grpcMiddleware grpcServer (GrpcMux.https2_handler metrics) r w = grpcServer r w ∧
  GrpcMux.httproxy_handler grpcServer metrics r w = grpcServer r w ∧
  GrpcMux.http grpcServer metrics r w = GrpcMux.NotFound r w ∧
  ∀ cp, cp = str "/grpc" ∨ cp = str "grpc" →
    ∃ r1, GrpcMux.http grpcServer metrics (r' cp) w = grpcServer r1 w ∧
      Http.sr_Path r1 = HealthClient.method_path ∧ Http.sr_Method r1 = str "POST" ∧ Http.sr_Header r1 = Http.sr_Header r ∧
      GrpcMux.is_grpc r1 = true.
Proof.
  intros r r'. assert (Hg : GrpcMux.is_grpc r = true) by apply HealthClient.check_is_grpc.
  split_and!.
  - rewrite GrpcMux.https_route by reflexivity. unfold GrpcMux.route_of. by rewrite Hg.
  - unfold GrpcMux.grpcMiddleware. by rewrite Hg.
  - unfold GrpcMux.httproxy_handler. by rewrite Hg.
  - reflexivity.
  - intros cp Hc. eexists. split.
    + rewrite HealthClient.http_below_grpc; [reflexivity|]. by destruct Hc as [->| ->].
    + by destruct Hc as [->| ->].
Qed.

Lemma health_check_routed_witness :
  ∃ r1, GrpcMux.http (λ r w, Http.Write (Http.sr_Path r) w) GrpcMux.NotFound
    (HealthClient.check_request (mkURL (str "http") (str "h") []) (str "/grpc")) (Http.mkRW ∅ None [] []) =
    Http.Write (Http.sr_Path r1) (Http.mkRW ∅ None [] []) ∧ Http.sr_Path r1 = HealthClient.method_path.
Proof.
  destruct (health_check_routed (λ r w, Http.Write (Http.sr_Path r) w) GrpcMux.NotFound (mkURL (str "http") (str "h") [])
    (Http.mkRW ∅ None [] [])) as (_ & _ & _ & _ & Hc).
  destruct (Hc (str "/grpc")) as (r1 & Hr & Hp & _); [by left|]. by exists r1.
Defined.
