(* ===== verification/TcpServer.v ===== *)
(** * The test server

    testing/servers/tcp/tcp.go: a connection is read into a pipe without a size
    limit and written back from it, by two goroutines that [task.Run] waits for.

    The pipe is seen as its clients see it ([Pipe] is the implementation): the
    bytes that were written and not yet read, and whether it is open, closed by
    the writer or interrupted by the reader. *)
From S2P Require Import Prelude Errors Bytespool IO Buffer MultiBuffer BufIO Pipe.

Module TcpServer.

(** The pipe: what it holds, and its state. *)
Record queue := mkQueue { q_data : list bytes; q_state : Pipe.state }.

(** [WriteMultiBuffer] with no size limit; writing nothing always succeeds. *)
Definition q_Write (b : bytes) (q : queue) : option error * queue :=
  match b, q_state q with
  | [], _ => (None, q)
  | _, Open => (None, mkQueue (q_data q ++ [b]) Open)
  | _, _ => (Some (ErrNew ErrClosedPipe), q)
  end.

(** [ReadMultiBuffer]: everything there is; [None] waits. *)
Definition q_Read (q : queue) : option ((bytes + error) * queue) :=
  match q_state q, q_data q with
  | Errord, _ => Some (inr (ErrNew ErrClosedPipe), q)
  | Closed, [] => Some (inr (ErrNew EOF), q)
  | Open, [] => None
  | _, d => Some (inl (mjoin d), mkQueue [] (q_state q))
  end.

(** Whichever of the two comes first decides; the other does nothing. *)
Definition q_Close (q : queue) : queue := match q_state q with Open => mkQueue (q_data q) Closed | _ => q end.
Definition q_Interrupt (q : queue) : queue := match q_state q with Open => mkQueue [] Errord | _ => q end.

(** [copy(b.Bytes(), f(b.Bytes()))]: the result of [MsgProcessor] in the space of
    the message. *)
Definition process (MsgProcessor : bytes → bytes) (b : bytes) : bytes :=
  let r := MsgProcessor b in take (length b) r ++ drop (length r) b.

(** The two functions given to [task.Run]: reading or writing, in the deferred
    call, returned. *)
Inductive reader_pc := R_read | R_put (b : bytes) | R_defer (err : option error) | R_ret (err : option error).
Inductive writer_pc := W_get | W_put (b : bytes) | W_defer (err : option error) | W_ret (err : option error).

(** [input]: what the reads of the connection will give; [output]: what was
    written to it.  [result]: that of [task.Run], after which the connection is
    closed. *)
Record server := mkServer {
  input : list bytes; output : bytes; pipe : queue; reader : reader_pc; writer : writer_pc; result : option (option error)
}.

Definition set_reader (pc : reader_pc) (s : server) : server := mkServer (input s) (output s) (pipe s) pc (writer s) (result s).
Definition set_writer (pc : writer_pc) (s : server) : server := mkServer (input s) (output s) (pipe s) (reader s) pc (result s).
Definition set_pipe (q : queue) (s : server) : server := mkServer (input s) (output s) q (reader s) (writer s) (result s).

(** The steps of the goroutines, with the error of a read or a write; [io.EOF]
    comes at the end of the input.  [Finish]: [task.Run] returns. *)
Inductive choice := ReaderStep (err : option error) | WriterStep (err : option (error * nat)) | Finish.

Definition closed_error : error := Errorf "use of closed network connection" None.

Section Server.
Context (MsgProcessor : bytes → bytes) (SendFirst : bytes).

Definition init (input : list bytes) : server := mkServer input SendFirst (mkQueue [] Open) R_read W_get None.

(** The error of [b.ReadFrom(conn)] as the function returns it: none for EOF. *)
Definition not_eof (err : error) : option error := if is_sentinel EOF err then None else Some err.

Definition reader_step (err : option error) (s : server) : option server :=
  match reader s with
  | R_read =>
      match result s, err, input s with
      | Some _, _, _ => Some (set_reader (R_defer (Some closed_error)) s)
      | None, Some e, _ => if is_sentinel EOF e then None else Some (set_reader (R_defer (not_eof e)) s)
      | None, None, [] => Some (set_reader (R_defer (not_eof (ErrNew EOF))) s)
      | None, None, b :: rest =>
          Some (mkServer rest (output s) (pipe s) (R_put (process MsgProcessor b)) (writer s) (result s))
      end
  | R_put b =>
      match q_Write b (pipe s) with
      | (None, q) => Some (set_reader R_read (set_pipe q s))
      | (Some e, q) => Some (set_reader (R_defer (Some e)) (set_pipe q s))
      end
  | R_defer e => Some (set_reader (R_ret e) (set_pipe (q_Close (pipe s)) s))
  | R_ret _ => None
  end.

Definition writer_step (err : option (error * nat)) (s : server) : option server :=
  match writer s with
  | W_get =>
      '(r, q) ← q_Read (pipe s);
      Some match r with
           | inl b => set_writer (W_put b) (set_pipe q s)
           | inr e => set_writer (W_defer (not_eof e)) (set_pipe q s)
           end
  | W_put b =>
      match result s, err with
      | Some _, _ => Some (set_writer (W_defer (Some closed_error)) s)
      | None, None => Some (mkServer (input s) (output s ++ b) (pipe s) (reader s) W_get (result s))
      | None, Some (e, n) => Some (mkServer (input s) (output s ++ take n b) (pipe s) (reader s) (W_defer (Some e)) (result s))
      end
  | W_defer e => Some (set_writer (W_ret e) (set_pipe (q_Interrupt (pipe s)) s))
  | W_ret _ => None
  end.

(** [task.Run] returns the error of a function that failed, or nil when both have
    returned nil. *)
Definition finish (s : server) : option server :=
  let done err := Some (mkServer (input s) (output s) (pipe s) (reader s) (writer s) (Some err)) in
  match result s with
  | Some _ => None
  | None =>
      match reader s, writer s with
      | R_ret (Some e), _ => done (Some e)
      | _, W_ret (Some e) => done (Some e)
      | R_ret None, W_ret None => done None
      | _, _ => None
      end
  end.

Definition handleConnection (c : choice) (s : server) : option server :=
  match c with ReaderStep err => reader_step err s | WriterStep err => writer_step err s | Finish => finish s end.
End Server.
End TcpServer.

(** ** Lemmas *)
Module TcpServerFacts.
Import TcpServer.
Section Facts.
Context (f : bytes → bytes) (SendFirst : bytes).

Definition in_reader (pc : reader_pc) : list bytes := match pc with R_put b => [b] | _ => [] end.
Definition in_writer (pc : writer_pc) : bytes := match pc with W_put b => b | _ => [] end.

(** Where the bytes that the reader took are: all accounted for until the writer
    fails, and then what was written is still their beginning. *)
Definition accounted (gone : list bytes) (s : server) : Prop :=
  match writer s with
  | W_get | W_put _ =>
      output s ++ in_writer (writer s) ++ mjoin (q_data (pipe s) ++ in_reader (reader s)) = SendFirst ++ mjoin (process f <$> gone)
  | W_defer None | W_ret None => output s = SendFirst ++ mjoin (process f <$> gone) ∧ ∃ e, reader s = R_ret e
  | W_defer (Some _) | W_ret (Some _) => output s `prefix_of` SendFirst ++ mjoin (process f <$> gone)
  end.

Definition states_ok (s : server) : Prop :=
  (q_state (pipe s) = Closed → ∃ e, reader s = R_ret e) ∧ (q_state (pipe s) = Errord → ∃ e, writer s = W_ret e) ∧
  (reader s = R_defer None ∨ reader s = R_ret None → input s = []) ∧
  (result s = Some None → reader s = R_ret None ∧ writer s = W_ret None).

Definition inv (all : list bytes) (s : server) : Prop :=
  ∃ gone, all = gone ++ input s ∧ accounted gone s ∧ states_ok s.

Lemma accounted_prefix gone s : accounted gone s → output s `prefix_of` SendFirst ++ mjoin (process f <$> gone).
Proof.
  unfold accounted. destruct (writer s) as [|b|[e|]|[e|]]; try done; [| |by intros [-> _]..]; intros <-; by eexists.
Qed.

Lemma prefix_more (x : bytes) gone b :
  x `prefix_of` SendFirst ++ mjoin (process f <$> gone) → x `prefix_of` SendFirst ++ mjoin (process f <$> (gone ++ [b])).
Proof. intros H. rewrite fmap_app, join_app, app_assoc. by apply prefix_app_r. Qed.

(** The writer is at work as long as the reader is. *)
Lemma reader_active gone s : accounted gone s → (∀ e, reader s ≠ R_ret e) → writer s ≠ W_defer None ∧ writer s ≠ W_ret None.
Proof. unfold accounted. intros Ha Hr. split; intros E; rewrite E in Ha; destruct Ha as [_ [e He]]; by apply (Hr e). Qed.

Lemma set_pipe_id s : set_pipe (pipe s) s = s.
Proof. by destruct s. Qed.

(** A step of the reader that keeps what is in the pipe and in its hands. *)
Lemma accounted_reader gone s pc q : accounted gone s → (∀ e, reader s ≠ R_ret e) →
  mjoin (q_data q ++ in_reader pc) = mjoin (q_data (pipe s) ++ in_reader (reader s)) →
  accounted gone (set_reader pc (set_pipe q s)).
Proof.
  intros Ha Hr Hq. destruct (reader_active _ _ Ha Hr) as [N1 N2]. unfold accounted in *. cbn [set_reader set_pipe writer output pipe reader].
  destruct (writer s) as [|b|[e|]|[e|]]; try done; by rewrite Hq.
Qed.

Lemma reader_inv all err s s' : inv all s → reader_step f err s = Some s' → inv all s'.
Proof.
  intros (gone & Hall & Ha & S1 & S2 & S3 & S4) Hs. unfold reader_step in Hs. destruct (reader s) as [|b|e|e] eqn:Hr; [..|done].
  - assert (q_state (pipe s) ≠ Closed) as Hnc by (intros E; by destruct (S1 E)).
    assert (result s ≠ Some None) as Hnr by (intros E; by destruct (S4 E)).
    assert (∀ x, (∀ e, x = R_ret e → False) → (x = R_defer None → input s = []) → inv all (set_reader x s) ∨ in_reader x ≠ []) as Hmove.
    { intros x Hx Hi. destruct (in_reader x) eqn:Hin; [left|by right]. exists gone. split; [done|].
      split; [|split_and!]; cbn [set_reader input reader writer pipe result]; try done.
      - rewrite <- (set_pipe_id s). apply accounted_reader; [done|by rewrite Hr|by rewrite Hr, Hin].
      - intros [E|E]; [auto|by apply Hx in E]. }
    destruct (result s) as [r|] eqn:Hres.
    { injection Hs as <-. by destruct (Hmove (R_defer (Some closed_error))). }
    destruct err as [e|].
    { destruct (is_sentinel EOF e) eqn:He; [done|]. injection Hs as <-. unfold not_eof. rewrite He.
      by destruct (Hmove (R_defer (Some e))). }
    destruct (input s) as [|b rest] eqn:Hi; injection Hs as <-; [by destruct (Hmove (R_defer None))|].
    exists (gone ++ [b]). split; [by rewrite Hall, <- app_assoc|].
    destruct (reader_active _ _ Ha ltac:(by rewrite Hr)) as [N1 N2]. split; [|split_and!]; cbn; try done; try (by intros [?|?]).
    unfold accounted in *. cbn. destruct (writer s) as [|b'|[e|]|[e|]]; try done; try by apply prefix_more.
    all: rewrite Hr in Ha; cbn [in_reader in_writer] in *; rewrite app_nil_r in Ha.
    all: rewrite fmap_app, !join_app, (app_assoc SendFirst), <- Ha, <- !app_assoc; by rewrite ?app_nil_r.
  - assert (q_state (pipe s) ≠ Closed) as Hnc by (intros E; by destruct (S1 E)).
    unfold q_Write in Hs. destruct b as [|x b'] eqn:Hb; [injection Hs as <-|rewrite <- Hb in *; destruct (q_state (pipe s)) eqn:Hq; [|done|]; injection Hs as <-].
    + exists gone. split; [done|]. split; [|split_and!]; cbn; try done.
      * apply accounted_reader; [done|by rewrite Hr|]. rewrite Hr. cbn. by rewrite !join_app.
      * by intros [?|?].
      * intros E. by destruct (S4 E).
    + exists gone. split; [done|]. split; [|split_and!]; cbn; try done.
      * apply accounted_reader; [done|by rewrite Hr|]. cbn. by rewrite Hr, app_nil_r.
      * by intros [?|?].
      * intros E. by destruct (S4 E).
    + destruct (S2 eq_refl) as [e He]. exists gone. split; [done|]. split; [|split_and!]; cbn; try done.
      * destruct (reader_active _ _ Ha ltac:(by rewrite Hr)) as [N1 N2]. unfold accounted in *. cbn. rewrite He in *. by destruct e.
      * by rewrite Hq.
      * by eauto.
      * by intros [?|?].
      * intros E. by destruct (S4 E).
  - injection Hs as <-. exists gone. split; [done|]. split; [|split_and!]; cbn.
    + apply accounted_reader; [done|by rewrite Hr|]. rewrite Hr. by destruct (pipe s) as [d []].
    + eauto.
    + intros E. apply S2. by destruct (pipe s) as [d []].
    + intros [?|[= ->]]; [done|]. apply S3. by left.
    + intros E. by destruct (S4 E).
Qed.

Lemma writer_inv all err s s' : inv all s → writer_step err s = Some s' → inv all s'.
Proof.
  intros (gone & Hall & Ha & S1 & S2 & S3 & S4) Hs. unfold writer_step in Hs. destruct (writer s) as [|b|e|e] eqn:Hw; [..|done].
  - assert (q_state (pipe s) ≠ Errord) as Hne by (intros E; by destruct (S2 E)).
    assert (result s ≠ Some None) as Hnr by (intros E; by destruct (S4 E)).
    unfold accounted in Ha. rewrite Hw in Ha. cbn [in_writer app] in Ha. unfold q_Read in Hs.
    assert (∀ d st, pipe s = mkQueue d st → d ≠ [] ∨ st = Closed →
      inv all (set_writer (W_put (mjoin d)) (set_pipe (mkQueue [] st) s))) as Hput.
    { intros d st Hp _. exists gone. split; [done|]. rewrite Hp in *. split; [|split_and!]; cbn; try done.
      unfold accounted. cbn. rewrite <- Ha. cbn [q_data]. by rewrite join_app. }
    destruct (pipe s) as [d st] eqn:Hp. cbn [q_state q_data] in *. destruct st; [|destruct d as [|x d]|done]; cbn in Hs.
    + destruct d as [|x d]; [done|]. injection Hs as <-. apply (Hput (x :: d) Open); auto.
    + injection Hs as <-. destruct (S1 eq_refl) as [e He]. exists gone. split; [done|]. split; [|split_and!]; cbn; try done.
      unfold accounted. cbn. rewrite He in Ha |- *. cbn in Ha. rewrite app_nil_r in Ha. change (not_eof (ErrNew EOF)) with (@None error). cbn. eauto.
    + injection Hs as <-. apply (Hput (x :: d) Closed); auto.
  - assert (q_state (pipe s) ≠ Errord) as Hne by (intros E; by destruct (S2 E)).
    assert (result s ≠ Some None) as Hnr by (intros E; by destruct (S4 E)).
    pose proof Ha as Hacc. unfold accounted in Ha. rewrite Hw in Ha. cbn [in_writer] in Ha.
    destruct (result s) as [r|] eqn:Hres; [|destruct err as [[e n]|]]; injection Hs as <-; exists gone;
      (split; [done|]); (split; [|split_and!]); cbn; try done; try (by rewrite Hres).
    + unfold accounted. cbn. by apply accounted_prefix in Hacc.
    + unfold accounted. cbn. rewrite <- Ha. exists (drop n b ++ mjoin (q_data (pipe s) ++ in_reader (reader s))).
      by rewrite <- app_assoc, (app_assoc (take n b)), take_drop.
    + unfold accounted. cbn. by rewrite <- Ha, <- app_assoc.
  - injection Hs as <-. exists gone. split; [done|]. split; [|split_and!]; cbn.
    + unfold accounted in *. rewrite Hw in Ha. by destruct e.
    + intros E. apply S1. by destruct (pipe s) as [d []].
    + eauto.
    + done.
    + intros E. by destruct (S4 E).
Qed.

Lemma server_inv all c s s' : inv all s → handleConnection f c s = Some s' → inv all s'.
Proof.
  intros Hi Hs. destruct c as [err|err|]; [by eapply reader_inv|by eapply writer_inv|].
  destruct Hi as (gone & Hall & Ha & S1 & S2 & S3 & S4). cbn in Hs. unfold finish in Hs. destruct (result s); [done|].
  assert (∀ err, (err = None → reader s = R_ret None ∧ writer s = W_ret None) →
    inv all (mkServer (input s) (output s) (pipe s) (reader s) (writer s) (Some err))) as Hfin.
  { intros err He. exists gone. split; [done|]. split; [done|]. split_and!; try done. cbn. intros [= ->]. auto. }
  destruct (reader s) as [| | |[]], (writer s) as [| | |[]]; try done; injection Hs as <-; by apply Hfin.
Qed.
End Facts.
End TcpServerFacts.

(** C14: what a client of the test server gets back is SendFirst and then its own
    messages, each as the processor changes it within its length, in order and
    without a gap; and all of them when the connection ends without an error,
    whatever the interleaving of the two goroutines over the pipe. *)
Theorem tcp_server_echoes (f : bytes → bytes) (SendFirst : bytes) (messages : list bytes) (cs : list TcpServer.choice) (s : TcpServer.server) :
  run_steps (TcpServer.handleConnection f) cs (TcpServer.init SendFirst messages) = Some s →
  TcpServer.output s `prefix_of` SendFirst ++ mjoin (TcpServer.process f <$> messages) ∧
  (TcpServer.result s = Some None → TcpServer.output s = SendFirst ++ mjoin (TcpServer.process f <$> messages)).
Proof.
  intros Hr. assert (TcpServerFacts.inv f SendFirst messages s) as (gone & -> & Ha & _ & _ & S3 & S4).
  { revert Hr. apply run_steps_inv; [intros *; apply TcpServerFacts.server_inv|].
    exists []. split; [done|]. split; [done|]. split_and!; try done. by intros [?|?]. }
  split.
  - rewrite fmap_app, join_app, app_assoc. apply prefix_app_r. by apply TcpServerFacts.accounted_prefix in Ha.
  - intros Hn. destruct (S4 Hn) as [Hrd Hw]. unfold TcpServerFacts.accounted in Ha. rewrite Hw in Ha. destruct Ha as [-> _].
    by rewrite S3, app_nil_r by (by right).
Qed.

Definition eg_schedule : list TcpServer.choice :=
  [TcpServer.ReaderStep None; TcpServer.ReaderStep None; TcpServer.WriterStep None; TcpServer.ReaderStep None;
   TcpServer.WriterStep None; TcpServer.ReaderStep None; TcpServer.WriterStep None; TcpServer.WriterStep None; TcpServer.Finish].

Lemma tcp_server_echoes_witness :
  ∃ s, run_steps (TcpServer.handleConnection (λ _, str "X")) eg_schedule (TcpServer.init (str "hi ") [str "abc"]) = Some s ∧
    TcpServer.output s = str "hi Xbc".
Proof.
  destruct (run_steps (TcpServer.handleConnection (λ _, str "X")) eg_schedule (TcpServer.init (str "hi ") [str "abc"]))
    as [s|] eqn:Hs; [|by vm_compute in Hs].
  exists s. split; [reflexivity|]. destruct (tcp_server_echoes _ _ _ _ _ Hs) as [_ Ho].
  vm_compute in Hs. injection Hs as <-. exact (Ho eq_refl).
Defined.
