(* ===== verification/Servers.v ===== *)
(** * Servers that accept connections

    - transport/internet/tcp_hub.go: [ListenSystem] and [ListenSystemPacket], and
      testing/servers/tcp/tcp.go: starting and closing the test server over them;
    - cmd/distro/http_proxy.go: the accept loop of [runHTTPProxy] under
      [cli.RunServer];
    - examples/net/httpproxy and examples/proxyproto/transparentporxy/httpproxy:
      their handlers, and the accept loops that never give up. *)
From S2P Require Import Prelude Errors Bytespool IO NetAddr NetText HttpText Config Internet Sockets SocketsSpec Cli CliSpec Proxy.

(** ** The test server *)
Module TestServer.
Import Internet Sockets.

Section Server.
Context {W F L Cn : Type} `{!SockOS W, !ListenOS W F L}.
Context (GOOS : string) (IPString : net_Addr → bytes) (controllers : list (controller (W := W))).
(** [listener.Addr()] of a listener of the system. *)
Context (os_Addr : L → W → net_Addr).

Definition ListenSystem (addr : net_Addr) (sockopt : option SocketConfig) (w : W) :=
  Listen GOOS IPString controllers addr sockopt w.

Definition ListenSystemPacket (network address : bytes) (sockopt : option SocketConfig) (w : W) : (L + error) * W :=
  ListenPacket controllers network address sockopt w.

(** The fields that starting and closing use. *)
Record Server := mkServer { s_Port : Z; s_Listen : option Address; s_listener : option (listener (F := F) (L := L)) }.

Fixpoint listener_Addr (l : listener (F := F) (L := L)) (w : W) : go net_Addr :=
  match l with
  | SystemListener s => Ret (os_Addr s w)
  | combinedListener s _ => Ret (os_Addr s w)
  | proxyListener inner => listener_Addr inner w
  | proxyNil => Panic nil_deref
  end.

Definition conversion : string := "interface conversion".
Definition as_TCPAddr (a : net_Addr) : go (bytes * Z) :=
  match a with TCPAddr ip port => Ret (ip, port) | _ => Panic conversion end.
(** [listener.( *net.TCPListener)] *)
Definition as_TCPListener (l : listener (F := F) (L := L)) : go L :=
  match l with SystemListener s => Ret s | _ => Panic conversion end.

(** The destination and the error, the server, and the listener that
    [acceptConnections] is started with. *)
Definition StartContext (server : Server) (sockopt : option SocketConfig) (w : W)
  : go ((Destination + error) * Server * option L * W) :=
  let listenerAddr := match s_Listen server with Some a => Some a | None => LocalHostIP end in
  ip ← ip_of listenerAddr;
  r ← ListenSystem (TCPAddr ip (s_Port server)) sockopt w;
  let '(l, err, w) := r in
  match err, l with
  | Some err, _ => Ret (inr err, server, None, w)
  | None, None => Panic nil_deref
  | None, Some l =>
      a ← listener_Addr l w;
      '(ip, port) ← as_TCPAddr a;
      let server := mkServer (Port port) (s_Listen server) (Some l) in
      tcp ← as_TCPListener l;
      Ret (inl (TCPDestination (IPAddress ip) (Port port)), server, Some tcp, w)
  end.

Definition Start (server : Server) (w : W) := StartContext server None w.

Definition Close (server : Server) (w : W) : go (option error * W) :=
  match s_listener server with
  | None => Panic nil_deref
  | Some l => r ← listener_Close l w; let '(err, _, w) := r in Ret (err, w)
  end.

(** [acceptConnections]: the results of the calls of [Accept] in turn; the
    connections that are handled, and whether the loop has returned. *)
Fixpoint acceptConnections (accepts : list (Cn + error)) : list Cn * bool :=
  match accepts with
  | [] => ([], false)
  | inl conn :: accepts' => let '(handled, returned) := acceptConnections accepts' in (conn :: handled, returned)
  | inr _ :: _ => ([], true)
  end.

(** ** Facts *)

(** The server starts at the address the system gave it. *)
Lemma StartContext_ok server sockopt w ip l w' aip aport :
  ip_of (match s_Listen server with Some a => Some a | None => LocalHostIP end) = Ret ip →
  ListenSystem (TCPAddr ip (s_Port server)) sockopt w = Ret (Some (SystemListener l), None, w') →
  os_Addr l w' = TCPAddr aip aport →
  StartContext server sockopt w =
    Ret (inl (TCPDestination (IPAddress aip) (Port aport)), mkServer (Port aport) (s_Listen server) (Some (SystemListener l)), Some l, w').
Proof. intros Hip Hl Ha. unfold StartContext. rewrite Hip. cbn [mbind go_bind]. by rewrite Hl; cbn; rewrite Ha. Qed.

(** With the PROXY protocol the listener is not a [*net.TCPListener], and the
    assertion in front of [acceptConnections] panics. *)
Lemma StartContext_proxy_never server so w d srv l w' :
  AcceptProxyProtocol so = true → StartContext server (Some so) w ≠ Ret (inl d, srv, l, w').
Proof.
  intros Hso Hs. unfold StartContext in Hs. apply go_bind_inv in Hs as (ip & _ & Hs).
  apply go_bind_inv in Hs as ([[lst err] w1] & Hl & Hs). unfold ListenSystem, Listen in Hl.
  apply go_bind_inv in Hl as ([[[lo eo]|eo] w2] & _ & Hl); [|by injection Hl as <- <- <-].
  rewrite Hso in Hl. injection Hl as <- <- <-. destruct eo; [done|].
  apply go_bind_inv in Hs as (a & _ & Hs). apply go_bind_inv in Hs as ([aip aport] & _ & Hs). by destruct lo.
Qed.

(** Every connection in front of the first error is handled, in order. *)
Lemma acceptConnections_prefix conns rest :
  acceptConnections ((inl <$> conns) ++ rest) = (conns ++ (acceptConnections rest).1, (acceptConnections rest).2).
Proof.
  induction conns as [|c conns IH]; cbn; [by destruct (acceptConnections rest)|].
  change (list_fmap _ _ inl conns) with (inl (B := error) <$> conns). by rewrite IH.
Qed.
End Server.
End TestServer.

(** ** runHTTPProxy *)
Module ProxyServer.
Import Cli.

Definition ErrNetClosed := Sentinel "net.ErrClosed" "use of closed network connection".

Section Server.
Context {Cn : Type}.

(** The listener, the connections given to [handleHTTPProxy], the warnings, and
    [RunServer]. *)
Record proxy := mkProxy { lis_open : bool; handled : list Cn; warned : list error; srv : serve }.

Inductive choice :=
  | PAccept (c : Cn)                       (** [lis.Accept] gives a connection *)
  | PAcceptErr (err : error)               (** ... or an error *)
  | PStop (err : option error)             (** [stop]: [lis.Close()] returns *)
  | PServe (c : serve_choice).             (** another step of [RunServer] *)

Definition init : proxy := mkProxy true [] [] serve_init.

(** A listener that is closed returns [net.ErrClosed], and only such a one. *)
Definition accept_step (r : Cn + error) (p : proxy) : option proxy :=
  match start_exited (srv p) with
  | Some _ => None
  | None =>
      match r with
      | inl c => if lis_open p then Some (mkProxy true (handled p ++ [c]) (warned p) (srv p)) else None
      | inr er =>
          if Is ErrNetClosed er then
            if lis_open p then None
            else s ← serve_step (λ _, false) true (StartReturns None) (srv p); Some (mkProxy false (handled p) (warned p) s)
          else if lis_open p then Some (mkProxy true (handled p) (warned p ++ [er]) (srv p)) else None
      end
  end.

Definition step (c : choice) (p : proxy) : option proxy :=
  match c with
  | PAccept c => accept_step (inl c) p
  | PAcceptErr er => accept_step (inr er) p
  | PStop err =>
      s ← serve_step (λ _, false) true (StopReturns err) (srv p);
      Some (mkProxy false (handled p) (warned p) s)
  | PServe (StartReturns _) | PServe (StopReturns _) => None
  | PServe c => s ← serve_step (λ _, false) true c (srv p); Some (mkProxy (lis_open p) (handled p) (warned p) s)
  end.

(** [runHTTPProxy]: the error of [net.Listen], or the server. *)
Definition runHTTPProxy (listen : option error) (cs : list choice) : option (proxy + error) :=
  match listen with
  | Some err => Some (inr (Errorf "listen" (Some err)))
  | None => inl <$> run_steps step cs init
  end.

(** The connections that were accepted. *)
Definition accepted (cs : list choice) : list Cn := omap (λ c, match c with PAccept x => Some x | _ => None end) cs.

(** ** Invariant *)

Definition stop_failed (s : serve) : Prop := ∃ e, pc s = S_ret (Some (Errorf "shutdown" (Some e))).

Record inv (cs : list choice) (p : proxy) : Prop := {
  inv_handled : handled p = accepted cs;
  inv_exited : start_exited (srv p) = None ∨ start_exited (srv p) = Some None;
  inv_closed : start_exited (srv p) ≠ None → lis_open p = false;
  inv_chan : (∀ r, pc (srv p) ≠ S_ret r) → errCh (srv p) = start_exited (srv p);
  inv_pc : match pc (srv p) with
           | S_select | S_stop => lis_open p = true
           | S_wait => lis_open p = false
           | S_ret r => lis_open p = false ∧ (r = None ∧ start_exited (srv p) = Some None ∨ ∃ e, r = Some (Errorf "shutdown" (Some e)))
           end
}.

Lemma accepted_snoc cs c : accepted (cs ++ [c]) = accepted cs ++ accepted [c].
Proof. apply omap_app. Qed.

Lemma init_inv_proxy : inv [] init.
Proof. by split; auto. Qed.

Lemma accept_inv cs r p p' :
  inv cs p → accept_step r p = Some p' → inv (cs ++ [match r with inl c => PAccept c | inr e => PAcceptErr e end]) p'.
Proof.
  intros [Hh He Hc Hch Hp] Hs. unfold accept_step in Hs.
  destruct (start_exited (srv p)) as [x|] eqn:Ex; [done|].
  destruct r as [c|er].
  - destruct (lis_open p) eqn:El; [|done]. injection Hs as <-. split; cbn; rewrite ?accepted_snoc, ?Ex; try done; try (by left).
    by rewrite Hh.
  - destruct (Is ErrNetClosed er).
    + destruct (lis_open p) eqn:El; [done|]. apply bind_Some in Hs as (s & Hs & [= <-]). cbn in Hs. rewrite Ex in Hs. injection Hs as <-.
      split; cbn; rewrite ?accepted_snoc; cbn; rewrite ?app_nil_r; try done; [by right|].
      destruct (pc (srv p)) as [| | |r]; try done. destruct Hp as [_ [[_ ?]|?]]; [done|]. split; [done|by right].
    + destruct (lis_open p) eqn:El; [|done]. injection Hs as <-.
      split; cbn; rewrite ?accepted_snoc, ?Ex; cbn; rewrite ?app_nil_r; try done; by left.
Qed.

Lemma step_inv_proxy cs c p p' : inv cs p → step c p = Some p' → inv (cs ++ [c]) p'.
Proof.
  intros Hi Hs. destruct c as [c|er|err|c]; [exact (accept_inv cs (inl c) p p' Hi Hs)|exact (accept_inv cs (inr er) p p' Hi Hs)|..].
  - destruct Hi as [Hh He Hc Hch Hp]. cbn [step] in Hs. apply bind_Some in Hs as (s & Hs & [= <-]). cbn [serve_step] in Hs.
    destruct (pc (srv p)) eqn:Epc; try done. specialize (Hch ltac:(done)).
    destruct err as [e|]; injection Hs as <-; split; cbn; rewrite ?accepted_snoc; cbn; rewrite ?app_nil_r; eauto; by intros [].
  - destruct Hi as [Hh He Hc Hch Hp].
    destruct c as [err| | | |err]; cbn [step] in Hs; try done; apply bind_Some in Hs as (s & Hs & [= <-]); cbn [serve_step] in Hs.
    + injection Hs as <-. split; cbn; rewrite ?accepted_snoc; cbn; rewrite ?app_nil_r; eauto.
    + apply bind_Some in Hs as (err & Herr & Hs).
      destruct (pc (srv p)) eqn:Epc; try done; injection Hs as <-; specialize (Hch ltac:(done)); rewrite Herr in Hch;
        (destruct He as [He|He]; rewrite He in Hch; [done|injection Hch as ->]);
        split; cbn; rewrite ?accepted_snoc; cbn; rewrite ?app_nil_r; try done; try (by right);
        try (by intros Hr; destruct (Hr None)); (split; [by apply Hc; rewrite He|by left]).
    + destruct (pc (srv p)) eqn:Epc; try done. destruct (ctx_done (srv p)); [|done]. injection Hs as <-.
      specialize (Hch ltac:(done)). split; cbn; rewrite ?accepted_snoc; cbn; rewrite ?app_nil_r; eauto.
Qed.

Lemma run_inv_proxy cs p : run_steps step cs init = Some p → inv cs p.
Proof.
  revert p. induction cs as [|c cs IH] using rev_ind; intros p Hr.
  - injection Hr as <-. exact init_inv_proxy.
  - rewrite run_steps_app in Hr. apply bind_Some in Hr as (p1 & H1 & Hr). cbn in Hr.
    apply bind_Some in Hr as (p2 & H2 & [= <-]). eapply step_inv_proxy; eauto.
Qed.

(** The steps that end a server whose context is done. *)
Definition shutdown_from (s : serve) : list choice :=
  match pc s with
  | S_select => [PServe SeeDone; PStop None; PAcceptErr (ErrNew ErrNetClosed); PServe ReceiveErr]
  | S_stop => [PStop None; PAcceptErr (ErrNew ErrNetClosed); PServe ReceiveErr]
  | S_wait => match start_exited s with
              | None => [PAcceptErr (ErrNew ErrNetClosed); PServe ReceiveErr]
              | Some _ => [PServe ReceiveErr]
              end
  | S_ret _ => []
  end.

Lemma shutdown_ends cs p :
  inv cs p → ctx_done (srv p) = true → (∀ r, pc (srv p) ≠ S_ret r) →
  ∃ p', run_steps step (shutdown_from (srv p)) p = Some p' ∧ pc (srv p') = S_ret None ∧ handled p' = handled p.
Proof.
  intros [Hh He Hc Hch Hp] Hd Hn. specialize (Hch Hn). destruct p as [op hd wn [ex ch dn q]]. cbn in *. subst dn ch.
  destruct q as [| | |r]; [..|by destruct (Hn r)]; cbn in *; subst op.
  - destruct He as [->| ->]; [by eexists|]. by specialize (Hc ltac:(done)).
  - destruct He as [->| ->]; [by eexists|]. by specialize (Hc ltac:(done)).
  - destruct He as [->| ->]; by eexists.
Qed.
End Server.
End ProxyServer.

(** The HTTP proxy serves and shuts down.  In every run of [runHTTPProxy] the
    connections handed to the handler are those accepted, in order, and a failing
    [Accept] ends nothing.  When it returns, the listener is closed, and it returns
    nil after the accept loop has ended, or else the error of closing the listener.
    And once the context is done it can always finish: at most four steps, which
    accept nothing more, lead to the return of nil. *)
Theorem http_proxy_serves {Cn} (cs : list (ProxyServer.choice (Cn := Cn))) (p : ProxyServer.proxy) :
  ProxyServer.runHTTPProxy None cs = Some (inl p) →
  ProxyServer.handled p = ProxyServer.accepted cs ∧
  (∀ r, Cli.pc (ProxyServer.srv p) = Cli.S_ret r → ProxyServer.lis_open p = false ∧
     (r = None ∧ Cli.start_exited (ProxyServer.srv p) = Some None ∨ ∃ e, r = Some (Errorf "shutdown" (Some e)))) ∧
  (Cli.ctx_done (ProxyServer.srv p) = true → (∀ r, Cli.pc (ProxyServer.srv p) ≠ Cli.S_ret r) →
     ∃ more p', (length more ≤ 4)%nat ∧ ProxyServer.runHTTPProxy None (cs ++ more) = Some (inl p') ∧
       Cli.pc (ProxyServer.srv p') = Cli.S_ret None ∧ ProxyServer.handled p' = ProxyServer.handled p).
Proof.
  unfold ProxyServer.runHTTPProxy. intros Hr. apply fmap_Some in Hr as (p0 & Hr & [= <-]).
  pose proof (ProxyServer.run_inv_proxy cs p Hr) as Hi. split; [apply Hi|]. split.
  - intros r Hpc. pose proof (ProxyServer.inv_pc cs p Hi) as Hp. by rewrite Hpc in Hp.
  - intros Hd Hn. destruct (ProxyServer.shutdown_ends cs p Hi Hd Hn) as (p' & Hrun & Hpc & Hh).
    exists (ProxyServer.shutdown_from (ProxyServer.srv p)), p'. split_and!; try done.
    + unfold ProxyServer.shutdown_from. repeat case_match; cbn; lia.
    + rewrite run_steps_app, Hr. cbn. by rewrite Hrun.
Qed.

Lemma http_proxy_serves_witness :
  ∃ p, ProxyServer.runHTTPProxy None
      [ProxyServer.PAccept 1%nat; ProxyServer.PAcceptErr (ErrNew EOF); ProxyServer.PAccept 2%nat; ProxyServer.PServe Cli.Cancel] = Some (inl p) ∧
    ProxyServer.handled p = [1; 2]%nat ∧ ∃ (more : list (ProxyServer.choice (Cn := nat))) (p' : ProxyServer.proxy (Cn := nat)), (length more ≤ 4)%nat ∧ Cli.pc (ProxyServer.srv p') = Cli.S_ret None.
Proof.
  eexists. split; [reflexivity|].
  destruct (http_proxy_serves [ProxyServer.PAccept 1%nat; ProxyServer.PAcceptErr (ErrNew EOF); ProxyServer.PAccept 2%nat;
    ProxyServer.PServe Cli.Cancel] _ eq_refl) as (Hh & _ & Hl).
  split; [exact Hh|]. destruct Hl as (more & p' & Hm & _ & Hp & _); [reflexivity|intros r; discriminate|]. by exists more, p'.
Defined.

(** ** The examples *)
Module Examples.
Section Handlers.
Context (ReadRequest : bytes → Request + error) (dial : bytes → list bytes + error) (render : error → bytes)
        (write_request : Request → bytes → bytes * option error) (remote : bytes).

(** examples/net/httpproxy: the request is forwarded as it is. *)
Definition handleHTTPRequest := Proxy.handleHTTPRequest dial render false write_request remote.
Definition handleHTTPProxy := Proxy.handleHTTPProxy ReadRequest dial render false write_request remote.

(** examples/proxyproto/transparentporxy/httpproxy: [remote] is the address that
    the PROXY protocol header gave. *)
Definition tproxy_handleConnectMethod := Proxy.handleConnectMethod dial render.
End Handlers.

(** The accept loop of the examples: an error is logged and the loop goes on. *)
Fixpoint accept_forever {Cn} (accepts : list (Cn + error)) : list Cn :=
  match accepts with
  | [] => []
  | inl conn :: accepts' => conn :: accept_forever accepts'
  | inr _ :: accepts' => accept_forever accepts'
  end.

(** No error ends the loop: what is handled is what was accepted. *)
Lemma accept_forever_all {Cn} (accepts : list (Cn + error)) :
  accept_forever accepts = omap (λ r, match r with inl c => Some c | inr _ => None end) accepts.
Proof. induction accepts as [|[c|e] accepts IH]; cbn; [done|by rewrite IH..]. Qed.

(** The loop of the test server, in contrast, ends with the first error. *)
Lemma accept_loops_differ {Cn} (c : Cn) e :
  accept_forever [inr e; inl c] = [c] ∧ TestServer.acceptConnections [inr e; inl c] = ([], true).
Proof. done. Qed.
End Examples.
