(* ===== verification/PipeRefines.v ===== *)
(** * The pipe implements the queue its clients see

    transport/pipe against the queue of [TcpServer]: the abstract queue has four
    operations, each one indivisible and without buffers, signals or loops.  In
    any run of any number of goroutines over a pipe with any options, the critical
    sections of the code, in the order in which they happened, are a run of the
    queue; every other step of the code changes nothing that the queue shows; and
    what a call is about to return is the answer the queue gave. *)
From S2P Require Import Prelude Errors Bytespool IO Buffer MultiBuffer BufIO Pipe PipeSpec TcpServer.

Module PipeRefines.
Import TcpServer(queue, mkQueue, q_data, q_state, q_Write, q_Read, q_Close, q_Interrupt).

(** An operation of the queue with its answer; [EWait] is a read that found nothing,
    [EFull] a write that found no room, and both wait; [EDrop] a write that found no
    room and gave its bytes up. *)
Inductive event :=
  | EWrite (b : bytes) (err : option error)
  | EFull
  | EDrop (b : bytes)
  | ERead (r : bytes + error)
  | EWait
  | EClose
  | EInterrupt.

(** Whether there is no room: more bytes than the limit, counted as an [int32]. *)
Definition full (o : pipeOption) (q : queue) : bool :=
  bool_decide (q_state q = Open) && isFull o (i32 (zlen (mjoin (q_data q)))).

(** The specification: the queue performs the operation, with that answer. *)
Definition performs (o : pipeOption) (e : event) (q q' : queue) : Prop :=
  match e with
  | EWrite b err => q_Write b q = (err, q') ∧ (b = [] ∨ full o q = false)
  | EFull => full o q = true ∧ discardOverflow o = false ∧ q' = q
  | EDrop b => full o q = true ∧ discardOverflow o = true ∧ q' = q
  | ERead r => q_Read q = Some (r, q')
  | EWait => q_Read q = None ∧ q' = q
  | EClose => q' = q_Close q
  | EInterrupt => q' = q_Interrupt q
  end.

Inductive queue_run (o : pipeOption) : queue → list event → queue → Prop :=
  | queue_nil q : queue_run o q [] q
  | queue_cons q e q1 es q2 : performs o e q q1 → queue_run o q1 es q2 → queue_run o q (e :: es) q2.

(** The operation that a step of a goroutine performs, if any: it is that of the
    section under the mutex, or the failure of a write that waited for room until the
    pipe was closed. *)
Definition event_of (t : thread) (c : choice) (t' : thread) : option event :=
  match t, c, t' with
  | TIdle _, Do CallClose, _ => Some EClose
  | TIdle _, Do CallInterrupt, _ => Some EInterrupt
  | TIdle _, Do (CallWriteMultiBuffer mb), TIdle _ => Some (EWrite [] None)
  | TWrite mb, _, TWriteSignal => Some (EWrite (mb_content mb) None)
  | TWrite mb, _, TWriteFail _ err => Some (EWrite (mb_content mb) err)
  | TWrite mb, _, TWriteDiscard _ => Some (EDrop (mb_content mb))
  | TWrite mb, _, TWriteSelect _ => Some EFull
  | TWriteSelect mb, OnDone, _ => Some (EWrite (mb_content mb) (Some (ErrNew ErrClosedPipe)))
  | TRead _, _, TReadSignal data None => Some (ERead (inl (mb_content data)))
  | TRead _, _, TReadSignal _ (Some err) => Some (ERead (inr err))
  | TRead _, _, TReadSelect _ => Some EWait
  | _, _, _ => None
  end.

Definition events_of (i : nat) (c : choice) (s s' : sys) : list (nat * event) :=
  match s_threads s !! i, s_threads s' !! i with
  | Some t, Some t' => match event_of t c t' with Some e => [(i, e)] | None => [] end
  | _, _ => []
  end.

(** The operations of a run, each with its goroutine. *)
Fixpoint history (sched : list (nat * choice)) (s : sys) : list (nat * event) :=
  match sched with
  | [] => []
  | (i, c) :: sched' =>
      match exec_step i c s with
      | Ret (Some s') => events_of i c s s' ++ history sched' s'
      | _ => []
      end
  end.

(** What a goroutine is going to return, once its section is done. *)
Definition pending (t : thread) : option result :=
  match t with
  | TReadSignal data err => Some (RData data err)
  | TWriteSignal => Some (RErr None)
  | TWriteDiscard _ => Some (RErr None)
  | TWriteFail _ err => Some (RErr err)
  | _ => None
  end.

Definition answers (e : event) (r : result) : Prop :=
  match e, r with
  | EWrite _ err, RErr err' => err = err'
  | EDrop _, RErr err' => err' = None
  | ERead (inl b), RData data None => mb_content data = b
  | ERead (inr err), RData None (Some err') => err = err'
  | _, _ => False
  end.

Definition of_thread (i : nat) (h : list (nat * event)) : list event := snd <$> filter (λ ie, ie.1 = i) h.

(** ** The simulation *)

(** The queue shows the bytes of the MultiBuffer and the state. *)
Record repr (p : pipe) (q : queue) : Prop := {
  repr_content : mb_content (p_data p) = mjoin (q_data q);
  repr_state : p_state p = q_state q;
  repr_parts : Forall (λ b, b ≠ []) (q_data q)
}.

Lemma mjoin_nonempty (l : list bytes) : Forall (λ b, b ≠ []) l → mjoin l = [] → l = [].
Proof. intros [|b l' Hb _] Hj; [done|]. cbn in Hj. by apply app_eq_nil in Hj as [? _]. Qed.

(** A step that keeps data and state is invisible. *)
Lemma repr_ext p p' q : p_data p' = p_data p → p_state p' = p_state p → repr p q → repr p' q.
Proof. intros E1 E2 [? ? ?]. split; by rewrite ?E1, ?E2. Qed.

(** The queue is full when the pipe is. *)
Lemma repr_full p q : pipe_ok p → repr p q → full (p_option p) q = bool_decide (p_state p = Open) && isFull (p_option p) (MultiBuffer_Len (p_data p)).
Proof. intros Hp [Hc Hs _]. unfold full. by rewrite <- Hs, <- Hc, MultiBuffer_Len_i32 by apply Hp. Qed.

(** The section of a read: the queue's read, or its wait. *)
Lemma read_refines p q data err p' :
  pipe_ok p → (p_state p = Errord → p_data p = None) → repr p q → readMultiBufferInternal p = (data, err, p') →
  ∃ q', repr p' q' ∧
    match data, err with
    | None, None => performs (p_option p) EWait q q'
    | _, None => performs (p_option p) (ERead (inl (mb_content data))) q q'
    | _, Some e => performs (p_option p) (ERead (inr e)) q q'
    end.
Proof.
  intros Hp He [Hc Hs Hf] Hr. unfold readMultiBufferInternal, getState in Hr. rewrite Hs in Hr, He. cbn [negb andb] in Hr.
  assert (Hd : ∀ l, p_data p = Some l → q_data q ≠ []).
  { intros l El Eq. rewrite Eq in Hc. by apply (po_nonempty p Hp) in Hc; [|rewrite El; eexists]. }
  assert (Hn : p_data p = None → q_data q = []).
  { intros El. rewrite El in Hc. by apply mjoin_nonempty. }
  destruct (q_state q) eqn:Eq.
  - injection Hr as <- <- <-. exists (mkQueue [] Open). split; [by split; cbn|].
    destruct (p_data p) as [l|] eqn:El; cbn [performs]; unfold q_Read; rewrite Eq.
    + pose proof (Hd l eq_refl). rewrite Hc. destruct (q_data q); [done|done].
    + rewrite (Hn eq_refl). split; [done|]. destruct q as [d st]; cbn in *. by rewrite Eq, Hn.
  - destruct (MultiBuffer_IsEmpty (p_data p)) eqn:Ee; cbn [negb] in Hr; injection Hr as <- <- <-.
    + exists q. split; [by split; rewrite ?Eq|]. cbn [performs]. unfold q_Read.
      by rewrite Eq, (Hn (pipe_ok_empty p Hp Ee)).
    + exists (mkQueue [] Closed). split; [by split; cbn|].
      destruct (p_data p) as [l|] eqn:El; [|by vm_compute in Ee]. cbn [performs]. unfold q_Read. rewrite Eq, Hc.
      pose proof (Hd l eq_refl). by destruct (q_data q).
  - injection Hr as <- <- <-. exists q. split; [by split; rewrite ?Eq|]. cbn [performs]. unfold q_Read. by rewrite Eq.
Qed.

(** The section of a write: the bytes join the queue. *)
Lemma write_refines p q mb err p' ins outs :
  pipe_ok p → fifo_ok ins outs p → repr p q → arg_ok mb → mb_content mb ≠ [] → getState p false = None →
  writeMultiBufferInternal p mb = (err, p') →
  ∃ q', repr p' q' ∧ performs (p_option p) (EWrite (mb_content mb) None) q q'.
Proof.
  intros Hp Hf [Hc Hs Hpt] Harg Hne Hg Hw.
  destruct (write_internal_ok p mb err p' ins outs Hp Hf Harg Hne Hg Hw) as (_ & _ & _ & _ & _ & Ho' & Ho & _ & Hc').
  exists (mkQueue (q_data q ++ [mb_content mb]) Open). split.
  - split; cbn [q_data q_state]; [|done|by apply Forall_app; split; [|apply Forall_singleton]].
    rewrite Hc', Hc, join_app. cbn. by rewrite app_nil_r.
  - cbn [performs]. split; [unfold q_Write; rewrite <- Hs, Ho; by destruct (mb_content mb)|]. right.
    rewrite (repr_full p q Hp (Build_repr p q Hc Hs Hpt)), Ho. unfold getState in Hg. rewrite Ho in Hg. cbn [negb andb] in Hg.
    by destruct (isFull _ _).
Qed.

(** A call that an idle goroutine makes: [Close] and [Interrupt] are the queue's,
    a write of nothing succeeds, and the others only start. *)
Lemma call_refines last c p w q t' p' w' :
  pipe_ok p → choice_ok (Do c) → repr p q → start_call c p w = Ret ((t', p'), w') →
  ∃ q', repr p' q' ∧ match event_of (TIdle last) (Do c) t' with Some e => performs (p_option p) e q q' | None => q' = q end.
Proof.
  intros Hp Hc [Hcn Hs Hpt] Hcall. pose proof (Build_repr p q Hcn Hs Hpt) as Hr.
  destruct c as [| |mb| | |err|]; cbn [start_call] in Hcall.
  - injection Hcall as <- <- <-. by exists q.
  - injection Hcall as <- <- <-. by exists q.
  - destruct (MultiBuffer_IsEmpty mb); injection Hcall as <- <- <-; exists q; [|done]. by split; [|split; [|left]].
  - exists (q_Close q). split; [|done]. unfold Pipe_Close in Hcall.
    destruct (p_state p) eqn:Es; [rewrite (Done_Close_ok p Hp Es) in Hcall|..]; injection Hcall as <- <- <-;
      unfold q_Close; rewrite <- Hs; [by split|by split; [..|]; rewrite ?Es..].
  - exists (q_Interrupt q). split; [|done]. apply M_bind_inv in Hcall as (p1 & w1 & Hi & Hcall).
    injection Hcall as <- <- <-. unfold Pipe_Interrupt in Hi. unfold q_Interrupt. rewrite <- Hs.
    destruct (p_state p) eqn:Es; [|injection Hi as <- <-; by split; rewrite ?Es..].
    apply M_bind_inv in Hi as (p2 & w2 & H2 & Hi).
    assert (p2 = set_data p None) as ->.
    { destruct (MultiBuffer_IsEmpty (p_data p)) eqn:Ee; cbn [negb] in H2.
      - injection H2 as <- _. pose proof (pipe_ok_empty p Hp Ee) as En. destruct p. cbn in En. by subst.
      - by apply M_bind_inv in H2 as (? & ? & _ & [= <- _]). }
    cbn [set_data p_done] in Hi. rewrite (Done_Close_ok p Hp Es) in Hi. injection Hi as <- _. by split.
  - injection Hcall as <- <- <-. by exists q.
  - destruct (p_errChan p); injection Hcall as <- <- <-; exists q; by split; [apply (repr_ext p)|].
Qed.

(** One step of one goroutine. *)
Lemma pipe_step_refines p w t c t' p' w' q ins outs :
  pipe_ok p → thread_ok t → choice_ok c → fifo_ok ins outs p → repr p q → tstep p w t c t' p' w' →
  ∃ q', repr p' q' ∧ match event_of t c t' with Some e => performs (p_option p) e q q' | None => q' = q end.
Proof.
  intros Hp Ht Hc Hf Hr Hstep.
  assert (He : p_state p = Errord → p_data p = None) by (intros E; unfold fifo_ok in Hf; rewrite E in Hf; apply Hf).
  assert (Hfull : getState p false = Some (ErrNew errBufferFull) → full (p_option p) q = true).
  { intros Hg. destruct (getState_write _ _ Hg) as [(_ & Ho & Hi)|[? _]]; [|done]. by rewrite (repr_full p q), Ho, Hi. }
  assert (Hclosed : ∀ mb, thread_ok (TWrite mb) → p_state p ≠ Open →
    performs (p_option p) (EWrite (mb_content mb) (Some (ErrNew ErrClosedPipe))) q q).
  { intros mb [_ Hnn] Hno. cbn [performs]. split; [|right; rewrite (repr_full p q) by done; by rewrite bool_decide_eq_false_2].
    unfold q_Write. rewrite <- (repr_state p q Hr). destruct (mb_content mb); [done|]. by destruct (p_state p). }
  destruct Hstep as
    [last c t' p' w' Hcall|timed data p' Hrd Hs|timed err p' Hrd|timed p' Hrd|data err|timed Htok|timed Hdone|err Hec|
     |mb err p' Hwr Hg|mb Hg Hdis|mb err Hg Hne|mb Hg Hkeep| |mb r w' Hrel|mb err r w' Hrel|mb Htok|mb Hdone|err Hec];
    cbn [event_of]; try done; try (exists q; by split; [apply (repr_ext p)|]).
  - by apply (call_refines last c p w q t' p' w').
  - destruct Hs as [l ->]. exact (read_refines p q _ _ p' Hp He Hr Hrd).
  - exact (read_refines p q _ _ p' Hp He Hr Hrd).
  - exact (read_refines p q _ _ p' Hp He Hr Hrd).
  - destruct Ht. by apply (write_refines p q mb err p' ins outs).
  - exists q. split; [done|]. by split_and!; [apply Hfull|..].
  - destruct (getState_write _ _ Hg) as [(-> & _)|[-> Hno]]; [done|]. exists q. by split; [|apply Hclosed].
  - exists q. split; [done|]. by split_and!; [apply Hfull|..].
  - exists q. split; [done|]. apply Hclosed; [done|]. intros Ho. destruct (po_done p Hp) as [Hcl _].
    rewrite Hdone, Ho in Hcl. discriminate.
Qed.

(** ** Answers *)

(** The last operation of a goroutine that is about to return answered with what
    it returns. *)
Definition answered (h : list (nat * event)) (ts : list thread) : Prop :=
  ∀ i t r, ts !! i = Some t → pending t = Some r → ∃ e, last (of_thread i h) = Some e ∧ answers e r.

Lemma of_thread_app i h k : of_thread i (h ++ k) = of_thread i h ++ of_thread i k.
Proof. unfold of_thread. by rewrite filter_app, fmap_app. Qed.

(** A step brings a goroutine to the point of returning only with its event. *)
Lemma tstep_pending p w t c t' p' w' r :
  tstep p w t c t' p' w' → pending t' = Some r → ∃ e, event_of t c t' = Some e ∧ answers e r.
Proof.
  intros Hstep Hpd. destruct Hstep as
    [last c t' p' w' Hcall|timed data p' Hrd Hs|timed err p' Hrd|timed p' Hrd|data err|timed Htok|timed Hdone|err Hec|
     |mb err p' Hwr Hg|mb Hg Hdis|mb err Hg Hne|mb Hg Hkeep| |mb r' w' Hrel|mb err r' w' Hrel|mb Htok|mb Hdone|err Hec];
    cbn in Hpd; try done; try (injection Hpd as <-; eexists; split; [reflexivity|done]).
  exfalso. destruct c as [| |mb| | |err|]; cbn [start_call] in Hcall; try (by injection Hcall as <- _ _).
  - case_match; by injection Hcall as <- _ _.
  - apply M_bind_inv in Hcall as ([] & ? & _ & Hcall). by injection Hcall as <- _ _.
  - apply M_bind_inv in Hcall as (? & ? & _ & Hcall). by injection Hcall as <- _ _.
  - case_match; by injection Hcall as <- _ _.
Qed.

Lemma answered_step h ts i t c t' p w p' w' :
  ts !! i = Some t → tstep p w t c t' p' w' → answered h ts →
  answered (h ++ match event_of t c t' with Some e => [(i, e)] | None => [] end) (<[i := t']> ts).
Proof.
  intros Hi Hstep Ha j u r Hj Hpd. rewrite of_thread_app. destruct (decide (j = i)) as [->|Hne].
  - rewrite list_lookup_insert_eq in Hj by (by eapply lookup_lt_Some). injection Hj as <-.
    destruct (tstep_pending _ _ _ _ _ _ _ _ Hstep Hpd) as (e & -> & Hans). exists e. split; [|done].
    unfold of_thread at 2. rewrite filter_cons_True by done. by rewrite last_app.
  - rewrite list_lookup_insert_ne in Hj by done. destruct (Ha j u r Hj Hpd) as (e & Hlast & Hans). exists e. split; [|done].
    destruct (event_of t c t') as [x|]; [|by rewrite app_nil_r].
    unfold of_thread at 2. rewrite filter_cons_False by (cbn; congruence). by rewrite app_nil_r.
Qed.

(** ** Runs *)

Lemma history_refines opts n sched s s' h q :
  reachable opts n s → Forall (λ ic, choice_ok (snd ic)) sched → repr (s_pipe s) q →
  answered h (s_threads s) → run sched s = Ret (Some s') →
  ∃ q', queue_run (p_option (s_pipe s)) q (snd <$> history sched s) q' ∧ repr (s_pipe s') q' ∧ answered (h ++ history sched s) (s_threads s').
Proof.
  intros Hs Hc. revert s h q Hs. induction Hc as [|[i c] sched Hc Hcs IH]; intros s h q Hs Hr Ha; cbn [run history].
  { intros [= <-]. exists q. rewrite app_nil_r. by split; [constructor|]. }
  intros Heq. apply go_bind_inv in Heq as ([s1|] & He & Heq); [|done]. rewrite He.
  destruct (exec_step_inv i c s s1 He) as (t & t' & p' & w' & Ht & Hstep & Es1).
  pose proof (reachable_ok _ _ _ Hs) as [Hp Hw Hts Hf _ _]. pose proof (Forall_lookup_1 _ _ _ _ Hts Ht) as Htok. cbn in Hc.
  destruct (tstep_ok _ _ _ _ _ _ _ _ _ Hp Hw Htok Hc Hf Hstep) as (_ & _ & _ & _ & Ho).
  destruct (pipe_step_refines _ _ _ _ _ _ _ _ _ _ Hp Htok Hc Hf Hr Hstep) as (q1 & Hr1 & Hq1).
  assert (Hev : events_of i c s s1 = match event_of t c t' with Some e => [(i, e)] | None => [] end).
  { unfold events_of. rewrite Ht, Es1. cbn [s_threads]. by rewrite list_lookup_insert_eq by (by eapply lookup_lt_Some). }
  destruct (IH s1 (h ++ events_of i c s s1) q1) as (q2 & Hrun & Hr2 & Ha2).
  - by eapply reach_step.
  - by rewrite Es1.
  - rewrite Hev, Es1. by apply (answered_step h _ i t c t' _ _ _ _ Ht Hstep).
  - done.
  - assert (p_option (s_pipe s1) = p_option (s_pipe s)) as Hop by (by rewrite Es1). rewrite Hop in Hrun.
    exists q2. split; [|split; [done|by rewrite app_assoc]]. rewrite fmap_app, Hev.
    destruct (event_of t c t') as [e|]; cbn; [by econstructor|by rewrite <- Hq1].
Qed.

End PipeRefines.

(** C2: refinement of the abstract queue.  For a pipe with any options, used by any
    number of goroutines under any interleaving: the operations that the critical
    sections perform, in their order, are a run of the queue that starts open and
    empty; a write waits or drops its bytes, as the options say, exactly when the queue
    holds more than the limit; the queue the run ends in shows the bytes and the state
    of the pipe; and every goroutine that is about to return from a read or a write
    returns the answer that the queue gave to its last operation. *)
Theorem pipe_refines_queue (opts : list Option) (n : nat) (sched : list (nat * choice)) (s : sys) :
  Forall (λ ic, choice_ok (snd ic)) sched → run sched (init_sys opts n) = Ret (Some s) →
  let h := PipeRefines.history sched (init_sys opts n) in
  ∃ q, PipeRefines.queue_run (p_option (New opts)) (TcpServer.mkQueue [] Open) (snd <$> h) q ∧
    mb_content (p_data (s_pipe s)) = mjoin (TcpServer.q_data q) ∧ p_state (s_pipe s) = TcpServer.q_state q ∧
    ∀ i t r, s_threads s !! i = Some t → PipeRefines.pending t = Some r →
      ∃ e, last (PipeRefines.of_thread i h) = Some e ∧ PipeRefines.answers e r.
Proof.
  intros Hc Hrun h.
  destruct (PipeRefines.history_refines opts n sched (init_sys opts n) s [] (TcpServer.mkQueue [] Open))
    as (q & Hq & [Hcn Hs _] & Ha); try done.
  - constructor.
  - intros i t r Hi Hpd. cbn in Hi. apply lookup_replicate in Hi as [-> _]. done.
  - exists q. by split_and!.
Qed.

(** A reader waits, a writer writes [1; 2; 3] and the reader gets it; the writer
    writes twice more: above the limit of 2 bytes the second write waits, and fails
    when the pipe is closed. *)
Definition bounded_sched : list (nat * choice) :=
  sample_sched ++ [(0%nat, Do (CallWriteMultiBuffer sample_write)); (0%nat, Go); (0%nat, Go);
    (0%nat, Do (CallWriteMultiBuffer sample_write)); (0%nat, Go); (1%nat, Go); (1%nat, Do CallClose); (0%nat, OnDone)].

Lemma pipe_refines_queue_witness :
  ∃ s, run bounded_sched (init_sys [WithSizeLimit 2] 2) = Ret (Some s) ∧
    PipeRefines.history bounded_sched (init_sys [WithSizeLimit 2] 2) =
      [(1%nat, PipeRefines.EWait); (0%nat, PipeRefines.EWrite [1; 2; 3] None);
       (1%nat, PipeRefines.ERead (inl [1; 2; 3])); (0%nat, PipeRefines.EWrite [1; 2; 3] None);
       (0%nat, PipeRefines.EFull); (1%nat, PipeRefines.EClose);
       (0%nat, PipeRefines.EWrite [1; 2; 3] (Some (ErrNew ErrClosedPipe)))] ∧
    ∃ q, TcpServer.q_state q = Closed ∧
      PipeRefines.queue_run (p_option (New [WithSizeLimit 2])) (TcpServer.mkQueue [] Open)
        (snd <$> PipeRefines.history bounded_sched (init_sys [WithSizeLimit 2] 2)) q.
Proof.
  destruct (run bounded_sched (init_sys [WithSizeLimit 2] 2)) as [[s|]| |] eqn:E;
    try (vm_compute in E; discriminate E).
  exists s. split; [reflexivity|]. split; [vm_compute; reflexivity|].
  destruct (pipe_refines_queue [WithSizeLimit 2] 2 bounded_sched s) as (q & Hq & _ & Hs & _).
  - repeat apply Forall_cons_2; try apply Forall_nil_2; try exact I; exact sample_write_ok.
  - exact E.
  - exists q. split; [|exact Hq]. rewrite <- Hs. vm_compute in E. injection E as <-. reflexivity.
Defined.
