(* ===== verification/Commands.v ===== *)
(** * The naming and server commands, and the gRPC server and clients of the examples

    cmd/distro/discovery.go and registry.go, cmd/subcmds/etcdget.go, DiscoverETCD
    and RegisterETCD, grpc/server/start.go, cmd/distro/echo_server.go and
    examples/grpc/clients/httpclient/main.go.  The flags of a command are given as
    the values read from them; the etcd client is seen through its answers. *)
From S2P Require Import Prelude Errors NetAddr NetText Bytespool IO Wire Http2Frames TcpClient HttpText HttpFetch Cli Etcd EtcdSpec FetchCmd.

(** ** Discovery and registration *)
Module Naming.

(** What the discovery command prints: the fields of the JSON object, or text. *)
Inductive printed_endpoints :=
  | EndpointsJSON (path : bytes) (watch : bool) (rows : list (bytes * bytes))
  | EndpointsText (text : bytes).

Section Discovery.
Context `{!Etcd.EndpointJSON}.

(** [client]: that of [newEtcdClient].  A watch returns, when the context is
    done, the endpoints of its start. *)
Definition DiscoverETCD (client : (bytes → Etcd.get_answer) + error) (envName serviceName group : bytes) (watchEnabled : bool)
  : list Etcd.Endpoint + error :=
  match client with
  | inr err => inr (Errorf "etcd client" (Some err))
  | inl cli =>
      let key := Etcd.serviceDiscoverKey envName serviceName group in
      if negb watchEnabled then
        match Etcd.Get cli key (Etcd.mkDiscoverer 0) with
        | (inr err, _) => inr (Errorf "discover get" (Some err))
        | (inl endpoints, _) => inl endpoints
        end
      else
        match Etcd.Watch cli key (Etcd.mkDiscoverer 0) with
        | (inr err, _) => inr (Errorf "discover watch" (Some err))
        | (inl (endpoints, _), _) => inl endpoints
        end
  end.

Definition endpoint_line (ep : Etcd.Endpoint) : bytes := [9] ++ Etcd.Address ep ++ [9] ++ Etcd.Group ep ++ [10].

(** [connect]: [newEtcdClient] of the addresses. *)
Definition discoveryCmd (connect : list bytes → (bytes → Etcd.get_answer) + error)
    (namingType endpoints envName serviceName group : bytes) (watchEnabled : bool) (format : bytes)
  : printed_endpoints + error :=
  if bool_decide (namingType = str "etcd") then
    match DiscoverETCD (connect (Split 44 endpoints)) envName serviceName group watchEnabled with
    | inr err => inr (Errorf "discover" (Some err))
    | inl eps =>
        let path := str "/" ++ envName ++ str "/" ++ serviceName ++ str ":" ++ group in
        if bool_decide (format = str "json")
        then inl (EndpointsJSON path watchEnabled ((λ ep, (Etcd.Address ep, Etcd.Group ep)) <$> eps))
        else inl (EndpointsText (str "path: " ++ path ++ str " (watch=" ++ GrpcCmd.show_bool watchEnabled ++ str ")" ++ [10] ++
                                 mjoin (endpoint_line <$> eps)))
    end
  else inr (Errorf "unsupported naming type" None).

(** The instance that [RegisterETCD] registers. *)
Definition registered_instance (envName serviceName address : bytes) : Etcd.Instance_ :=
  Etcd.mkInstance envName serviceName (Etcd.mkEndpoint address Etcd.DefaultGroup ∅).

(** [register]: that of the registry, which runs until the context is done. *)
Definition registryCmd (connect : list bytes → unit + error) (register : Etcd.Instance_ → option error)
    (namingType endpoints envName serviceName address : bytes) : option error :=
  if bool_decide (namingType = str "etcd") then
    let err :=
      match connect (Split 44 endpoints) with
      | inr err => Some (Errorf "etcd client" (Some err))
      | inl _ => match register (registered_instance envName serviceName address) with
                 | Some err => Some (Errorf "register" (Some err))
                 | None => None
                 end
      end in
    match err with Some err => Some (Errorf "register" (Some err)) | None => None end
  else Some (Errorf "unsupported naming type" None).
End Discovery.

(** etcdget.go: [get] is given the key, the limit and whether it is a prefix. *)
Definition etcdGetCmd (connect : list bytes → option error) (get : bytes → Z → bool → list (bytes * bytes) + error)
    (endpoints key : bytes) (limit : Z) (prefix : bool) (format : bytes) : (list (bytes * bytes) + bytes) + error :=
  match connect (Split 44 endpoints) with
  | Some err => inr err
  | None =>
      match get key limit prefix with
      | inr err => inr err
      | inl kvs =>
          if bool_decide (format = str "json") then inl (inl kvs)
          else inl (inr (mjoin ((λ kv, kv.1 ++ str " : " ++ kv.2 ++ [10]) <$> kvs)))
      end
  end.
End Naming.

(** ** grpc/server/start.go *)
Module GrpcServer.

(** [Serve]: in its [select], in the receive after [GracefulStop], returned; and
    the goroutine that runs [server.Serve]. *)
Inductive serve_pc := S_select | S_stopped | S_ret (err : option error).
Record serve := mkServe { exited : option (option error); errCh : option (option error); ctx_done : bool; stopped : bool; pc : serve_pc }.
Definition init : serve := mkServe None None false false S_select.

Inductive choice :=
  | ServerReturns (err : option error) | Cancel
  | Receive | SeeDone.

(** [GracefulStop] makes [server.Serve] return, so without it (and without an
    error of the listener) it goes on. *)
Definition serve_step (c : choice) (s : serve) : option serve :=
  match c with
  | ServerReturns err =>
      match exited s with
      | Some _ => None
      | None => Some (mkServe (Some err) (Some err) (ctx_done s) (stopped s) (pc s))
      end
  | Cancel => Some (mkServe (exited s) (errCh s) true (stopped s) (pc s))
  | Receive =>
      match errCh s, pc s with
      | Some err, (S_select | S_stopped) => Some (mkServe (exited s) None (ctx_done s) (stopped s) (S_ret err))
      | _, _ => None
      end
  | SeeDone =>
      match pc s with
      | S_select => if ctx_done s then Some (mkServe (exited s) (errCh s) true true S_stopped) else None
      | _ => None
      end
  end.

(** The whole of [Serve]: the result of listening first. *)
Definition Serve (listen : option error) (cs : list choice) : option (option error) :=
  match listen with
  | Some err => Some (Some (Errorf "listen" (Some err)))
  | None => match run_steps serve_step cs init with
            | Some s => match pc s with S_ret err => Some err | _ => None end
            | None => None
            end
  end.

(** [StartGrpcServer]: no one cancels its context. *)
Definition StartGrpcServer (listen : option error) (cs : list choice) : option (option error) :=
  Serve listen (List.filter (λ c, match c with Cancel => false | _ => true end) cs).

(** The handler of the echo service. *)
Definition Echo (message : bytes) : bytes := message.
End GrpcServer.

(** ** examples/grpc/clients/httpclient *)
Module HttpClient.

Record GRPCRequest := mkGRPCRequest { g_Scheme : bytes; g_ServerAddr : bytes; g_GrpcMethod : bytes; g_Payload : bytes }.
Record GRPCResponse := mkGRPCResponse { g_StatusCode : Z; g_Message : bytes; g_Body : bytes }.

Section Client.
Context {W Msg : Type} (url_Parse : bytes → ReqURL + error).
(** [client.Do] and the reading of the body; the body and its error. *)
Context (client_Do : Request → W → (Response * option error + error) * W).
Context (Marshal : Msg → bytes + error) (Unmarshal : bytes → Msg → option error * Msg).

Definition callGRPCService (g : GRPCRequest) (w : W) : (GRPCResponse + error) * W :=
  let requestUrl := g_Scheme g ++ str "://" ++ g_ServerAddr g ++ str "/" ++ g_GrpcMethod g in
  match url_Parse requestUrl with
  | inr err => (inr err, w)
  | inl u =>
      let h := Header_Set (Header_Set ∅ (str "Content-Type") (str "application/grpc+proto")) (str "TE") (str "trailers") in
      let body := match g_Payload g with [] => NoBody | p => ReaderBody (inl p) end in
      let u := mkReqURL (Scheme u) (Opaque u) (FetchCmd.removeEmptyPort (URLHost u)) (EscapedPath u) (ForceQuery u) (RawQuery u) in
      match client_Do (mkRequest (str "POST") (Some u) (URLHost u) h body (zlen (g_Payload g))) w with
      | (inr err, w) => (inr err, w)
      | (inl (_, Some err), w) => (inr err, w)
      | (inl (resp, None), w) =>
          match Atoi (Header_Get (Trailer resp) (str "grpc-status")) with
          | None => (inr (Errorf "invalid grpc-status" None), w)
          | Some code => (inl (mkGRPCResponse code (Header_Get (Trailer resp) (str "grpc-message")) (PBody resp)), w)
          end
      end
  end.

(** [arg] and [res]: the empty messages. *)
Definition sendHealthCheckRequest (serverURL : ReqURL) (arg res : Msg) (w : W) : go ((Msg + error) * W) :=
  match Marshal arg with
  | inr err => Ret (inr err, w)
  | inl reqArg =>
      let req := mkGRPCRequest (Scheme serverURL) (URLHost serverURL) (str "grpc.health.v1.Health/Check") (Grpc.EncodeGrpcPayload reqArg) in
      match callGRPCService req w with
      | (inr err, w) => Ret (inr err, w)
      | (inl resp, w) =>
          if negb (g_StatusCode resp =? 0) then Ret (inr (Errorf "gRPC error" None), w)
          else
            '(err, res) ← Grpc.DecodeGrpcFrame Unmarshal (slice_of (g_Body resp)) res;
            match err with
            | Some er => Ret (inr er, w)
            | None => Ret (inl res, w)
            end
      end
  end.
End Client.
End HttpClient.

(** ** What is registered is discovered *)
Section Registered.
Context `{!Etcd.EndpointJSON}.

(** The two naming commands fit together: an instance that the registry command
    has put into the store is among the endpoints that the discovery command prints
    for its environment and service, once for each time it is stored, with or
    without a watch, as a line of its own. *)
Theorem registered_is_discovered (s : gmap bytes bytes) (env svc address endpoints group : bytes) (watch : bool)
    (connect : list bytes → (bytes → Etcd.get_answer) + error) (cli : bytes → Etcd.get_answer) (kvs : list (bytes * bytes)) (hdr : option Z) :
  let i := Naming.registered_instance env svc address in
  plain_names env svc Etcd.DefaultGroup → group = Etcd.DefaultGroup →
  s !! Etcd.Key i = Some (Etcd.Encode (Etcd.IEndpoint i)) → Etcd.Decode (Etcd.Encode (Etcd.IEndpoint i)) = inl (Etcd.IEndpoint i) →
  connect (Split 44 endpoints) = inl cli →
  cli (Etcd.with_env env svc ++ Etcd.slash) = inl (hdr, kvs) → kvs ≡ₚ kvs_of (Etcd.with_env env svc ++ Etcd.slash) s →
  ∃ before after,
    Naming.discoveryCmd connect (str "etcd") endpoints env svc group watch (str "text") =
    inl (Naming.EndpointsText (before ++ [9] ++ address ++ [9] ++ str "default" ++ [10] ++ after)).
Proof.
  intros i Hn -> Hs Hd Hc Hcli Hk. unfold Naming.discoveryCmd. rewrite bool_decide_eq_true_2 by done. rewrite Hc.
  assert (∃ eps, Naming.DiscoverETCD (inl cli) env svc Etcd.DefaultGroup watch = inl eps ∧ Etcd.IEndpoint i ∈ eps) as (eps & -> & Hin).
  { unfold Naming.DiscoverETCD, Etcd.Watch, Etcd.Get. rewrite (parse_discover_key env svc Etcd.DefaultGroup Hn), Hcli.
    exists (Etcd.FilterOrDefault (Etcd.etcdInstancesToEndpoints kvs) Etcd.DefaultGroup). split; [by destruct watch|].
    rewrite FilterOrDefault_spec.
    assert (filter (in_group Etcd.DefaultGroup) (Etcd.etcdInstancesToEndpoints kvs) = []) as ->.
    { destruct (filter (in_group Etcd.DefaultGroup) (Etcd.etcdInstancesToEndpoints kvs)) as [|ep l] eqn:He; [done|]. exfalso.
      assert (ep ∈ ep :: l) as Hin by (by left). rewrite <- He in Hin. apply list_elem_of_filter in Hin as [[Hf Hg] _].
      unfold Etcd.is_default in Hf. apply bool_decide_eq_false in Hf. auto. }
    apply list_elem_of_filter. split; [unfold Etcd.is_default; apply bool_decide_eq_true; by left|].
    rewrite instances_omap. apply list_elem_of_omap. exists (Etcd.Key i, Etcd.Encode (Etcd.IEndpoint i)). split.
    - rewrite Hk. apply list_elem_of_filter. split; [|by apply elem_of_map_to_list]. cbn. unfold Etcd.Key.
      rewrite bool_decide_eq_true_2 by done. by eexists.
    - unfold decoded. cbn [snd]. by rewrite Hd. }
  apply list_elem_of_split in Hin as (l1 & l2 & ->). rewrite bool_decide_eq_false_2 by done.
  rewrite fmap_app, join_app. change (mjoin (Naming.endpoint_line <$> Etcd.IEndpoint i :: l2)) with
    (([9] ++ address ++ [9] ++ str "default" ++ [10]) ++ mjoin (Naming.endpoint_line <$> l2)).
  exists (str "path: " ++ (str "/" ++ env ++ str "/" ++ svc ++ str ":" ++ Etcd.DefaultGroup) ++ str " (watch=" ++
    GrpcCmd.show_bool watch ++ str ")" ++ [10] ++ mjoin (Naming.endpoint_line <$> l1)), (mjoin (Naming.endpoint_line <$> l2)).
  do 2 f_equal. rewrite <- !app_assoc. reflexivity.
Qed.
End Registered.

(** The encoding of the examples: the address alone. *)
#[local] Instance address_json : Etcd.EndpointJSON :=
  { Etcd.Encode := Etcd.Address; Etcd.Decode := λ v, inl (Etcd.mkEndpoint v Etcd.DefaultGroup ∅) }.

Lemma registered_is_discovered_witness :
  ∃ before after,
    Naming.discoveryCmd (λ _, inl (λ _, inl (None, [(str "/live/svc/h:1", str "h:1")]))) (str "etcd") [] (str "live") (str "svc")
      (str "default") false (str "text") =
    inl (Naming.EndpointsText (before ++ [9] ++ str "h:1" ++ [9] ++ str "default" ++ [10] ++ after)).
Proof.
  refine (registered_is_discovered {[str "/live/svc/h:1" := str "h:1"]} (str "live") (str "svc") (str "h:1") [] (str "default") false
    _ _ [(str "/live/svc/h:1", str "h:1")] None _ eq_refl _ eq_refl eq_refl eq_refl _).
  - split_and!; try discriminate; apply (bool_decide_unpack _); vm_compute; exact I.
  - vm_compute. reflexivity.
  - unfold kvs_of. rewrite map_to_list_singleton. cbn [filter list_filter].
    rewrite decide_True; [reflexivity|]. exists (str "h:1"). vm_compute. reflexivity.
Defined.

(** ** Serve *)

(** What a gRPC server command returns is what the server returned, and a command
    that was cancelled has asked it to stop: nothing is left running. *)
Definition serve_ok (s : GrpcServer.serve) : Prop :=
  (∀ err, GrpcServer.errCh s = Some err → GrpcServer.exited s = Some err) ∧
  (∀ err, GrpcServer.pc s = GrpcServer.S_ret err → GrpcServer.exited s = Some err) ∧
  (GrpcServer.pc s = GrpcServer.S_stopped → GrpcServer.stopped s = true ∧ GrpcServer.ctx_done s = true).

Lemma serve_ok_step c s s' : serve_ok s → GrpcServer.serve_step c s = Some s' → serve_ok s'.
Proof.
  intros (H1 & H2 & H3) Hs. destruct c; cbn in Hs.
  - destruct (GrpcServer.exited s) eqn:E; [done|]. injection Hs as <-. split_and!; cbn; [done| |done].
    intros e He. by specialize (H2 e He).
  - injection Hs as <-. split_and!; cbn; auto. intros He. by destruct (H3 He).
  - destruct (GrpcServer.errCh s) as [e|] eqn:E; [|done].
    destruct (GrpcServer.pc s); try done; injection Hs as <-; split_and!; cbn; try done; intros ? [= <-]; auto.
  - destruct (GrpcServer.pc s); try done. destruct (GrpcServer.ctx_done s); [|done]. injection Hs as <-. by split_and!.
Qed.

(** A result of [Serve] is the server's. *)
Lemma grpc_serve_result cs err : GrpcServer.Serve None cs = Some err →
  ∃ s, run_steps GrpcServer.serve_step cs GrpcServer.init = Some s ∧ GrpcServer.exited s = Some err.
Proof.
  unfold GrpcServer.Serve. destruct (run_steps _ cs _) as [s|] eqn:Hr; [|done]. intros Hp. exists s. split; [done|].
  assert (serve_ok s) as (_ & H2 & _).
  { revert Hr. apply run_steps_inv; [intros *; apply serve_ok_step|]. by split_and!. }
  destruct (GrpcServer.pc s) as [| |e] eqn:E; [done|done|]. injection Hp as ->. by apply H2.
Qed.

(** ** The example client *)

(** A response without a grpc-status trailer, as servers send it when the status
    is among the first header fields, is an invalid status. *)
Lemma trailers_only_not_understood {W : Type} (url_Parse : bytes → ReqURL + error)
    (client_Do : Request → W → (Response * option error + error) * W) g w u resp w' :
  url_Parse (HttpClient.g_Scheme g ++ str "://" ++ HttpClient.g_ServerAddr g ++ str "/" ++ HttpClient.g_GrpcMethod g) = inl u →
  (∀ req, client_Do req w = (inl (resp, None), w')) → Header_Get (Trailer resp) (str "grpc-status") = [] →
  HttpClient.callGRPCService url_Parse client_Do g w = (inr (Errorf "invalid grpc-status" None), w').
Proof. intros Hu Hd Hs. unfold HttpClient.callGRPCService. rewrite Hu, Hd, Hs. reflexivity. Qed.
